(** * SAS container documents: a shallow embedding of the orchestrator

    The development follows [src/sas/SasContainerRegistry.ts] and the
    [SasOrchestrator] class.  A JavaScript string is the list of its
    UTF-16 code units; the document store is a finite map from paths to
    strings; promises are run to completion in program order, so an
    [async] method is a function in a state-and-exception monad. *)

From Stdlib Require Import NArith ZArith QArith Qminmax Ascii String List Bool Lia.
From stdpp Require Import base option list gmap.

Local Open Scope nat_scope.

(** ** JavaScript strings *)

(** A string is the list of its code units. *)
Abbreviation str := (list N).

(** A literal of the source, written as a Rocq string of ASCII characters. *)
Definition lit (s : string) : str :=
  List.map N_of_ascii (list_ascii_of_string s).

Definition NL : N := 10%N.
Definition SP : N := 32%N.
Definition DQUOTE : N := 34%N.
Definition HASH : N := 35%N.
Definition DASH : N := 45%N.
Definition BACKSLASH : N := 92%N.

(** ECMAScript [LineTerminator]: LF, CR, LS, PS. *)
Definition isLineTerminator (c : N) : bool :=
  (c =? 10)%N || (c =? 13)%N || (c =? 8232)%N || (c =? 8233)%N.

(** ECMAScript [WhiteSpace] and [LineTerminator], what [trim] removes and
    what [\s] matches. *)
Definition isSpace (c : N) : bool :=
  ((9 <=? c) && (c <=? 13))%N || (c =? 32)%N || (c =? 160)%N || (c =? 5760)%N
  || ((8192 <=? c) && (c <=? 8202))%N || (c =? 8232)%N || (c =? 8233)%N
  || (c =? 8239)%N || (c =? 8287)%N || (c =? 12288)%N || (c =? 65279)%N.

Fixpoint str_eqb (a b : str) : bool :=
  match a, b with
  | [], [] => true
  | x :: a', y :: b' => (x =? y)%N && str_eqb a' b'
  | _, _ => false
  end.

(** [c.startsWith(h)] *)
Fixpoint startsWith (h c : str) : bool :=
  match h, c with
  | [], _ => true
  | x :: h', y :: c' => (x =? y)%N && startsWith h' c'
  | _ :: _, [] => false
  end.

(** [c.endsWith(h)] *)
Definition endsWith (h c : str) : bool := startsWith (rev h) (rev c).

(** The first position at which [h] occurs in [c]. *)
Fixpoint find_sub (h c : str) : option nat :=
  match c with
  | [] => if startsWith h [] then Some 0 else None
  | _ :: c' => if startsWith h c then Some 0 else S <$> find_sub h c'
  end.

(** [c.indexOf(h, from)], [None] for -1. *)
Definition indexOf (h c : str) (from : nat) : option nat :=
  let k := Nat.min from (length c) in
  (fun i => k + i) <$> find_sub h (drop k c).

(** [c.includes(h)] *)
Definition includes (h c : str) : bool :=
  match find_sub h c with Some _ => true | None => false end.

(** [c.slice(a, b)] and [c.slice(a)] for indices that are not negative. *)
Definition slice (c : str) (a b : nat) : str := take (b - a) (drop a c).
Definition sliceFrom (c : str) (a : nat) : str := drop a c.

Fixpoint dropWhile (p : N -> bool) (c : str) : str :=
  match c with
  | [] => []
  | x :: c' => if p x then dropWhile p c' else c
  end.

Fixpoint takeWhile (p : N -> bool) (c : str) : str :=
  match c with
  | [] => []
  | x :: c' => if p x then x :: takeWhile p c' else []
  end.

Definition trimStart (c : str) : str := dropWhile isSpace c.
Definition trimEnd (c : str) : str := rev (dropWhile isSpace (rev c)).
Definition trim (c : str) : str := trimEnd (trimStart c).

(** [c.split("\n")] *)
Fixpoint splitNL (c : str) : list str :=
  match c with
  | [] => [[]]
  | x :: c' =>
      if (x =? NL)%N then [] :: splitNL c'
      else match splitNL c' with
           | l :: ls => (x :: l) :: ls
           | [] => [[x]]
           end
  end.

(** [ls.join(sep)] *)
Fixpoint join (sep : str) (ls : list str) : str :=
  match ls with
  | [] => []
  | [l] => l
  | l :: ls' => l ++ sep ++ join sep ls'
  end.

(** UTF-16 surrogates, and U+FFFD, the replacement character. *)
Definition isHighSurrogate (c : N) : bool := ((55296 <=? c) && (c <=? 56319))%N.
Definition isLowSurrogate (c : N) : bool := ((56320 <=? c) && (c <=? 57343))%N.
Definition REPLACEMENT : N := 65533%N.

(** What a string is once encoded as UTF-8 and decoded again: a surrogate
    that is not part of a pair comes back as U+FFFD
    ([s.toWellFormed()]). *)
Fixpoint toWellFormed (s : str) : str :=
  match s with
  | [] => []
  | x :: rest =>
      if isHighSurrogate x then
        match rest with
        | y :: rest' =>
            if isLowSurrogate y then x :: y :: toWellFormed rest'
            else REPLACEMENT :: toWellFormed rest
        | [] => [REPLACEMENT]
        end
      else if isLowSurrogate x then REPLACEMENT :: toWellFormed rest
      else x :: toWellFormed rest
  end.

(** A string is truthy when it is not empty; [undefined] is falsy. *)
Definition truthy (s : str) : bool :=
  match s with [] => false | _ :: _ => true end.

Definition truthyOpt (s : option str) : bool :=
  match s with Some (_ :: _) => true | _ => false end.

(** [String(n)] for a natural number. *)
Definition digitChar (d : nat) : N := (48 + N.of_nat d)%N.

Fixpoint natToStr_fuel (fuel n : nat) (acc : str) : str :=
  match fuel with
  | 0 => acc
  | S fuel' =>
      let acc' := digitChar (n mod 10) :: acc in
      if n / 10 =? 0 then acc' else natToStr_fuel fuel' (n / 10) acc'
  end.

Definition natToStr (n : nat) : str := natToStr_fuel (S n) n [].

(** ASCII case folding, what the [i] flag does to the letters of the two
    line patterns (no code unit outside ASCII canonicalizes to one of them). *)
Definition asciiLowerChar (c : N) : N :=
  if ((65 <=? c) && (c <=? 90))%N then (c + 32)%N else c.

Fixpoint startsWithCI (h c : str) : bool :=
  match h, c with
  | [], _ => true
  | x :: h', y :: c' => (asciiLowerChar x =? asciiLowerChar y)%N && startsWithCI h' c'
  | _ :: _, [] => false
  end.

(** ** The host runtime

    [String.prototype.toLowerCase] and the [node:path] functions are the
    runtime's; the development is parametric in them. *)
Class Host := {
  toLowerCase : str -> str;
  path_join : list str -> str;
  path_basename : str -> str;
}.

(** A host for closed examples: ASCII lower-casing and POSIX-style joins. *)
Definition asciiHost : Host := {|
  toLowerCase := List.map asciiLowerChar;
  path_join := join (lit "/");
  path_basename := fun p => rev (takeWhile (fun c => negb (c =? 47)%N) (rev p));
|}.

(** ** The data model *)

Inductive SasAgentPhase := instantiator | planner | implementer.

Inductive SasInvariantStatus := satisfied | violated | unknown.

Record SasInvariant := {
  inv_id : str;
  inv_description : str;
  inv_status : SasInvariantStatus;
}.

Inductive SasPlanStatus := todo | done.

Record SasPlanItem := {
  plan_id : str;
  plan_text : str;
  plan_status : SasPlanStatus;
}.

Definition phase_eqb (a b : SasAgentPhase) : bool :=
  match a, b with
  | instantiator, instantiator | planner, planner | implementer, implementer => true
  | _, _ => false
  end.

Definition isSatisfied (s : SasInvariantStatus) : bool :=
  match s with satisfied => true | _ => false end.
Definition isUnknown (s : SasInvariantStatus) : bool :=
  match s with unknown => true | _ => false end.
Definition isTodo (s : SasPlanStatus) : bool :=
  match s with todo => true | done => false end.
Definition isDone (s : SasPlanStatus) : bool :=
  match s with done => true | todo => false end.

(** [SECTION_HEADINGS] of the registry. *)
Module SECTION_HEADINGS.
Definition taskClaim : str := lit "## 0. Task-Claim (C_t, E_t)".
Definition mappingLayer : str := lit "## 1. Mapping Layer for this Container".
Definition mechanics : str := lit "## 2. Mechanics & Invariants".
Definition mappingTable : str := lit "## 3. Code Mapping Table".
Definition plan : str := lit "## 4. Plan State (Agent 2 Output)".
Definition implementation : str := lit "## 5. Implementation Diffs (Agent 3 Output)".
Definition openQuestions : str := lit "## 6. Open Questions / Indeterminate Regions".
End SECTION_HEADINGS.

(** ** The two line patterns *)

(** [(.+)$]: the rest of the input, not empty, with no line terminator. *)
Definition dotPlusEnd (s : str) : option str :=
  if truthy s && forallb (fun c => negb (isLineTerminator c)) s then Some s else None.

(** [\s*(.+)$] with the greedy star backtracking: the capture. *)
Fixpoint spacesThenRest (s : str) : option str :=
  match s with
  | [] => None
  | c :: r =>
      if isSpace c then
        match spacesThenRest r with
        | Some t => Some t
        | None => dotPlusEnd s
        end
      else dotPlusEnd s
  end.

(** [/^- \[( |x)\]\s*(.+)$/i]: the two captures. *)
Definition matchPlanLine (trimmed : str) : option (N * str) :=
  match trimmed with
  | 45%N :: 32%N :: 91%N :: c :: 93%N :: rest =>
      if (c =? 32)%N || (asciiLowerChar c =? 120)%N
      then (fun t => (c, t)) <$> spacesThenRest rest
      else None
  | _ => None
  end.

(** One alternative of [(satisfied|violated|unknown)] followed by [\]\s*(.+)$]. *)
Definition matchTag (tag : str) (st : SasInvariantStatus) (s : str)
  : option (SasInvariantStatus * str) :=
  if startsWithCI (tag ++ [93%N]) s
  then (fun d => (st, d)) <$> spacesThenRest (drop (length tag + 1) s)
  else None.

(** [/^- \[(satisfied|violated|unknown)\]\s*(.+)$/i]: the status the first
    capture lower-cases to, and the second capture. *)
Definition matchInvariantLine (trimmed : str) : option (SasInvariantStatus * str) :=
  if startsWith (lit "- [") trimmed then
    let s := drop 3 trimmed in
    match matchTag (lit "satisfied") satisfied s with
    | Some r => Some r
    | None =>
        match matchTag (lit "violated") violated s with
        | Some r => Some r
        | None => matchTag (lit "unknown") unknown s
        end
    end
  else None.

(** [trimmed.replace(/^-\s*/, "")] *)
Definition stripDash (trimmed : str) : str :=
  match trimmed with
  | 45%N :: r => dropWhile isSpace r
  | _ => trimmed
  end.

(** ** Sections of a document *)

(** ["\n## "], what ends a section. *)
Definition nextHeadingMark : str := NL :: lit "## ".

(** The text from a heading to the next heading line, as the three readers
    slice it: [None] when the heading does not occur. *)
Definition sectionText (heading content : str) : option str :=
  match indexOf heading content 0 with
  | None => None
  | Some index =>
      Some match indexOf nextHeadingMark content (index + length heading) with
           | None => sliceFrom content index
           | Some nextHeadingIndex => slice content index nextHeadingIndex
           end
  end.

(** The loop of [readPlanItems] over [body.split("\n").entries()]. *)
Fixpoint planItemsFrom (index : nat) (lines : list str) : list SasPlanItem :=
  match lines with
  | [] => []
  | line :: rest =>
      let trimmed := trim line in
      match matchPlanLine trimmed with
      | None => planItemsFrom (S index) rest
      | Some (mark, text) =>
          {| plan_id := lit "S" ++ natToStr (index + 1);
             plan_text := text;
             plan_status := if (asciiLowerChar mark =? 120)%N then done else todo |}
          :: planItemsFrom (S index) rest
      end
  end.

(** [readPlanItems] on the content read. *)
Definition parsePlanItems (content : str) : list SasPlanItem :=
  match sectionText SECTION_HEADINGS.plan content with
  | None => []
  | Some body => planItemsFrom 0 (splitNL body)
  end.

(** The loop of [readInvariants]. *)
Fixpoint invariantsFrom (index : nat) (lines : list str) : list SasInvariant :=
  match lines with
  | [] => []
  | line :: rest =>
      let trimmed := trim line in
      if negb (truthy trimmed) || startsWith (lit "##") trimmed then
        invariantsFrom (S index) rest
      else
        match matchInvariantLine trimmed with
        | Some (st, d) =>
            {| inv_id := lit "I" ++ natToStr (index + 1);
               inv_description := d;
               inv_status := st |}
            :: invariantsFrom (S index) rest
        | None =>
            if negb (endsWith (lit ": _") trimmed) && negb (includes (lit "pending") trimmed)
            then {| inv_id := lit "I" ++ natToStr (index + 1);
                    inv_description := stripDash trimmed;
                    inv_status := unknown |}
                 :: invariantsFrom (S index) rest
            else invariantsFrom (S index) rest
        end
  end.

(** [readInvariants] on the content read. *)
Definition parseInvariants (content : str) : list SasInvariant :=
  match sectionText SECTION_HEADINGS.mechanics content with
  | None => []
  | Some body => invariantsFrom 0 (splitNL body)
  end.

(** The line test of [hasMappingLayer]. *)
Definition meaningfulLine (line : str) : bool :=
  truthy line && negb (includes (lit "pending") line) && negb (endsWith (lit ": _") line).

(** [hasMappingLayer] on the content read. *)
Definition mappingLayerPresent (content : str) : bool :=
  match sectionText SECTION_HEADINGS.mappingLayer content with
  | None => false
  | Some body => existsb meaningfulLine (List.map trim (splitNL body))
  end.

(** The body [bodyStart, bodyEnd) of a section whose heading is at
    [headingIndex], as [appendToSection] and [replaceSectionBody] compute it. *)
Definition bodyBounds (heading content : str) (headingIndex : nat) : nat * nat :=
  let nextHeadingIndex := indexOf nextHeadingMark content (headingIndex + length heading) in
  let sectionStart := indexOf [NL] content (headingIndex + length heading) in
  let bodyStart :=
    match sectionStart with
    | None => headingIndex + length heading
    | Some s => s + 1
    end in
  let bodyEnd :=
    match nextHeadingIndex with
    | None => length content
    | Some n => n
    end in
  (bodyStart, bodyEnd).

(** The content [appendToSection] writes. *)
Definition appendedContent (sectionHeading entry content : str) : str :=
  match indexOf sectionHeading content 0 with
  | None => trimEnd content ++ [NL; NL] ++ sectionHeading ++ [NL] ++ entry ++ [NL]
  | Some headingIndex =>
      let '(bodyStart, bodyEnd) := bodyBounds sectionHeading content headingIndex in
      let before := slice content 0 bodyStart in
      let existingBody := trimEnd (slice content bodyStart bodyEnd) in
      let after := sliceFrom content bodyEnd in
      let newBody := if truthy existingBody then existingBody ++ [NL] ++ entry else entry in
      before ++ newBody ++ [NL; NL] ++ trimStart after
  end.

(** The content [replaceSectionBody] writes. *)
Definition replacedContent (sectionHeading newBody content : str) : str :=
  match indexOf sectionHeading content 0 with
  | None => trimEnd content ++ [NL; NL] ++ sectionHeading ++ [NL] ++ trim newBody ++ [NL]
  | Some headingIndex =>
      let '(bodyStart, bodyEnd) := bodyBounds sectionHeading content headingIndex in
      let before := slice content 0 bodyStart in
      let after := sliceFrom content bodyEnd in
      before ++ trim newBody ++ [NL; NL] ++ trimStart after
  end.

(** ** Encoding the two lists *)

Definition statusTag (s : SasInvariantStatus) : str :=
  match s with
  | satisfied => lit "satisfied"
  | violated => lit "violated"
  | unknown => lit "unknown"
  end.

(** The body [writeInvariants] passes to [replaceSectionBody]. *)
Definition invariantsBody (invariants : list SasInvariant) : str :=
  match invariants with
  | [] => lit "- Invariants: _"
  | _ =>
      join [NL]
        (List.map (fun inv => lit "- [" ++ statusTag (inv_status inv) ++ lit "] "
                                ++ inv_description inv) invariants)
  end.

(** The body [writePlanItemsFromList] passes to [replaceSectionBody]. *)
Definition planBody (items : list SasPlanItem) : str :=
  match items with
  | [] => lit "- [ ] Pending plan items"
  | _ =>
      join [NL]
        (List.map (fun item => lit "- [" ++ (if isDone (plan_status item) then lit "x" else lit " ")
                                 ++ lit "] " ++ plan_text item) items)
  end.

(** ** The world: document store, storage faults and the clock *)

(** The characters of [Date.prototype.toISOString]. *)
Variant isoChar :=
  | iso_digit (d : nat) | iso_dash | iso_colon | iso_dot | iso_T | iso_Z | iso_plus.

Definition isoCode (c : isoChar) : N :=
  match c with
  | iso_digit d => digitChar (d mod 10)
  | iso_dash => 45%N
  | iso_colon => 58%N
  | iso_dot => 46%N
  | iso_T => 84%N
  | iso_Z => 90%N
  | iso_plus => 43%N
  end.

(** [files]: the documents by path, each as the text that reading it as
    UTF-8 gives.  [faults]: whether each coming storage call fails, in order
    (none once the list is used up).  [clock]: the timestamp each coming
    [new Date()] yields. *)
Record World := {
  files : gmap str str;
  faults : list bool;
  clock : nat -> list isoChar;
  ticks : nat;
}.

Variant exn := StorageError.

Variant res (A : Type) :=
  | Ok (a : A)
  | Throw (e : exn).
Arguments Ok {A} a.
Arguments Throw {A} e.

(** A computation over a state [S] that returns or throws. *)
Definition M (S A : Type) : Type := S -> res A * S.

Definition ret {S A} (a : A) : M S A := fun s => (Ok a, s).

Definition bind {S A B} (m : M S A) (k : A -> M S B) : M S B :=
  fun s =>
    match m s with
    | (Ok a, s') => k a s'
    | (Throw e, s') => (Throw e, s')
    end.

Definition throw {S A} (e : exn) : M S A := fun s => (Throw e, s).

(** [try { body } catch (error) { handler }] *)
Definition try_catch {S A} (body : M S A) (handler : exn -> M S A) : M S A :=
  fun s =>
    match body s with
    | (Ok a, s') => (Ok a, s')
    | (Throw e, s') => handler e s'
    end.

Definition get {S} : M S S := fun s => (Ok s, s).
Definition put {S} (s : S) : M S unit := fun _ => (Ok tt, s).

Declare Scope js_scope.
Delimit Scope js_scope with js.
Notation "'let*' x ':=' m 'in' k" := (bind m (fun x => k))
  (at level 10, x name, m at level 100, k at level 200) : js_scope.
Notation "'await' m ';' k" := (bind m (fun _ => k))
  (at level 10, m at level 100, k at level 200) : js_scope.
Local Open Scope js_scope.

(** Whether the coming storage call fails. *)
Definition nextFault : M World bool :=
  fun w =>
    match faults w with
    | [] => (Ok false, w)
    | f :: fs =>
        (Ok f, {| files := files w; faults := fs; clock := clock w; ticks := ticks w |})
    end.

(** [fs.mkdir(dir, { recursive: true })]: directories are not part of the
    store; the call fails or does nothing to the documents. *)
Definition fs_mkdir (dir : str) : M World unit :=
  let* f := nextFault in if f : bool then throw StorageError else ret tt.

(** [fs.readFile(path, "utf8")] *)
Definition fs_readFile (path : str) : M World str :=
  let* f := nextFault in
  if f : bool then throw StorageError
  else let* w := get in
       match files w !! path with
       | Some content => ret content
       | None => throw StorageError
       end.

(** [fs.writeFile(path, content, "utf8")]: the document is stored as UTF-8,
    which keeps of [content] what [toWellFormed] gives; a failed write
    leaves the store as it was. *)
Definition fs_writeFile (path content : str) : M World unit :=
  let* f := nextFault in
  if f : bool then throw StorageError
  else let* w := get in
       put {| files := <[path := toWellFormed content]> (files w); faults := faults w;
              clock := clock w; ticks := ticks w |}.

(** Modelled from the spec: [fileExistsAtPath] of [@/utils/fs] is not part of
    the sources at hand; it answers whether a document exists at the path
    (if a file already exists at the derived path it is left untouched). *)
Definition fileExistsAtPath (path : str) : M World bool :=
  let* w := get in ret (match files w !! path with Some _ => true | None => false end).

(** [new Date().toISOString()] *)
Definition nowISOString : M World str :=
  fun w =>
    (Ok (List.map isoCode (clock w (ticks w))),
     {| files := files w; faults := faults w; clock := clock w; ticks := S (ticks w) |}).

(** [Logger.error]: the logging collaborator keeps no state of the model. *)
Definition Logger_error {S} (message : str) : M S unit := ret tt.

(** ** The container registry *)

Record SasContainerMetadata := {
  containerId : str;
  title : str;
  createdAt : option str;
  scopePaths : option (list str);
  primaryModel : option str;
  backupModel : option str;
}.

Definition FRONTMATTER_DELIMITER : str := lit "---".

Definition isLowerAlnum (c : N) : bool :=
  ((97 <=? c) && (c <=? 122))%N || ((48 <=? c) && (c <=? 57))%N.

(** [.replace(/[^a-z0-9]+/g, "-")]; [inRun] says the previous code unit was
    replaced. *)
Fixpoint collapseRuns (inRun : bool) (s : str) : str :=
  match s with
  | [] => []
  | c :: r =>
      if isLowerAlnum c then c :: collapseRuns false r
      else if inRun then collapseRuns true r
      else DASH :: collapseRuns true r
  end.

(** [.replace(/(^-|-$)+/g, "")] *)
Definition stripEdgeDashes (s : str) : str :=
  let s1 := match s with c :: r => if (c =? DASH)%N then r else s | [] => [] end in
  if endsWith [DASH] s1 then removelast s1 else s1.

(** [.replace(/"/g, '\\"')] *)
Fixpoint escapeQuotes (s : str) : str :=
  match s with
  | [] => []
  | c :: r => if (c =? DQUOTE)%N then BACKSLASH :: DQUOTE :: escapeQuotes r
              else c :: escapeQuotes r
  end.

(** [x ?? d] *)
Definition orElse {A} (x : option A) (d : A) : A :=
  match x with Some a => a | None => d end.

Section Registry.
Context `{host : Host}.

Definition sanitizeContainerId (rawId : str) : str :=
  let trimmed := toLowerCase (trim rawId) in
  let normalized := stripEdgeDashes (collapseRuns false trimmed) in
  if truthy normalized then normalized else lit "task".

Definition buildFrontmatter (metadata : SasContainerMetadata) : M World str :=
  let* created := match createdAt metadata with
                  | Some c => ret c
                  | None => nowISOString
                  end in
  let paths := match scopePaths metadata with
               | Some (p :: ps) => p :: ps
               | _ => [lit "."]
               end in
  let primary := orElse (primaryModel metadata) (lit "gpt-5.1-thinking") in
  let backup := orElse (backupModel metadata) (lit "gpt-4.1") in
  let yamlLines :=
    [FRONTMATTER_DELIMITER;
     lit "container_id: " ++ sanitizeContainerId (containerId metadata);
     lit "title: " ++ [DQUOTE] ++ escapeQuotes (title metadata) ++ [DQUOTE];
     lit "created_at: " ++ [DQUOTE] ++ created ++ [DQUOTE];
     lit "version: " ++ natToStr 1;
     lit "status: " ++ [DQUOTE] ++ lit "active" ++ [DQUOTE];
     lit "scope:";
     lit "  paths:"]
    ++ List.map (fun scopePath => lit "    - " ++ [DQUOTE] ++ scopePath ++ [DQUOTE]) paths
    ++ [lit "  tests: []";
        lit "models:";
        lit "  primary: " ++ [DQUOTE] ++ primary ++ [DQUOTE];
        lit "  backup: " ++ [DQUOTE] ++ backup ++ [DQUOTE];
        FRONTMATTER_DELIMITER] in
  ret (join [NL] yamlLines).

(** The template below the metadata header. *)
Definition templateLines (frontmatter description : str) : list str :=
  [frontmatter;
   [];
   SECTION_HEADINGS.taskClaim;
   lit "- User intent: " ++ description;
   lit "- Task claim: Pending determinacy mapping.";
   [];
   SECTION_HEADINGS.mappingLayer;
   lit "- Entities: _";
   lit "- Attributes: _";
   lit "- Relations: _";
   lit "- Constraints: _";
   [];
   SECTION_HEADINGS.mechanics;
   lit "- Invariants: _";
   [];
   SECTION_HEADINGS.mappingTable;
   lit "| ID | Concept | File:Line(s) | Kind | Status |";
   lit "| -- | -------- | ------------- | ---- | ------ |";
   lit "| M1 | pending | pending | pending | unknown |";
   [];
   SECTION_HEADINGS.plan;
   lit "- [ ] Pending plan items";
   [];
   SECTION_HEADINGS.implementation;
   lit "- No implementation actions recorded yet.";
   [];
   SECTION_HEADINGS.openQuestions;
   lit "- None recorded.";
   []].

Definition buildInitialTemplate (metadata : SasContainerMetadata) (initialTask : option str)
  : M World str :=
  let* frontmatter := buildFrontmatter metadata in
  let description := match initialTask with
                     | Some t => trim t
                     | None => lit "Pending user intent"
                     end in
  ret (join [NL] (templateLines frontmatter description)).

Definition ensureContainerDirectory (workspaceRoot : str) : M World str :=
  let containerDir := path_join [workspaceRoot; lit "sas"; lit "containers"] in
  await fs_mkdir containerDir;
  ret containerDir.

(** The path of a container's document. *)
Definition specPathOf (workspaceRoot rawId : str) : str :=
  path_join [path_join [workspaceRoot; lit "sas"; lit "containers"];
             sanitizeContainerId rawId ++ lit ".sas.md"].

Definition ensureSpecFile (workspaceRoot : str) (metadata : SasContainerMetadata)
    (initialTask : option str) : M World (option str) :=
  try_catch
    (let* containerDir := ensureContainerDirectory workspaceRoot in
     let sanitizedId := sanitizeContainerId (containerId metadata) in
     let specPath := path_join [containerDir; sanitizedId ++ lit ".sas.md"] in
     let* present := fileExistsAtPath specPath in
     await (if present : bool then ret tt
            else let* content := buildInitialTemplate metadata initialTask in
                 fs_writeFile specPath content);
     ret (Some specPath))
    (fun error =>
       await Logger_error (lit "Failed to ensure SAS container spec");
       ret None).
End Registry.

(** ** The orchestrator *)

Record SayEvent := {
  ev_type : str;
  ev_text : option str;
  ev_partial : option bool;
}.

Record Attachments := {
  att_files : option (list str);
  att_images : option (list str);
}.

(** The fields of a [SasOrchestrator]; [specPath] and [currentPhase] are
    the two it assigns after construction. *)
Record Orch := {
  workspaceRoot : str;
  o_containerId : str;
  o_title : str;
  o_initialTask : option str;
  o_scopePaths : option (list str);
  specPath : option str;
  currentPhase : option SasAgentPhase;
}.

Definition set_specPath (p : option str) (o : Orch) : Orch :=
  {| workspaceRoot := workspaceRoot o; o_containerId := o_containerId o;
     o_title := o_title o; o_initialTask := o_initialTask o;
     o_scopePaths := o_scopePaths o; specPath := p;
     currentPhase := currentPhase o |}.

Definition set_currentPhase (ph : SasAgentPhase) (o : Orch) : Orch :=
  {| workspaceRoot := workspaceRoot o; o_containerId := o_containerId o;
     o_title := o_title o; o_initialTask := o_initialTask o;
     o_scopePaths := o_scopePaths o; specPath := specPath o;
     currentPhase := Some ph |}.

Record SasDeterminacyState := {
  determinacy : Q;
  invariants : list SasInvariant;
  plan : list SasPlanItem;
  readyForPlanning : bool;
  readyForImplementation : bool;
}.

(** The result of [validatePlannedToolExecution]. *)
Record Decision := {
  allowed : bool;
  reason : option str;
  planItemId : option str;
}.

(** A method of the orchestrator runs over the object and the world. *)
Abbreviation OM := (M (Orch * World)).

Definition liftW {A} (m : M World A) : OM A :=
  fun s => let '(r, w') := m (snd s) in (r, (fst s, w')).

Definition this : OM Orch := fun s => (Ok (fst s), s).

Definition assign (f : Orch -> Orch) : OM unit :=
  fun s => (Ok tt, (f (fst s), snd s)).

(** [arr.findIndex(p)] *)
Fixpoint findIndex {A} (p : A -> bool) (l : list A) : option nat :=
  match l with
  | [] => None
  | x :: l' => if p x then Some 0 else S <$> findIndex p l'
  end.

(** [arr.find(p)] *)
Fixpoint findFirst {A} (p : A -> bool) (l : list A) : option A :=
  match l with
  | [] => None
  | x :: l' => if p x then Some x else findFirst p l'
  end.

Definition markDone (item : SasPlanItem) : SasPlanItem :=
  {| plan_id := plan_id item; plan_text := plan_text item; plan_status := done |}.

Definition markSatisfied (inv : SasInvariant) : SasInvariant :=
  {| inv_id := inv_id inv; inv_description := inv_description inv;
     inv_status := satisfied |}.

(** The satisfied fraction, between 0 and 1: [satisfied / total] is a
    quotient of two array lengths, which the comparison with one half reads
    exactly as the rational does. *)
Definition determinacyOf (invs : list SasInvariant) : Q :=
  let satisfiedCount := length (List.filter (fun inv => isSatisfied (inv_status inv)) invs) in
  let total := if length invs =? 0 then 1 else length invs in
  Qmax 0 (Qmin 1 (Z.of_nat satisfiedCount # Pos.of_nat total)).

Definition formatPhase (phase : SasAgentPhase) : str :=
  match phase with
  | instantiator => lit "A1 Instantiator"
  | planner => lit "A2 Planner"
  | implementer => lit "A3 Implementer"
  end.

Definition nonEmptyList (l : option (list str)) : bool :=
  match l with Some (_ :: _) => true | _ => false end.

Definition formatAttachments (attachments : option Attachments) : str :=
  let files := match attachments with Some a => att_files a | None => None end in
  let images := match attachments with Some a => att_images a | None => None end in
  if negb (nonEmptyList files) && negb (nonEmptyList images) then []
  else
    let fileSegment :=
      if nonEmptyList files then lit " | files: " ++ join (lit ", ") (orElse files []) else [] in
    let imageSegment :=
      if nonEmptyList images then lit " | images: " ++ join (lit ", ") (orElse images []) else [] in
    fileSegment ++ imageSegment.

(** [line.replace(/^\s*-\s*\[[^\]]*\]\s*/, "")] *)
Definition stripBullet (line : str) : str :=
  match dropWhile isSpace line with
  | 45%N :: r1 =>
      match dropWhile isSpace r1 with
      | 91%N :: r2 =>
          match dropWhile (fun c => negb (c =? 93)%N) r2 with
          | 93%N :: r3 => dropWhile isSpace r3
          | _ => line
          end
      | _ => line
      end
  | _ => line
  end.

(** The seed invariants of [writePlanItems], [index] counting the bullets. *)
Fixpoint seedInvariantsFrom (index : nat) (bullets : list str) : list SasInvariant :=
  match bullets with
  | [] => []
  | line :: rest =>
      {| inv_id := lit "I" ++ natToStr (index + 1);
         inv_description := lit "Plan alignment: " ++ stripBullet line;
         inv_status := unknown |}
      :: seedInvariantsFrom (S index) rest
  end.

Definition implementationTypes : list str :=
  [lit "command"; lit "command_output"; lit "tool"; lit "checkpoint_created";
   lit "user_feedback_diff"; lit "hook_output"; lit "api_req_finished";
   lit "api_req_started"; lit "completion_result"].

(** The dash of the phase log line, as the source file spells it. *)
Definition reasonSeparator : str := [SP; 226%N; 8364%N; 8221%N; SP].

Section Orchestrator.
Context `{host : Host}.

Definition ensureInitialized : OM (option str) :=
  let* o := this in
  if truthyOpt (specPath o) then ret (specPath o)
  else
    let metadata := {| containerId := o_containerId o; title := o_title o;
                       createdAt := None; scopePaths := o_scopePaths o;
                       primaryModel := None; backupModel := None |} in
    let* p := liftW (ensureSpecFile (workspaceRoot o) metadata (o_initialTask o)) in
    await assign (set_specPath p);
    ret p.

(** [this.specPath ?? (await this.ensureInitialized())] *)
Definition resolveSpecPath : OM (option str) :=
  let* o := this in
  match specPath o with
  | Some p => ret (Some p)
  | None => ensureInitialized
  end.

Definition appendToSection (sectionHeading entry : str) : OM unit :=
  let* path := resolveSpecPath in
  if negb (truthyOpt path) then ret tt
  else
    try_catch
      (let* content := liftW (fs_readFile (orElse path [])) in
       liftW (fs_writeFile (orElse path []) (appendedContent sectionHeading entry content)))
      (fun error => Logger_error (lit "Failed to update SAS container section")).

Definition replaceSectionBody (sectionHeading newBody : str) : OM unit :=
  let* path := resolveSpecPath in
  if negb (truthyOpt path) then ret tt
  else
    try_catch
      (let* content := liftW (fs_readFile (orElse path [])) in
       liftW (fs_writeFile (orElse path []) (replacedContent sectionHeading newBody content)))
      (fun error => Logger_error (lit "Failed to replace SAS section body")).

Definition hasMappingLayer : OM bool :=
  let* path := resolveSpecPath in
  if negb (truthyOpt path) then ret false
  else
    try_catch
      (let* content := liftW (fs_readFile (orElse path [])) in
       ret (mappingLayerPresent content))
      (fun error => await Logger_error (lit "Failed to read SAS mapping layer"); ret false).

Definition readPlanItems : OM (list SasPlanItem) :=
  let* path := resolveSpecPath in
  if negb (truthyOpt path) then ret []
  else
    try_catch
      (let* content := liftW (fs_readFile (orElse path [])) in
       ret (parsePlanItems content))
      (fun error => await Logger_error (lit "Failed to read SAS plan items"); ret []).

Definition readInvariants : OM (list SasInvariant) :=
  let* path := resolveSpecPath in
  if negb (truthyOpt path) then ret []
  else
    try_catch
      (let* content := liftW (fs_readFile (orElse path [])) in
       ret (parseInvariants content))
      (fun error => await Logger_error (lit "Failed to read SAS invariants"); ret []).

Definition writeInvariants (invs : list SasInvariant) : OM unit :=
  replaceSectionBody SECTION_HEADINGS.mechanics (invariantsBody invs).

Definition writePlanItemsFromList (items : list SasPlanItem) : OM unit :=
  replaceSectionBody SECTION_HEADINGS.plan (planBody items).

Definition writePlanItems (planText : option str) : OM unit :=
  if negb (truthyOpt planText) then
    let* ts := liftW nowISOString in
    let entry := lit "- [A2 Planner] @ " ++ ts ++ lit ": (no plan text provided)" in
    appendToSection SECTION_HEADINGS.plan entry
  else
    let planText := orElse planText [] in
    let lines := List.filter truthy (List.map trim (splitNL planText)) in
    let bullets := List.map (fun line => lit "- [ ] " ++ line) lines in
    let body := match bullets with
                | [] => lit "- [ ] " ++ trim planText
                | _ => join [NL] bullets
                end in
    await replaceSectionBody SECTION_HEADINGS.plan body;
    let* invs := readInvariants in
    match invs, bullets with
    | [], _ :: _ => writeInvariants (seedInvariantsFrom 0 bullets)
    | _, _ => ret tt
    end.

Definition setPhase (phase : SasAgentPhase) (reason : option str) : OM unit :=
  await ensureInitialized;
  let* o := this in
  if match currentPhase o with Some ph => phase_eqb ph phase | None => false end
     && negb (truthyOpt reason)
  then ret tt
  else
    await assign (set_currentPhase phase);
    let entryReason := if truthyOpt reason then reasonSeparator ++ orElse reason [] else [] in
    let* ts := liftW nowISOString in
    let entry := lit "- [Loop " ++ formatPhase phase ++ lit "] " ++ ts ++ entryReason in
    appendToSection SECTION_HEADINGS.taskClaim entry.

Definition recordUserIntent (intent : str) (attachments : option Attachments) : OM unit :=
  await ensureInitialized;
  await setPhase instantiator (Some (lit "Captured user intent"));
  let attachmentText := formatAttachments attachments in
  let* ts := liftW nowISOString in
  let entry := lit "- [A1 Instantiator] @ " ++ ts ++ lit ": "
               ++ (if truthy intent then intent else lit "(no task text)")
               ++ attachmentText in
  appendToSection SECTION_HEADINGS.taskClaim entry.

Definition recordPlanUpdate (planText : option str) : OM unit :=
  await ensureInitialized;
  await setPhase planner (Some (lit "Planner produced an update"));
  writePlanItems planText.

Definition recordImplementationUpdate (kind : str) (text : option str) : OM unit :=
  await ensureInitialized;
  await setPhase implementer (Some (lit "Implementer acted on plan"));
  let* ts := liftW nowISOString in
  let entry := lit "- [A3 Implementer:" ++ kind ++ lit "] @ " ++ ts ++ lit ": "
               ++ (if truthyOpt text then orElse text [] else lit "(no details provided)") in
  appendToSection SECTION_HEADINGS.implementation entry.

Definition recordOpenQuestion (note : str) : OM unit :=
  await ensureInitialized;
  await setPhase instantiator (Some (lit "Raised an open question"));
  let* ts := liftW nowISOString in
  let entry := lit "- " ++ ts ++ lit ": " ++ note in
  appendToSection SECTION_HEADINGS.openQuestions entry.

Definition recordSayEvent (event : SayEvent) : OM unit :=
  if orElse (ev_partial event) false then ret tt
  else
    let type := ev_type event in
    let text := ev_text event in
    if str_eqb type (lit "task") then
      recordUserIntent (orElse text (lit "(no task text provided)")) None
    else if str_eqb type (lit "reasoning") || str_eqb type (lit "generate_explanation")
            || str_eqb type (lit "task_progress") then
      recordPlanUpdate text
    else if str_eqb type (lit "error") || str_eqb type (lit "clineignore_error") then
      recordOpenQuestion (orElse text (lit "Error emitted by task"))
    else if existsb (str_eqb type) implementationTypes then
      recordImplementationUpdate type text
    else ret tt.

Definition getSpecInstructions (maxChars : nat) : OM (option str) :=
  await ensureInitialized;
  let* o := this in
  if negb (truthyOpt (specPath o)) then ret None
  else
    let path := orElse (specPath o) [] in
    try_catch
      (let* content := liftW (fs_readFile path) in
       let trimmed := trim content in
       let truncated :=
         if maxChars <? length trimmed
         then slice trimmed 0 maxChars ++ [NL] ++ lit "... (truncated)"
         else trimmed in
       let fileLabel := path_basename path in
       let scopeText :=
         if nonEmptyList (o_scopePaths o) then join (lit ", ") (orElse (o_scopePaths o) [])
         else lit "." in
       let phaseLabel :=
         match currentPhase o with
         | Some ph => formatPhase ph
         | None => lit "unspecified"
         end in
       let sasLoopSummary :=
         lit "Operate within the SAS three-agent loop: "
         ++ lit "A1=Instantiator (spec intent), A2=Planner (mapping + plan), A3=Implementer (apply approved diffs)." in
       let scopeSummary := lit "Scope paths: " ++ scopeText in
       let phaseSummary := lit "Current SAS phase: " ++ phaseLabel in
       ret (Some (join [NL; NL]
                    [lit "SAS container spec: " ++ fileLabel;
                     sasLoopSummary;
                     scopeSummary;
                     phaseSummary;
                     lit "Ground planning and execution in this spec (sections 0-6).";
                     truncated])))
      (fun error =>
         await Logger_error (lit "Failed to read SAS spec for prompt context");
         ret None).

(** The flags of [getDeterminacyState] from what was read. *)
Definition evaluate (invs : list SasInvariant) (items : list SasPlanItem)
    (mappingReady : bool) : SasDeterminacyState :=
  let d := determinacyOf invs in
  let hasKnownInvariant := existsb (fun inv => negb (isUnknown (inv_status inv))) invs in
  {| determinacy := d;
     invariants := invs;
     plan := items;
     readyForPlanning := mappingReady && (0 <? length invs);
     readyForImplementation :=
       existsb (fun item => isTodo (plan_status item)) items
       && (Qle_bool (1 # 2) d || negb hasKnownInvariant) |}.

Definition getDeterminacyState : OM SasDeterminacyState :=
  await ensureInitialized;
  let* invs := readInvariants in
  let* items := readPlanItems in
  let* mappingReady := hasMappingLayer in
  ret (evaluate invs items mappingReady).

Definition validatePlannedToolExecution (toolName : str) : OM Decision :=
  let* state := getDeterminacyState in
  let* o := this in
  if negb match currentPhase o with Some ph => phase_eqb ph implementer | None => false end then
    ret {| allowed := false;
           reason := Some (lit "SAS is not in implementer phase; plan steps must be approved first.");
           planItemId := None |}
  else if negb (readyForImplementation state) then
    ret {| allowed := false;
           reason := Some (lit "Determinacy too low or no open plan items to execute.");
           planItemId := None |}
  else
    let normalizedTool := toLowerCase toolName in
    let matching :=
      findFirst (fun item => isTodo (plan_status item)
                             && includes normalizedTool (toLowerCase (plan_text item)))
                (plan state) in
    match matching with
    | None =>
        ret {| allowed := false;
               reason := Some (lit "Tool request is not mapped to any open plan step.");
               planItemId := None |}
    | Some item =>
        ret {| allowed := true; reason := None; planItemId := Some (plan_id item) |}
    end.

Definition markPlanStepComplete (planItemId : str) (note : option str) : OM unit :=
  await ensureInitialized;
  let* planItems := readPlanItems in
  let updated :=
    List.map (fun item => if str_eqb (plan_id item) planItemId then markDone item else item)
             planItems in
  await writePlanItemsFromList updated;
  let* invs := readInvariants in
  await match invs with
        | [] => ret tt
        | _ =>
            match findIndex (fun inv => isUnknown (inv_status inv)) invs with
            | Some nextUnknownIndex =>
                writeInvariants (alter markSatisfied nextUnknownIndex invs)
            | None => ret tt
            end
        end;
  let summary :=
    if truthyOpt note then planItemId ++ lit ": " ++ orElse note []
    else lit "Completed plan step " ++ planItemId in
  recordImplementationUpdate (lit "plan_step") (Some summary).
End Orchestrator.

(** * The vocabulary of the properties *)

Definition isSurrogate (c : N) : bool := isHighSurrogate c || isLowSurrogate c.

(** A code unit that UTF-8 keeps and never produces in place of another. *)
Definition isPlain (c : N) : bool := negb (isSurrogate c) && negb (c =? REPLACEMENT)%N.

(** A string of such code units, as the headings and the marks of the
    documents are. *)
Definition plain (s : str) : Prop := forallb isPlain s = true.

(** What a code unit outside a pair is stored as. *)
Definition utf8Unit (x : N) : N := if isSurrogate x then REPLACEMENT else x.

(** [x] is the first half of a pair at the head of [x :: r]. *)
Definition paired (x : N) (r : str) : bool :=
  isHighSurrogate x && match r with l :: _ => isLowSurrogate l | [] => false end.

(** Two code units at the same place of a string and of what UTF-8 keeps of
    it. *)
Definition similar (x y : N) : Prop := y = x \/ (isPlain x = false /\ isPlain y = false).

(** A plan item and an invariant as UTF-8 keeps them. *)
Definition utf8Item (item : SasPlanItem) : SasPlanItem :=
  {| plan_id := plan_id item; plan_text := toWellFormed (plan_text item);
     plan_status := plan_status item |}.

Definition utf8Invariant (inv : SasInvariant) : SasInvariant :=
  {| inv_id := inv_id inv; inv_description := toWellFormed (inv_description inv);
     inv_status := inv_status inv |}.

(** A computation that never throws, whatever the state. *)
Definition noThrow {S A} (m : M S A) : Prop :=
  forall s, exists a, fst (m s) = Ok a.

(** A method that never assigns [currentPhase], returning or throwing. *)
Definition keepsPhase {A} (m : OM A) : Prop :=
  forall s, currentPhase (fst (snd (m s))) = currentPhase (fst s).

(** [clamp01] of the specification. *)
Definition clamp01 (q : Q) : Q := Qmax 0 (Qmin 1 q).

Definition satisfiedCount (invs : list SasInvariant) : nat :=
  length (List.filter (fun inv => isSatisfied (inv_status inv)) invs).

(** The world after one storage call that does not write. *)
Definition afterCall (w : World) : World :=
  match faults w with
  | [] => w
  | _ :: fs => {| files := files w; faults := fs; clock := clock w; ticks := ticks w |}
  end.

(** The coming read of [path] fails: a fault is due, or there is no such
    document. *)
Definition readFails (path : str) (w : World) : Prop :=
  hd false (faults w) = true \/ files w !! path = None.

(** The coming storage call is due to fail. *)
Definition faultDue (w : World) : Prop := hd false (faults w) = true.

(** What a section write does to the world of an initialized orchestrator:
    a read, and when it succeeds a write of the new content. *)
Definition sectionWrite (f : str -> str) (p : str) (w : World) : World :=
  if hd false (faults w) then afterCall w
  else match files w !! p with
       | None => afterCall w
       | Some content =>
           let w1 := afterCall w in
           if hd false (faults w1) then afterCall w1
           else {| files := <[p := toWellFormed (f content)]> (files w1);
                   faults := faults (afterCall w1);
                   clock := clock w1; ticks := ticks w1 |}
       end.

(** What a reader of an initialized orchestrator returns in a world. *)
Definition readDoc {A} (parse : str -> A) (default : A) (p : str) (w : World) : A :=
  if hd false (faults w) then default
  else match files w !! p with
       | Some content => parse content
       | None => default
       end.

(** Whether [h] occurs in [c] at position [j]. *)
Definition occursAt (h c : str) (j : nat) : bool := startsWith h (drop j c).

(** A string with no line feed in it. *)
Definition NLfree (s : str) : Prop := Forall (fun c => c <> NL) s.

Definition headingPrefix : str := lit "## ".

(** A heading as the registry writes them: it starts with ["## "] and has no
    line feed. *)
Definition niceHeading (h : str) : Prop :=
  startsWith headingPrefix h = true /\ NLfree h.

(** What [appendToSection] and [replaceSectionBody] write when the heading
    is at [i]: [f] gives the new body from the old. *)
Definition rewriteBody (f : str -> str) (X c : str) (i : nat) : str :=
  let '(bodyStart, bodyEnd) := bodyBounds X c i in
  slice c 0 bodyStart ++ f (slice c bodyStart bodyEnd) ++ [NL; NL]
  ++ trimStart (sliceFrom c bodyEnd).

Definition appendBody (entry body : str) : str :=
  if truthy (trimEnd body) then trimEnd body ++ [NL] ++ entry else entry.

(** The three shapes of a document around a heading at [i], and what
    [rewriteBody] makes of each. *)
Inductive SectionShape (f : str -> str) (X c : str) (i : nat) : Prop :=
  | shape_last_line pre tail :
      c = pre ++ X ++ tail -> length pre = i -> NLfree tail ->
      rewriteBody f X c i = pre ++ X ++ f tail ++ [NL; NL] ->
      SectionShape f X c i
  | shape_last_section pre lr body :
      c = pre ++ X ++ lr ++ NL :: body -> length pre = i -> NLfree lr ->
      find_sub nextHeadingMark (lr ++ NL :: body) = None ->
      rewriteBody f X c i = pre ++ X ++ lr ++ [NL] ++ f body ++ [NL; NL] ->
      SectionShape f X c i
  | shape_inner pre lr body t :
      c = pre ++ X ++ lr ++ body ++ nextHeadingMark ++ t -> length pre = i -> NLfree lr ->
      (body = [] \/ exists b, body = NL :: b) ->
      find_sub nextHeadingMark (lr ++ body ++ nextHeadingMark ++ t)
      = Some (length lr + length body) ->
      rewriteBody f X c i
      = pre ++ X ++ lr ++ [NL] ++ f (drop 1 body) ++ [NL] ++ nextHeadingMark ++ t ->
      SectionShape f X c i.

(** The section text of a heading that is at [k]. *)
Definition sectionAt (Z c : str) (k : nat) : str :=
  match indexOf nextHeadingMark c (k + length Z) with
  | None => sliceFrom c k
  | Some e => slice c k e
  end.

(** [c !! (i - 1) = Some NL] for a position after the start. *)
Definition afterNL (c : str) (i : nat) : Prop := 0 < i /\ c !! (i - 1) = Some NL.

(** A body in which no line starts a heading, also when a line feed comes
    before and after it. *)
Definition markFree (M : str) : Prop :=
  find_sub nextHeadingMark (NL :: M ++ [NL]) = None.

(** A string that neither starts nor ends with white space. *)
Definition trimmed (s : str) : Prop :=
  (exists x r, s = x :: r /\ isSpace x = false)
  /\ (exists r x, s = r ++ [x] /\ isSpace x = false).

Definition noLineTerminator (t : str) : Prop :=
  forallb (fun c => negb (isLineTerminator c)) t = true.

(** A text as the two line patterns capture it: trimmed, on one line. *)
Definition goodText (t : str) : Prop := trimmed t /\ noLineTerminator t.

(** The line [writePlanItemsFromList] writes for an item. *)
Definition planLine (item : SasPlanItem) : str :=
  lit "- [" ++ (if isDone (plan_status item) then lit "x" else lit " ")
  ++ lit "] " ++ plan_text item.

(** What a plan item says, its positional id apart. *)
Definition planView (item : SasPlanItem) : str * SasPlanStatus :=
  (plan_text item, plan_status item).

(** A line that starts with a dash and has no line feed. *)
Definition dashLine (l : str) : Prop := (exists r, l = DASH :: r) /\ NLfree l.

(** The line [writeInvariants] writes for an invariant. *)
Definition invLine (inv : SasInvariant) : str :=
  lit "- [" ++ statusTag (inv_status inv) ++ lit "] " ++ inv_description inv.

(** What an invariant says, its positional id apart. *)
Definition invView (inv : SasInvariant) : str * SasInvariantStatus :=
  (inv_description inv, inv_status inv).

(** A new body that does not bring in heading [Z]. *)
Definition keepsFree (f : str -> str) (Z : str) : Prop :=
  forall b, find_sub Z b = None -> find_sub Z (f b) = None.

(** Where the four headings are: each first found at a line start, in the
    order of the template. *)
Definition layout (c : str) (iT iM iP iI : nat) : Prop :=
  find_sub SECTION_HEADINGS.taskClaim c = Some iT
  /\ find_sub SECTION_HEADINGS.mechanics c = Some iM /\ afterNL c iM
  /\ find_sub SECTION_HEADINGS.plan c = Some iP /\ afterNL c iP
  /\ find_sub SECTION_HEADINGS.implementation c = Some iI /\ afterNL c iI
  /\ iT < iM /\ iM < iP /\ iP < iI.

(** The plan items [markPlanStepComplete] writes back. *)
Definition updatedItems (planItemId : str) (items : list SasPlanItem) : list SasPlanItem :=
  List.map (fun item => if str_eqb (plan_id item) planItemId then markDone item else item)
           items.

(** The content after [markPlanStepComplete], from the content before:
    [e1] is the phase line and [e2] the implementation entry. *)
Definition completedContent (planItemId e1 e2 c0 : str) : str :=
  let c1 := replacedContent SECTION_HEADINGS.plan
              (planBody (updatedItems planItemId (parsePlanItems c0))) c0 in
  let invs := parseInvariants c1 in
  let c2 := match invs with
            | [] => c1
            | _ =>
                match findIndex (fun inv => isUnknown (inv_status inv)) invs with
                | Some n =>
                    replacedContent SECTION_HEADINGS.mechanics
                      (invariantsBody (alter markSatisfied n invs)) c1
                | None => c1
                end
            end in
  appendedContent SECTION_HEADINGS.implementation e2
    (appendedContent SECTION_HEADINGS.taskClaim e1 c2).

Definition withFile (p c : str) (w : World) : World :=
  {| files := <[p := c]> (files w); faults := faults w; clock := clock w; ticks := ticks w |}.

Definition tick (w : World) : World :=
  {| files := files w; faults := faults w; clock := clock w; ticks := S (ticks w) |}.

(** The timestamp the clock gives at its [n]-th reading from now. *)
Definition stamp (w : World) (n : nat) : str := List.map isoCode (clock w (n + ticks w)).

(** The line [setPhase] logs when the implementer takes over. *)
Definition phaseEntry (ts : str) : str :=
  lit "- [Loop " ++ formatPhase implementer ++ lit "] " ++ ts
  ++ reasonSeparator ++ lit "Implementer acted on plan".

(** The entry [markPlanStepComplete] logs under Implementation. *)
Definition stepEntry (planItemId : str) (note : option str) (ts : str) : str :=
  lit "- [A3 Implementer:" ++ lit "plan_step" ++ lit "] @ " ++ ts ++ lit ": "
  ++ (if truthyOpt note then planItemId ++ lit ": " ++ orElse note []
      else lit "Completed plan step " ++ planItemId).

(** The invariants with the first [unknown] one, in document order, turned
    to [satisfied], and no other changed. *)
Fixpoint flipFirstUnknown (invs : list SasInvariant) : list SasInvariant :=
  match invs with
  | [] => []
  | inv :: rest =>
      if isUnknown (inv_status inv) then markSatisfied inv :: rest
      else inv :: flipFirstUnknown rest
  end.

(** The placeholder item an empty plan is written as. *)
Definition placeholderView : str * SasPlanStatus := (lit "Pending plan items", todo).

(** What the plan reads as once [items] are written. *)
Definition writtenPlan (items : list SasPlanItem) : list (str * SasPlanStatus) :=
  match items with
  | [] => [placeholderView]
  | _ => List.map planView items
  end.



(** Some invariant of the list is [unknown]. *)
Definition anyUnknown (invs : list SasInvariant) : bool :=
  existsb (fun inv => isUnknown (inv_status inv)) invs.

(** [goodText], as a test. *)
Definition goodTextb (t : str) : bool :=
  match t with [] => false | x :: _ => negb (isSpace x) end
  && negb (isSpace (List.last t SP))
  && forallb (fun c => negb (isLineTerminator c)) t.

(** The path and the text of a document with two open invariants and two
    open steps. *)
Definition sampleSpecPath : str := lit "sas/containers/demo.sas.md".

Definition sampleDocument : str :=
  join [NL]
    [SECTION_HEADINGS.taskClaim;
     lit "- User intent: demo";
     [];
     SECTION_HEADINGS.mechanics;
     lit "- [unknown] first bound holds";
     lit "- [unknown] second bound holds";
     [];
     SECTION_HEADINGS.plan;
     lit "- [ ] write tests";
     lit "- [ ] wire the parser";
     [];
     SECTION_HEADINGS.implementation;
     lit "- No implementation actions recorded yet.";
     []].

Definition sampleClock (n : nat) : list isoChar :=
  [iso_digit 2; iso_digit 0; iso_digit 2; iso_digit 5; iso_dash; iso_digit 0; iso_digit 1;
   iso_dash; iso_digit 0; iso_digit 1; iso_T; iso_digit 0; iso_digit 0; iso_colon;
   iso_digit 0; iso_digit 0; iso_colon; iso_digit (n / 10); iso_digit n; iso_Z].

Definition sampleWorld : World :=
  {| files := {[ sampleSpecPath := sampleDocument ]}; faults := [];
     clock := sampleClock; ticks := 0 |}.

Definition sampleOrch : Orch :=
  {| workspaceRoot := lit "/ws"; o_containerId := lit "demo"; o_title := lit "Demo";
     o_initialTask := None; o_scopePaths := None;
     specPath := Some sampleSpecPath; currentPhase := Some planner |}.

(** A heading found at [i] starts a line of the document. *)
Definition lineStart (c : str) (i : nat) : Prop := i = 0 \/ afterNL c i.

(** The outcome [r] of a write to section [X], found at [i] in the
    document [c] at path [p]: the call returns, and the document then reads
    the same in section [Y] and up to the body of [X], and ends with what
    came after the body of [X], its leading white space apart. *)
Definition isolated (X Y c : str) (i : nat) (o : Orch) (p : str)
    (r : res unit * (Orch * World)) : Prop :=
  exists w' c',
    r = (Ok tt, (o, w'))
    /\ files w' !! p = Some c'
    /\ sectionText Y c' = sectionText Y c
    /\ take (fst (bodyBounds X c i)) c' = take (fst (bodyBounds X c i)) c
    /\ exists before, c' = before ++ trimStart (sliceFrom c (snd (bodyBounds X c i))).

(** A text with no [#] in it. *)
Definition hashFree (s : str) : Prop := forallb (fun x => negb (x =? HASH)%N) s = true.

(** The template from its second Task-Claim line on. *)
Definition templateTail : str :=
  join [NL] (drop 4 (templateLines [] [])).

(** The plan item the placeholder line of the template reads as. *)
Definition placeholderItem : SasPlanItem :=
  {| plan_id := lit "S2"; plan_text := lit "Pending plan items"; plan_status := todo |}.

(** An orchestrator just constructed, over an empty store. *)
Definition newOrch : Orch :=
  {| workspaceRoot := lit "/ws"; o_containerId := lit "Auth Tokens!!";
     o_title := lit "Rotate the auth tokens"; o_initialTask := None;
     o_scopePaths := Some [lit "src/auth"]; specPath := None; currentPhase := None |}.

Definition emptyWorld : World :=
  {| files := ∅; faults := []; clock := sampleClock; ticks := 0 |}.

(** The orchestrator and the store once [ensureInitialized] has created the
    document. *)
Definition freshState : Orch * World :=
  snd (ensureInitialized (host := asciiHost) (newOrch, emptyWorld)).

Definition freshPath : str := lit "/ws/sas/containers/auth-tokens.sas.md".

Definition freshFrontmatter : str :=
  match fst (buildFrontmatter (host := asciiHost)
               {| containerId := o_containerId newOrch; title := o_title newOrch;
                  createdAt := None; scopePaths := o_scopePaths newOrch;
                  primaryModel := None; backupModel := None |} emptyWorld) with
  | Ok fm => fm
  | Throw _ => []
  end.

Definition freshDocument : str :=
  join [NL] (templateLines freshFrontmatter (lit "Pending user intent")).

(** The four lines the template puts under the Mapping-Layer heading. *)
Definition mappingPlaceholders : list str :=
  [lit "- Entities: _"; lit "- Attributes: _"; lit "- Relations: _"; lit "- Constraints: _"].

(** A store in which the next storage call fails. *)
Definition faultyWorld : World :=
  {| files := {[ sampleSpecPath := sampleDocument ]}; faults := [true];
     clock := sampleClock; ticks := 0 |}.

(** A document whose only invariant is violated, with one open step. *)
Definition guardedDocument : str :=
  join [NL]
    [SECTION_HEADINGS.taskClaim;
     lit "- User intent: demo";
     [];
     SECTION_HEADINGS.mechanics;
     lit "- [violated] first bound holds";
     [];
     SECTION_HEADINGS.plan;
     lit "- [ ] run tests";
     [];
     SECTION_HEADINGS.implementation;
     lit "- No implementation actions recorded yet.";
     []].

(** The orchestrator in its implementer phase. *)
Definition implementerOrch : Orch := set_currentPhase implementer sampleOrch.

(** The store of that document, and the same store with its next storage
    call, and only that one, due to fail. *)
Definition guardedWorld : World :=
  {| files := {[ sampleSpecPath := guardedDocument ]}; faults := [];
     clock := sampleClock; ticks := 0 |}.

Definition glitchWorld : World :=
  {| files := {[ sampleSpecPath := guardedDocument ]}; faults := [true];
     clock := sampleClock; ticks := 0 |}.

(** An entry that quotes the Plan heading, the sample document with that
    entry appended to its Task-Claim section, and the store of that
    document. *)
Definition quotingEntry : str :=
  lit "- note: keep " ++ SECTION_HEADINGS.plan ++ lit " short".

Definition quotedDocument : str :=
  join [NL]
    [SECTION_HEADINGS.taskClaim;
     lit "- User intent: demo";
     quotingEntry;
     [];
     SECTION_HEADINGS.mechanics;
     lit "- [unknown] first bound holds";
     lit "- [unknown] second bound holds";
     [];
     SECTION_HEADINGS.plan;
     lit "- [ ] write tests";
     lit "- [ ] wire the parser";
     [];
     SECTION_HEADINGS.implementation;
     lit "- No implementation actions recorded yet.";
     []].

Definition quotedWorld : World :=
  {| files := {[ sampleSpecPath := quotedDocument ]}; faults := [];
     clock := sampleClock; ticks := 0 |}.

(** The store of the sample document with its second storage call, and only
    that one, due to fail; and an empty store with the same faults. *)
Definition planGlitchWorld : World :=
  {| files := {[ sampleSpecPath := sampleDocument ]}; faults := [false; true];
     clock := sampleClock; ticks := 0 |}.

Definition createGlitchWorld : World :=
  {| files := ∅; faults := [false; true]; clock := sampleClock; ticks := 0 |}.

(** A code unit of a sanitized id: a lower-case letter, a digit or a dash. *)
Definition safeChar (c : N) : bool := isLowerAlnum c || (c =? DASH)%N.

(** No dash follows a dash. *)
Fixpoint noDoubleDash (s : str) : bool :=
  match s with
  | a :: (b :: _) as r => negb ((a =? DASH)%N && (b =? DASH)%N) && noDoubleDash r
  | _ => true
  end.

(** A dash neither starts nor ends the string. *)
Definition noEdgeDash (s : str) : bool :=
  negb (startsWith [DASH] s) && negb (endsWith [DASH] s).

(** The description line of the template for an initial task. *)
Definition descriptionOf (initialTask : option str) : str :=
  match initialTask with
  | Some t => trim t
  | None => lit "Pending user intent"
  end.

(** A state in which the step operations work: an initialized orchestrator,
    a storage that does not fail, and a document with its headings in
    place. *)
Definition workable (s : Orch * World) (p c : str) : Prop :=
  specPath (fst s) = Some p /\ p <> [] /\ faults (snd s) = []
  /\ files (snd s) !! p = Some c
  /\ exists iT iM iP iI, layout c iT iM iP iI.

(** A method after which the phase in memory is [ph], returning or
    throwing, whatever the storage does. *)
Definition endsInPhase {A} (m : OM A) (ph : SasAgentPhase) : Prop :=
  forall s, currentPhase (fst (snd (m s))) = Some ph.

(** The denial of a tool outside the implementer phase. *)
Definition phaseDenial : Decision :=
  {| allowed := false;
     reason := Some (lit "SAS is not in implementer phase; plan steps must be approved first.");
     planItemId := None |}.

(** The plan items a reader numbers from [index]: the id of an item is its
    line number in the section, the heading line being line 1. *)
Fixpoint renumberPlan (index : nat) (views : list (str * SasPlanStatus)) : list SasPlanItem :=
  match views with
  | [] => []
  | (text, status) :: rest =>
      {| plan_id := lit "S" ++ natToStr (index + 1); plan_text := text; plan_status := status |}
      :: renumberPlan (S index) rest
  end.

Fixpoint renumberInvariants (index : nat) (views : list (str * SasInvariantStatus))
    : list SasInvariant :=
  match views with
  | [] => []
  | (description, status) :: rest =>
      {| inv_id := lit "I" ++ natToStr (index + 1); inv_description := description;
         inv_status := status |}
      :: renumberInvariants (S index) rest
  end.

(** A plan and an invariant list to write, with ids of their own; one
    text of each ends in a surrogate with no partner. *)
Definition revisedPlan : list SasPlanItem :=
  [ {| plan_id := lit "S7"; plan_text := lit "deploy " ++ [55357%N]; plan_status := done |};
    {| plan_id := lit "S9"; plan_text := lit "verify"; plan_status := todo |} ].

Definition revisedInvariants : list SasInvariant :=
  [ {| inv_id := lit "I1"; inv_description := lit "tokens rotate " ++ [56832%N];
       inv_status := violated |};
    {| inv_id := lit "I4"; inv_description := lit "keys expire"; inv_status := unknown |} ].

(** The document with a new last section: [text] under the heading [X]. *)
Definition withNewSection (X text c : str) : str :=
  trimEnd c ++ [NL; NL] ++ X ++ [NL] ++ text ++ [NL].

(** The lines of a plan text that [writePlanItems] keeps: trimmed and not
    empty. *)
Definition planLinesOf (planText : str) : list str :=
  List.filter truthy (List.map trim (splitNL planText)).

(** The plan item and the seed invariant of a line. *)
Definition todoItem (line : str) : SasPlanItem :=
  {| plan_id := []; plan_text := line; plan_status := todo |}.

Definition seedView (line : str) : str * SasInvariantStatus :=
  (lit "Plan alignment: " ++ line, unknown).

(** A text whose only line terminators are line feeds. *)
Definition plainText (t : str) : Prop :=
  forallb (fun c => negb (isLineTerminator c) || (c =? NL)%N) t = true.

(** The line [setPhase] logs. *)
Definition loopEntry (phase : SasAgentPhase) (reason ts : str) : str :=
  lit "- [Loop " ++ formatPhase phase ++ lit "] " ++ ts ++ reasonSeparator ++ reason.

(** The body [writePlanItems] writes for a plan text. *)
Definition planTextBody (planText : str) : str :=
  let bullets := List.map (fun line => lit "- [ ] " ++ line) (planLinesOf planText) in
  match bullets with
  | [] => lit "- [ ] " ++ trim planText
  | _ => join [NL] bullets
  end.

(** The content after [recordPlanUpdate] with a plan text, from the content
    before: [e1] is the phase line. *)
Definition plannedContent (e1 planText c : str) : str :=
  let c1 := appendedContent SECTION_HEADINGS.taskClaim e1 c in
  let bullets := List.map (fun line => lit "- [ ] " ++ line) (planLinesOf planText) in
  let c2 := replacedContent SECTION_HEADINGS.plan (planTextBody planText) c1 in
  match parseInvariants c2, bullets with
  | [], _ :: _ =>
      replacedContent SECTION_HEADINGS.mechanics
        (invariantsBody (seedInvariantsFrom 0 bullets)) c2
  | _, _ => c2
  end.

(** The lines of the prompt context before the document. *)
Definition promptPreamble `{host : Host} (o : Orch) (path : str) : str :=
  lit "SAS container spec: " ++ path_basename path ++ [NL; NL]
  ++ lit "Operate within the SAS three-agent loop: "
  ++ lit "A1=Instantiator (spec intent), A2=Planner (mapping + plan), A3=Implementer (apply approved diffs)."
  ++ [NL; NL]
  ++ lit "Scope paths: "
  ++ (if nonEmptyList (o_scopePaths o) then join (lit ", ") (orElse (o_scopePaths o) [])
      else lit ".")
  ++ [NL; NL]
  ++ lit "Current SAS phase: "
  ++ match currentPhase o with
     | Some ph => formatPhase ph
     | None => lit "unspecified"
     end
  ++ [NL; NL]
  ++ lit "Ground planning and execution in this spec (sections 0-6)."
  ++ [NL; NL].

(** The orchestrator and the documents of a state are those of [o] and [w];
    the clock has not been read. *)
Definition untouched (o : Orch) (w : World) (s : Orch * World) : Prop :=
  fst s = o /\ files (snd s) = files w /\ ticks (snd s) = ticks w.

(** The types of the say events that are recorded, by the phase they set. *)
Definition intentTypes : list str := [lit "task"; lit "error"; lit "clineignore_error"].

Definition planTypes : list str :=
  [lit "reasoning"; lit "generate_explanation"; lit "task_progress"].

(** A text of white space only. *)
Definition blank (t : str) : Prop := forallb isSpace t = true.

(** The entry [recordImplementationUpdate] logs under Implementation. *)
Definition updateEntry (kind : str) (text : option str) (ts : str) : str :=
  lit "- [A3 Implementer:" ++ kind ++ lit "] @ " ++ ts ++ lit ": "
  ++ (if truthyOpt text then orElse text [] else lit "(no details provided)").

Section HostVocabulary.
Context `{host : Host}.

(** The test [validatePlannedToolExecution] applies to a plan item. *)
Definition matchesTool (toolName : str) (item : SasPlanItem) : bool :=
  isTodo (plan_status item)
  && includes (toLowerCase toolName) (toLowerCase (plan_text item)).

(** Every operation of the orchestrator and of the registry returns. *)
Definition operationsReturn : Prop :=
  (forall root md task, noThrow (ensureSpecFile root md task))
  /\ noThrow ensureInitialized
  /\ (forall phase reason, noThrow (setPhase phase reason))
  /\ (forall intent attachments, noThrow (recordUserIntent intent attachments))
  /\ (forall planText, noThrow (recordPlanUpdate planText))
  /\ (forall kind text, noThrow (recordImplementationUpdate kind text))
  /\ (forall note, noThrow (recordOpenQuestion note))
  /\ (forall event, noThrow (recordSayEvent event))
  /\ (forall maxChars, noThrow (getSpecInstructions maxChars))
  /\ noThrow getDeterminacyState
  /\ (forall toolName, noThrow (validatePlannedToolExecution toolName))
  /\ (forall planItemId note, noThrow (markPlanStepComplete planItemId note))
  /\ noThrow readInvariants /\ noThrow readPlanItems /\ noThrow hasMappingLayer
  /\ (forall h e, noThrow (appendToSection h e))
  /\ (forall h b, noThrow (replaceSectionBody h b)).

End HostVocabulary.

(** * Properties *)

(** ** Running computations *)

Lemma noThrow_ret {S A} (a : A) : noThrow (S := S) (ret a).
Proof. intros s. exists a. reflexivity. Qed.

Lemma noThrow_bind {S A B} (m : M S A) (k : A -> M S B) :
  noThrow m -> (forall a, noThrow (k a)) -> noThrow (bind m k).
Proof.
  intros Hm Hk s. unfold bind. destruct (Hm s) as [a Ha].
  destruct (m s) as [r s1]. simpl in Ha. subst r. apply Hk.
Qed.

Lemma noThrow_try_catch {S A} (body : M S A) (handler : exn -> M S A) :
  (forall e, noThrow (handler e)) -> noThrow (try_catch body handler).
Proof.
  intros Hh s. unfold try_catch. destruct (body s) as [[a|e] s1].
  - exists a. reflexivity.
  - apply Hh.
Qed.

Lemma noThrow_if {S A} (b : bool) (m1 m2 : M S A) :
  noThrow m1 -> noThrow m2 -> noThrow (if b then m1 else m2).
Proof. destruct b; auto. Qed.

Lemma noThrow_this : noThrow this.
Proof. intros s. eexists. reflexivity. Qed.

Lemma noThrow_assign f : noThrow (assign f).
Proof. intros s. eexists. reflexivity. Qed.

Lemma noThrow_liftW {A} (m : M World A) : noThrow m -> noThrow (liftW m).
Proof.
  intros Hm s. unfold liftW. destruct (Hm (snd s)) as [a Ha].
  destruct (m (snd s)) as [r w1]. simpl in *. eauto.
Qed.

Lemma noThrow_nowISOString : noThrow nowISOString.
Proof. intros w. eexists. reflexivity. Qed.

Lemma noThrow_Logger_error {S} msg : noThrow (S := S) (Logger_error msg).
Proof. apply noThrow_ret. Qed.

Lemma keepsPhase_ret {A} (a : A) : keepsPhase (ret a).
Proof. intros s. reflexivity. Qed.

Lemma keepsPhase_bind {A B} (m : OM A) (k : A -> OM B) :
  keepsPhase m -> (forall a, keepsPhase (k a)) -> keepsPhase (bind m k).
Proof.
  intros Hm Hk s. unfold bind. specialize (Hm s).
  destruct (m s) as [[a|e] s1]; simpl in *.
  - rewrite Hk. exact Hm.
  - exact Hm.
Qed.

Lemma keepsPhase_try_catch {A} (body : OM A) (handler : exn -> OM A) :
  keepsPhase body -> (forall e, keepsPhase (handler e)) ->
  keepsPhase (try_catch body handler).
Proof.
  intros Hb Hh s. unfold try_catch. specialize (Hb s).
  destruct (body s) as [[a|e] s1]; simpl in *.
  - exact Hb.
  - rewrite Hh. exact Hb.
Qed.

Lemma keepsPhase_if {A} (b : bool) (m1 m2 : OM A) :
  keepsPhase m1 -> keepsPhase m2 -> keepsPhase (if b then m1 else m2).
Proof. destruct b; auto. Qed.

Lemma keepsPhase_this : keepsPhase this.
Proof. intros s. reflexivity. Qed.

Lemma keepsPhase_liftW {A} (m : M World A) : keepsPhase (liftW m).
Proof. intros s. unfold liftW. destruct (m (snd s)). reflexivity. Qed.

Lemma keepsPhase_set_specPath p : keepsPhase (assign (set_specPath p)).
Proof. intros s. reflexivity. Qed.

Create HintDb js_run discriminated.

#[global] Hint Resolve noThrow_ret noThrow_this noThrow_assign noThrow_nowISOString
  noThrow_Logger_error keepsPhase_ret keepsPhase_this keepsPhase_liftW
  keepsPhase_set_specPath : js_run.

(** Splits a goal about a method along its binds, catches and tests. *)
Ltac js_step :=
  first
    [ solve [auto 2 with js_run]
    | lazymatch goal with
      | |- noThrow (bind _ _) => apply noThrow_bind; [| intros ?]
      | |- keepsPhase (bind _ _) => apply keepsPhase_bind; [| intros ?]
      | |- noThrow (try_catch _ _) => apply noThrow_try_catch; intros ?
      | |- keepsPhase (try_catch _ _) => apply keepsPhase_try_catch; [| intros ?]
      | |- noThrow (if _ then _ else _) => apply noThrow_if
      | |- keepsPhase (if _ then _ else _) => apply keepsPhase_if
      | |- noThrow (liftW _) => apply noThrow_liftW
      end ].

Ltac js_run := repeat js_step.

(** Cases on the value a method's remaining [match] inspects. *)
Ltac js_case :=
  match goal with
  | |- noThrow (match ?x with _ => _ end) => destruct x
  | |- keepsPhase (match ?x with _ => _ end) => destruct x
  end.

Section OrchestratorRuns.
Context `{host : Host}.

Lemma noThrow_ensureSpecFile root md task : noThrow (ensureSpecFile root md task).
Proof. unfold ensureSpecFile. js_run. Qed.

Lemma noThrow_ensureInitialized : noThrow ensureInitialized.
Proof. unfold ensureInitialized. js_run. apply noThrow_ensureSpecFile. Qed.

Lemma keepsPhase_ensureInitialized : keepsPhase ensureInitialized.
Proof. unfold ensureInitialized. js_run. Qed.

Lemma noThrow_resolveSpecPath : noThrow resolveSpecPath.
Proof.
  unfold resolveSpecPath. js_run. destruct (specPath a); js_run.
  apply noThrow_ensureInitialized.
Qed.

Lemma keepsPhase_resolveSpecPath : keepsPhase resolveSpecPath.
Proof.
  unfold resolveSpecPath. js_run. destruct (specPath a); js_run.
  apply keepsPhase_ensureInitialized.
Qed.
End OrchestratorRuns.

#[global] Hint Resolve noThrow_ensureSpecFile noThrow_ensureInitialized
  keepsPhase_ensureInitialized noThrow_resolveSpecPath keepsPhase_resolveSpecPath : js_run.

(** ** Running the readers *)

Lemma bind_run {S A B} (m : M S A) (k : A -> M S B) s :
  noThrow m -> exists a s1, m s = (Ok a, s1) /\ bind m k s = k a s1.
Proof.
  intros Hm. destruct (Hm s) as [a Ha]. unfold bind.
  destruct (m s) as [r s1]. simpl in Ha. subst r. eauto.
Qed.

Section Readers.
Context `{host : Host}.

Lemma noThrow_readInvariants : noThrow readInvariants.
Proof. unfold readInvariants. js_run. Qed.

Lemma noThrow_readPlanItems : noThrow readPlanItems.
Proof. unfold readPlanItems. js_run. Qed.

Lemma noThrow_hasMappingLayer : noThrow hasMappingLayer.
Proof. unfold hasMappingLayer. js_run. Qed.

Lemma keepsPhase_readInvariants : keepsPhase readInvariants.
Proof. unfold readInvariants. js_run. Qed.

Lemma keepsPhase_readPlanItems : keepsPhase readPlanItems.
Proof. unfold readPlanItems. js_run. Qed.

Lemma keepsPhase_hasMappingLayer : keepsPhase hasMappingLayer.
Proof. unfold hasMappingLayer. js_run. Qed.

(** [getDeterminacyState] returns, and what it returns is [evaluate] of the
    three readings; the phase is as before. *)
Lemma getDeterminacyState_run s :
  exists invs items mappingReady s',
    getDeterminacyState s = (Ok (evaluate invs items mappingReady), s')
    /\ currentPhase (fst s') = currentPhase (fst s).
Proof.
  unfold getDeterminacyState.
  destruct (bind_run ensureInitialized
              (fun _ => let* invs := readInvariants in
                        let* items := readPlanItems in
                        let* mappingReady := hasMappingLayer in
                        ret (evaluate invs items mappingReady)) s
              noThrow_ensureInitialized) as (p & s1 & E1 & ->).
  destruct (bind_run readInvariants
              (fun invs => let* items := readPlanItems in
                           let* mappingReady := hasMappingLayer in
                           ret (evaluate invs items mappingReady)) s1
              noThrow_readInvariants) as (invs & s2 & E2 & ->).
  destruct (bind_run readPlanItems
              (fun items => let* mappingReady := hasMappingLayer in
                            ret (evaluate invs items mappingReady)) s2
              noThrow_readPlanItems) as (items & s3 & E3 & ->).
  destruct (bind_run hasMappingLayer
              (fun mappingReady => ret (evaluate invs items mappingReady)) s3
              noThrow_hasMappingLayer) as (mr & s4 & E4 & ->).
  exists invs, items, mr, s4. split; [reflexivity|].
  pose proof (keepsPhase_ensureInitialized s) as K1. rewrite E1 in K1.
  pose proof (keepsPhase_readInvariants s1) as K2. rewrite E2 in K2.
  pose proof (keepsPhase_readPlanItems s2) as K3. rewrite E3 in K3.
  pose proof (keepsPhase_hasMappingLayer s3) as K4. rewrite E4 in K4.
  simpl in *. congruence.
Qed.
End Readers.

(** ** The determinacy evaluator *)

Lemma total_max (n : nat) : (if n =? 0 then 1 else n) = Nat.max 1 n.
Proof. destruct n as [|[|n]]; reflexivity. Qed.

Lemma determinacyOf_clamp invs :
  determinacyOf invs
  = clamp01 (Z.of_nat (satisfiedCount invs) # Pos.of_nat (Nat.max 1 (length invs))).
Proof. unfold determinacyOf, clamp01, satisfiedCount. now rewrite total_max. Qed.

Lemma determinacyOf_bounds invs : (0 <= determinacyOf invs <= 1)%Q.
Proof.
  unfold determinacyOf. split.
  - apply Q.le_max_l.
  - apply Q.max_lub; [discriminate|]. apply Q.le_min_l.
Qed.

Lemma satisfiedCount_le invs : satisfiedCount invs <= length invs.
Proof. unfold satisfiedCount. apply List.filter_length_le. Qed.

(** The fraction is already between 0 and 1: the clamp changes nothing. *)
Lemma determinacyOf_fraction invs :
  (determinacyOf invs == Z.of_nat (satisfiedCount invs) # Pos.of_nat (Nat.max 1 (length invs)))%Q.
Proof.
  rewrite determinacyOf_clamp. unfold clamp01.
  set (q := (Z.of_nat (satisfiedCount invs) # Pos.of_nat (Nat.max 1 (length invs)))%Q).
  assert (H0 : (0 <= q)%Q).
  { unfold q, Qle. simpl. lia. }
  assert (H1 : (q <= 1)%Q).
  { unfold q, Qle. simpl. pose proof (satisfiedCount_le invs).
    rewrite Z.mul_1_r, Z.mul_1_l.
    assert (E : Z.pos (Pos.of_nat (Nat.max 1 (length invs)))
                = Z.of_nat (Nat.max 1 (length invs))).
    { rewrite <- positive_nat_Z, Nat2Pos.id by lia. reflexivity. }
    rewrite E. lia. }
  rewrite (Q.min_r 1 q H1). apply Q.max_r. exact H0.
Qed.

Lemma existsb_In {A} (p : A -> bool) (l : list A) :
  existsb p l = true <-> exists x, In x l /\ p x = true.
Proof. apply List.existsb_exists. Qed.

Lemma isTodo_true st : isTodo st = true <-> st = todo.
Proof. destruct st; simpl; split; congruence. Qed.

Lemma isUnknown_false st : negb (isUnknown st) = true <-> st <> unknown.
Proof. destruct st; simpl; split; congruence. Qed.

(** What [readyForImplementation] of [evaluate] says. *)
Lemma evaluate_ready invs items mappingReady :
  readyForImplementation (evaluate invs items mappingReady) = true
  <-> (exists item, In item items /\ plan_status item = todo)
      /\ ((1 # 2 <= determinacyOf invs)%Q
          \/ forall inv, In inv invs -> inv_status inv = unknown).
Proof.
  unfold evaluate. simpl.
  rewrite andb_true_iff, orb_true_iff, existsb_In, Qle_bool_iff, negb_true_iff.
  split.
  - intros [[item [Hin Ht]] Hd]. split.
    + exists item. split; [exact Hin|]. now apply isTodo_true.
    + destruct Hd as [Hd|Hk]; [now left|right].
      intros inv Hinv. destruct (inv_status inv) eqn:E; [| |reflexivity].
      * assert (X : existsb (fun inv => negb (isUnknown (inv_status inv))) invs = true).
        { apply existsb_In. exists inv. rewrite E. auto. }
        congruence.
      * assert (X : existsb (fun inv => negb (isUnknown (inv_status inv))) invs = true).
        { apply existsb_In. exists inv. rewrite E. auto. }
        congruence.
  - intros [[item [Hin Ht]] Hd]. split.
    + exists item. split; [exact Hin|]. now apply isTodo_true.
    + destruct Hd as [Hd|Hk]; [now left|right].
      destruct (existsb _ invs) eqn:E; [|reflexivity].
      apply existsb_In in E. destruct E as [inv [Hinv Hn]].
      rewrite (Hk inv Hinv) in Hn. discriminate.
Qed.

(** ** Authorizing a tool *)

Lemma findFirst_Some {A} (p : A -> bool) (l : list A) (x : A) :
  findFirst p l = Some x ->
  exists l1 l2, l = l1 ++ x :: l2 /\ p x = true /\ forall y, In y l1 -> p y = false.
Proof.
  induction l as [|a l IH]; simpl; [discriminate|].
  destruct (p a) eqn:Ea.
  - intros [= ->]. exists [], l. repeat split; auto. intros y [].
  - intros H. destruct (IH H) as (l1 & l2 & -> & Hx & Hl1).
    exists (a :: l1), l2. repeat split; auto.
    intros y [<-|Hy]; auto.
Qed.

Lemma findFirst_None {A} (p : A -> bool) (l : list A) :
  findFirst p l = None -> forall y, In y l -> p y = false.
Proof.
  induction l as [|a l IH]; simpl; [intros _ y []|].
  destruct (p a) eqn:Ea; [discriminate|].
  intros H y [<-|Hy]; auto.
Qed.

Lemma phase_eqb_implementer ph :
  match ph with Some ph => phase_eqb ph implementer | None => false end = true
  <-> ph = Some implementer.
Proof. destruct ph as [[]|]; simpl; split; congruence. Qed.

Section Authorization.
Context `{host : Host}.

(** [validatePlannedToolExecution] returns, and decides on the state the
    evaluator returns: it allows, with the id of the first matching item of
    the plan, when the phase in memory is implementer, the state is ready
    and some item matches; otherwise it denies, with a reason and no item
    id. *)
Lemma validate_decides (toolName : str) (s : Orch * World) :
  exists d s1 st s2,
    validatePlannedToolExecution toolName s = (Ok d, s1)
    /\ getDeterminacyState s = (Ok st, s2)
    /\ ((currentPhase (fst s) = Some implementer
         /\ readyForImplementation st = true
         /\ exists item, In item (plan st) /\ matchesTool toolName item = true)
        -> exists earlier item later,
             plan st = earlier ++ item :: later
             /\ matchesTool toolName item = true
             /\ (forall x, In x earlier -> matchesTool toolName x = false)
             /\ d = {| allowed := true; reason := None;
                       planItemId := Some (plan_id item) |})
    /\ (~ (currentPhase (fst s) = Some implementer
           /\ readyForImplementation st = true
           /\ exists item, In item (plan st) /\ matchesTool toolName item = true)
        -> allowed d = false /\ planItemId d = None
           /\ exists r, reason d = Some r /\ r <> []).
Proof.
  destruct (getDeterminacyState_run s) as (invs & items & mr & s' & E & Hph).
  remember (evaluate invs items mr) as st eqn:Hst. clear Hst invs mr.
  remember (plan st) as items' eqn:Hitems.
  unfold validatePlannedToolExecution, bind. rewrite E. unfold this.
  simpl fst. rewrite Hph, <- Hitems.
  destruct (match currentPhase (fst s) with
            | Some ph => phase_eqb ph implementer
            | None => false
            end) eqn:Ephase; simpl.
  - apply phase_eqb_implementer in Ephase.
    destruct (readyForImplementation st) eqn:Eready; simpl.
    + fold (matchesTool toolName).
      destruct (findFirst (matchesTool toolName) items') as [item|] eqn:Efind.
      * eexists _, _, st, s'. split; [reflexivity|]. split; [reflexivity|].
        destruct (findFirst_Some _ _ _ Efind) as (l1 & l2 & Hl & Hm & Hl1).
        split.
        -- intros _. exists l1, item, l2. repeat split; auto. congruence.
        -- intros Hn. exfalso. apply Hn. repeat split; auto.
           exists item. split; [|exact Hm]. rewrite <- Hitems, Hl.
           apply in_or_app. right. now left.
      * eexists _, _, st, s'. split; [reflexivity|]. split; [reflexivity|].
        split.
        -- intros (_ & _ & item & Hin & Hm). rewrite <- Hitems in Hin.
           rewrite (findFirst_None _ _ Efind item Hin) in Hm. discriminate.
        -- intros _. simpl. repeat split. eexists. split; [reflexivity|].
           discriminate.
    + eexists _, _, st, s'. split; [reflexivity|]. split; [reflexivity|].
      split.
      * intros (_ & Hr & _). congruence.
      * intros _. simpl. repeat split. eexists. split; [reflexivity|].
        discriminate.
  - eexists _, _, st, s'. split; [reflexivity|]. split; [reflexivity|].
    split.
    + intros (Hp & _). apply phase_eqb_implementer in Hp. congruence.
    + intros _. simpl. repeat split. eexists. split; [reflexivity|].
      discriminate.
Qed.
End Authorization.

(** ** Ensuring the document *)

Section EnsureSpecFile.
Context `{host : Host}.

Lemma ensureSpecFile_present root md task w c :
  files w !! specPathOf root (containerId md) = Some c ->
  exists r w',
    ensureSpecFile root md task w = (Ok r, w')
    /\ files w' = files w
    /\ r = (if hd false (faults w) then None
            else Some (specPathOf root (containerId md))).
Proof.
  intros Hc. unfold ensureSpecFile, try_catch, bind, ensureContainerDirectory,
    fs_mkdir, bind, nextFault.
  destruct (faults w) as [|[|] fs] eqn:Ef; simpl.
  - unfold specPathOf in Hc. rewrite Hc. simpl. eauto.
  - eauto.
  - unfold specPathOf in Hc. rewrite Hc. simpl. eauto.
Qed.

Lemma ensureSpecFile_changes root md task w :
  let w' := snd (ensureSpecFile root md task w) in
  files w' = files w
  \/ (files w !! specPathOf root (containerId md) = None
      /\ exists content,
           files w' = <[specPathOf root (containerId md) := content]> (files w)).
Proof.
  unfold ensureSpecFile, try_catch, bind, ensureContainerDirectory,
    fs_mkdir, bind, nextFault, specPathOf.
  assert (Hb : forall w0, exists content w1,
             buildInitialTemplate md task w0 = (Ok content, w1)
             /\ files w1 = files w0 /\ faults w1 = faults w0).
  { intros w0. unfold buildInitialTemplate, buildFrontmatter, bind.
    destruct (createdAt md); simpl; eauto. }
  destruct (faults w) as [|[|] fs] eqn:Ef; simpl;
    set (p := path_join [path_join [root; lit "sas"; lit "containers"];
                         sanitizeContainerId (containerId md) ++ lit ".sas.md"]).
  - destruct (files w !! p) eqn:Ep; simpl; [now left|].
    destruct (Hb w) as (content & w1 & -> & Hf1 & Hq1).
    unfold fs_writeFile, bind, nextFault. rewrite Hq1, Ef. simpl.
    right. split; [reflexivity|]. exists (toWellFormed content). now rewrite Hf1.
  - now left.
  - destruct (files w !! p) eqn:Ep; simpl; [now left|].
    destruct (Hb {| files := files w; faults := fs; clock := clock w; ticks := ticks w |})
      as (content & w1 & -> & Hf1 & Hq1). simpl in Hf1, Hq1.
    unfold fs_writeFile, bind, nextFault. rewrite Hq1.
    destruct fs as [|[|] fs']; simpl.
    + right. split; [reflexivity|]. exists (toWellFormed content). now rewrite Hf1.
    + left. exact Hf1.
    + right. split; [reflexivity|]. exists (toWellFormed content). now rewrite Hf1.
Qed.

(** C8: when a document already exists at the container's path,
    [ensureSpecFile] leaves every document as it is, whatever the title,
    scope, models or initial task passed, and returns that path (unless the
    directory call fails); it changes the store only by writing a document
    at a path where there was none. *)
Theorem ensureSpecFile_never_overwrites root md task w c :
  files w !! specPathOf root (containerId md) = Some c ->
  exists r w',
    ensureSpecFile root md task w = (Ok r, w')
    /\ files w' = files w
    /\ (hd false (faults w) = false -> r = Some (specPathOf root (containerId md)))
    /\ forall md2 task2 w2,
         containerId md2 = containerId md ->
         let w3 := snd (ensureSpecFile root md2 task2 w2) in
         files w3 <> files w2 ->
         files w2 !! specPathOf root (containerId md) = None.
Proof.
  intros Hc. destruct (ensureSpecFile_present root md task w c Hc) as (r & w' & E & Hf & Hr).
  exists r, w'. split; [exact E|]. split; [exact Hf|]. split.
  - intros Hq. now rewrite Hq in Hr.
  - intros md2 task2 w2 Hid w3 Hne. subst w3.
    destruct (ensureSpecFile_changes root md2 task2 w2) as [H|[H _]].
    + contradiction.
    + now rewrite Hid in H.
Qed.
End EnsureSpecFile.

(** ** Storage failures *)

#[global] Hint Resolve noThrow_readInvariants noThrow_readPlanItems
  noThrow_hasMappingLayer keepsPhase_readInvariants keepsPhase_readPlanItems
  keepsPhase_hasMappingLayer : js_run.

Section NoThrow.
Context `{host : Host}.

Lemma noThrow_appendToSection h e : noThrow (appendToSection h e).
Proof. unfold appendToSection. js_run. Qed.

Lemma noThrow_replaceSectionBody h b : noThrow (replaceSectionBody h b).
Proof. unfold replaceSectionBody. js_run. Qed.

Lemma noThrow_writeInvariants invs : noThrow (writeInvariants invs).
Proof. apply noThrow_replaceSectionBody. Qed.

Lemma noThrow_writePlanItemsFromList items : noThrow (writePlanItemsFromList items).
Proof. apply noThrow_replaceSectionBody. Qed.

Lemma noThrow_writePlanItems planText : noThrow (writePlanItems planText).
Proof.
  unfold writePlanItems. js_run.
  - apply noThrow_appendToSection.
  - apply noThrow_replaceSectionBody.
  - repeat js_case; js_run. apply noThrow_writeInvariants.
Qed.

Lemma noThrow_setPhase phase reason : noThrow (setPhase phase reason).
Proof. unfold setPhase. js_run. apply noThrow_appendToSection. Qed.

Lemma noThrow_recordUserIntent intent attachments :
  noThrow (recordUserIntent intent attachments).
Proof.
  unfold recordUserIntent. js_run; [apply noThrow_setPhase|apply noThrow_appendToSection].
Qed.

Lemma noThrow_recordPlanUpdate planText : noThrow (recordPlanUpdate planText).
Proof.
  unfold recordPlanUpdate. js_run; [apply noThrow_setPhase|apply noThrow_writePlanItems].
Qed.

Lemma noThrow_recordImplementationUpdate kind text :
  noThrow (recordImplementationUpdate kind text).
Proof.
  unfold recordImplementationUpdate.
  js_run; [apply noThrow_setPhase|apply noThrow_appendToSection].
Qed.

Lemma noThrow_recordOpenQuestion note : noThrow (recordOpenQuestion note).
Proof.
  unfold recordOpenQuestion. js_run; [apply noThrow_setPhase|apply noThrow_appendToSection].
Qed.

Lemma noThrow_recordSayEvent event : noThrow (recordSayEvent event).
Proof.
  unfold recordSayEvent.
  repeat (apply noThrow_if);
    auto using noThrow_ret, noThrow_recordUserIntent, noThrow_recordPlanUpdate,
      noThrow_recordOpenQuestion, noThrow_recordImplementationUpdate.
Qed.

Lemma noThrow_getSpecInstructions maxChars : noThrow (getSpecInstructions maxChars).
Proof. unfold getSpecInstructions. js_run. Qed.

Lemma noThrow_getDeterminacyState : noThrow getDeterminacyState.
Proof. unfold getDeterminacyState. js_run. Qed.

Lemma noThrow_validatePlannedToolExecution toolName :
  noThrow (validatePlannedToolExecution toolName).
Proof.
  unfold validatePlannedToolExecution. js_run; [apply noThrow_getDeterminacyState|].
  destruct (findFirst _ _); js_run.
Qed.

Lemma noThrow_markPlanStepComplete planItemId note :
  noThrow (markPlanStepComplete planItemId note).
Proof.
  unfold markPlanStepComplete. js_run.
  - apply noThrow_writePlanItemsFromList.
  - repeat js_case; js_run. apply noThrow_writeInvariants.
  - apply noThrow_recordImplementationUpdate.
Qed.
End NoThrow.

Lemma files_afterCall w : files (afterCall w) = files w.
Proof. unfold afterCall. destruct (faults w); reflexivity. Qed.

Lemma nextFault_run w : nextFault w = (Ok (hd false (faults w)), afterCall w).
Proof. unfold nextFault, afterCall. destruct (faults w); reflexivity. Qed.

Lemma fs_readFile_run path w :
  fs_readFile path w
  = (if hd false (faults w) then Throw StorageError
     else match files w !! path with
          | Some content => Ok content
          | None => Throw StorageError
          end,
     afterCall w).
Proof.
  unfold fs_readFile, bind. rewrite nextFault_run.
  destruct (hd false (faults w)); [reflexivity|].
  unfold get. rewrite files_afterCall. destruct (files w !! path); reflexivity.
Qed.

Lemma fs_readFile_fails path w :
  readFails path w -> fs_readFile path w = (Throw StorageError, afterCall w).
Proof.
  intros [H|H]; rewrite fs_readFile_run.
  - now rewrite H.
  - rewrite H. now destruct (hd false (faults w)).
Qed.

Lemma fs_writeFile_run path content w :
  fs_writeFile path content w
  = if hd false (faults w) then (Throw StorageError, afterCall w)
    else (Ok tt, {| files := <[path := toWellFormed content]> (files w);
                    faults := faults (afterCall w);
                    clock := clock w; ticks := ticks w |}).
Proof.
  unfold fs_writeFile, bind. rewrite nextFault_run.
  destruct (hd false (faults w)) eqn:E; [reflexivity|].
  unfold get, put, afterCall. destruct (faults w); reflexivity.
Qed.

Section Degrade.
Context `{host : Host}.

Lemma resolveSpecPath_set o w p :
  specPath o = Some p -> resolveSpecPath (o, w) = (Ok (Some p), (o, w)).
Proof. intros H. unfold resolveSpecPath, bind, this. simpl. now rewrite H. Qed.

Lemma ensureInitialized_set o w p :
  specPath o = Some p -> p <> [] -> ensureInitialized (o, w) = (Ok (Some p), (o, w)).
Proof.
  intros H Hp. unfold ensureInitialized, bind, this. simpl. rewrite H.
  destruct p; [contradiction|reflexivity].
Qed.

(** A reader of an initialized orchestrator: one read, then [parse]. *)
Lemma reader_run {A} (parse : str -> A) (default : A) msg o w p :
  specPath o = Some p -> p <> [] ->
  (let* path := resolveSpecPath in
   if negb (truthyOpt path) then ret default
   else try_catch
          (let* content := liftW (fs_readFile (orElse path [])) in ret (parse content))
          (fun error => await Logger_error msg; ret default)) (o, w)
  = (Ok (if hd false (faults w) then default
         else match files w !! p with
              | Some content => parse content
              | None => default
              end),
     (o, afterCall w)).
Proof.
  intros H Hp. unfold bind at 1. rewrite (resolveSpecPath_set o w p H).
  destruct p as [|c p]; [contradiction|].
  change (negb (truthyOpt (Some (c :: p)))) with false. cbv beta iota.
  unfold try_catch, bind, liftW. cbn [snd fst orElse].
  rewrite fs_readFile_run.
  destruct (hd false (faults w)); [reflexivity|].
  destruct (files w !! (c :: p)); reflexivity.
Qed.

Lemma readInvariants_run o w p :
  specPath o = Some p -> p <> [] ->
  readInvariants (o, w)
  = (Ok (if hd false (faults w) then []
         else match files w !! p with
              | Some content => parseInvariants content
              | None => []
              end),
     (o, afterCall w)).
Proof. apply reader_run. Qed.

Lemma readPlanItems_run o w p :
  specPath o = Some p -> p <> [] ->
  readPlanItems (o, w)
  = (Ok (if hd false (faults w) then []
         else match files w !! p with
              | Some content => parsePlanItems content
              | None => []
              end),
     (o, afterCall w)).
Proof. apply reader_run. Qed.

Lemma hasMappingLayer_run o w p :
  specPath o = Some p -> p <> [] ->
  hasMappingLayer (o, w)
  = (Ok (if hd false (faults w) then false
         else match files w !! p with
              | Some content => mappingLayerPresent content
              | None => false
              end),
     (o, afterCall w)).
Proof. apply reader_run. Qed.

Lemma section_write_run (f : str -> str) msg o w p :
  specPath o = Some p -> p <> [] ->
  (let* path := resolveSpecPath in
   if negb (truthyOpt path) then ret tt
   else try_catch
          (let* content := liftW (fs_readFile (orElse path [])) in
           liftW (fs_writeFile (orElse path []) (f content)))
          (fun error => Logger_error msg)) (o, w)
  = (Ok tt, (o, sectionWrite f p w)).
Proof.
  intros H Hp. unfold bind at 1. rewrite (resolveSpecPath_set o w p H).
  destruct p as [|c p]; [contradiction|].
  change (negb (truthyOpt (Some (c :: p)))) with false. cbv beta iota.
  unfold try_catch, bind, liftW, sectionWrite. cbn [snd fst orElse].
  rewrite fs_readFile_run.
  destruct (hd false (faults w)); [reflexivity|].
  destruct (files w !! (c :: p)); [|reflexivity].
  simpl. rewrite fs_writeFile_run.
  destruct (hd false (faults (afterCall w))); reflexivity.
Qed.

Lemma appendToSection_run h e o w p :
  specPath o = Some p -> p <> [] ->
  appendToSection h e (o, w) = (Ok tt, (o, sectionWrite (appendedContent h e) p w)).
Proof. apply section_write_run. Qed.

Lemma replaceSectionBody_run h b o w p :
  specPath o = Some p -> p <> [] ->
  replaceSectionBody h b (o, w) = (Ok tt, (o, sectionWrite (replacedContent h b) p w)).
Proof. apply section_write_run. Qed.

Lemma sectionWrite_fails f p w :
  readFails p w \/ faultDue (afterCall w) -> files (sectionWrite f p w) = files w.
Proof.
  unfold sectionWrite, readFails, faultDue. intros H.
  destruct (hd false (faults w)) eqn:E1; [apply files_afterCall|].
  destruct (files w !! p) eqn:E2; [|apply files_afterCall].
  destruct H as [[H|H]|H]; try discriminate.
  simpl. rewrite H. now rewrite !files_afterCall.
Qed.
End Degrade.

Lemma readDoc_fails {A} (parse : str -> A) default p w :
  readFails p w -> readDoc parse default p w = default.
Proof.
  unfold readDoc. intros [H|H]; rewrite H; [reflexivity|].
  now destruct (hd false (faults w)).
Qed.

Section DegradeOperations.
Context `{host : Host}.

Lemma getDeterminacyState_set o w p :
  specPath o = Some p -> p <> [] ->
  getDeterminacyState (o, w)
  = (Ok (evaluate (readDoc parseInvariants [] p w)
                  (readDoc parsePlanItems [] p (afterCall w))
                  (readDoc mappingLayerPresent false p (afterCall (afterCall w)))),
     (o, afterCall (afterCall (afterCall w)))).
Proof.
  intros H Hp. unfold getDeterminacyState, bind.
  rewrite (ensureInitialized_set o w p H Hp).
  rewrite (readInvariants_run o w p H Hp).
  rewrite (readPlanItems_run o _ p H Hp).
  rewrite (hasMappingLayer_run o _ p H Hp).
  reflexivity.
Qed.

Lemma getSpecInstructions_fails maxChars o w p :
  specPath o = Some p -> p <> [] -> readFails p w ->
  getSpecInstructions maxChars (o, w) = (Ok None, (o, afterCall w)).
Proof.
  intros H Hp Hf. unfold getSpecInstructions, bind.
  rewrite (ensureInitialized_set o w p H Hp). unfold this. cbn [fst snd].
  rewrite H. destruct p as [|c p]; [contradiction|].
  change (negb (truthyOpt (Some (c :: p)))) with false. cbv beta iota.
  unfold try_catch, bind, liftW. cbn [snd fst orElse].
  rewrite (fs_readFile_fails _ _ Hf). reflexivity.
Qed.

Lemma ensureSpecFile_mkdir_fails root md task w :
  faultDue w ->
  ensureSpecFile root md task w = (Ok None, afterCall w).
Proof.
  intros Hf. unfold ensureSpecFile, try_catch, bind, ensureContainerDirectory,
    fs_mkdir, bind. rewrite nextFault_run. unfold faultDue in Hf. rewrite Hf.
  reflexivity.
Qed.

Lemma ensureSpecFile_write_fails root md task w :
  files w !! specPathOf root (containerId md) = None ->
  hd false (faults w) = false -> faultDue (afterCall w) ->
  exists w', ensureSpecFile root md task w = (Ok None, w') /\ files w' = files w.
Proof.
  intros Hnone Hq Hf. unfold ensureSpecFile, try_catch, bind, ensureContainerDirectory,
    fs_mkdir, bind. rewrite nextFault_run, Hq. cbn [ret].
  unfold fileExistsAtPath, bind, get. cbn [ret].
  rewrite files_afterCall. unfold specPathOf in Hnone. rewrite Hnone.
  unfold buildInitialTemplate, buildFrontmatter, bind.
  destruct (createdAt md); cbn [ret nowISOString]; rewrite fs_writeFile_run; cbn [faults];
    unfold faultDue in Hf; rewrite Hf; cbn [Logger_error ret];
    eexists; (split; [reflexivity|]); rewrite !files_afterCall; try reflexivity.
Qed.

Lemma ensureInitialized_fails o w :
  specPath o = None -> faultDue w ->
  ensureInitialized (o, w) = (Ok None, (set_specPath None o, afterCall w)).
Proof.
  intros H Hf. unfold ensureInitialized, bind, this. cbn [fst snd]. rewrite H.
  cbn [truthyOpt]. unfold liftW. cbn [snd fst].
  rewrite (ensureSpecFile_mkdir_fails _ _ _ _ Hf). reflexivity.
Qed.
End DegradeOperations.

(** ** The evaluator and the authorization, on the document *)

Lemma afterCall_quiet w : faults w = [] -> afterCall w = w.
Proof. unfold afterCall. now intros ->. Qed.

Lemma readDoc_quiet {A} (parse : str -> A) default p w c :
  faults w = [] -> files w !! p = Some c -> readDoc parse default p w = parse c.
Proof. intros Hq Hc. unfold readDoc. now rewrite Hq, Hc. Qed.

Section OnTheDocument.
Context `{host : Host}.

(** The evaluator on what the readers return, once [ensureInitialized] has
    left a path to the document. *)
Lemma getDeterminacyState_reads s pth s1 p :
  ensureInitialized s = (Ok pth, s1) -> specPath (fst s1) = Some p -> p <> [] ->
  getDeterminacyState s
  = (Ok (evaluate (readDoc parseInvariants [] p (snd s1))
                  (readDoc parsePlanItems [] p (afterCall (snd s1)))
                  (readDoc mappingLayerPresent false p (afterCall (afterCall (snd s1))))),
     (fst s1, afterCall (afterCall (afterCall (snd s1))))).
Proof.
  intros E H Hp. destruct s1 as [o1 w1]. cbn [fst snd] in *.
  rewrite <- (getDeterminacyState_set o1 w1 p H Hp).
  unfold getDeterminacyState, bind at 1 5. rewrite E.
  now rewrite (ensureInitialized_set o1 w1 p H Hp).
Qed.

(** With the plan unreadable the authorization is a denial with a reason,
    whatever the invariants read as. *)
Lemma validate_denies_unread toolName s pth s1 p :
  ensureInitialized s = (Ok pth, s1) -> specPath (fst s1) = Some p -> p <> [] ->
  readFails p (afterCall (snd s1)) ->
  exists d r s',
    validatePlannedToolExecution toolName s = (Ok d, s')
    /\ allowed d = false /\ reason d = Some r /\ r <> [] /\ planItemId d = None.
Proof.
  intros E H Hp Hf. unfold validatePlannedToolExecution, bind.
  rewrite (getDeterminacyState_reads s pth s1 p E H Hp).
  rewrite (readDoc_fails parsePlanItems [] p _ Hf).
  unfold this. cbn [fst snd evaluate readyForImplementation existsb andb negb].
  destruct (match currentPhase (fst s1) with
            | Some ph => phase_eqb ph implementer
            | None => false
            end); cbn [negb]; eexists _, _, _; (split; [reflexivity|]);
    cbn [allowed reason planItemId]; repeat split; discriminate.
Qed.

(** C5: for every invariant list, the determinacy the evaluator computes is
    the satisfied count over [max(1, total)], clamped to [0, 1].  The list
    is the one read from the document: after [ensureInitialized], with the
    path [p] set, the evaluator returns [evaluate] of what the readers
    return on the store, [readDoc]; with a store that does not fail and the
    document [c] at [p], that is [parseInvariants c].  The clamp changes
    nothing, the value is between 0 and 1, and it is 0 when there are no
    invariants. *)
Theorem determinacy_is_clamped_fraction (invs : list SasInvariant) :
  let fraction :=
    (Z.of_nat (satisfiedCount invs) # Pos.of_nat (Nat.max 1 (length invs)))%Q in
  (forall items mappingReady,
     invariants (evaluate invs items mappingReady) = invs
     /\ determinacy (evaluate invs items mappingReady) = clamp01 fraction)
  /\ (forall s pth s1 p,
        ensureInitialized s = (Ok pth, s1) -> specPath (fst s1) = Some p -> p <> [] ->
        readDoc parseInvariants [] p (snd s1) = invs ->
        exists items mappingReady s',
          getDeterminacyState s = (Ok (evaluate invs items mappingReady), s'))
  /\ (forall s pth s1 p c,
        ensureInitialized s = (Ok pth, s1) -> specPath (fst s1) = Some p -> p <> [] ->
        faults (snd s1) = [] -> files (snd s1) !! p = Some c ->
        parseInvariants c = invs ->
        exists s',
          getDeterminacyState s
          = (Ok (evaluate invs (parsePlanItems c) (mappingLayerPresent c)), s'))
  /\ (clamp01 fraction == fraction)%Q
  /\ (0 <= clamp01 fraction <= 1)%Q
  /\ (invs = [] -> clamp01 fraction = 0%Q).
Proof.
  cbv zeta. split; [|split; [|split; [|split; [|split]]]].
  - intros items mr. split; [reflexivity|]. apply determinacyOf_clamp.
  - intros s pth s1 p E H Hp <-. do 2 eexists. eexists.
    exact (getDeterminacyState_reads s pth s1 p E H Hp).
  - intros s pth s1 p c E H Hp Hq Hc <-. eexists.
    rewrite (getDeterminacyState_reads s pth s1 p E H Hp).
    rewrite !(afterCall_quiet (snd s1) Hq).
    now rewrite !(readDoc_quiet _ _ p (snd s1) c Hq Hc).
  - rewrite <- determinacyOf_clamp. apply determinacyOf_fraction.
  - rewrite <- determinacyOf_clamp. apply determinacyOf_bounds.
  - intros ->. reflexivity.
Qed.

(** C2: for every invariant list and plan-item list, the evaluator's
    [readyForImplementation] is true exactly when some plan item is todo
    and either determinacy is at least one half or no invariant has a status
    other than unknown; so a plan with a todo item whose invariants are all
    unknown is ready, whatever its determinacy.  The lists are those read
    from the document: after [ensureInitialized], with the path [p] set,
    the evaluator returns [evaluate] of what the readers return on the
    store, [readDoc]; with a store that does not fail and the document [c]
    at [p], they are [parseInvariants c] and [parsePlanItems c]. *)
Theorem readyForImplementation_iff (invs : list SasInvariant) (items : list SasPlanItem) :
  (forall mappingReady,
     let st := evaluate invs items mappingReady in
     invariants st = invs /\ plan st = items
     /\ (readyForImplementation st = true
         <-> (exists item, In item items /\ plan_status item = todo)
             /\ ((1 # 2 <= determinacy st)%Q
                 \/ forall inv, In inv invs -> inv_status inv = unknown))
     /\ ((exists item, In item items /\ plan_status item = todo)
         -> (forall inv, In inv invs -> inv_status inv = unknown)
         -> readyForImplementation st = true))
  /\ (forall s pth s1 p,
        ensureInitialized s = (Ok pth, s1) -> specPath (fst s1) = Some p -> p <> [] ->
        readDoc parseInvariants [] p (snd s1) = invs ->
        readDoc parsePlanItems [] p (afterCall (snd s1)) = items ->
        exists mappingReady s',
          getDeterminacyState s = (Ok (evaluate invs items mappingReady), s'))
  /\ (forall s pth s1 p c,
        ensureInitialized s = (Ok pth, s1) -> specPath (fst s1) = Some p -> p <> [] ->
        faults (snd s1) = [] -> files (snd s1) !! p = Some c ->
        parseInvariants c = invs -> parsePlanItems c = items ->
        exists s',
          getDeterminacyState s = (Ok (evaluate invs items (mappingLayerPresent c)), s')).
Proof.
  split; [|split].
  - intros mr. cbv zeta. split; [reflexivity|]. split; [reflexivity|].
    split; [apply evaluate_ready|].
    intros Ht Hu. apply evaluate_ready. split; [exact Ht|now right].
  - intros s pth s1 p E H Hp <- <-. do 2 eexists.
    exact (getDeterminacyState_reads s pth s1 p E H Hp).
  - intros s pth s1 p c E H Hp Hq Hc <- <-. eexists.
    rewrite (getDeterminacyState_reads s pth s1 p E H Hp).
    rewrite !(afterCall_quiet (snd s1) Hq).
    now rewrite !(readDoc_quiet _ _ p (snd s1) c Hq Hc).
Qed.

(** C1: [validatePlannedToolExecution] returns a decision in every state.
    It decides on the state the evaluator returns, whose invariants and
    plan are those read from the document: after [ensureInitialized], with
    the path [p] set, they are what the readers return on the store,
    [readDoc]; with a store that does not fail and the document [c] at [p],
    they are [parseInvariants c] and [parsePlanItems c], the plan items in
    the order of their lines.  When the phase in memory is implementer, the
    evaluator reports [readyForImplementation] and some todo item's
    lower-cased text includes the lower-cased name, the decision allows and
    carries the id of the first such item of the plan; otherwise it denies,
    with a reason and no item id. *)
Theorem validatePlannedToolExecution_decision (toolName : str) (s : Orch * World) :
  exists pth s1 d s2 st s3,
    ensureInitialized s = (Ok pth, s1)
    /\ validatePlannedToolExecution toolName s = (Ok d, s2)
    /\ getDeterminacyState s = (Ok st, s3)
    /\ (forall p, specPath (fst s1) = Some p -> p <> [] ->
          invariants st = readDoc parseInvariants [] p (snd s1)
          /\ plan st = readDoc parsePlanItems [] p (afterCall (snd s1))
          /\ forall c, faults (snd s1) = [] -> files (snd s1) !! p = Some c ->
               invariants st = parseInvariants c /\ plan st = parsePlanItems c)
    /\ ((currentPhase (fst s) = Some implementer
         /\ readyForImplementation st = true
         /\ exists item, In item (plan st) /\ matchesTool toolName item = true)
        -> exists earlier item later,
             plan st = earlier ++ item :: later
             /\ matchesTool toolName item = true
             /\ (forall x, In x earlier -> matchesTool toolName x = false)
             /\ d = {| allowed := true; reason := None;
                       planItemId := Some (plan_id item) |})
    /\ (~ (currentPhase (fst s) = Some implementer
           /\ readyForImplementation st = true
           /\ exists item, In item (plan st) /\ matchesTool toolName item = true)
        -> allowed d = false /\ planItemId d = None
           /\ exists r, reason d = Some r /\ r <> []).
Proof.
  destruct (noThrow_ensureInitialized s) as [pth E0].
  destruct (ensureInitialized s) as [r0 s1] eqn:E1. cbn [fst] in E0. subst r0.
  destruct (validate_decides toolName s) as (d & s2 & st & s3 & Ev & Eg & Hallow & Hdeny).
  exists pth, s1, d, s2, st, s3.
  split; [reflexivity|]. split; [exact Ev|]. split; [exact Eg|].
  split; [|split; [exact Hallow|exact Hdeny]].
  intros p H Hp. rewrite (getDeterminacyState_reads s pth s1 p E1 H Hp) in Eg.
  injection Eg as <- _. cbn [invariants plan evaluate].
  split; [reflexivity|]. split; [reflexivity|].
  intros c Hq Hc. rewrite (afterCall_quiet (snd s1) Hq).
  now rewrite !(readDoc_quiet _ _ p (snd s1) c Hq Hc).
Qed.
End OnTheDocument.

Lemma determinacy_is_clamped_fraction_witness :
  exists s',
    getDeterminacyState (host := asciiHost) (sampleOrch, sampleWorld)
    = (Ok (evaluate (parseInvariants sampleDocument) (parsePlanItems sampleDocument)
             (mappingLayerPresent sampleDocument)), s')
    /\ length (parseInvariants sampleDocument) = 2
    /\ determinacy (evaluate (parseInvariants sampleDocument) (parsePlanItems sampleDocument)
                      (mappingLayerPresent sampleDocument))
       = clamp01 (0 # 2).
Proof.
  pose proof (determinacy_is_clamped_fraction (host := asciiHost)
                (parseInvariants sampleDocument)) as (Hd & _ & Hdoc & _).
  destruct (Hdoc (sampleOrch, sampleWorld) (Some sampleSpecPath) (sampleOrch, sampleWorld)
              sampleSpecPath sampleDocument) as [s' E].
  - reflexivity.
  - reflexivity.
  - discriminate.
  - reflexivity.
  - vm_compute. reflexivity.
  - reflexivity.
  - exists s'. split; [exact E|]. split; [vm_compute; reflexivity|].
    destruct (Hd (parsePlanItems sampleDocument) (mappingLayerPresent sampleDocument))
      as [_ ->].
    vm_compute. reflexivity.
Defined.

Lemma readyForImplementation_iff_witness :
  exists s',
    getDeterminacyState (host := asciiHost) (sampleOrch, sampleWorld)
    = (Ok (evaluate (parseInvariants sampleDocument) (parsePlanItems sampleDocument)
             (mappingLayerPresent sampleDocument)), s')
    /\ (determinacy (evaluate (parseInvariants sampleDocument)
                       (parsePlanItems sampleDocument)
                       (mappingLayerPresent sampleDocument)) == 0)%Q
    /\ readyForImplementation
         (evaluate (parseInvariants sampleDocument) (parsePlanItems sampleDocument)
            (mappingLayerPresent sampleDocument))
       = true.
Proof.
  pose proof (readyForImplementation_iff (host := asciiHost)
                (parseInvariants sampleDocument) (parsePlanItems sampleDocument))
    as (Hst & _ & Hdoc).
  destruct (Hdoc (sampleOrch, sampleWorld) (Some sampleSpecPath) (sampleOrch, sampleWorld)
              sampleSpecPath sampleDocument) as [s' E].
  - reflexivity.
  - reflexivity.
  - discriminate.
  - reflexivity.
  - vm_compute. reflexivity.
  - reflexivity.
  - reflexivity.
  - exists s'. split; [exact E|]. split; [vm_compute; reflexivity|].
    destruct (Hst (mappingLayerPresent sampleDocument)) as (_ & _ & _ & Hready).
    apply Hready.
    + exists {| plan_id := lit "S2"; plan_text := lit "write tests"; plan_status := todo |}.
      split; [vm_compute; left; reflexivity|reflexivity].
    + vm_compute. intros inv [<-|[<-|[]]]; reflexivity.
Defined.

Lemma validatePlannedToolExecution_decision_witness :
  exists d s2 earlier item later,
    validatePlannedToolExecution (host := asciiHost) (lit "W") (implementerOrch, sampleWorld)
    = (Ok d, s2)
    /\ parsePlanItems sampleDocument = earlier ++ item :: later
    /\ matchesTool (host := asciiHost) (lit "W") item = true
    /\ (forall x, In x earlier -> matchesTool (host := asciiHost) (lit "W") x = false)
    /\ d = {| allowed := true; reason := None; planItemId := Some (plan_id item) |}
    /\ plan_id item = lit "S2"
    /\ existsb (matchesTool (host := asciiHost) (lit "W")) later = true.
Proof.
  destruct (validatePlannedToolExecution_decision (host := asciiHost) (lit "W")
              (implementerOrch, sampleWorld))
    as (pth & s1 & d & s2 & st & s3 & E0 & Ev & Eg & Hdoc & Hallow & _).
  injection E0 as _ <-.
  destruct (Hdoc sampleSpecPath eq_refl ltac:(discriminate)) as (_ & _ & Hc).
  destruct (Hc sampleDocument eq_refl ltac:(vm_compute; reflexivity)) as [Hi Hp].
  assert (Hr : readyForImplementation st = true).
  { assert (Est : fst (getDeterminacyState (host := asciiHost) (implementerOrch, sampleWorld))
                  = Ok st) by now rewrite Eg.
    vm_compute in Est. injection Est as <-. reflexivity. }
  destruct Hallow as (earlier & item & later & Hsplit & Hm & Hfirst & Hd).
  { split; [reflexivity|]. split; [exact Hr|]. rewrite Hp.
    exists {| plan_id := lit "S2"; plan_text := lit "write tests"; plan_status := todo |}.
    split; [vm_compute; left; reflexivity|vm_compute; reflexivity]. }
  rewrite Hp in Hsplit.
  exists d, s2, earlier, item, later.
  split; [exact Ev|]. split; [exact Hsplit|]. split; [exact Hm|]. split; [exact Hfirst|].
  split; [exact Hd|].
  destruct earlier as [|x earlier]; vm_compute in Hsplit.
  - injection Hsplit as <- <-. split; vm_compute; reflexivity.
  - exfalso. injection Hsplit as Hx _.
    specialize (Hfirst x (or_introl eq_refl)). rewrite <- Hx in Hfirst.
    vm_compute in Hfirst. discriminate.
Defined.

(** ** Searching strings *)

Lemma startsWith_true h c : startsWith h c = true <-> exists r, c = h ++ r.
Proof.
  revert c. induction h as [|x h IH]; intros c; simpl.
  - split; eauto.
  - destruct c as [|y c].
    + split; [discriminate|]. intros [r Hr]. discriminate.
    + rewrite andb_true_iff, N.eqb_eq, IH. split.
      * intros [-> [r ->]]. eauto.
      * intros [r Hr]. inversion Hr. eauto.
Qed.

Lemma startsWith_app h r : startsWith h (h ++ r) = true.
Proof. apply startsWith_true. eauto. Qed.

Lemma startsWith_length h c : startsWith h c = true -> length h <= length c.
Proof. intros [r ->]%startsWith_true. rewrite length_app. lia. Qed.

Lemma occursAt_0 h c : occursAt h c 0 = startsWith h c.
Proof. reflexivity. Qed.

Lemma occursAt_S h x c j : occursAt h (x :: c) (S j) = occursAt h c j.
Proof. reflexivity. Qed.

Lemma occursAt_true h c j :
  h <> [] -> occursAt h c j = true <-> exists l r, c = l ++ h ++ r /\ length l = j.
Proof.
  intros Hh. unfold occursAt. rewrite startsWith_true. split.
  - intros [r Hr]. exists (take j c), r. rewrite <- Hr, take_drop. split; [reflexivity|].
    apply length_take_le. destruct (Nat.le_gt_cases j (length c)); [assumption|].
    rewrite drop_ge in Hr by lia. destruct h; [contradiction|discriminate].
  - intros (l & r & -> & <-). exists r. now rewrite drop_app_length.
Qed.

Lemma find_sub_Some h c i :
  find_sub h c = Some i ->
  occursAt h c i = true /\ i <= length c /\ forall j, j < i -> occursAt h c j = false.
Proof.
  revert i. induction c as [|x c IH]; intros i; simpl.
  - destruct (startsWith h []) eqn:E; [|discriminate]. intros [= <-].
    repeat split; auto. intros j Hj. lia.
  - destruct (startsWith h (x :: c)) eqn:E.
    + intros [= <-]. repeat split; auto; [lia|]. intros j Hj. lia.
    + destruct (find_sub h c) as [k|] eqn:Ek; [|discriminate]. simpl. intros [= <-].
      destruct (IH k eq_refl) as (H1 & H2 & H3). repeat split; auto; [lia|].
      intros [|j] Hj; [exact E|]. apply H3. lia.
Qed.

Lemma find_sub_None h c :
  find_sub h c = None -> forall j, j <= length c -> occursAt h c j = false.
Proof.
  induction c as [|x c IH]; simpl.
  - destruct (startsWith h []) eqn:E; [discriminate|]. intros _ j Hj.
    assert (j = 0) as -> by lia. exact E.
  - destruct (startsWith h (x :: c)) eqn:E; [discriminate|].
    destruct (find_sub h c) as [k|] eqn:Ek; [discriminate|]. intros _ [|j] Hj; [exact E|].
    apply IH; [reflexivity|]. simpl in Hj. lia.
Qed.

Lemma find_sub_intro h c i :
  occursAt h c i = true -> i <= length c ->
  (forall j, j < i -> occursAt h c j = false) ->
  find_sub h c = Some i.
Proof.
  intros H1 H2 H3. destruct (find_sub h c) as [k|] eqn:E.
  - destruct (find_sub_Some _ _ _ E) as (K1 & K2 & K3).
    destruct (Nat.lt_trichotomy k i) as [Hlt|[->|Hgt]]; [|reflexivity|].
    + rewrite (H3 k Hlt) in K1. discriminate.
    + rewrite (K3 i Hgt) in H1. discriminate.
  - rewrite (find_sub_None _ _ E i H2) in H1. discriminate.
Qed.

Lemma find_sub_None_intro h c :
  (forall j, j <= length c -> occursAt h c j = false) -> find_sub h c = None.
Proof.
  intros H. destruct (find_sub h c) as [k|] eqn:E; [|reflexivity].
  destruct (find_sub_Some _ _ _ E) as (K1 & K2 & _). rewrite (H k K2) in K1. discriminate.
Qed.

(** An occurrence that ends inside the first part. *)
Lemma occursAt_app_l h p q j :
  j + length h <= length p -> occursAt h (p ++ q) j = occursAt h p j.
Proof.
  intros Hj. unfold occursAt. rewrite drop_app_le by lia.
  destruct (startsWith h (drop j p)) eqn:E.
  - apply startsWith_true in E as [r ->]. rewrite <- app_assoc. apply startsWith_app.
  - destruct (startsWith h (drop j p ++ q)) eqn:E2; [|reflexivity].
    apply startsWith_true in E2 as [r Hr].
    assert (Hp : drop j p = take (length h) (drop j p ++ q) ++ drop (length h) (drop j p)).
    { rewrite take_app_le by (rewrite length_drop; lia). now rewrite take_drop. }
    rewrite Hr, take_app_length in Hp. rewrite Hp, startsWith_app in E. discriminate.
Qed.

(** An occurrence that starts in the second part. *)
Lemma occursAt_app_r h p q j : occursAt h (p ++ q) (length p + j) = occursAt h q j.
Proof. unfold occursAt. now rewrite drop_app_add. Qed.

Lemma find_sub_app_l h p q i :
  find_sub h p = Some i -> find_sub h (p ++ q) = Some i.
Proof.
  intros H. destruct (find_sub_Some _ _ _ H) as (H1 & H2 & H3).
  pose proof (startsWith_length _ _ H1) as Hl. rewrite length_drop in Hl.
  apply find_sub_intro.
  - rewrite occursAt_app_l by lia. exact H1.
  - rewrite length_app. lia.
  - intros j Hj. rewrite occursAt_app_l by lia. now apply H3.
Qed.

Lemma find_sub_app_inv h p q i :
  find_sub h (p ++ q) = Some i -> i + length h <= length p -> find_sub h p = Some i.
Proof.
  intros H Hi. destruct (find_sub_Some _ _ _ H) as (H1 & H2 & H3).
  apply find_sub_intro.
  - rewrite <- (occursAt_app_l h p q) by lia. exact H1.
  - lia.
  - intros j Hj. rewrite <- (occursAt_app_l h p q) by lia. now apply H3.
Qed.

(** No occurrence starts inside the first part: the search goes on in the
    second. *)
Lemma find_sub_skip h p q :
  (forall j, j < length p -> occursAt h (p ++ q) j = false) ->
  find_sub h (p ++ q) = (fun i => length p + i) <$> find_sub h q.
Proof.
  intros Hp. destruct (find_sub h q) as [k|] eqn:E; simpl.
  - destruct (find_sub_Some _ _ _ E) as (H1 & H2 & H3). apply find_sub_intro.
    + now rewrite occursAt_app_r.
    + rewrite length_app. lia.
    + intros j Hj. destruct (Nat.lt_ge_cases j (length p)) as [Hlt|Hge]; [now apply Hp|].
      replace j with (length p + (j - length p)) by lia. rewrite occursAt_app_r.
      apply H3. lia.
  - apply find_sub_None_intro. intros j Hj. rewrite length_app in Hj.
    destruct (Nat.lt_ge_cases j (length p)) as [Hlt|Hge]; [now apply Hp|].
    replace j with (length p + (j - length p)) by lia. rewrite occursAt_app_r.
    apply (find_sub_None _ _ E). lia.
Qed.

Lemma indexOf_0 h c : indexOf h c 0 = find_sub h c.
Proof.
  unfold indexOf. simpl. rewrite drop_0. destruct (find_sub h c); reflexivity.
Qed.

Lemma indexOf_from h c k :
  k <= length c -> indexOf h c k = (fun i => k + i) <$> find_sub h (drop k c).
Proof. intros Hk. unfold indexOf. now rewrite Nat.min_l by lia. Qed.

Lemma occursAt_lookup h c j k x :
  occursAt h c j = true -> h !! k = Some x -> c !! (j + k) = Some x.
Proof.
  unfold occursAt. intros [r Hr]%startsWith_true Hk.
  rewrite <- (take_drop j c), Hr.
  assert (Hj : j <= length c).
  { destruct (Nat.le_gt_cases j (length c)); [assumption|].
    rewrite drop_ge in Hr by lia. destruct h; [rewrite lookup_nil in Hk|]; discriminate. }
  rewrite lookup_app_r by (rewrite length_take; lia).
  rewrite length_take_le by lia. replace (j + k - j) with k by lia.
  now apply lookup_app_l_Some.
Qed.

(** An occurrence of a string with no line feed does not cross one. *)
Lemma occursAt_across_NL h p q j :
  NLfree h -> j <= length p -> length p < j + length h ->
  occursAt h (p ++ NL :: q) j = false.
Proof.
  intros Hh Hj Hlen. destruct (occursAt h (p ++ NL :: q) j) eqn:E; [|reflexivity].
  destruct (lookup_lt_is_Some_2 h (length p - j)) as [x Hx]; [lia|].
  pose proof (occursAt_lookup _ _ _ _ _ E Hx) as Hc.
  replace (j + (length p - j)) with (length p) in Hc by lia.
  rewrite list_lookup_middle in Hc by reflexivity. inversion Hc; subst.
  unfold NLfree in Hh. rewrite Forall_lookup in Hh. now apply Hh in Hx.
Qed.

(** Searching for a string with no line feed, on both sides of a line feed. *)
Lemma find_sub_NL_split h p q :
  NLfree h -> h <> [] ->
  find_sub h (p ++ NL :: q)
  = match find_sub h p with
    | Some i => Some i
    | None => (fun i => length p + 1 + i) <$> find_sub h q
    end.
Proof.
  intros Hh Hne. destruct (find_sub h p) as [i|] eqn:Ep.
  - now apply find_sub_app_l.
  - replace (p ++ NL :: q) with ((p ++ [NL]) ++ q) by now rewrite <- app_assoc.
    rewrite find_sub_skip.
    + rewrite length_app. simpl. reflexivity.
    + intros j Hj. rewrite length_app in Hj. simpl in Hj. rewrite <- app_assoc. simpl.
      destruct (Nat.le_gt_cases (j + length h) (length p)) as [Hin|Hout].
      * rewrite occursAt_app_l by lia. apply (find_sub_None _ _ Ep). lia.
      * apply occursAt_across_NL; [assumption|lia|lia].
Qed.

Lemma find_sub_NLfree_None h s :
  In NL h -> NLfree s -> find_sub h s = None.
Proof.
  intros Hin Hs. apply find_sub_None_intro. intros j Hj.
  destruct (occursAt h s j) eqn:E; [|reflexivity].
  apply list_elem_of_In, list_elem_of_lookup in Hin as [k Hk].
  pose proof (occursAt_lookup _ _ _ _ _ E Hk) as Hc.
  unfold NLfree in Hs. rewrite Forall_lookup in Hs. now apply Hs in Hc.
Qed.

(** ** Headings and the mark of the next heading *)

Lemma niceHeading_nonempty h : niceHeading h -> h <> [].
Proof. intros [H _] ->. discriminate. Qed.

Lemma niceHeading_length h : niceHeading h -> 3 <= length h.
Proof. intros [H _]. apply startsWith_length in H. exact H. Qed.

Lemma startsWith_mark_cons x s :
  startsWith nextHeadingMark (x :: s) = (NL =? x)%N && startsWith headingPrefix s.
Proof. reflexivity. Qed.

Lemma startsWith_prefix_NLfree l s :
  startsWith headingPrefix (l ++ NL :: s) = startsWith headingPrefix l.
Proof.
  destruct l as [|a [|b [|c l]]]; simpl; rewrite ?andb_false_r; reflexivity.
Qed.

Lemma find_sub_cons h x c :
  find_sub h (x :: c) = if startsWith h (x :: c) then Some 0 else S <$> find_sub h c.
Proof. reflexivity. Qed.

(** The mark is searched line by line. *)
Lemma find_mark_line l s :
  NLfree l ->
  find_sub nextHeadingMark (l ++ NL :: s)
  = if startsWith headingPrefix s then Some (length l)
    else (fun i => length l + 1 + i) <$> find_sub nextHeadingMark s.
Proof.
  intros Hl. induction l as [|x l IH].
  - change ([] ++ NL :: s) with (NL :: s).
    rewrite find_sub_cons, startsWith_mark_cons, N.eqb_refl, andb_true_l.
    destruct (startsWith headingPrefix s); [reflexivity|].
    destruct (find_sub nextHeadingMark s); reflexivity.
  - inversion Hl as [|? ? Hx Hl']; subst.
    change ((x :: l) ++ NL :: s) with (x :: (l ++ NL :: s)).
    rewrite find_sub_cons, startsWith_mark_cons.
    assert ((NL =? x)%N = false) as -> by (apply N.eqb_neq; congruence).
    rewrite andb_false_l, (IH Hl').
    destruct (startsWith headingPrefix s); [reflexivity|].
    destruct (find_sub nextHeadingMark s); reflexivity.
Qed.

Lemma find_mark_NLfree l : NLfree l -> find_sub nextHeadingMark l = None.
Proof. apply find_sub_NLfree_None. now left. Qed.

Lemma trimStart_mark t : trimStart (nextHeadingMark ++ t) = headingPrefix ++ t.
Proof. reflexivity. Qed.

(** ** Rewriting the body of a section *)

Lemma replacedContent_found X nb c i :
  find_sub X c = Some i ->
  replacedContent X nb c = rewriteBody (fun _ => trim nb) X c i.
Proof.
  intros H. unfold replacedContent, rewriteBody. rewrite indexOf_0, H.
  destruct (bodyBounds X c i). reflexivity.
Qed.

Lemma appendedContent_found X entry c i :
  find_sub X c = Some i ->
  appendedContent X entry c = rewriteBody (appendBody entry) X c i.
Proof.
  intros H. unfold appendedContent, rewriteBody, appendBody. rewrite indexOf_0, H.
  destruct (bodyBounds X c i). reflexivity.
Qed.

Lemma find_sub_decompose h c i :
  find_sub h c = Some i -> c = take i c ++ h ++ drop (i + length h) c /\ i + length h <= length c.
Proof.
  intros H. destruct (find_sub_Some _ _ _ H) as (H1 & H2 & _).
  unfold occursAt in H1. apply startsWith_true in H1 as [r Hr].
  assert (Hd : drop (i + length h) c = r).
  { rewrite <- drop_drop, Hr. now rewrite drop_app_length. }
  split.
  - rewrite Hd, <- Hr. now rewrite take_drop.
  - assert (Hlen : length (drop i c) = length h + length r) by (rewrite Hr, length_app; lia).
    rewrite length_drop in Hlen. lia.
Qed.

Lemma find_NL_Some s n :
  find_sub [NL] s = Some n ->
  exists l r, s = l ++ NL :: r /\ length l = n /\ NLfree l.
Proof.
  intros H. destruct (find_sub_Some _ _ _ H) as (H1 & H2 & H3).
  apply occursAt_true in H1 as (l & r & -> & Hl); [|discriminate].
  exists l, r. repeat split; auto. unfold NLfree. apply Forall_lookup. intros k x Hk ->.
  assert (Hlt : k < n) by (rewrite <- Hl; now apply lookup_lt_Some in Hk).
  specialize (H3 k Hlt). unfold occursAt in H3.
  rewrite <- (take_drop k l), <- !app_assoc in H3.
  rewrite drop_app_length' in H3 by (rewrite length_take; apply lookup_lt_Some in Hk; lia).
  rewrite (drop_S l NL k Hk) in H3. simpl in H3. discriminate.
Qed.

Lemma find_NL_None s : find_sub [NL] s = None -> NLfree s.
Proof.
  intros H. unfold NLfree. apply Forall_lookup. intros k x Hk ->.
  pose proof (find_sub_None _ _ H k) as Hn.
  unfold occursAt in Hn. rewrite (drop_S s NL k Hk) in Hn.
  apply lookup_lt_Some in Hk. specialize (Hn ltac:(lia)). simpl in Hn. discriminate.
Qed.

Lemma find_sub_Some_split h c i :
  h <> [] -> find_sub h c = Some i ->
  exists l r, c = l ++ h ++ r /\ length l = i /\ find_sub h (l ++ h) = Some i.
Proof.
  intros Hh H. destruct (find_sub_decompose _ _ _ H) as [Hc Hlen].
  exists (take i c), (drop (i + length h) c). split; [exact Hc|].
  split; [apply length_take_le; lia|].
  apply (find_sub_app_inv h _ (drop (i + length h) c)).
  - now rewrite <- app_assoc, <- Hc.
  - rewrite length_app, length_take_le by lia. lia.
Qed.

Lemma mark_nonempty : nextHeadingMark <> [].
Proof. discriminate. Qed.

Lemma section_shape f X c i :
  find_sub X c = Some i -> SectionShape f X c i.
Proof.
  intros H. destruct (find_sub_decompose _ _ _ H) as [Hc Hlen].
  set (pre := take i c) in *. set (tail := drop (i + length X) c) in *.
  assert (Hpre : length pre = i) by (apply length_take_le; lia).
  assert (Hb : bodyBounds X c i
               = (match find_sub [NL] tail with
                  | Some n => i + length X + n + 1
                  | None => i + length X
                  end,
                  match find_sub nextHeadingMark tail with
                  | Some m => i + length X + m
                  | None => length c
                  end)).
  { unfold bodyBounds. rewrite !indexOf_from by lia. fold tail.
    destruct (find_sub [NL] tail), (find_sub nextHeadingMark tail); reflexivity. }
  assert (Htake : forall k, k <= length tail -> take (i + length X + k) c = pre ++ X ++ take k tail).
  { intros k Hk. rewrite Hc at 1. rewrite app_assoc.
    rewrite take_app_ge by (rewrite length_app; lia).
    rewrite length_app, Hpre. replace (i + length X + k - (i + length X)) with k by lia.
    now rewrite <- app_assoc. }
  assert (Hdrop : forall k, drop (i + length X + k) c = drop k tail).
  { intros k. unfold tail. now rewrite drop_drop. }
  assert (Hrw : rewriteBody f X c i
                = let bs := match find_sub [NL] tail with
                            | Some n => i + length X + n + 1
                            | None => i + length X
                            end in
                  let be := match find_sub nextHeadingMark tail with
                            | Some m => i + length X + m
                            | None => length c
                            end in
                  take bs c ++ f (take (be - bs) (drop bs c)) ++ [NL; NL]
                  ++ trimStart (drop be c)).
  { unfold rewriteBody. rewrite Hb. unfold slice, sliceFrom.
    now rewrite drop_0, Nat.sub_0_r. }
  clear Hb. cbv zeta in Hrw. clearbody pre tail.
  destruct (find_sub [NL] tail) as [n|] eqn:En.
  - destruct (find_NL_Some _ _ En) as (lr & rest & Ht & Hn & Hlr).
    assert (Htl : length tail = n + 1 + length rest).
    { rewrite Ht, length_app. simpl. lia. }
    assert (Hbefore : take (i + length X + n + 1) c = pre ++ X ++ lr ++ [NL]).
    { rewrite <- Nat.add_assoc, Htake by lia. rewrite Ht.
      replace (lr ++ NL :: rest) with ((lr ++ [NL]) ++ rest) by now rewrite <- app_assoc.
      rewrite take_app_length' by (rewrite length_app; simpl; lia). reflexivity. }
    rewrite Hbefore in Hrw.
    assert (Em : find_sub nextHeadingMark tail
                 = if startsWith headingPrefix rest then Some (length lr)
                   else (fun i => length lr + 1 + i) <$> find_sub nextHeadingMark rest).
    { rewrite Ht. now apply find_mark_line. }
    rewrite Em in Hrw. rewrite Ht in Em.
    destruct (startsWith headingPrefix rest) eqn:Ep.
    + apply startsWith_true in Ep as [t Ht2].
      apply (shape_inner f X c i pre lr [] t); auto.
      * rewrite Hc at 1. rewrite Ht, Ht2. reflexivity.
      * rewrite Ht2 in Em. simpl length. rewrite Nat.add_0_r. exact Em.
      * rewrite Hrw.
        replace (i + length X + length lr - (i + length X + n + 1)) with 0 by lia.
        rewrite take_0, Hdrop, Ht, drop_app_length, Ht2.
        change (NL :: headingPrefix ++ t) with (nextHeadingMark ++ t).
        rewrite trimStart_mark. rewrite <- !app_assoc. reflexivity.
    + destruct (find_sub nextHeadingMark rest) as [k|] eqn:Ek; simpl in Hrw.
      * destruct (find_sub_Some_split _ _ _ mark_nonempty Ek) as (b & t & Hr & Hbk & Hfirst).
        apply (shape_inner f X c i pre lr (NL :: b) t); auto.
        -- rewrite Hc at 1. rewrite Ht, Hr. reflexivity.
        -- right. eauto.
        -- simpl in Em. rewrite Hr in Em.
           etransitivity; [exact Em|]. simpl length. f_equal. lia.
        -- rewrite Hrw.
           assert (A1 : drop (i + length X + n + 1) c = rest).
           { rewrite <- Nat.add_assoc, Hdrop, Ht.
             replace (lr ++ NL :: rest) with ((lr ++ [NL]) ++ rest) by now rewrite <- app_assoc.
             apply drop_app_length'. rewrite length_app. simpl. lia. }
           assert (A2 : drop (i + length X + (length lr + 1 + k)) c = nextHeadingMark ++ t).
           { rewrite Hdrop, Ht.
             replace (lr ++ NL :: rest) with ((lr ++ [NL]) ++ rest) by now rewrite <- app_assoc.
             rewrite drop_app_add' by (rewrite length_app; simpl; lia).
             rewrite Hr. now apply drop_app_length'. }
           rewrite A1, A2.
           replace (i + length X + (length lr + 1 + k) - (i + length X + n + 1)) with k by lia.
           rewrite Hr, take_app_length' by lia.
           rewrite trimStart_mark. simpl drop. rewrite <- !app_assoc. reflexivity.
      * apply (shape_last_section f X c i pre lr rest); auto.
        -- rewrite Hc at 1. now rewrite Ht.
        -- rewrite Hrw. rewrite drop_all.
           assert (A1 : drop (i + length X + n + 1) c = rest).
           { rewrite <- Nat.add_assoc, Hdrop, Ht.
             replace (lr ++ NL :: rest) with ((lr ++ [NL]) ++ rest) by now rewrite <- app_assoc.
             apply drop_app_length'. rewrite length_app. simpl. lia. }
           rewrite A1, take_ge.
           ++ rewrite <- !app_assoc. reflexivity.
           ++ apply (f_equal length) in Hc. rewrite !length_app in Hc. lia.
  - pose proof (find_NL_None _ En) as Hfree.
    rewrite (find_mark_NLfree _ Hfree) in Hrw.
    apply (shape_last_line f X c i pre tail); auto.
    rewrite Hrw. rewrite drop_all.
    assert (A0 : take (i + length X) c = pre ++ X).
    { rewrite <- (Nat.add_0_r (i + length X)), Htake, take_0 by lia. now rewrite app_nil_r. }
    assert (A1 : drop (i + length X) c = tail).
    { rewrite <- (Nat.add_0_r (i + length X)), Hdrop. apply drop_0. }
    rewrite A0, A1, take_ge.
    + rewrite <- !app_assoc. reflexivity.
    + apply (f_equal length) in Hc. rewrite !length_app in Hc. lia.
Qed.

(** ** The text of a section, by position *)

Lemma sectionText_find Z c : sectionText Z c = sectionAt Z c <$> find_sub Z c.
Proof.
  unfold sectionText, sectionAt. rewrite indexOf_0.
  destruct (find_sub Z c); reflexivity.
Qed.

Lemma find_sub_exists h c j :
  occursAt h c j = true -> j <= length c -> exists e, find_sub h c = Some e /\ e <= j.
Proof.
  intros H Hj. destruct (find_sub h c) as [e|] eqn:E.
  - exists e. split; [reflexivity|]. destruct (find_sub_Some _ _ _ E) as (_ & _ & H3).
    destruct (Nat.le_gt_cases e j); [assumption|]. rewrite H3 in H by lia. discriminate.
  - rewrite (find_sub_None _ _ E j Hj) in H. discriminate.
Qed.

(** A section that ends inside the first part of a document. *)
Lemma sectionAt_app_l Z p q k e :
  k + length Z <= length p ->
  find_sub nextHeadingMark (drop (k + length Z) p) = Some e ->
  sectionAt Z (p ++ q) k = take (length Z + e) (drop k p).
Proof.
  intros Hk He. unfold sectionAt.
  rewrite indexOf_from by (rewrite length_app; lia).
  rewrite drop_app_le by lia. rewrite (find_sub_app_l _ _ q _ He). simpl.
  unfold slice. rewrite drop_app_le by lia.
  destruct (find_sub_Some _ _ _ He) as (_ & Hle & _). rewrite length_drop in Hle.
  rewrite take_app_le by (rewrite length_drop; lia). f_equal. lia.
Qed.

(** A section that starts inside the second part. *)
Lemma sectionAt_app_r Z p q k :
  sectionAt Z (p ++ q) (length p + k) = sectionAt Z q k.
Proof.
  unfold sectionAt, indexOf, slice, sliceFrom.
  rewrite length_app.
  replace (Nat.min (length p + k + length Z) (length p + length q))
    with (length p + Nat.min (k + length Z) (length q)) by lia.
  rewrite !drop_app_add.
  destruct (find_sub nextHeadingMark (drop _ q)) as [e|]; simpl; [|reflexivity].
  f_equal. lia.
Qed.

Lemma afterNL_split c i :
  afterNL c i -> c = take (i - 1) c ++ NL :: drop i c /\ length (take (i - 1) c) = i - 1.
Proof.
  intros [Hi Hc]. split.
  - rewrite <- (take_drop (i - 1) c) at 1. f_equal.
    rewrite (drop_S c NL (i - 1) Hc). do 2 f_equal. lia.
  - apply length_take_le. apply lookup_lt_Some in Hc. lia.
Qed.

(** Writing the body of [X] leaves a heading [Z] that comes before it where
    it was, with its section text. *)
Lemma frame_before X Z c i iZ q :
  find_sub X c = Some i -> startsWith headingPrefix X = true -> afterNL c i ->
  find_sub Z c = Some iZ -> iZ < i -> NLfree Z -> Z <> [] ->
  let new := take (i + length X) c ++ q in
  find_sub Z new = Some iZ
  /\ sectionText Z new = sectionText Z c
  /\ take i new = take i c.
Proof.
  intros HX Hpx Hnl HZ Hlt HZf HZne new.
  destruct (afterNL_split _ _ Hnl) as [Hc Hl0]. set (pre0 := take (i - 1) c) in *.
  destruct (find_sub_decompose _ _ _ HX) as [HcX HlenX].
  assert (Hd : drop i c = X ++ drop (i + length X) c).
  { rewrite HcX at 1. rewrite drop_app_length' by (symmetry; apply length_take_le; lia).
    reflexivity. }
  apply startsWith_true in Hpx as [x' Hx'].
  set (p := pre0 ++ nextHeadingMark).
  assert (Hcp : c = p ++ x' ++ drop (i + length X) c).
  { rewrite Hc at 1. rewrite Hd, Hx'. unfold p. rewrite <- !app_assoc. reflexivity. }
  assert (Hnp : new = p ++ x' ++ q).
  { unfold new. rewrite Hcp at 1.
    assert (length p + length x' = i + length X).
    { unfold p. rewrite length_app, Hl0, Hx', length_app. simpl. lia. }
    rewrite app_assoc, take_app_length' by (rewrite length_app; lia).
    now rewrite <- app_assoc. }
  assert (HZ0 : find_sub Z pre0 = Some iZ).
  { rewrite Hc in HZ. rewrite find_sub_NL_split in HZ by assumption.
    destruct (find_sub Z pre0) as [j|]; [exact HZ|].
    destruct (find_sub Z (drop i c)); simpl in HZ; [|discriminate].
    inversion HZ. lia. }
  destruct (find_sub_decompose _ _ _ HZ0) as [_ HlenZ].
  assert (HZp : find_sub Z p = Some iZ) by now apply find_sub_app_l.
  assert (Hmark : exists e, find_sub nextHeadingMark (drop (iZ + length Z) p) = Some e).
  { destruct (find_sub_exists nextHeadingMark (drop (iZ + length Z) p)
                (length pre0 - (iZ + length Z))) as [e [He _]].
    - unfold occursAt, p. rewrite drop_drop.
      replace (iZ + length Z + (length pre0 - (iZ + length Z))) with (length pre0) by lia.
      rewrite drop_app_length. apply startsWith_true. exists []. now rewrite app_nil_r.
    - rewrite length_drop. unfold p. rewrite length_app. lia.
    - eauto. }
  destruct Hmark as [e He].
  assert (Hlp : iZ + length Z <= length p) by (unfold p; rewrite length_app; lia).
  split; [|split].
  - rewrite Hnp. now apply find_sub_app_l.
  - assert (S : forall r, sectionText Z (p ++ r) = Some (take (length Z + e) (drop iZ p))).
    { intros r. rewrite sectionText_find, (find_sub_app_l _ _ _ _ HZp). simpl.
      now rewrite (sectionAt_app_l Z p _ iZ e Hlp He). }
    rewrite Hnp, S. rewrite Hcp, S. reflexivity.
  - unfold new. rewrite take_app_le by (rewrite length_take; lia).
    rewrite take_take. f_equal. lia.
Qed.

Lemma find_sub_nil_None Z : Z <> [] -> find_sub Z [] = None.
Proof. destruct Z; [contradiction|reflexivity]. Qed.

Lemma find_sub_None_app_l Z u v : find_sub Z (u ++ v) = None -> find_sub Z u = None.
Proof.
  intros H. destruct (find_sub Z u) as [j|] eqn:E; [|reflexivity].
  now rewrite (find_sub_app_l _ _ v _ E) in H.
Qed.

Lemma find_sub_None_app_r Z u v : find_sub Z (u ++ v) = None -> find_sub Z v = None.
Proof.
  intros H. apply find_sub_None_intro. intros j Hj.
  rewrite <- (occursAt_app_r Z u v j). apply (find_sub_None _ _ H).
  rewrite length_app. lia.
Qed.

(** Where a heading is found after a rewritten body. *)
Lemma find_sub_rewritten Z u M A k :
  NLfree Z -> Z <> [] ->
  find_sub Z u = None -> find_sub Z M = None -> find_sub Z A = Some k ->
  find_sub Z (u ++ [NL] ++ M ++ [NL; NL] ++ A) = Some (length u + 1 + length M + 2 + k).
Proof.
  intros HZ Hne Hu HM HA.
  change (u ++ [NL] ++ M ++ [NL; NL] ++ A) with (u ++ NL :: (M ++ NL :: ([] ++ NL :: A))).
  rewrite (find_sub_NL_split Z u) by assumption. rewrite Hu.
  rewrite (find_sub_NL_split Z M) by assumption. rewrite HM.
  rewrite (find_sub_NL_split Z []) by assumption. rewrite (find_sub_nil_None Z Hne), HA.
  simpl. f_equal. lia.
Qed.

Lemma mark_occurs_before c i Z :
  afterNL c i -> startsWith headingPrefix Z = true -> occursAt Z c i = true ->
  occursAt nextHeadingMark c (i - 1) = true.
Proof.
  intros [Hpos Hl] HZ Hocc. unfold occursAt in *.
  rewrite (drop_S c NL (i - 1) Hl). replace (S (i - 1)) with i by lia.
  rewrite startsWith_mark_cons, N.eqb_refl, andb_true_l.
  apply startsWith_true in Hocc as [r ->]. apply startsWith_true in HZ as [z ->].
  rewrite <- app_assoc. apply startsWith_app.
Qed.

Lemma NLfree_app a b : NLfree (a ++ b) <-> NLfree a /\ NLfree b.
Proof. apply Forall_app. Qed.

Lemma NLfree_lookup s k : NLfree s -> s !! k <> Some NL.
Proof.
  intros H Hk. unfold NLfree in H. rewrite Forall_lookup in H. now apply (H k NL Hk).
Qed.

(** A line feed after the start of [X] comes after all of [X] and the rest
    of its line. *)
Lemma NL_after_heading pre X lr rest j :
  NLfree X -> NLfree lr -> length pre <= j ->
  (pre ++ X ++ lr ++ rest) !! j = Some NL ->
  length pre + length X + length lr <= j.
Proof.
  intros HX Hlr Hj Hc. destruct (Nat.le_gt_cases (length pre + length X + length lr) j);
    [assumption|exfalso].
  rewrite lookup_app_r in Hc by lia. rewrite app_assoc in Hc.
  rewrite lookup_app_l in Hc by (rewrite length_app; lia).
  apply (NLfree_lookup (X ++ lr) (j - length pre)); [|exact Hc].
  apply NLfree_app. auto.
Qed.

(** The section text of a heading that another heading line follows. *)
Lemma section_inner_text X c i pre lr body t :
  find_sub X c = Some i ->
  c = pre ++ X ++ lr ++ body ++ nextHeadingMark ++ t -> length pre = i ->
  find_sub nextHeadingMark (lr ++ body ++ nextHeadingMark ++ t)
  = Some (length lr + length body) ->
  sectionText X c = Some (X ++ lr ++ body).
Proof.
  intros HX Hc Hpre Hfirst.
  rewrite sectionText_find, HX. simpl. f_equal. unfold sectionAt.
  rewrite indexOf_from by (apply find_sub_decompose in HX; lia).
  assert (Hd : drop (i + length X) c = lr ++ body ++ nextHeadingMark ++ t).
  { rewrite Hc, app_assoc. apply drop_app_length'. rewrite length_app. lia. }
  rewrite Hd, Hfirst. simpl. unfold slice.
  assert (Hdi : drop i c = (X ++ lr ++ body) ++ nextHeadingMark ++ t).
  { rewrite Hc, <- !app_assoc. now apply drop_app_length'. }
  rewrite Hdi.
  replace (i + length X + (length lr + length body) - i)
    with (length (X ++ lr ++ body)) by (rewrite !length_app; lia).
  apply take_app_length.
Qed.

(** Writing the body of [X] moves every heading after it by the same
    amount and keeps its section text, when the new body does not hold that
    heading. *)
Lemma frame_after f X c i :
  find_sub X c = Some i -> NLfree X ->
  exists a a',
    i + length X < a' /\
    forall Z iZ,
      find_sub Z c = Some iZ -> i < iZ -> afterNL c iZ -> niceHeading Z ->
      (forall b, find_sub Z b = None -> find_sub Z (f b) = None) ->
      a <= iZ
      /\ find_sub Z (rewriteBody f X c i) = Some (iZ - a + a')
      /\ afterNL (rewriteBody f X c i) (iZ - a + a')
      /\ sectionText Z (rewriteBody f X c i) = sectionText Z c
      /\ forall s, sectionText X c = Some s -> find_sub Z s = None.
Proof.
  intros HX HXf.
  assert (Hmark : forall pre tail Z iZ,
             c = pre ++ X ++ tail -> length pre = i ->
             find_sub Z c = Some iZ -> i < iZ -> afterNL c iZ -> niceHeading Z ->
             forall lr rest, tail = lr ++ rest -> NLfree lr ->
             length lr <= iZ - 1 - (i + length X)
             /\ i + length X <= iZ - 1
             /\ occursAt nextHeadingMark tail (iZ - 1 - (i + length X)) = true).
  { intros pre tail Z iZ Hc Hpre HZ Hlt Hnl [HZp HZf] lr rest Ht Hlr.
    destruct (find_sub_Some _ _ _ HZ) as (Hocc & _ & _).
    pose proof (mark_occurs_before _ _ _ Hnl HZp Hocc) as Hm.
    destruct Hnl as [Hpos Hlook].
    assert (Hge : length pre + length X + length lr <= iZ - 1).
    { apply (NL_after_heading pre X lr rest); auto; [lia|]. now rewrite <- Ht, <- Hc. }
    split; [lia|]. split; [lia|].
    unfold occursAt in *. rewrite Hc in Hm.
    replace (iZ - 1) with (length (pre ++ X) + (iZ - 1 - (i + length X))) in Hm
      by (rewrite length_app; lia).
    now rewrite app_assoc, drop_app_add in Hm. }
  destruct (section_shape f X c i HX)
    as [pre tail Hc Hpre Hfree Hrw
       |pre lr body Hc Hpre Hlr Hnone Hrw
       |pre lr body t Hc Hpre Hlr Hbody Hfirst Hrw].
  - exists 0, (i + length X + 1). split; [lia|].
    intros Z iZ HZ Hlt Hnl HZn _. exfalso.
    destruct (Hmark pre tail Z iZ Hc Hpre HZ Hlt Hnl HZn tail [] (eq_sym (app_nil_r _)) Hfree)
      as (_ & _ & Hocc).
    rewrite (find_sub_None _ _ (find_mark_NLfree _ Hfree)) in Hocc; [discriminate|].
    apply find_sub_decompose in HZ as [_ HZlen]. apply (f_equal length) in Hc.
    rewrite !length_app in Hc. lia.
  - exists 0, (i + length X + 1). split; [lia|].
    intros Z iZ HZ Hlt Hnl HZn _. exfalso.
    destruct (Hmark pre (lr ++ NL :: body) Z iZ Hc Hpre HZ Hlt Hnl HZn lr (NL :: body)
                eq_refl Hlr) as (_ & _ & Hocc).
    rewrite (find_sub_None _ _ Hnone) in Hocc; [discriminate|].
    apply find_sub_decompose in HZ as [_ HZlen]. apply (f_equal length) in Hc.
    rewrite !length_app in Hc. rewrite length_app. lia.
  - set (M := f (drop 1 body)) in *.
    set (u := pre ++ X ++ lr).
    set (A := headingPrefix ++ t).
    exists (length (u ++ body) + 1), (length u + 1 + length M + 2).
    split; [unfold u; rewrite !length_app; lia|].
    intros Z iZ HZ Hlt Hnl HZn Hfresh.
    destruct (Hmark pre (lr ++ body ++ nextHeadingMark ++ t) Z iZ Hc Hpre HZ Hlt Hnl HZn
                lr (body ++ nextHeadingMark ++ t) eq_refl Hlr) as (Hlr' & Hge & Hocc).
    destruct (find_sub_Some _ _ _ Hfirst) as (_ & _ & Hmin).
    assert (Ha : length (u ++ body) + 1 <= iZ).
    { destruct (Nat.le_gt_cases (length lr + length body) (iZ - 1 - (i + length X)))
        as [Hle|Hgt].
      - unfold u. rewrite !length_app. lia.
      - rewrite (Hmin _ Hgt) in Hocc. discriminate. }
    destruct HZn as [HZp HZf]. pose proof (niceHeading_nonempty Z (conj HZp HZf)) as HZne.
    assert (HcA : c = (u ++ body) ++ NL :: A).
    { rewrite Hc. unfold u, A, nextHeadingMark. rewrite <- !app_assoc. reflexivity. }
    assert (Hub : find_sub Z (u ++ body) = None /\ exists k, find_sub Z A = Some k
                                                     /\ iZ = length (u ++ body) + 1 + k).
    { rewrite HcA in HZ. rewrite find_sub_NL_split in HZ by assumption.
      destruct (find_sub Z (u ++ body)) as [j|] eqn:Ej.
      - inversion HZ; subst j. apply find_sub_decompose in Ej as [_ Hj].
        pose proof (niceHeading_length Z (conj HZp HZf)). lia.
      - split; [reflexivity|]. destruct (find_sub Z A) as [k|]; [|discriminate].
        simpl in HZ. inversion HZ. eauto. }
    destruct Hub as (Hub & k & HA & HiZ).
    assert (HM : find_sub Z M = None).
    { apply Hfresh. destruct Hbody as [->|[b ->]]; [now apply find_sub_nil_None|].
      simpl. replace (u ++ NL :: b) with ((u ++ [NL]) ++ b) in Hub
        by now rewrite <- app_assoc.
      now apply find_sub_None_app_r in Hub. }
    assert (Hnew : rewriteBody f X c i = (u ++ [NL] ++ M ++ [NL; NL]) ++ A).
    { rewrite Hrw. unfold u, A, nextHeadingMark. rewrite <- !app_assoc. reflexivity. }
    assert (Hfind : find_sub Z (rewriteBody f X c i) = Some (length u + 1 + length M + 2 + k)).
    { rewrite Hnew, <- !app_assoc.
      apply find_sub_rewritten; auto. now apply find_sub_None_app_l in Hub. }
    replace (iZ - (length (u ++ body) + 1) + (length u + 1 + length M + 2))
      with (length u + 1 + length M + 2 + k) by lia.
    split; [exact Ha|]. split; [exact Hfind|].
    assert (Hsec : forall s, sectionText X c = Some s -> find_sub Z s = None).
    { intros s Hs. rewrite (section_inner_text X c i pre lr body t HX Hc Hpre Hfirst) in Hs.
      inversion Hs; subst s. unfold u in Hub. rewrite <- !app_assoc in Hub.
      now apply find_sub_None_app_r in Hub. }
    split; [|split; [|exact Hsec]].
    + split; [lia|]. rewrite Hnew.
      destruct k as [|k].
      * rewrite lookup_app_l by (rewrite !length_app; simpl; lia).
        replace (length u + 1 + length M + 2 + 0 - 1)
          with (length (u ++ [NL] ++ M ++ [NL]) + 0)
          by (rewrite !length_app; simpl; lia).
        replace (u ++ [NL] ++ M ++ [NL; NL]) with ((u ++ [NL] ++ M ++ [NL]) ++ [NL])
          by (rewrite <- !app_assoc; reflexivity).
        now rewrite lookup_app_r, Nat.add_0_r, Nat.sub_diag by lia.
      * rewrite lookup_app_r by (rewrite !length_app; simpl; lia).
        destruct Hnl as [_ Hl]. rewrite HcA in Hl.
        replace (u ++ body) with (u ++ body) in Hl by reflexivity.
        replace ((u ++ body) ++ NL :: A) with ((u ++ body ++ [NL]) ++ A) in Hl
          by (rewrite <- !app_assoc; reflexivity).
        rewrite lookup_app_r in Hl by (rewrite !length_app in *; simpl; lia).
        rewrite <- Hl. f_equal. rewrite !length_app in *. simpl. lia.
    + rewrite !sectionText_find, Hfind, HZ. simpl. f_equal.
      rewrite Hnew.
      replace (length u + 1 + length M + 2 + k)
        with (length (u ++ [NL] ++ M ++ [NL; NL]) + k)
        by (rewrite !length_app; simpl; lia).
      rewrite sectionAt_app_r.
      replace c with ((u ++ body ++ [NL]) ++ A)
        by (rewrite HcA, <- !app_assoc; reflexivity).
      replace iZ with (length (u ++ body ++ [NL]) + k)
        by (rewrite HiZ, !length_app; simpl; lia).
      now rewrite sectionAt_app_r.
Qed.

(** ** The section that was rewritten *)

Lemma markFree_inv M :
  markFree M ->
  startsWith headingPrefix M = false /\ find_sub nextHeadingMark (M ++ [NL]) = None.
Proof.
  unfold markFree. change (NL :: M ++ [NL]) with ([] ++ NL :: (M ++ [NL])).
  rewrite find_mark_line by constructor.
  rewrite <- (startsWith_prefix_NLfree M []).
  destruct (startsWith headingPrefix (M ++ [NL])); [discriminate|].
  destruct (find_sub nextHeadingMark (M ++ [NL])); [discriminate|auto].
Qed.

Lemma find_mark_after U t :
  find_sub nextHeadingMark (U ++ [NL]) = None ->
  find_sub nextHeadingMark ((U ++ [NL]) ++ nextHeadingMark ++ t) = Some (length U + 1).
Proof.
  intros Hn. apply find_sub_intro.
  - replace (length U + 1) with (length (U ++ [NL]) + 0) by (rewrite length_app; simpl; lia).
    rewrite occursAt_app_r. apply startsWith_app.
  - rewrite !length_app. simpl. lia.
  - intros j Hj.
    destruct (Nat.le_gt_cases (j + 4) (length U + 1)) as [Hin|Hout].
    + rewrite occursAt_app_l by (rewrite length_app; simpl; lia).
      apply (find_sub_None _ _ Hn). rewrite length_app. simpl. lia.
    + destruct (occursAt nextHeadingMark _ j) eqn:E; [exfalso|reflexivity].
      assert (HU : forall k x, nextHeadingMark !! k = Some x -> j + k = length U ->
                               x = NL).
      { intros k x Hk Hjk. pose proof (occursAt_lookup _ _ _ _ _ E Hk) as Hc.
        rewrite Hjk in Hc. rewrite <- app_assoc in Hc. cbn [app] in Hc.
        rewrite list_lookup_middle in Hc by reflexivity. congruence. }
      destruct (Nat.eq_dec j (length U)) as [->|Hne].
      * assert (Hk : nextHeadingMark !! 1 = Some HASH) by reflexivity.
        pose proof (occursAt_lookup _ _ _ _ _ E Hk) as Hc.
        rewrite lookup_app_r in Hc by (rewrite length_app; simpl; lia).
        rewrite length_app in Hc. simpl in Hc.
        replace (length U + 1 - (length U + 1)) with 0 in Hc by lia.
        simpl in Hc. discriminate.
      * assert (Hcase : length U - j = 1 \/ length U - j = 2 \/ length U - j = 3) by lia.
        destruct Hcase as [Hk|[Hk|Hk]].
        -- specialize (HU 1 HASH eq_refl ltac:(lia)). discriminate.
        -- specialize (HU 2 HASH eq_refl ltac:(lia)). discriminate.
        -- specialize (HU 3 SP eq_refl ltac:(lia)). discriminate.
Qed.

(** A heading is found again where it was after its body is rewritten. *)
Lemma rewrite_own f X c i :
  find_sub X c = Some i -> X <> [] ->
  find_sub X (rewriteBody f X c i) = Some i
  /\ exists q, rewriteBody f X c i = take (i + length X) c ++ q.
Proof.
  intros HX Hne.
  destruct (find_sub_Some_split _ _ _ Hne HX) as (l & r & Hc & Hl & Hfirst).
  assert (Ht : take (i + length X) c = l ++ X).
  { rewrite Hc, app_assoc. apply take_app_length'. rewrite length_app. lia. }
  assert (Hq : exists q, rewriteBody f X c i = take (i + length X) c ++ q).
  { rewrite Ht.
    destruct (section_shape f X c i HX)
      as [pre tail Hc' Hpre Hfree Hrw
         |pre lr body Hc' Hpre Hlr Hnone Hrw
         |pre lr body t Hc' Hpre Hlr Hbody Hfirst' Hrw];
      assert (pre = l) as ->
        by (apply (f_equal (take i)) in Hc'; rewrite Hc in Hc';
            rewrite !take_app_length' in Hc' by lia; congruence);
      rewrite Hrw; eexists; rewrite <- !app_assoc; reflexivity. }
  split; [|exact Hq]. destruct Hq as [q ->]. rewrite Ht. now apply find_sub_app_l.
Qed.

(** The section text of [X] before and after its body is rewritten, when
    another heading line follows. *)
Lemma own_section f X c i :
  find_sub X c = Some i -> NLfree X -> X <> [] ->
  (exists Z iZ, find_sub Z c = Some iZ /\ i < iZ /\ afterNL c iZ /\ niceHeading Z) ->
  exists lr body,
    NLfree lr
    /\ (body = [] \/ exists b, body = NL :: b)
    /\ sectionText X c = Some (X ++ lr ++ body)
    /\ (markFree (f (drop 1 body)) ->
        sectionText X (rewriteBody f X c i)
        = Some (X ++ lr ++ [NL] ++ f (drop 1 body) ++ [NL])).
Proof.
  intros HX HXf HXne (Z & iZ & HZ & Hlt & Hnl & HZn).
  destruct (section_shape f X c i HX)
    as [pre tail Hc Hpre Hfree Hrw
       |pre lr body Hc Hpre Hlr Hnone Hrw
       |pre lr body t Hc Hpre Hlr Hbody Hfirst Hrw].
  - exfalso. destruct HZn as [HZp HZf].
    destruct (find_sub_Some _ _ _ HZ) as (Hocc & _ & _).
    pose proof (mark_occurs_before _ _ _ Hnl HZp Hocc) as Hm.
    destruct Hnl as [Hpos Hlook].
    assert (Hge : length pre + length X + length tail <= iZ - 1).
    { apply (NL_after_heading pre X tail []); auto; [lia|]. now rewrite app_nil_r, <- Hc. }
    apply lookup_lt_Some in Hlook. apply (f_equal length) in Hc.
    rewrite !length_app in Hc. lia.
  - exfalso. destruct HZn as [HZp HZf].
    destruct (find_sub_Some _ _ _ HZ) as (Hocc & HiZ & _).
    pose proof (mark_occurs_before _ _ _ Hnl HZp Hocc) as Hm.
    destruct Hnl as [Hpos Hlook].
    assert (Hge : length pre + length X + length lr <= iZ - 1).
    { apply (NL_after_heading pre X lr (NL :: body)); auto; [lia|]. now rewrite <- Hc. }
    unfold occursAt in Hm. rewrite Hc in Hm.
    replace (iZ - 1) with (length (pre ++ X) + (iZ - 1 - (i + length X))) in Hm
      by (rewrite length_app; lia).
    rewrite app_assoc, drop_app_add in Hm.
    assert (iZ - 1 - (i + length X) <= length (lr ++ NL :: body)).
    { apply (f_equal length) in Hc. rewrite !length_app in Hc. rewrite length_app. lia. }
    fold (occursAt nextHeadingMark (lr ++ NL :: body) (iZ - 1 - (i + length X))) in Hm.
    rewrite (find_sub_None _ _ Hnone) in Hm by assumption. discriminate.
  - exists lr, body. split; [exact Hlr|]. split; [exact Hbody|].
    assert (Hd : forall r, drop (i + length X) (pre ++ X ++ r) = r).
    { intros r. rewrite app_assoc. apply drop_app_length'. rewrite length_app. lia. }
    assert (Hdi : forall r, drop i (pre ++ r) = r).
    { intros r. now apply drop_app_length'. }
    split; [exact (section_inner_text X c i pre lr body t HX Hc Hpre Hfirst)|].
    intros Hfree. set (M := f (drop 1 body)) in *.
      destruct (markFree_inv M Hfree) as [Hstart Hnone].
      destruct (rewrite_own f X c i HX HXne) as [Hown _].
      rewrite sectionText_find, Hown. simpl. f_equal. unfold sectionAt.
      assert (Hlen : i + length X <= length (rewriteBody f X c i)).
      { apply find_sub_decompose in Hown. lia. }
      rewrite indexOf_from by exact Hlen.
      rewrite Hrw, Hd.
      assert (Hfind : find_sub nextHeadingMark (lr ++ [NL] ++ M ++ [NL] ++ nextHeadingMark ++ t)
                      = Some (length lr + 1 + (length M + 1))).
      { change (lr ++ [NL] ++ M ++ [NL] ++ nextHeadingMark ++ t)
          with (lr ++ NL :: (M ++ [NL] ++ nextHeadingMark ++ t)).
        rewrite find_mark_line by exact Hlr.
        change (M ++ [NL] ++ nextHeadingMark ++ t) with (M ++ NL :: (nextHeadingMark ++ t)).
        rewrite startsWith_prefix_NLfree, Hstart.
        change (M ++ NL :: (nextHeadingMark ++ t)) with (M ++ [NL] ++ nextHeadingMark ++ t).
        rewrite app_assoc, (find_mark_after M t Hnone). reflexivity. }
      rewrite Hfind. simpl. unfold slice. rewrite Hdi.
      replace (i + length X + (length lr + 1 + (length M + 1)) - i)
        with (length (X ++ lr ++ [NL] ++ M ++ [NL])) by (rewrite !length_app; simpl; lia).
      transitivity (take (length (X ++ lr ++ [NL] ++ M ++ [NL]))
                      ((X ++ lr ++ [NL] ++ M ++ [NL]) ++ nextHeadingMark ++ t)).
      * f_equal. rewrite <- !app_assoc. reflexivity.
      * apply take_app_length.
Qed.

(** ** Trimming *)

Lemma dropWhile_suffix p s : exists l, s = l ++ dropWhile p s.
Proof.
  induction s as [|x s [l IH]]; simpl.
  - now exists [].
  - destruct (p x).
    + exists (x :: l). simpl. now f_equal.
    + now exists [].
Qed.

Lemma dropWhile_snoc p s x : p x = false -> dropWhile p (s ++ [x]) = dropWhile p s ++ [x].
Proof.
  intros Hx. induction s as [|y s IH]; simpl.
  - now rewrite Hx.
  - destruct (p y); [exact IH|reflexivity].
Qed.

Lemma trimStart_suffix s : exists l, s = l ++ trimStart s.
Proof. apply dropWhile_suffix. Qed.

Lemma trimEnd_prefix s : exists r, s = trimEnd s ++ r.
Proof.
  unfold trimEnd. destruct (dropWhile_suffix isSpace (rev s)) as [l Hl].
  exists (rev l). rewrite <- rev_app_distr, <- Hl. now rewrite rev_involutive.
Qed.

Lemma trim_infix s : exists l r, s = l ++ trim s ++ r.
Proof.
  unfold trim. destruct (trimStart_suffix s) as [l Hl].
  destruct (trimEnd_prefix (trimStart s)) as [r Hr].
  exists l, r. now rewrite <- Hr.
Qed.

Lemma trimStart_cons x s : isSpace x = false -> trimStart (x :: s) = x :: s.
Proof. intros H. unfold trimStart. simpl. now rewrite H. Qed.

Lemma trimEnd_cons x s : isSpace x = false -> trimEnd (x :: s) = x :: trimEnd s.
Proof.
  intros H. unfold trimEnd. simpl rev. rewrite (dropWhile_snoc _ _ _ H).
  now rewrite rev_app_distr.
Qed.

Lemma trimEnd_snoc s x : isSpace x = false -> trimEnd (s ++ [x]) = s ++ [x].
Proof.
  intros H. unfold trimEnd. rewrite rev_app_distr. simpl. rewrite H.
  simpl. now rewrite rev_involutive.
Qed.

Lemma trim_trimmed s : trimmed s -> trim s = s.
Proof.
  intros [(x & r & -> & Hx) (r' & y & Hy & Hsp)]. unfold trim.
  rewrite (trimStart_cons _ _ Hx), Hy. now apply trimEnd_snoc.
Qed.

Lemma dropWhile_head p s x r : dropWhile p s = x :: r -> p x = false.
Proof.
  induction s as [|y s IH]; simpl; [discriminate|].
  destruct (p y) eqn:E; [exact IH|]. now intros [= <- _].
Qed.

Lemma trim_nonempty_trimmed s : trim s <> [] -> trimmed (trim s).
Proof.
  intros Hne. unfold trim in *. set (t := trimStart s) in *.
  assert (Hlast : exists r x, trimEnd t = r ++ [x] /\ isSpace x = false).
  { unfold trimEnd in *. destruct (dropWhile isSpace (rev t)) as [|x r] eqn:E; [contradiction|].
    exists (rev r), x. simpl. split; [reflexivity|]. now apply dropWhile_head in E. }
  split; [|exact Hlast].
  destruct t as [|x r] eqn:Et; [contradiction|].
  assert (Hx : isSpace x = false) by (unfold t, trimStart in Et; now apply dropWhile_head in Et).
  rewrite (trimEnd_cons _ _ Hx). eauto.
Qed.

(** ** Lines *)

Lemma splitNL_nonempty s : splitNL s <> [].
Proof.
  induction s as [|x s IH]; simpl; [discriminate|].
  destruct (x =? NL)%N; [discriminate|]. destruct (splitNL s); discriminate.
Qed.

Lemma splitNL_NLfree l : NLfree l -> splitNL l = [l].
Proof.
  induction 1 as [|x l Hx Hl IH]; [reflexivity|]. simpl.
  assert ((x =? NL)%N = false) as -> by now apply N.eqb_neq. now rewrite IH.
Qed.

Lemma splitNL_line l s : NLfree l -> splitNL (l ++ NL :: s) = l :: splitNL s.
Proof.
  induction 1 as [|x l Hx Hl IH]; [reflexivity|]. simpl.
  assert ((x =? NL)%N = false) as -> by now apply N.eqb_neq. now rewrite IH.
Qed.

Lemma join_cons sep l ls : ls <> [] -> join sep (l :: ls) = l ++ sep ++ join sep ls.
Proof. destruct ls; [contradiction|reflexivity]. Qed.

Lemma splitNL_join ls :
  ls <> [] -> Forall NLfree ls -> splitNL (join [NL] ls) = ls.
Proof.
  intros Hne Hls. induction Hls as [|l ls Hl Hls IH]; [contradiction|].
  destruct ls as [|l' ls].
  - simpl. now apply splitNL_NLfree.
  - rewrite join_cons by discriminate. change ([NL] ++ ?x) with (NL :: x).
    rewrite splitNL_line by exact Hl. f_equal. apply IH. discriminate.
Qed.

Lemma splitNL_In s l : In l (splitNL s) -> exists a b, s = a ++ l ++ b.
Proof.
  revert l. induction s as [|x s IH]; intros l; simpl.
  - intros [<-|[]]. now exists [], [].
  - destruct (x =? NL)%N eqn:E.
    + intros [<-|Hin].
      * exists [], (x :: s). reflexivity.
      * destruct (IH l Hin) as (a & b & ->). exists (x :: a), b. reflexivity.
    + destruct (splitNL s) as [|l0 ls] eqn:Es; [now destruct (splitNL_nonempty s)|].
      intros [<-|Hin].
      * destruct (IH l0 (or_introl eq_refl)) as (a & b & Hs).
        (* the first line of [s] starts [s] *)
        assert (Hpre : exists b', s = l0 ++ b').
        { clear -Es. revert l0 ls Es. induction s as [|y s IHs]; intros l0 ls; simpl.
          - intros [= <- <-]. now exists [].
          - destruct (y =? NL)%N.
            + intros [= <- <-]. now exists (y :: s).
            + destruct (splitNL s) as [|l1 ls1]; [intros [= <- <-]; now exists s|].
              intros [= <- <-]. destruct (IHs l1 ls1 eq_refl) as [b' ->].
              now exists b'. }
        destruct Hpre as [b' ->]. exists [], b'. reflexivity.
      * destruct (IH l (or_intror Hin)) as (a & b & ->). exists (x :: a), b. reflexivity.
Qed.

Lemma find_sub_None_infix Z a l b : find_sub Z (a ++ l ++ b) = None -> find_sub Z l = None.
Proof. intros H. apply find_sub_None_app_r in H. now apply find_sub_None_app_l in H. Qed.

(** A heading that starts with [#] is not found in a text that starts with
    other characters, unless it is found after them. *)
Lemma find_sub_skip_chars Z p q :
  (forall x, In x p -> head Z <> Some x) -> Z <> [] ->
  find_sub Z (p ++ q) = (fun i => length p + i) <$> find_sub Z q.
Proof.
  intros Hp Hne. apply find_sub_skip. intros j Hj.
  destruct (occursAt Z (p ++ q) j) eqn:E; [exfalso|reflexivity].
  destruct Z as [|z Z]; [contradiction|].
  assert (Hz : (z :: Z) !! 0 = Some z) by reflexivity.
  pose proof (occursAt_lookup _ _ _ _ _ E Hz) as Hc. rewrite Nat.add_0_r in Hc.
  rewrite lookup_app_l in Hc by exact Hj.
  apply (Hp z); [|reflexivity]. apply list_elem_of_In. eapply list_elem_of_lookup_2. exact Hc.
Qed.

Lemma find_sub_join_None Z ls :
  NLfree Z -> Z <> [] ->
  Forall (fun l => find_sub Z l = None) ls -> find_sub Z (join [NL] ls) = None.
Proof.
  intros HZ Hne Hls. induction Hls as [|l ls Hl Hls IH].
  - now apply find_sub_nil_None.
  - destruct ls as [|l' ls]; [exact Hl|].
    rewrite join_cons by discriminate. change ([NL] ++ ?x) with (NL :: x).
    rewrite find_sub_NL_split by assumption. rewrite Hl, IH. reflexivity.
Qed.

(** ** The plan codec *)

Lemma goodText_NLfree t : goodText t -> NLfree t.
Proof.
  intros [_ H]. unfold noLineTerminator in H. rewrite forallb_forall in H.
  apply Forall_forall. intros x Hx ->. apply list_elem_of_In, H in Hx. discriminate.
Qed.

Lemma dotPlusEnd_Some s t : dotPlusEnd s = Some t -> t = s /\ s <> [] /\ noLineTerminator s.
Proof.
  unfold dotPlusEnd. destruct (truthy s) eqn:E1; [|discriminate]. simpl.
  destruct (forallb _ s) eqn:E2; [|discriminate]. intros [= <-].
  repeat split; auto. now destruct s.
Qed.

Lemma last_nonspace_cons x r :
  r <> [] -> (exists r' y, x :: r = r' ++ [y] /\ isSpace y = false) ->
  exists r' y, r = r' ++ [y] /\ isSpace y = false.
Proof.
  intros Hne (r' & y & Hr & Hy). destruct r' as [|x' r'].
  - destruct r; [contradiction|discriminate].
  - inversion Hr; subst. eauto.
Qed.

Lemma spacesThenRest_Some s t :
  spacesThenRest s = Some t ->
  (exists r y, s = r ++ [y] /\ isSpace y = false) ->
  goodText t /\ exists ws, s = ws ++ t.
Proof.
  revert t. induction s as [|x s IH]; intros t; simpl; [discriminate|].
  intros H Hlast. destruct (isSpace x) eqn:Ex.
  - assert (Hne : s <> []).
    { intros ->. destruct Hlast as (r & y & Hr & Hy).
      destruct r as [|? [|]]; inversion Hr; subst; congruence. }
    pose proof (last_nonspace_cons _ _ Hne Hlast) as Hlast'.
    destruct (spacesThenRest s) as [t'|] eqn:Es.
    + inversion H; subst t'. destruct (IH t eq_refl Hlast') as [Hg [ws ->]].
      split; [exact Hg|]. now exists (x :: ws).
    + exfalso. apply dotPlusEnd_Some in H as (_ & _ & Hlt).
      (* a line of this shape always matches *)
      clear IH. assert (Hlt' : noLineTerminator s).
      { unfold noLineTerminator in *. simpl in Hlt. now apply andb_true_iff in Hlt as [_ ?]. }
      clear Hlt Hlast Ex x. induction s as [|y s IHs]; [contradiction|].
      simpl in Es. destruct (isSpace y) eqn:Ey.
      * assert (Hne' : s <> []).
        { intros ->. destruct Hlast' as (r & z & Hr & Hz).
          destruct r as [|? [|]]; inversion Hr; subst; congruence. }
        destruct (spacesThenRest s) eqn:Es'; [discriminate|].
        apply IHs; auto.
        -- now apply (last_nonspace_cons y).
        -- unfold noLineTerminator in *. simpl in Hlt'.
           now apply andb_true_iff in Hlt' as [_ ?].
      * unfold dotPlusEnd in Es. unfold noLineTerminator in Hlt'.
        simpl truthy in Es. rewrite Hlt' in Es. discriminate.
  - apply dotPlusEnd_Some in H as (-> & _ & Hlt).
    split; [|now exists []]. split; [|exact Hlt]. split; [|exact Hlast]. eauto.
Qed.

Lemma matchPlanLine_Some line mark t :
  matchPlanLine line = Some (mark, t) -> trimmed line ->
  goodText t /\ exists p, line = p ++ t.
Proof.
  unfold matchPlanLine.
  destruct line as [|c0 [|c1 [|c2 [|c3 [|c4 rest]]]]]; try discriminate;
    try (destruct c0 as [|p0]; [discriminate|]; repeat (destruct p0; try discriminate)).
  all: try (destruct c1 as [|p1]; [discriminate|]; repeat (destruct p1; try discriminate)).
  all: try (destruct c2 as [|p2]; [discriminate|]; repeat (destruct p2; try discriminate)).
  destruct c4 as [|p4]; [discriminate|]. repeat (destruct p4; try discriminate).
  destruct ((c3 =? 32)%N || (asciiLowerChar c3 =? 120)%N); [|discriminate].
  destruct (spacesThenRest rest) as [t'|] eqn:Es; [|discriminate]. simpl.
  intros [= <- <-] [_ (r & y & Hr & Hy)].
  assert (Hlast : exists r' y', rest = r' ++ [y'] /\ isSpace y' = false).
  { destruct rest as [|z rest]; [discriminate|].
    assert (H0 : exists r y, 45%N :: 32%N :: 91%N :: c3 :: 93%N :: z :: rest = r ++ [y]
                             /\ isSpace y = false) by eauto.
    do 5 (apply last_nonspace_cons in H0; [|discriminate]). exact H0. }
  destruct (spacesThenRest_Some _ _ Es Hlast) as [Hg [ws ->]].
  split; [exact Hg|]. eexists (_ :: _ :: _ :: _ :: _ :: ws). reflexivity.
Qed.

Lemma planBody_lines items :
  items <> [] -> planBody items = join [NL] (List.map planLine items).
Proof. destruct items; [contradiction|reflexivity]. Qed.

Lemma planLine_cons item :
  planLine item
  = 45%N :: 32%N :: 91%N :: (if isDone (plan_status item) then 120%N else 32%N)
    :: 93%N :: 32%N :: plan_text item.
Proof. unfold planLine. destruct (plan_status item); reflexivity. Qed.

Lemma trimmed_cons_app x p t :
  isSpace x = false -> trimmed t -> trimmed (x :: p ++ t).
Proof.
  intros Hx [_ (r & y & -> & Hy)]. split; [eauto|].
  exists (x :: p ++ r), y. split; [|exact Hy]. simpl. now rewrite <- app_assoc.
Qed.

Lemma planLine_trimmed item : goodText (plan_text item) -> trimmed (planLine item).
Proof.
  intros [Ht _]. rewrite planLine_cons.
  apply (trimmed_cons_app 45%N [32%N; 91%N; _; 93%N; 32%N]); auto.
Qed.

Lemma planLine_match item :
  goodText (plan_text item) ->
  matchPlanLine (planLine item)
  = Some (if isDone (plan_status item) then 120%N else 32%N, plan_text item).
Proof.
  intros [[(x & r & Ht & Hx) _] Hlt]. rewrite planLine_cons. unfold matchPlanLine.
  assert (Hm : ((if isDone (plan_status item) then 120%N else 32%N) =? 32)%N
               || (asciiLowerChar (if isDone (plan_status item) then 120%N else 32%N) =? 120)%N
               = true) by (destruct (plan_status item); reflexivity).
  rewrite Hm. cbn [spacesThenRest]. change (isSpace 32) with true. cbv iota.
  rewrite Ht. cbn [spacesThenRest]. rewrite Hx. rewrite <- Ht.
  unfold dotPlusEnd. unfold noLineTerminator in Hlt. rewrite Hlt, Ht. reflexivity.
Qed.

Lemma planLine_NLfree item : goodText (plan_text item) -> NLfree (planLine item).
Proof.
  intros Hg. rewrite planLine_cons. apply goodText_NLfree in Hg.
  repeat (constructor; [destruct (plan_status item); unfold NL; discriminate|]). exact Hg.
Qed.

Lemma planItemsFrom_app k l1 l2 :
  planItemsFrom k (l1 ++ l2) = planItemsFrom k l1 ++ planItemsFrom (k + length l1) l2.
Proof.
  revert k. induction l1 as [|l l1 IH]; intros k; simpl.
  - now rewrite Nat.add_0_r.
  - replace (k + S (length l1)) with (S k + length l1) by lia.
    destruct (matchPlanLine (trim l)) as [[m t]|]; simpl; now rewrite IH.
Qed.

Lemma planItemsFrom_encoded k items :
  Forall (fun item => goodText (plan_text item)) items ->
  List.map planView (planItemsFrom k (List.map planLine items)) = List.map planView items.
Proof.
  intros H. revert k. induction H as [|item items Hg Hrest IH]; intros k; simpl; [reflexivity|].
  rewrite (trim_trimmed _ (planLine_trimmed _ Hg)), (planLine_match _ Hg). simpl.
  rewrite IH. f_equal. unfold planView. simpl. f_equal.
  destruct (plan_status item); reflexivity.
Qed.

Lemma planItemsFrom_good k lines :
  Forall (fun item => goodText (plan_text item)) (planItemsFrom k lines).
Proof.
  revert k. induction lines as [|l lines IH]; intros k; simpl; [constructor|].
  destruct (matchPlanLine (trim l)) as [[m t]|] eqn:E; [|apply IH].
  constructor; [|apply IH]. simpl.
  apply (matchPlanLine_Some (trim l) m t E). apply trim_nonempty_trimmed.
  intros Hn. rewrite Hn in E. discriminate.
Qed.

Lemma planItemsFrom_infix k lines item :
  In item (planItemsFrom k lines) ->
  exists line a b, In line lines /\ line = a ++ plan_text item ++ b.
Proof.
  revert k. induction lines as [|l lines IH]; intros k; simpl; [intros []|].
  destruct (matchPlanLine (trim l)) as [[m t]|] eqn:E.
  - intros [<-|Hin].
    + simpl. destruct (matchPlanLine_Some (trim l) m t E) as [_ [p Hp]].
      { apply trim_nonempty_trimmed. intros Hn. rewrite Hn in E. discriminate. }
      destruct (trim_infix l) as (a & b & Hl). exists l, (a ++ p), b.
      split; [now left|]. rewrite Hl at 1. rewrite Hp, <- !app_assoc. reflexivity.
    + destruct (IH _ Hin) as (line & a & b & Hl & Heq). exists line, a, b. auto.
  - intros Hin. destruct (IH _ Hin) as (line & a & b & Hl & Heq). exists line, a, b. auto.
Qed.

Lemma trimmed_join ls :
  ls <> [] -> Forall trimmed ls -> trimmed (join [NL] ls).
Proof.
  intros Hne Hls. induction Hls as [|l ls Hl Hls IH]; [contradiction|].
  destruct ls as [|l' ls]; [exact Hl|].
  rewrite join_cons by discriminate.
  destruct Hl as [(x & r & -> & Hx) _]. destruct (IH ltac:(discriminate)) as [_ (r' & y & Hr & Hy)].
  split; [simpl; eauto|]. exists (x :: r ++ [NL] ++ r'), y. split; [|exact Hy].
  rewrite Hr. simpl. now rewrite <- !app_assoc.
Qed.

Lemma join_snoc_empty ls : ls <> [] -> join [NL] (ls ++ [[]]) = join [NL] ls ++ [NL].
Proof.
  induction ls as [|l ls IH]; [contradiction|]. intros _.
  destruct ls as [|l' ls]; [reflexivity|].
  change ((l :: l' :: ls) ++ [[]]) with (l :: ((l' :: ls) ++ [[]])).
  rewrite join_cons by (destruct ls; discriminate). rewrite IH by discriminate.
  rewrite (join_cons _ l (l' :: ls)) by discriminate. now rewrite <- !app_assoc.
Qed.

Lemma trim_heading_line X lr :
  startsWith headingPrefix X = true -> exists r, trim (X ++ lr) = HASH :: r.
Proof.
  intros [x ->]%startsWith_true. unfold trim. simpl.
  rewrite trimStart_cons by reflexivity. rewrite trimEnd_cons by reflexivity. eauto.
Qed.

(** The items read back from a section whose body is the encoding of
    [items]. *)
Lemma planItems_of_encoded X lr items tail :
  startsWith headingPrefix X = true -> NLfree X -> NLfree lr ->
  items <> [] -> Forall (fun item => goodText (plan_text item)) items ->
  (tail = [] \/ tail = [NL]) ->
  List.map planView
    (planItemsFrom 0 (splitNL (X ++ lr ++ [NL] ++ planBody items ++ [NL] ++ tail)))
  = List.map planView items.
Proof.
  intros HX HXf Hlr Hne Hg Htail. rewrite (planBody_lines _ Hne).
  set (ls := List.map planLine items).
  assert (Hls : Forall NLfree ls).
  { unfold ls. apply Forall_map. eapply Forall_impl; [exact Hg|]. apply planLine_NLfree. }
  assert (Hlsne : ls <> []) by (unfold ls; destruct items; [contradiction|discriminate]).
  assert (Hsplit : splitNL (X ++ lr ++ [NL] ++ join [NL] ls ++ [NL] ++ tail)
                   = (X ++ lr) :: ls ++ splitNL tail).
  { change (X ++ lr ++ [NL] ++ join [NL] ls ++ [NL] ++ tail)
      with (X ++ lr ++ NL :: (join [NL] ls ++ NL :: tail)).
    rewrite app_assoc, splitNL_line by (apply NLfree_app; auto). f_equal.
    clear -Hls Hlsne. induction Hls as [|l ls Hl Hls IH]; [contradiction|].
    destruct ls as [|l' ls].
    - simpl join. now rewrite splitNL_line.
    - rewrite join_cons by discriminate. change ([NL] ++ ?x) with (NL :: x).
      rewrite <- app_assoc. change ((NL :: ?x) ++ ?y) with (NL :: (x ++ y)).
      rewrite splitNL_line by exact Hl. simpl. f_equal. apply IH. discriminate. }
  rewrite Hsplit. cbn [planItemsFrom].
  destruct (trim_heading_line X lr HX) as [r ->]. cbn [matchPlanLine].
  change (HASH) with 35%N. cbv iota.
  rewrite planItemsFrom_app, map_app. unfold ls. rewrite (planItemsFrom_encoded _ _ Hg).
  destruct Htail as [->| ->]; simpl; now rewrite app_nil_r.
Qed.

(** ** Bodies made of dash lines *)

Lemma find_mark_snoc_NL U :
  find_sub nextHeadingMark U = None -> find_sub nextHeadingMark (U ++ [NL]) = None.
Proof.
  intros Hn. apply find_sub_None_intro. intros j Hj.
  destruct (Nat.le_gt_cases (j + 4) (length U)) as [Hin|Hout].
  - rewrite occursAt_app_l by exact Hin. apply (find_sub_None _ _ Hn). lia.
  - destruct (occursAt nextHeadingMark (U ++ [NL]) j) eqn:E; [exfalso|reflexivity].
    pose proof (startsWith_length _ _ E) as Hl. rewrite length_drop, length_app in Hl.
    simpl in Hl.
    assert (Hk : nextHeadingMark !! 3 = Some SP) by reflexivity.
    pose proof (occursAt_lookup _ _ _ _ _ E Hk) as Hc.
    replace (j + 3) with (length U) in Hc by lia.
    rewrite list_lookup_middle in Hc by reflexivity. discriminate.
Qed.

Lemma dashLine_no_prefix l : dashLine l -> startsWith headingPrefix l = false.
Proof. intros [[r ->] _]. reflexivity. Qed.

Lemma find_mark_dashLines ls :
  ls <> [] -> Forall dashLine ls ->
  startsWith headingPrefix (join [NL] ls) = false
  /\ find_sub nextHeadingMark (join [NL] ls) = None.
Proof.
  intros Hne Hls. induction Hls as [|l ls Hl Hls IH]; [contradiction|].
  destruct ls as [|l' ls].
  - simpl. split; [now apply dashLine_no_prefix|]. apply find_mark_NLfree, Hl.
  - destruct (IH ltac:(discriminate)) as [IH1 IH2].
    rewrite join_cons by discriminate. change ([NL] ++ ?x) with (NL :: x). split.
    + rewrite startsWith_prefix_NLfree. now apply dashLine_no_prefix.
    + rewrite find_mark_line by apply Hl. now rewrite IH1, IH2.
Qed.

Lemma markFree_dashLines ls :
  ls <> [] -> Forall dashLine ls -> markFree (trim (join [NL] ls)).
Proof.
  intros Hne Hls. destruct (find_mark_dashLines ls Hne Hls) as [H1 H2].
  unfold markFree, trim.
  assert (Hstart : trimStart (join [NL] ls) = join [NL] ls).
  { destruct ls as [|l ls]; [contradiction|]. inversion Hls as [|? ? [[r ->] _] _]; subst.
    destruct ls; simpl; now rewrite trimStart_cons. }
  rewrite Hstart. destruct (trimEnd_prefix (join [NL] ls)) as [ws Hws].
  change (NL :: trimEnd (join [NL] ls) ++ [NL])
    with ((NL :: trimEnd (join [NL] ls)) ++ [NL]).
  apply find_mark_snoc_NL.
  apply (find_sub_None_app_l _ _ ws).
  change ((NL :: trimEnd (join [NL] ls)) ++ ws) with (NL :: (trimEnd (join [NL] ls) ++ ws)).
  rewrite <- Hws.
  change (NL :: join [NL] ls) with ([] ++ NL :: join [NL] ls).
  rewrite find_mark_line by constructor. now rewrite H1, H2.
Qed.

(** Writes the literals of a goal as lists of code units. *)
Ltac norm_lit :=
  repeat match goal with
         | |- context [lit ?s] =>
             let v := eval vm_compute in (lit s) in change (lit s) with v
         end.

(** ** The invariant codec *)

Lemma invariantsBody_lines invs :
  invs <> [] -> invariantsBody invs = join [NL] (List.map invLine invs).
Proof. destruct invs; [contradiction|reflexivity]. Qed.

Lemma invLine_dashLine inv : NLfree (inv_description inv) -> dashLine (invLine inv).
Proof.
  intros Hd. unfold invLine. split.
  - eexists. reflexivity.
  - repeat (apply NLfree_app; split); auto;
      destruct (inv_status inv); apply Forall_forall; intros x Hx;
      apply list_elem_of_In in Hx; simpl in Hx;
      repeat (destruct Hx as [<-|Hx]; [discriminate|]); contradiction.
Qed.

Lemma invLine_trimmed inv : goodText (inv_description inv) -> trimmed (invLine inv).
Proof.
  intros [Ht _]. unfold invLine.
  destruct (inv_status inv);
    [apply (trimmed_cons_app 45%N (lit " [satisfied] "))
    |apply (trimmed_cons_app 45%N (lit " [violated] "))
    |apply (trimmed_cons_app 45%N (lit " [unknown] "))]; auto.
Qed.

Lemma invLine_match inv :
  goodText (inv_description inv) ->
  matchInvariantLine (invLine inv) = Some (inv_status inv, inv_description inv).
Proof.
  intros [[(x & r & Ht & Hx) _] Hlt]. unfold invLine, matchInvariantLine, matchTag.
  assert (Hrest : spacesThenRest (32%N :: inv_description inv) = Some (inv_description inv)).
  { cbn [spacesThenRest]. change (isSpace 32) with true. cbv iota.
    rewrite Ht. cbn [spacesThenRest]. rewrite Hx. rewrite <- Ht.
    unfold dotPlusEnd. unfold noLineTerminator in Hlt. rewrite Hlt, Ht. reflexivity. }
  destruct (inv_status inv); cbn [statusTag]; norm_lit; cbn -[spacesThenRest];
    rewrite Hrest; reflexivity.
Qed.

Lemma invariantsFrom_app k l1 l2 :
  invariantsFrom k (l1 ++ l2)
  = invariantsFrom k l1 ++ invariantsFrom (k + length l1) l2.
Proof.
  revert k. induction l1 as [|l l1 IH]; intros k; cbn [app invariantsFrom length].
  - now rewrite Nat.add_0_r.
  - replace (k + S (length l1)) with (S k + length l1) by lia.
    destruct (negb (truthy (trim l)) || startsWith (lit "##") (trim l)); [apply IH|].
    destruct (matchInvariantLine (trim l)) as [[st d]|]; [now rewrite IH|].
    destruct (negb (endsWith (lit ": _") (trim l)) && negb (includes (lit "pending") (trim l)));
      now rewrite IH.
Qed.

Lemma invariantsFrom_encoded k invs :
  Forall (fun inv => goodText (inv_description inv)) invs ->
  List.map invView (invariantsFrom k (List.map invLine invs)) = List.map invView invs.
Proof.
  intros H. revert k.
  induction H as [|inv invs Hg Hrest IH]; intros k; cbn [List.map invariantsFrom];
    [reflexivity|].
  rewrite (trim_trimmed _ (invLine_trimmed _ Hg)), (invLine_match _ Hg).
  assert (Hpre : negb (truthy (invLine inv)) || startsWith (lit "##") (invLine inv) = false).
  { unfold invLine. norm_lit. reflexivity. }
  rewrite Hpre. cbn [List.map]. now rewrite IH.
Qed.

Lemma spacesThenRest_suffix s t : spacesThenRest s = Some t -> exists ws, s = ws ++ t.
Proof.
  revert t. induction s as [|x s IH]; intros t; simpl; [discriminate|].
  destruct (isSpace x).
  - destruct (spacesThenRest s) as [t'|].
    + intros [= <-]. destruct (IH t' eq_refl) as [ws ->]. now exists (x :: ws).
    + intros H. apply dotPlusEnd_Some in H as (-> & _). now exists [].
  - intros H. apply dotPlusEnd_Some in H as (-> & _). now exists [].
Qed.

Lemma matchTag_suffix tag st s r : matchTag tag st s = Some r -> exists p, s = p ++ snd r.
Proof.
  unfold matchTag. destruct (startsWithCI _ s); [|discriminate].
  destruct (spacesThenRest _) as [d|] eqn:E; [|discriminate]. simpl. intros [= <-].
  destruct (spacesThenRest_suffix _ _ E) as [ws Hws]. simpl.
  exists (take (length tag + 1) s ++ ws). rewrite <- app_assoc, <- Hws. now rewrite take_drop.
Qed.

Lemma matchInvariantLine_suffix line st d :
  matchInvariantLine line = Some (st, d) -> exists p, line = p ++ d.
Proof.
  unfold matchInvariantLine. destruct (startsWith _ line); [|discriminate].
  intros H.
  assert (Hs : exists p, drop 3 line = p ++ d).
  { destruct (matchTag (lit "satisfied") satisfied (drop 3 line)) as [r|] eqn:E1.
    - inversion H; subst r. apply (matchTag_suffix _ _ _ _ E1).
    - destruct (matchTag (lit "violated") violated (drop 3 line)) as [r|] eqn:E2.
      + inversion H; subst r. apply (matchTag_suffix _ _ _ _ E2).
      + apply (matchTag_suffix _ _ _ _ H). }
  destruct Hs as [p Hp]. exists (take 3 line ++ p). rewrite <- app_assoc, <- Hp.
  now rewrite take_drop.
Qed.

Lemma stripDash_cases x s :
  stripDash (x :: s) = x :: s \/ stripDash (x :: s) = dropWhile isSpace s.
Proof.
  unfold stripDash. destruct x as [|p]; [now left|].
  repeat (destruct p as [p|p|]; try (left; reflexivity)); right; reflexivity.
Qed.

Lemma stripDash_suffix s : exists p, s = p ++ stripDash s.
Proof.
  destruct s as [|x s]; [now exists []|].
  destruct (stripDash_cases x s) as [-> | ->]; [now exists []|].
  destruct (dropWhile_suffix isSpace s) as [l Hl]. exists (x :: l). simpl. now f_equal.
Qed.

Lemma invariantsFrom_infix k lines inv :
  In inv (invariantsFrom k lines) ->
  exists line a b, In line lines /\ line = a ++ inv_description inv ++ b.
Proof.
  revert k. induction lines as [|l lines IH]; intros k; cbn [invariantsFrom In];
    [intros []|].
  assert (Hrec : In inv (invariantsFrom (S k) lines) ->
                 exists line a b, (l = line \/ In line lines)
                                  /\ line = a ++ inv_description inv ++ b).
  { intros Hin. destruct (IH _ Hin) as (line & a & b & Hl & Heq). exists line, a, b. auto. }
  destruct (trim_infix l) as (a & b & Hl).
  destruct (negb (truthy (trim l)) || startsWith (lit "##") (trim l)); [exact Hrec|].
  destruct (matchInvariantLine (trim l)) as [[st d]|] eqn:E.
  - intros [<-|Hin]; [|now apply Hrec]. cbn [inv_description].
    destruct (matchInvariantLine_suffix _ _ _ E) as [p Hp].
    exists l, (a ++ p), b. split; [now left|]. rewrite Hl at 1.
    rewrite Hp, <- !app_assoc. reflexivity.
  - destruct (negb (endsWith (lit ": _") (trim l)) && negb (includes (lit "pending") (trim l)));
      [|exact Hrec].
    intros [<-|Hin]; [|now apply Hrec]. cbn [inv_description].
    destruct (stripDash_suffix (trim l)) as [p Hp].
    exists l, (a ++ p), b. split; [now left|]. rewrite Hl at 1.
    rewrite Hp at 1. rewrite <- !app_assoc. reflexivity.
Qed.

Lemma splitNL_lines_NLfree s : Forall NLfree (splitNL s).
Proof.
  induction s as [|x s IH]; simpl.
  - repeat constructor.
  - destruct (x =? NL)%N eqn:E.
    + constructor; [constructor|exact IH].
    + destruct (splitNL s) as [|l ls]; [repeat constructor; now apply N.eqb_neq|].
      inversion IH; subst. constructor; [|assumption].
      constructor; [now apply N.eqb_neq|assumption].
Qed.

Lemma NLfree_infix a l b : NLfree (a ++ l ++ b) -> NLfree l.
Proof. intros H. apply NLfree_app in H as [_ H]. now apply NLfree_app in H as [H _]. Qed.

(** The invariants read from a section are on its lines: no line feed in a
    description, and no heading that the section does not hold. *)
Lemma invariants_of_section Z s :
  find_sub Z s = None ->
  Forall (fun inv => NLfree (inv_description inv) /\ find_sub Z (inv_description inv) = None)
    (invariantsFrom 0 (splitNL s)).
Proof.
  intros HZ. apply Forall_forall. intros inv Hin. apply list_elem_of_In in Hin.
  destruct (invariantsFrom_infix _ _ _ Hin) as (line & a & b & Hl & Heq).
  pose proof (splitNL_lines_NLfree s) as Hfree. rewrite Forall_forall in Hfree.
  split.
  - apply (NLfree_infix a _ b). rewrite <- Heq. apply Hfree. now apply list_elem_of_In.
  - destruct (splitNL_In _ _ Hl) as (a' & b' & Hs). rewrite Hs, Heq in HZ.
    apply find_sub_None_infix in HZ. now apply find_sub_None_infix in HZ.
Qed.

Lemma planItems_of_section Z s :
  find_sub Z s = None ->
  Forall (fun item => find_sub Z (plan_text item) = None) (planItemsFrom 0 (splitNL s)).
Proof.
  intros HZ. apply Forall_forall. intros item Hin. apply list_elem_of_In in Hin.
  destruct (planItemsFrom_infix _ _ _ Hin) as (line & a & b & Hl & Heq).
  destruct (splitNL_In _ _ Hl) as (a' & b' & Hs). rewrite Hs, Heq in HZ.
  apply find_sub_None_infix in HZ. now apply find_sub_None_infix in HZ.
Qed.

Lemma find_sub_trim_None Z s : find_sub Z s = None -> find_sub Z (trim s) = None.
Proof.
  intros H. destruct (trim_infix s) as (a & b & Hs). rewrite Hs in H.
  now apply find_sub_None_infix in H.
Qed.

(** A heading does not start inside the dash, tag and bracket of a line. *)
Lemma find_sub_after_chars Z p q :
  startsWith headingPrefix Z = true -> forallb (fun x => negb (x =? HASH)%N) p = true ->
  find_sub Z q = None -> find_sub Z (p ++ q) = None.
Proof.
  intros HZ Hp Hq. rewrite find_sub_skip_chars.
  - now rewrite Hq.
  - intros x Hx Hh. apply startsWith_true in HZ as [z ->]. simpl in Hh.
    inversion Hh; subst x. rewrite forallb_forall in Hp. apply Hp in Hx. discriminate.
  - intros ->. discriminate.
Qed.

Lemma planBody_fresh Z items :
  niceHeading Z ->
  Forall (fun item => find_sub Z (plan_text item) = None) items ->
  find_sub Z (trim (planBody items)) = None.
Proof.
  intros [HZp HZf] Hitems. apply find_sub_trim_None.
  pose proof (niceHeading_nonempty Z (conj HZp HZf)) as Hne.
  destruct items as [|item items].
  - apply (find_sub_after_chars Z (lit "- [ ] Pending plan items") []); auto.
    now apply find_sub_nil_None.
  - rewrite planBody_lines by discriminate. apply find_sub_join_None; auto.
    apply Forall_map. eapply Forall_impl; [exact Hitems|]. intros it Hit. cbv beta.
    rewrite planLine_cons.
    apply (find_sub_after_chars Z [45%N; 32%N; 91%N; _; 93%N; 32%N]); auto.
    destruct (plan_status it); reflexivity.
Qed.

Lemma invariantsBody_fresh Z invs :
  niceHeading Z ->
  Forall (fun inv => find_sub Z (inv_description inv) = None) invs ->
  find_sub Z (trim (invariantsBody invs)) = None.
Proof.
  intros [HZp HZf] Hinvs. apply find_sub_trim_None.
  pose proof (niceHeading_nonempty Z (conj HZp HZf)) as Hne.
  destruct invs as [|inv invs].
  - apply (find_sub_after_chars Z (lit "- Invariants: _") []); auto.
    now apply find_sub_nil_None.
  - rewrite invariantsBody_lines by discriminate. apply find_sub_join_None; auto.
    apply Forall_map. eapply Forall_impl; [exact Hinvs|]. intros it Hit. cbv beta.
    unfold invLine. rewrite !app_assoc. apply find_sub_after_chars; auto.
    destruct (inv_status it); reflexivity.
Qed.

(** ** Text as UTF-8 keeps it *)

Ltac compare_units :=
  unfold isPlain, isSurrogate, isHighSurrogate, isLowSurrogate, REPLACEMENT, isSpace,
    isLineTerminator;
  repeat (match goal with
          | |- context [(?a <=? ?b)%N] => destruct (N.leb_spec a b)
          | |- context [(?a =? ?b)%N] => destruct (N.eqb_spec a b)
          end; try (exfalso; lia); cbn [andb orb negb]);
  try reflexivity; try discriminate; try (intros; exfalso; lia).

Lemma high_not_low x : isHighSurrogate x = true -> isLowSurrogate x = false.
Proof. compare_units. Qed.

Lemma toWellFormed_pair h l r :
  isHighSurrogate h = true -> isLowSurrogate l = true ->
  toWellFormed (h :: l :: r) = h :: l :: toWellFormed r.
Proof. intros Hh Hl. cbn [toWellFormed]. now rewrite Hh, Hl. Qed.

Lemma toWellFormed_single x r :
  paired x r = false -> toWellFormed (x :: r) = utf8Unit x :: toWellFormed r.
Proof.
  unfold paired, utf8Unit, isSurrogate. cbn [toWellFormed].
  destruct (isHighSurrogate x) eqn:Hh; cbn [andb orb].
  - destruct r as [|l r]; [reflexivity|]. now intros ->.
  - intros _. now destruct (isLowSurrogate x).
Qed.

Lemma toWellFormed_cons x r :
  isHighSurrogate x = false -> toWellFormed (x :: r) = utf8Unit x :: toWellFormed r.
Proof. intros H. apply toWellFormed_single. unfold paired. now rewrite H. Qed.

Lemma toWellFormed_induction (P : str -> Prop) :
  P [] ->
  (forall h l r, isHighSurrogate h = true -> isLowSurrogate l = true -> P r ->
                 P (h :: l :: r)) ->
  (forall x r, paired x r = false -> P r -> P (x :: r)) ->
  forall s, P s.
Proof.
  intros H0 H2 H1 s.
  enough (H : forall n s, length s <= n -> P s) by (apply (H (length s)); lia).
  clear s. induction n as [|n IH]; intros s Hs.
  - destruct s; [exact H0|cbn in Hs; lia].
  - destruct s as [|x r]; [exact H0|]. cbn in Hs.
    destruct (paired x r) eqn:Hp.
    + unfold paired in Hp. apply andb_true_iff in Hp as [Hh Hl].
      destruct r as [|l r]; [discriminate|]. cbn in Hs.
      apply H2; [exact Hh|exact Hl|]. apply IH. lia.
    + apply H1; [exact Hp|]. apply IH. lia.
Qed.

Lemma isPlain_not_surrogate x : isPlain x = true -> isSurrogate x = false.
Proof. unfold isPlain. intros H. apply andb_true_iff in H as [H _]. now apply negb_true_iff. Qed.

Lemma not_surrogate_high x : isSurrogate x = false -> isHighSurrogate x = false.
Proof. unfold isSurrogate. intros H. now apply orb_false_iff in H as [H _]. Qed.

Lemma not_surrogate_low x : isSurrogate x = false -> isLowSurrogate x = false.
Proof. unfold isSurrogate. intros H. now apply orb_false_iff in H as [_ H]. Qed.

Lemma utf8Unit_keeps x : isSurrogate x = false -> utf8Unit x = x.
Proof. unfold utf8Unit. now intros ->. Qed.

Lemma similar_refl x : similar x x.
Proof. now left. Qed.

Lemma similar_utf8Unit x : similar x (utf8Unit x).
Proof.
  unfold utf8Unit. destruct (isSurrogate x) eqn:E; [|now left].
  right. split; [|reflexivity]. unfold isPlain. now rewrite E.
Qed.

Lemma similar_plain x y : similar x y -> isPlain x = isPlain y.
Proof. intros [->|[-> ->]]; reflexivity. Qed.

Lemma similar_eq_plain x y : similar x y -> isPlain x = true -> y = x.
Proof. intros [->|[H _]] Hx; [reflexivity|congruence]. Qed.

Lemma similar_eq_plain_r x y : similar x y -> isPlain y = true -> y = x.
Proof. intros [->|[_ H]] Hy; [reflexivity|congruence]. Qed.

(** A test that only plain code units pass gives the same on both. *)
Lemma similar_test (P : N -> bool) x y :
  (forall z, P z = true -> isPlain z = true) -> similar x y -> P x = P y.
Proof.
  intros HP [->|[Hx Hy]]; [reflexivity|].
  destruct (P x) eqn:Ex; [apply HP in Ex; congruence|].
  destruct (P y) eqn:Ey; [apply HP in Ey; congruence|reflexivity].
Qed.

Lemma similar_eqb m x y : isPlain m = true -> similar x y -> (m =? x)%N = (m =? y)%N.
Proof.
  intros Hm. apply (similar_test (fun z => (m =? z)%N)).
  intros z Hz. apply N.eqb_eq in Hz. now subst.
Qed.

Lemma isSpace_plain z : isSpace z = true -> isPlain z = true.
Proof. compare_units. Qed.

Lemma isLineTerminator_plain z : isLineTerminator z = true -> isPlain z = true.
Proof. compare_units. Qed.

Lemma ascii_plain z : (z < 256)%N -> isPlain z = true.
Proof. intros H. compare_units. Qed.

Lemma toWellFormed_similar s : Forall2 similar s (toWellFormed s).
Proof.
  induction s as [|h l r Hh Hl IH|x r Hp IH] using toWellFormed_induction.
  - constructor.
  - rewrite toWellFormed_pair by assumption. repeat constructor; auto using similar_refl.
  - rewrite toWellFormed_single by assumption. constructor; auto using similar_utf8Unit.
Qed.

Lemma toWellFormed_length s : length (toWellFormed s) = length s.
Proof. symmetry. apply (Forall2_length _ _ _ (toWellFormed_similar s)). Qed.

Lemma toWellFormed_nil s : toWellFormed s = [] <-> s = [].
Proof.
  split; [|now intros ->]. intros H. apply (f_equal length) in H.
  rewrite toWellFormed_length in H. now destruct s.
Qed.

(** Where a string is cut before a unit that is no second half of a pair,
    or after one that is no first half, UTF-8 keeps the two parts apart. *)
Lemma toWellFormed_app_head a b :
  match b with l :: _ => isLowSurrogate l | [] => false end = false ->
  toWellFormed (a ++ b) = toWellFormed a ++ toWellFormed b.
Proof.
  intros Hb. induction a as [|h l r Hh Hl IH|x r Hp IH] using toWellFormed_induction.
  - reflexivity.
  - cbn [app]. rewrite !toWellFormed_pair by assumption. now rewrite IH.
  - cbn [app]. rewrite (toWellFormed_single x r) by exact Hp.
    rewrite (toWellFormed_single x (r ++ b)); [now rewrite IH|].
    unfold paired in *. destruct r as [|y r]; [|exact Hp].
    cbn [app]. rewrite Hb. apply andb_false_r.
Qed.

Lemma toWellFormed_app_last a b :
  (forall a' h, a = a' ++ [h] -> isHighSurrogate h = false) ->
  toWellFormed (a ++ b) = toWellFormed a ++ toWellFormed b.
Proof.
  induction a as [|h l r Hh Hl IH|x r Hp IH] using toWellFormed_induction; intros Ha.
  - reflexivity.
  - cbn [app]. rewrite !toWellFormed_pair by assumption. rewrite IH; [reflexivity|].
    intros a' z ->. apply (Ha (h :: l :: a')). reflexivity.
  - cbn [app]. destruct r as [|y r].
    + cbn [app]. rewrite !toWellFormed_single; [reflexivity| |].
      * unfold paired. now rewrite (Ha [] x eq_refl).
      * unfold paired. now rewrite (Ha [] x eq_refl).
    + rewrite (toWellFormed_single x ((y :: r) ++ b)) by exact Hp.
      rewrite (toWellFormed_single x (y :: r)) by exact Hp.
      rewrite IH; [reflexivity|]. intros a' z E. apply (Ha (x :: a')). cbn. now rewrite E.
Qed.

Lemma toWellFormed_app_cons a x b :
  isSurrogate x = false ->
  toWellFormed (a ++ x :: b) = toWellFormed a ++ x :: toWellFormed b.
Proof.
  intros Hx. rewrite toWellFormed_app_head by now apply not_surrogate_low.
  rewrite toWellFormed_cons by now apply not_surrogate_high.
  now rewrite utf8Unit_keeps.
Qed.

Lemma toWellFormed_cons_plain x b :
  isSurrogate x = false -> toWellFormed (x :: b) = x :: toWellFormed b.
Proof. intros Hx. apply (toWellFormed_app_cons [] x b Hx). Qed.

Lemma toWellFormed_snoc a x :
  isSurrogate x = false -> toWellFormed (a ++ [x]) = toWellFormed a ++ [x].
Proof. intros Hx. apply (toWellFormed_app_cons a x [] Hx). Qed.

Lemma toWellFormed_keeps s :
  forallb (fun x => negb (isSurrogate x)) s = true -> toWellFormed s = s.
Proof.
  induction s as [|x s IH]; [reflexivity|]. cbn [forallb]. intros H.
  apply andb_true_iff in H as [Hx Hs]. apply negb_true_iff in Hx.
  rewrite toWellFormed_cons_plain by exact Hx. now rewrite IH.
Qed.

Lemma plain_no_surrogate s : plain s -> forallb (fun x => negb (isSurrogate x)) s = true.
Proof.
  unfold plain. rewrite !forallb_forall. intros H x Hx.
  apply negb_true_iff, isPlain_not_surrogate, H, Hx.
Qed.

Lemma toWellFormed_plain s : plain s -> toWellFormed s = s.
Proof. intros H. now apply toWellFormed_keeps, plain_no_surrogate. Qed.

Lemma toWellFormed_plain_app a b :
  plain a -> toWellFormed (a ++ b) = a ++ toWellFormed b.
Proof.
  intros Ha. rewrite toWellFormed_app_last; [now rewrite toWellFormed_plain|].
  intros a' h ->. unfold plain in Ha. rewrite forallb_app in Ha.
  apply andb_true_iff in Ha as [_ Ha]. cbn in Ha. rewrite andb_true_r in Ha.
  now apply not_surrogate_high, isPlain_not_surrogate.
Qed.

Lemma toWellFormed_app_plain a b :
  plain b -> toWellFormed (a ++ b) = toWellFormed a ++ b.
Proof.
  intros Hb. rewrite toWellFormed_app_head; [now rewrite (toWellFormed_plain b)|].
  destruct b as [|l b]; [reflexivity|]. unfold plain in Hb. cbn in Hb.
  apply andb_true_iff in Hb as [Hl _].
  now apply not_surrogate_low, isPlain_not_surrogate.
Qed.

Lemma utf8Unit_not_surrogate x : isSurrogate (utf8Unit x) = false.
Proof. unfold utf8Unit. destruct (isSurrogate x) eqn:E; [reflexivity|exact E]. Qed.

Lemma toWellFormed_idem s : toWellFormed (toWellFormed s) = toWellFormed s.
Proof.
  induction s as [|h l r Hh Hl IH|x r Hp IH] using toWellFormed_induction.
  - reflexivity.
  - rewrite toWellFormed_pair by assumption. rewrite toWellFormed_pair by assumption.
    now rewrite IH.
  - rewrite toWellFormed_single by assumption.
    rewrite toWellFormed_cons_plain by apply utf8Unit_not_surrogate. now rewrite IH.
Qed.

Lemma lit_plain s : plain (lit s).
Proof.
  unfold plain, lit. apply forallb_forall. intros x Hx.
  apply in_map_iff in Hx as (a & <- & _). apply ascii_plain.
  pose proof (N_ascii_bounded a). lia.
Qed.

Lemma plain_app a b : plain (a ++ b) <-> plain a /\ plain b.
Proof. unfold plain. rewrite forallb_app. apply andb_true_iff. Qed.

(** *** Searching in the text kept *)

Lemma similar_startsWith X a b :
  plain X -> Forall2 similar a b -> startsWith X a = startsWith X b.
Proof.
  revert a b. induction X as [|x X IH]; intros a b HX Hab; [reflexivity|].
  apply plain_app with (a := [x]) in HX as [Hx HX].
  unfold plain in Hx. cbn in Hx. rewrite andb_true_r in Hx.
  destruct Hab as [|y z a b Hyz Hab]; [reflexivity|]. cbn [startsWith].
  rewrite (similar_eqb x y z Hx Hyz). now rewrite (IH a b HX Hab).
Qed.

Lemma similar_find_sub X a b :
  plain X -> Forall2 similar a b -> find_sub X a = find_sub X b.
Proof.
  intros HX Hab. induction Hab as [|y z a b Hyz Hab IH]; [reflexivity|].
  rewrite !find_sub_cons.
  rewrite (similar_startsWith X (y :: a) (z :: b) HX) by now constructor.
  now rewrite IH.
Qed.

Lemma similar_indexOf X a b k :
  plain X -> Forall2 similar a b -> indexOf X a k = indexOf X b k.
Proof.
  intros HX Hab. unfold indexOf. rewrite (Forall2_length _ _ _ Hab).
  now rewrite (similar_find_sub X _ _ HX (Forall2_drop _ _ _ (Nat.min k (length b)) Hab)).
Qed.

Lemma similar_lookup a b i x :
  Forall2 similar a b -> isPlain x = true -> a !! i = Some x <-> b !! i = Some x.
Proof.
  intros Hab Hx. split; intros H.
  - destruct (Forall2_lookup_l _ _ _ _ _ Hab H) as (y & Hy & Hs).
    now rewrite Hy, (similar_eq_plain _ _ Hs Hx).
  - destruct (Forall2_lookup_r _ _ _ _ _ Hab H) as (y & Hy & Hs).
    now rewrite Hy, <- (similar_eq_plain_r _ _ Hs Hx).
Qed.

Lemma similar_forallb (P : N -> bool) a b :
  (forall z, P z = true -> isPlain z = true) -> Forall2 similar a b ->
  forallb (fun c => negb (P c)) a = forallb (fun c => negb (P c)) b.
Proof.
  intros HP Hab. induction Hab as [|y z a b Hyz Hab IH]; [reflexivity|].
  cbn [forallb]. now rewrite IH, (similar_test P y z HP Hyz).
Qed.

Lemma find_sub_toWellFormed X c :
  plain X -> find_sub X (toWellFormed c) = find_sub X c.
Proof. intros HX. symmetry. apply similar_find_sub; auto using toWellFormed_similar. Qed.

Lemma indexOf_toWellFormed X c k :
  plain X -> indexOf X (toWellFormed c) k = indexOf X c k.
Proof. intros HX. symmetry. apply similar_indexOf; auto using toWellFormed_similar. Qed.

Lemma startsWith_toWellFormed X c :
  plain X -> startsWith X (toWellFormed c) = startsWith X c.
Proof. intros HX. symmetry. apply similar_startsWith; auto using toWellFormed_similar. Qed.

Lemma lookup_toWellFormed c i x :
  isPlain x = true -> toWellFormed c !! i = Some x <-> c !! i = Some x.
Proof. intros Hx. symmetry. apply similar_lookup; auto using toWellFormed_similar. Qed.

Lemma afterNL_toWellFormed c i : afterNL (toWellFormed c) i <-> afterNL c i.
Proof. unfold afterNL. now rewrite (lookup_toWellFormed c (i - 1) NL eq_refl). Qed.

Lemma NLfree_toWellFormed s : NLfree s -> NLfree (toWellFormed s).
Proof.
  unfold NLfree. rewrite !Forall_lookup. intros H i x Hx ->.
  apply (lookup_toWellFormed s i NL eq_refl) in Hx. now apply (H i NL).
Qed.

(** *** Cutting the text kept *)

Lemma cut_parts (c a b : str) n :
  c = a ++ b -> length a = Nat.min n (length c) -> take n c = a /\ drop n c = b.
Proof.
  intros -> Hl. rewrite length_app in Hl.
  destruct (le_lt_dec (length a + length b) n) as [Hge|Hlt].
  - assert (Hb : b = []) by (destruct b; [reflexivity|cbn in *; lia]). subst b.
    rewrite app_nil_r. cbn in Hge. split; [apply take_ge|apply drop_ge]; lia.
  - assert (Ha : length a = n) by lia. subst n.
    split; [now rewrite take_app_length|now rewrite drop_app_length].
Qed.

Lemma toWellFormed_cut_head c n :
  (forall l, c !! n = Some l -> isLowSurrogate l = false) ->
  toWellFormed (take n c) = take n (toWellFormed c)
  /\ toWellFormed (drop n c) = drop n (toWellFormed c).
Proof.
  intros Hn.
  assert (E : toWellFormed c = toWellFormed (take n c) ++ toWellFormed (drop n c)).
  { rewrite <- (take_drop n c) at 1. apply toWellFormed_app_head.
    destruct (drop n c) as [|l r] eqn:Ed; [reflexivity|]. apply Hn.
    rewrite <- (Nat.add_0_r n), <- lookup_drop, Ed. reflexivity. }
  destruct (cut_parts (toWellFormed c) _ _ n E) as [-> ->]; [|now split].
  now rewrite !toWellFormed_length, length_take.
Qed.

Lemma cut_last_high c n :
  (n = 0 \/ exists x, c !! (n - 1) = Some x /\ isHighSurrogate x = false) ->
  forall a' h, take n c = a' ++ [h] -> isHighSurrogate h = false.
Proof.
  intros Hn a' h Ea. destruct Hn as [->|(x & Hx & Hh)]; [now destruct a'|].
  destruct n as [|m]; [now destruct a'|].
  replace (S m - 1) with m in Hx by lia.
  pose proof (lookup_lt_Some _ _ _ Hx) as Hm.
  assert (Hl : take (S m) c !! m = Some x) by (rewrite lookup_take_lt; [exact Hx|lia]).
  pose proof (f_equal length Ea) as HL. rewrite length_app, length_take in HL.
  change (length [h]) with 1 in HL.
  rewrite Ea in Hl. rewrite lookup_app_r in Hl by lia.
  replace (m - length a') with 0 in Hl by lia. cbn in Hl. congruence.
Qed.

Lemma toWellFormed_cut_last c n :
  (n = 0 \/ exists x, c !! (n - 1) = Some x /\ isHighSurrogate x = false) ->
  toWellFormed (take n c) = take n (toWellFormed c)
  /\ toWellFormed (drop n c) = drop n (toWellFormed c).
Proof.
  intros Hn.
  assert (E : toWellFormed c = toWellFormed (take n c) ++ toWellFormed (drop n c)).
  { rewrite <- (take_drop n c) at 1. apply toWellFormed_app_last, cut_last_high, Hn. }
  destruct (cut_parts (toWellFormed c) _ _ n E) as [-> ->]; [|now split].
  now rewrite !toWellFormed_length, length_take.
Qed.

Lemma toWellFormed_drop_at c n x :
  c !! n = Some x -> isPlain x = true -> toWellFormed (drop n c) = drop n (toWellFormed c).
Proof.
  intros Hx Hp. apply toWellFormed_cut_head. intros l Hl.
  rewrite Hx in Hl. injection Hl as <-. now apply not_surrogate_low, isPlain_not_surrogate.
Qed.

Lemma toWellFormed_take_at c n x :
  c !! n = Some x -> isPlain x = true -> toWellFormed (take n c) = take n (toWellFormed c).
Proof.
  intros Hx Hp. apply toWellFormed_cut_head. intros l Hl.
  rewrite Hx in Hl. injection Hl as <-. now apply not_surrogate_low, isPlain_not_surrogate.
Qed.

Lemma toWellFormed_take_after c n x :
  c !! n = Some x -> isPlain x = true ->
  toWellFormed (take (S n) c) = take (S n) (toWellFormed c)
  /\ toWellFormed (drop (S n) c) = drop (S n) (toWellFormed c).
Proof.
  intros Hx Hp. apply toWellFormed_cut_last. right. exists x.
  rewrite Nat.sub_1_r. cbn. split; [exact Hx|].
  now apply not_surrogate_high, isPlain_not_surrogate.
Qed.

(** *** Trimming the text kept *)

Lemma similar_isSpace x y : similar x y -> isSpace x = isSpace y.
Proof. apply similar_test, isSpace_plain. Qed.

Lemma toWellFormed_head x r :
  exists z t, toWellFormed (x :: r) = z :: t /\ similar x z.
Proof.
  pose proof (toWellFormed_similar (x :: r)) as H.
  inversion H as [|? z ? t Hs Ht]; subst. now exists z, t.
Qed.

Lemma toWellFormed_last s x :
  exists t z, toWellFormed (s ++ [x]) = t ++ [z] /\ similar x z.
Proof.
  pose proof (toWellFormed_similar (s ++ [x])) as H.
  apply Forall2_app_inv_l in H as (t & u & Ht & Hu & E).
  inversion Hu as [|? z ? u' Hs Hu']; subst. inversion Hu'; subst. now exists t, z.
Qed.

Lemma trimStart_toWellFormed s : trimStart (toWellFormed s) = toWellFormed (trimStart s).
Proof.
  unfold trimStart. induction s as [|x r IH]; [reflexivity|].
  cbn [dropWhile]. destruct (isSpace x) eqn:Ex.
  - rewrite toWellFormed_cons_plain by now apply isPlain_not_surrogate, isSpace_plain.
    cbn [dropWhile]. now rewrite Ex.
  - destruct (toWellFormed_head x r) as (z & t & -> & Hs).
    cbn [dropWhile]. now rewrite <- (similar_isSpace x z Hs), Ex.
Qed.

Lemma trimEnd_snoc_space s x : isSpace x = true -> trimEnd (s ++ [x]) = trimEnd s.
Proof. intros H. unfold trimEnd. rewrite rev_app_distr. cbn. now rewrite H. Qed.

Lemma trimEnd_toWellFormed s : trimEnd (toWellFormed s) = toWellFormed (trimEnd s).
Proof.
  induction s as [|x s IH] using rev_ind; [reflexivity|].
  destruct (isSpace x) eqn:Ex.
  - rewrite toWellFormed_snoc by now apply isPlain_not_surrogate, isSpace_plain.
    now rewrite !trimEnd_snoc_space.
  - rewrite (trimEnd_snoc s x Ex).
    destruct (toWellFormed_last s x) as (t & z & -> & Hs).
    apply trimEnd_snoc. now rewrite <- (similar_isSpace x z Hs).
Qed.

Lemma trim_toWellFormed s : trim (toWellFormed s) = toWellFormed (trim s).
Proof. unfold trim. now rewrite trimStart_toWellFormed, trimEnd_toWellFormed. Qed.

Lemma truthy_toWellFormed s : truthy (toWellFormed s) = truthy s.
Proof.
  destruct s as [|x r]; [reflexivity|].
  now destruct (toWellFormed_head x r) as (z & t & -> & _).
Qed.

(** *** Lines of the text kept *)

Lemma join_toWellFormed sep ls :
  plain sep -> sep <> [] ->
  toWellFormed (join sep ls) = join sep (List.map toWellFormed ls).
Proof.
  intros Hsep Hne. induction ls as [|l ls IH]; [reflexivity|].
  destruct ls as [|l2 ls]; [reflexivity|].
  change (join sep (l :: l2 :: ls)) with (l ++ sep ++ join sep (l2 :: ls)).
  change (join sep (List.map toWellFormed (l :: l2 :: ls)))
    with (toWellFormed l ++ sep ++ join sep (List.map toWellFormed (l2 :: ls))).
  rewrite <- IH, <- (toWellFormed_plain_app sep _ Hsep).
  apply toWellFormed_app_head.
  destruct sep as [|x sep]; [contradiction|]. cbn [app].
  unfold plain in Hsep. cbn in Hsep. apply andb_true_iff in Hsep as [Hx _].
  now apply not_surrogate_low, isPlain_not_surrogate.
Qed.

Lemma join_splitNL s : join [NL] (splitNL s) = s.
Proof.
  induction s as [|x s IH]; [reflexivity|]. cbn [splitNL].
  destruct (N.eqb_spec x NL) as [->|Hx].
  - rewrite join_cons by apply splitNL_nonempty. now rewrite IH.
  - pose proof (splitNL_nonempty s) as Hne.
    destruct (splitNL s) as [|l ls]; [contradiction|].
    destruct ls as [|l2 ls]; cbn [join] in *; now rewrite <- IH.
Qed.

Lemma splitNL_toWellFormed s :
  splitNL (toWellFormed s) = List.map toWellFormed (splitNL s).
Proof.
  rewrite <- (join_splitNL s) at 1.
  rewrite (join_toWellFormed [NL]) by (reflexivity || discriminate).
  apply splitNL_join.
  - pose proof (splitNL_nonempty s). now destruct (splitNL s).
  - apply Forall_map. eapply Forall_impl; [apply splitNL_lines_NLfree|].
    apply NLfree_toWellFormed.
Qed.

(** *** Sections of the text kept *)

Lemma list_snoc_case {A} (l : list A) : l = [] \/ exists r x, l = r ++ [x].
Proof.
  destruct l as [|a l]; [now left|right].
  destruct (exists_last (l := a :: l) ltac:(discriminate)) as (r & x & E). eauto.
Qed.

Lemma plain_head X x r : plain X -> X = x :: r -> isPlain x = true.
Proof. intros H ->. unfold plain in H. cbn in H. now apply andb_true_iff in H as [H _]. Qed.

Lemma plain_lookup X k x : plain X -> X !! k = Some x -> isPlain x = true.
Proof.
  unfold plain. rewrite forallb_forall. intros H Hx. apply H.
  apply list_elem_of_In. now apply list_elem_of_lookup_2 in Hx.
Qed.

Lemma plain_mark : plain nextHeadingMark.
Proof. reflexivity. Qed.

Lemma find_sub_at X c i x r :
  find_sub X c = Some i -> X = x :: r -> c !! i = Some x.
Proof.
  intros H ->. destruct (find_sub_Some _ _ _ H) as (Ho & _ & _).
  rewrite <- (Nat.add_0_r i). now apply (occursAt_lookup (x :: r) c i 0 x Ho).
Qed.

Lemma indexOf_at X c k n x r :
  indexOf X c k = Some n -> X = x :: r ->
  c !! n = Some x /\ Nat.min k (length c) <= n.
Proof.
  unfold indexOf. intros H ->.
  destruct (find_sub (x :: r) (drop (Nat.min k (length c)) c)) as [j|] eqn:E; [|discriminate].
  injection H as <-. split; [|lia].
  rewrite <- lookup_drop. now apply (find_sub_at _ _ _ x r E).
Qed.

Lemma toWellFormed_drop_found X c i :
  plain X -> find_sub X c = Some i ->
  toWellFormed (drop i c) = drop i (toWellFormed c).
Proof.
  intros HX H. destruct X as [|x r].
  - destruct c; cbn in H; injection H as <-; reflexivity.
  - apply (toWellFormed_drop_at c i x); [now apply (find_sub_at _ _ _ x r H)|].
    now apply (plain_head _ x r HX).
Qed.

Lemma sectionText_toWellFormed X c :
  plain X -> sectionText X (toWellFormed c) = toWellFormed <$> sectionText X c.
Proof.
  intros HX. unfold sectionText.
  rewrite (indexOf_toWellFormed X c 0 HX), indexOf_0.
  destruct (find_sub X c) as [i|] eqn:Ei; [|reflexivity]. cbn [fmap option_fmap option_map].
  f_equal. rewrite (indexOf_toWellFormed _ c _ plain_mark).
  pose proof (toWellFormed_drop_found X c i HX Ei) as Ed.
  destruct (indexOf nextHeadingMark c (i + length X)) as [n|] eqn:En.
  - unfold slice. rewrite <- Ed. symmetry.
    destruct (indexOf_at _ _ _ _ NL (lit "## ") En eq_refl) as [Hn Hle].
    destruct (find_sub_Some _ _ _ Ei) as (_ & Hi & _).
    apply (toWellFormed_take_at _ _ NL); [|reflexivity].
    rewrite lookup_drop. replace (i + (n - i)) with n by lia. exact Hn.
  - unfold sliceFrom. now rewrite Ed.
Qed.

Lemma bodyBounds_toWellFormed X c i :
  bodyBounds X (toWellFormed c) i = bodyBounds X c i.
Proof.
  unfold bodyBounds.
  rewrite (indexOf_toWellFormed _ c _ plain_mark), (indexOf_toWellFormed [NL] c _ eq_refl).
  now rewrite toWellFormed_length.
Qed.

(** Where the body of a section starts and ends, the text can be cut. *)
Lemma bodyBounds_cuts X c i bs be :
  plain X -> find_sub X c = Some i -> bodyBounds X c i = (bs, be) ->
  (bs = 0 \/ exists x, c !! (bs - 1) = Some x /\ isHighSurrogate x = false)
  /\ (forall l, c !! be = Some l -> isLowSurrogate l = false).
Proof.
  intros HX Hi. unfold bodyBounds. intros [= <- <-]. split.
  - destruct (indexOf [NL] c (i + length X)) as [s|] eqn:Es.
    + right. exists NL. destruct (indexOf_at _ _ _ _ NL [] Es eq_refl) as [Hs _].
      replace (s + 1 - 1) with s by lia. now split.
    + destruct (list_snoc_case X) as [->|(X' & x & ->)].
      * left. destruct c; cbn in Hi; injection Hi as <-; reflexivity.
      * right. exists x. rewrite length_app. cbn [length].
        replace (i + (length X' + 1) - 1) with (i + length X') by lia.
        destruct (find_sub_Some _ _ _ Hi) as (Ho & _ & _). split.
        -- apply (occursAt_lookup (X' ++ [x]) c i (length X') x Ho).
           rewrite lookup_app_r by lia. now rewrite Nat.sub_diag.
        -- apply plain_app in HX as [_ Hx].
           now apply not_surrogate_high, isPlain_not_surrogate, (plain_head [x] x []).
  - destruct (indexOf nextHeadingMark c (i + length X)) as [n|] eqn:En.
    + destruct (indexOf_at _ _ _ _ NL (lit "## ") En eq_refl) as [Hn _].
      intros l Hl. rewrite Hn in Hl. now injection Hl as <-.
    + intros l Hl. apply lookup_lt_Some in Hl. lia.
Qed.

Lemma toWellFormed_before c n rest :
  (n = 0 \/ exists x, c !! (n - 1) = Some x /\ isHighSurrogate x = false) ->
  toWellFormed (slice c 0 n ++ rest) = slice (toWellFormed c) 0 n ++ toWellFormed rest.
Proof.
  intros Hn. unfold slice. rewrite Nat.sub_0_r, !drop_0.
  rewrite toWellFormed_app_last by now apply cut_last_high.
  now destruct (toWellFormed_cut_last c n Hn) as [-> _].
Qed.

Lemma toWellFormed_after c n :
  (forall l, c !! n = Some l -> isLowSurrogate l = false) ->
  toWellFormed (trimStart (sliceFrom c n)) = trimStart (sliceFrom (toWellFormed c) n).
Proof.
  intros Hn. unfold sliceFrom. rewrite <- trimStart_toWellFormed.
  now destruct (toWellFormed_cut_head c n Hn) as [_ ->].
Qed.

Lemma toWellFormed_NL2 a b :
  toWellFormed (a ++ [NL; NL] ++ b) = toWellFormed a ++ [NL; NL] ++ toWellFormed b.
Proof.
  cbn [app]. rewrite toWellFormed_app_cons by reflexivity.
  now rewrite toWellFormed_cons_plain by reflexivity.
Qed.

Lemma toWellFormed_NL a b :
  toWellFormed (a ++ [NL] ++ b) = toWellFormed a ++ [NL] ++ toWellFormed b.
Proof. cbn [app]. now rewrite toWellFormed_app_cons by reflexivity. Qed.

(** UTF-8 keeps of the content written what the same write makes of the
    text kept. *)
Lemma replacedContent_toWellFormed X nb c :
  plain X ->
  toWellFormed (replacedContent X nb c)
  = replacedContent X (toWellFormed nb) (toWellFormed c).
Proof.
  intros HX. unfold replacedContent.
  rewrite (indexOf_toWellFormed X c 0 HX), indexOf_0.
  destruct (find_sub X c) as [i|] eqn:Ei.
  - rewrite bodyBounds_toWellFormed. destruct (bodyBounds X c i) as [bs be] eqn:Eb.
    destruct (bodyBounds_cuts X c i bs be HX Ei Eb) as [Hbs Hbe].
    rewrite (toWellFormed_before c bs _ Hbs), toWellFormed_NL2.
    now rewrite trim_toWellFormed, (toWellFormed_after c be Hbe).
  - rewrite toWellFormed_NL2, (toWellFormed_plain_app X _ HX).
    cbn [app]. rewrite toWellFormed_cons_plain by reflexivity.
    rewrite toWellFormed_snoc by reflexivity.
    now rewrite trimEnd_toWellFormed, trim_toWellFormed.
Qed.

Lemma toWellFormed_slice c bs be :
  (bs = 0 \/ exists x, c !! (bs - 1) = Some x /\ isHighSurrogate x = false) ->
  (forall l, c !! be = Some l -> isLowSurrogate l = false) ->
  toWellFormed (slice c bs be) = slice (toWellFormed c) bs be.
Proof.
  intros Hbs Hbe. unfold slice.
  destruct (toWellFormed_cut_last c bs Hbs) as [_ <-].
  destruct (le_lt_dec be bs) as [Hle|Hlt].
  - replace (be - bs) with 0 by lia. reflexivity.
  - apply toWellFormed_cut_head. intros l Hl. apply Hbe.
    rewrite lookup_drop in Hl. now replace (bs + (be - bs)) with be in Hl by lia.
Qed.

Lemma appendedContent_toWellFormed X entry c :
  plain X ->
  toWellFormed (appendedContent X entry c)
  = appendedContent X (toWellFormed entry) (toWellFormed c).
Proof.
  intros HX. unfold appendedContent.
  rewrite (indexOf_toWellFormed X c 0 HX), indexOf_0.
  destruct (find_sub X c) as [i|] eqn:Ei.
  - rewrite bodyBounds_toWellFormed. destruct (bodyBounds X c i) as [bs be] eqn:Eb.
    destruct (bodyBounds_cuts X c i bs be HX Ei Eb) as [Hbs Hbe].
    rewrite (toWellFormed_before c bs _ Hbs), toWellFormed_NL2.
    rewrite (toWellFormed_after c be Hbe).
    rewrite <- (toWellFormed_slice c bs be Hbs Hbe), trimEnd_toWellFormed.
    rewrite truthy_toWellFormed.
    destruct (truthy (trimEnd (slice c bs be))); [|reflexivity].
    now rewrite toWellFormed_NL.
  - rewrite toWellFormed_NL2, (toWellFormed_plain_app X _ HX).
    cbn [app]. rewrite toWellFormed_cons_plain by reflexivity.
    rewrite toWellFormed_snoc by reflexivity.
    now rewrite trimEnd_toWellFormed.
Qed.

Lemma replacedContent_stored X nb c :
  plain X ->
  toWellFormed (replacedContent X nb (toWellFormed c))
  = toWellFormed (replacedContent X nb c).
Proof.
  intros HX. now rewrite !(replacedContent_toWellFormed X) , toWellFormed_idem.
Qed.

Lemma appendedContent_stored X entry c :
  plain X ->
  toWellFormed (appendedContent X entry (toWellFormed c))
  = toWellFormed (appendedContent X entry c).
Proof.
  intros HX. now rewrite !(appendedContent_toWellFormed X), toWellFormed_idem.
Qed.

(** *** Reading the text kept *)

Lemma noLineTerminator_toWellFormed s :
  forallb (fun c => negb (isLineTerminator c)) (toWellFormed s)
  = forallb (fun c => negb (isLineTerminator c)) s.
Proof.
  symmetry. apply (similar_forallb isLineTerminator); auto using toWellFormed_similar.
  apply isLineTerminator_plain.
Qed.

Lemma dotPlusEnd_toWellFormed s :
  dotPlusEnd (toWellFormed s) = toWellFormed <$> dotPlusEnd s.
Proof.
  unfold dotPlusEnd. rewrite truthy_toWellFormed, noLineTerminator_toWellFormed.
  now destruct (truthy s && _).
Qed.

Lemma spacesThenRest_toWellFormed s :
  spacesThenRest (toWellFormed s) = toWellFormed <$> spacesThenRest s.
Proof.
  induction s as [|x r IH]; [reflexivity|].
  cbn [spacesThenRest]. destruct (isSpace x) eqn:Ex.
  - pose proof (dotPlusEnd_toWellFormed (x :: r)) as Hd.
    rewrite toWellFormed_cons_plain in * by now apply isPlain_not_surrogate, isSpace_plain.
    cbn [spacesThenRest]. rewrite Ex, IH.
    destruct (spacesThenRest r); [reflexivity|exact Hd].
  - pose proof (dotPlusEnd_toWellFormed (x :: r)) as Hd.
    destruct (toWellFormed_head x r) as (z & t & E & Hs). rewrite E in *.
    cbn [spacesThenRest]. now rewrite <- (similar_isSpace x z Hs), Ex.
Qed.

Lemma matchPlanLine_inv s m t :
  matchPlanLine s = Some (m, t) ->
  exists rest,
    s = 45%N :: 32%N :: 91%N :: m :: 93%N :: rest
    /\ (m =? 32)%N || (asciiLowerChar m =? 120)%N = true
    /\ spacesThenRest rest = Some t.
Proof.
  unfold matchPlanLine.
  destruct s as [|c0 [|c1 [|c2 [|c3 [|c4 rest]]]]]; try discriminate;
    try (destruct c0 as [|p0]; [discriminate|]; repeat (destruct p0; try discriminate)).
  all: try (destruct c1 as [|p1]; [discriminate|]; repeat (destruct p1; try discriminate)).
  all: try (destruct c2 as [|p2]; [discriminate|]; repeat (destruct p2; try discriminate)).
  destruct c4 as [|p4]; [discriminate|]. repeat (destruct p4; try discriminate).
  destruct ((c3 =? 32)%N || (asciiLowerChar c3 =? 120)%N) eqn:Ec; [|discriminate].
  destruct (spacesThenRest rest) as [t'|] eqn:Es; [|discriminate].
  intros [= <- <-]. now exists rest.
Qed.

Lemma matchPlanLine_shape m rest :
  matchPlanLine (45%N :: 32%N :: 91%N :: m :: 93%N :: rest)
  = if (m =? 32)%N || (asciiLowerChar m =? 120)%N
    then (fun t => (m, t)) <$> spacesThenRest rest else None.
Proof. reflexivity. Qed.

Lemma planMark_plain m :
  (m =? 32)%N || (asciiLowerChar m =? 120)%N = true -> isSurrogate m = false.
Proof.
  unfold asciiLowerChar. compare_units.
Qed.

Lemma toWellFormed_planLine m rest :
  isSurrogate m = false ->
  toWellFormed (45%N :: 32%N :: 91%N :: m :: 93%N :: rest)
  = 45%N :: 32%N :: 91%N :: m :: 93%N :: toWellFormed rest.
Proof.
  intros Hm. rewrite !toWellFormed_cons_plain by reflexivity.
  rewrite (toWellFormed_cons_plain m) by exact Hm.
  now rewrite toWellFormed_cons_plain by reflexivity.
Qed.

Lemma similar_cons_inv x a b :
  Forall2 similar a (x :: b) -> isPlain x = true ->
  exists a', a = x :: a' /\ Forall2 similar a' b.
Proof.
  intros H Hx. inversion H as [|y ? a' ? Hs Hab]; subst.
  exists a'. split; [|exact Hab]. now rewrite (similar_eq_plain_r y x Hs Hx).
Qed.

Lemma matchPlanLine_toWellFormed s :
  matchPlanLine (toWellFormed s)
  = (fun r => (fst r, toWellFormed (snd r))) <$> matchPlanLine s.
Proof.
  destruct (matchPlanLine s) as [[m t]|] eqn:E.
  - destruct (matchPlanLine_inv s m t E) as (rest & -> & Hm & Hr).
    rewrite (toWellFormed_planLine m rest (planMark_plain m Hm)).
    rewrite matchPlanLine_shape, Hm, spacesThenRest_toWellFormed, Hr. reflexivity.
  - destruct (matchPlanLine (toWellFormed s)) as [[m t]|] eqn:E'; [|reflexivity].
    exfalso. destruct (matchPlanLine_inv _ m t E') as (rest & Es & Hm & Hr).
    pose proof (toWellFormed_similar s) as Hs. rewrite Es in Hs.
    pose proof (planMark_plain m Hm) as Hmp.
    assert (Hmq : isPlain m = true) by (revert Hm; unfold asciiLowerChar; compare_units).
    apply similar_cons_inv in Hs as (s1 & -> & Hs); [|reflexivity].
    apply similar_cons_inv in Hs as (s2 & -> & Hs); [|reflexivity].
    apply similar_cons_inv in Hs as (s3 & -> & Hs); [|reflexivity].
    apply similar_cons_inv in Hs as (s4 & -> & Hs); [|exact Hmq].
    apply similar_cons_inv in Hs as (s5 & -> & Hs); [|reflexivity].
    rewrite (toWellFormed_planLine m s5 Hmp) in Es. injection Es as <-.
    rewrite spacesThenRest_toWellFormed in Hr.
    rewrite matchPlanLine_shape, Hm in E.
    destruct (spacesThenRest s5); discriminate.
Qed.

Lemma planItemsFrom_toWellFormed k lines :
  planItemsFrom k (List.map toWellFormed lines) = List.map utf8Item (planItemsFrom k lines).
Proof.
  revert k. induction lines as [|line lines IH]; intros k; [reflexivity|].
  cbn [List.map planItemsFrom]. cbv zeta.
  rewrite trim_toWellFormed, matchPlanLine_toWellFormed.
  destruct (matchPlanLine (trim line)) as [[m t]|]; cbn [fmap option_fmap option_map fst snd].
  - cbn [List.map]. now rewrite IH.
  - apply IH.
Qed.

Lemma plain_taskClaim : plain SECTION_HEADINGS.taskClaim.
Proof. reflexivity. Qed.

Lemma plain_mappingLayer : plain SECTION_HEADINGS.mappingLayer.
Proof. reflexivity. Qed.

Lemma plain_mechanics : plain SECTION_HEADINGS.mechanics.
Proof. reflexivity. Qed.

Lemma plain_plan : plain SECTION_HEADINGS.plan.
Proof. reflexivity. Qed.

Lemma plain_implementation : plain SECTION_HEADINGS.implementation.
Proof. reflexivity. Qed.

Lemma parsePlanItems_toWellFormed c :
  parsePlanItems (toWellFormed c) = List.map utf8Item (parsePlanItems c).
Proof.
  unfold parsePlanItems. rewrite (sectionText_toWellFormed _ c plain_plan).
  destruct (sectionText SECTION_HEADINGS.plan c) as [body|]; [|reflexivity].
  cbn [fmap option_fmap option_map].
  now rewrite splitNL_toWellFormed, planItemsFrom_toWellFormed.
Qed.

Lemma similar_startsWithCI X a b :
  Forall (fun x => (x < 256)%N) X -> Forall2 similar a b ->
  startsWithCI X a = startsWithCI X b.
Proof.
  intros HX. revert a b. induction HX as [|x X Hx _ IH]; intros a b Hab; [reflexivity|].
  destruct Hab as [|y z a b Hyz Hab]; [reflexivity|]. cbn [startsWithCI].
  rewrite (IH a b Hab). f_equal.
  destruct Hyz as [->|[Hy Hz]]; [reflexivity|].
  revert Hy Hz. unfold asciiLowerChar. compare_units.
Qed.

Lemma startsWithCI_lookup X s k x :
  startsWithCI X s = true -> X !! k = Some x ->
  exists y, s !! k = Some y /\ asciiLowerChar x = asciiLowerChar y.
Proof.
  revert s k. induction X as [|x0 X IH]; intros s k H Hk; [discriminate|].
  destruct s as [|y s]; [discriminate|]. cbn [startsWithCI] in H.
  apply andb_true_iff in H as [H0 H]. destruct k as [|k].
  - injection Hk as <-. exists y. split; [reflexivity|]. now apply N.eqb_eq.
  - now apply (IH s k H).
Qed.

Lemma matchTag_toWellFormed tag st s :
  Forall (fun x => (x < 256)%N) tag ->
  matchTag tag st (toWellFormed s)
  = (fun r => (fst r, toWellFormed (snd r))) <$> matchTag tag st s.
Proof.
  intros Htag. unfold matchTag.
  rewrite <- (similar_startsWithCI (tag ++ [93%N]) s (toWellFormed s)).
  2:{ apply Forall_app. split; [exact Htag|]. repeat constructor. }
  2:{ apply toWellFormed_similar. }
  destruct (startsWithCI (tag ++ [93%N]) s) eqn:E; [|reflexivity].
  destruct (startsWithCI_lookup _ s (length tag) 93%N E) as (y & Hy & Hl).
  { rewrite lookup_app_r by lia. now rewrite Nat.sub_diag. }
  assert (y = 93%N) as ->.
  { revert Hl. unfold asciiLowerChar.
    repeat (match goal with
            | |- context [(?a <=? ?b)%N] => destruct (N.leb_spec a b)
            end; cbn [andb]); lia. }
  rewrite Nat.add_1_r.
  destruct (toWellFormed_take_after s (length tag) 93%N Hy eq_refl) as [_ <-].
  rewrite spacesThenRest_toWellFormed.
  now destruct (spacesThenRest (drop (S (length tag)) s)).
Qed.

Lemma matchInvariantLine_toWellFormed t :
  matchInvariantLine (toWellFormed t)
  = (fun r => (fst r, toWellFormed (snd r))) <$> matchInvariantLine t.
Proof.
  unfold matchInvariantLine. rewrite (startsWith_toWellFormed _ t (lit_plain _)).
  destruct (startsWith (lit "- [") t) eqn:E; [|reflexivity].
  apply startsWith_true in E as [r ->].
  rewrite (toWellFormed_plain_app _ r (lit_plain _)).
  change (drop 3 (lit "- [" ++ r)) with r.
  change (drop 3 (lit "- [" ++ toWellFormed r)) with (toWellFormed r). cbv zeta.
  rewrite !matchTag_toWellFormed.
  2-4: apply Forall_forall; intros x Hx; apply list_elem_of_In in Hx;
       apply in_map_iff in Hx as (a & <- & _); pose proof (N_ascii_bounded a); lia.
  destruct (matchTag (lit "satisfied") satisfied r); [reflexivity|].
  destruct (matchTag (lit "violated") violated r); [reflexivity|].
  reflexivity.
Qed.

Lemma similar_rev a b : Forall2 similar a b -> Forall2 similar (rev a) (rev b).
Proof.
  induction 1 as [|x y a b Hxy Hab IH]; [constructor|].
  cbn [rev]. apply Forall2_app; [exact IH|]. constructor; [exact Hxy|constructor].
Qed.

Lemma plain_rev X : plain X -> plain (rev X).
Proof.
  unfold plain. rewrite !forallb_forall. intros H x Hx. apply H. now apply in_rev.
Qed.

Lemma endsWith_toWellFormed X t :
  plain X -> endsWith X (toWellFormed t) = endsWith X t.
Proof.
  intros HX. unfold endsWith. symmetry.
  apply similar_startsWith; [now apply plain_rev|apply similar_rev, toWellFormed_similar].
Qed.

Lemma includes_toWellFormed X t :
  plain X -> includes X (toWellFormed t) = includes X t.
Proof. intros HX. unfold includes. now rewrite find_sub_toWellFormed. Qed.

Lemma stripDash_other x r : x <> 45%N -> stripDash (x :: r) = x :: r.
Proof.
  intros Hx. unfold stripDash. destruct x as [|p]; [reflexivity|].
  repeat (destruct p as [p|p|]; try reflexivity). contradiction.
Qed.

Lemma stripDash_toWellFormed t : stripDash (toWellFormed t) = toWellFormed (stripDash t).
Proof.
  destruct t as [|x r]; [reflexivity|].
  destruct (N.eq_dec x 45%N) as [->|Hx].
  - rewrite toWellFormed_cons_plain by reflexivity. cbn [stripDash].
    apply trimStart_toWellFormed.
  - rewrite (stripDash_other x r Hx).
    destruct (toWellFormed_head x r) as (z & t & -> & Hs).
    apply stripDash_other. intros ->. apply Hx.
    symmetry. now apply (similar_eq_plain_r x 45%N Hs).
Qed.

Lemma invariantsFrom_toWellFormed k lines :
  invariantsFrom k (List.map toWellFormed lines)
  = List.map utf8Invariant (invariantsFrom k lines).
Proof.
  revert k. induction lines as [|line lines IH]; intros k; [reflexivity|].
  cbn [List.map invariantsFrom]. cbv zeta.
  rewrite trim_toWellFormed, truthy_toWellFormed.
  rewrite (startsWith_toWellFormed _ _ (lit_plain _)).
  destruct (negb (truthy (trim line)) || startsWith (lit "##") (trim line)); [apply IH|].
  rewrite matchInvariantLine_toWellFormed.
  destruct (matchInvariantLine (trim line)) as [[st d]|];
    cbn [fmap option_fmap option_map fst snd].
  - cbn [List.map]. now rewrite IH.
  - rewrite (endsWith_toWellFormed _ _ (lit_plain _)).
    rewrite (includes_toWellFormed _ _ (lit_plain _)).
    destruct (negb (endsWith (lit ": _") (trim line))
              && negb (includes (lit "pending") (trim line))); [|apply IH].
    cbn [List.map]. rewrite IH. f_equal. unfold utf8Invariant. cbn.
    now rewrite stripDash_toWellFormed.
Qed.

Lemma parseInvariants_toWellFormed c :
  parseInvariants (toWellFormed c) = List.map utf8Invariant (parseInvariants c).
Proof.
  unfold parseInvariants. rewrite (sectionText_toWellFormed _ c plain_mechanics).
  destruct (sectionText SECTION_HEADINGS.mechanics c) as [body|]; [|reflexivity].
  cbn [fmap option_fmap option_map].
  now rewrite splitNL_toWellFormed, invariantsFrom_toWellFormed.
Qed.

Lemma meaningfulLine_toWellFormed line :
  meaningfulLine (toWellFormed line) = meaningfulLine line.
Proof.
  unfold meaningfulLine. rewrite truthy_toWellFormed.
  rewrite (includes_toWellFormed _ _ (lit_plain _)).
  now rewrite (endsWith_toWellFormed _ _ (lit_plain _)).
Qed.

Lemma mappingLayerPresent_toWellFormed c :
  mappingLayerPresent (toWellFormed c) = mappingLayerPresent c.
Proof.
  unfold mappingLayerPresent. rewrite (sectionText_toWellFormed _ c plain_mappingLayer).
  destruct (sectionText SECTION_HEADINGS.mappingLayer c) as [body|]; [|reflexivity].
  cbn [fmap option_fmap option_map]. rewrite splitNL_toWellFormed.
  induction (splitNL body) as [|l ls IH]; [reflexivity|].
  cbn [List.map existsb]. now rewrite trim_toWellFormed, meaningfulLine_toWellFormed, IH.
Qed.

(** *** Writing the text kept *)

Lemma planBody_toWellFormed items :
  toWellFormed (planBody items) = planBody (List.map utf8Item items).
Proof.
  destruct items as [|item items]; [reflexivity|].
  rewrite !planBody_lines by discriminate.
  rewrite (join_toWellFormed [NL]) by (reflexivity || discriminate).
  f_equal. rewrite !List.map_map. apply List.map_ext. intros it. unfold planLine.
  rewrite (toWellFormed_plain_app _ _ (lit_plain _)).
  cbn [utf8Item plan_status plan_text].
  destruct (isDone (plan_status it));
    rewrite (toWellFormed_plain_app _ _ (lit_plain _));
    now rewrite (toWellFormed_plain_app _ _ (lit_plain _)).
Qed.

Lemma statusTag_plain st : plain (statusTag st).
Proof. now destruct st. Qed.

Lemma invariantsBody_toWellFormed invs :
  toWellFormed (invariantsBody invs) = invariantsBody (List.map utf8Invariant invs).
Proof.
  destruct invs as [|inv invs]; [reflexivity|].
  rewrite !invariantsBody_lines by discriminate.
  rewrite (join_toWellFormed [NL]) by (reflexivity || discriminate).
  f_equal. rewrite !List.map_map. apply List.map_ext. intros it. unfold invLine.
  rewrite (toWellFormed_plain_app _ _ (lit_plain _)).
  rewrite (toWellFormed_plain_app _ _ (statusTag_plain _)).
  now rewrite (toWellFormed_plain_app _ _ (lit_plain _)).
Qed.

Lemma updatedItems_utf8 pid items :
  updatedItems pid (List.map utf8Item items) = List.map utf8Item (updatedItems pid items).
Proof.
  unfold updatedItems. rewrite !List.map_map. apply List.map_ext. intros item.
  cbn [utf8Item plan_id]. now destruct (str_eqb (plan_id item) pid).
Qed.

Lemma findIndex_utf8 invs :
  findIndex (fun inv => isUnknown (inv_status inv)) (List.map utf8Invariant invs)
  = findIndex (fun inv => isUnknown (inv_status inv)) invs.
Proof.
  induction invs as [|inv invs IH]; [reflexivity|]. cbn [List.map findIndex].
  cbn [utf8Invariant inv_status]. now rewrite IH.
Qed.

Lemma alter_utf8 n invs :
  alter markSatisfied n (List.map utf8Invariant invs)
  = List.map utf8Invariant (alter markSatisfied n invs).
Proof.
  revert n. induction invs as [|inv invs IH]; intros [|n]; try reflexivity.
  cbn. f_equal. apply IH.
Qed.

(** ** The four sections a completed step touches *)

Lemma NLfree_forallb s : forallb (fun c => negb (c =? NL)%N) s = true -> NLfree s.
Proof.
  intros H. rewrite forallb_forall in H. apply Forall_forall. intros x Hx ->.
  apply list_elem_of_In, H in Hx. discriminate.
Qed.

Lemma nice_taskClaim : niceHeading SECTION_HEADINGS.taskClaim.
Proof. split; [reflexivity|]. now apply NLfree_forallb. Qed.

Lemma nice_mappingLayer : niceHeading SECTION_HEADINGS.mappingLayer.
Proof. split; [reflexivity|]. now apply NLfree_forallb. Qed.

Lemma nice_mechanics : niceHeading SECTION_HEADINGS.mechanics.
Proof. split; [reflexivity|]. now apply NLfree_forallb. Qed.

Lemma nice_mappingTable : niceHeading SECTION_HEADINGS.mappingTable.
Proof. split; [reflexivity|]. now apply NLfree_forallb. Qed.

Lemma nice_plan : niceHeading SECTION_HEADINGS.plan.
Proof. split; [reflexivity|]. now apply NLfree_forallb. Qed.

Lemma nice_implementation : niceHeading SECTION_HEADINGS.implementation.
Proof. split; [reflexivity|]. now apply NLfree_forallb. Qed.

Lemma nice_openQuestions : niceHeading SECTION_HEADINGS.openQuestions.
Proof. split; [reflexivity|]. now apply NLfree_forallb. Qed.

Lemma keepsFree_const M Z : find_sub Z M = None -> keepsFree (fun _ => M) Z.
Proof. intros H b _. exact H. Qed.

Lemma keepsFree_append entry Z :
  niceHeading Z -> find_sub Z entry = None -> keepsFree (appendBody entry) Z.
Proof.
  intros [HZp HZf] He b Hb. unfold appendBody.
  destruct (truthy (trimEnd b)); [|exact He].
  change (trimEnd b ++ [NL] ++ entry) with (trimEnd b ++ NL :: entry).
  rewrite find_sub_NL_split by (auto; exact (niceHeading_nonempty Z (conj HZp HZf))).
  destruct (trimEnd_prefix b) as [r Hr]. rewrite Hr in Hb.
  apply find_sub_None_app_l in Hb. now rewrite Hb, He.
Qed.

Lemma keep_own f X c i :
  find_sub X c = Some i -> X <> [] ->
  find_sub X (rewriteBody f X c i) = Some i
  /\ (afterNL c i -> afterNL (rewriteBody f X c i) i).
Proof.
  intros HX Hne. destruct (rewrite_own f X c i HX Hne) as [Hown [q Hq]].
  split; [exact Hown|]. intros [Hpos Hl]. split; [exact Hpos|].
  rewrite Hq. rewrite lookup_app_l.
  - rewrite lookup_take_lt by lia. exact Hl.
  - rewrite length_take. apply find_sub_decompose in HX. lia.
Qed.

Lemma keep_before f X Z c i iZ :
  find_sub X c = Some i -> niceHeading X -> afterNL c i ->
  find_sub Z c = Some iZ -> iZ < i -> niceHeading Z ->
  find_sub Z (rewriteBody f X c i) = Some iZ
  /\ sectionText Z (rewriteBody f X c i) = sectionText Z c
  /\ (afterNL c iZ -> afterNL (rewriteBody f X c i) iZ).
Proof.
  intros HX [HXp HXf] Hnl HZ Hlt [HZp HZf].
  pose proof (niceHeading_nonempty X (conj HXp HXf)) as HXne.
  pose proof (niceHeading_nonempty Z (conj HZp HZf)) as HZne.
  destruct (rewrite_own f X c i HX HXne) as [_ [q Hq]].
  destruct (frame_before X Z c i iZ q HX HXp Hnl HZ Hlt HZf HZne) as (H1 & H2 & H3).
  rewrite Hq. split; [exact H1|]. split; [exact H2|].
  intros [Hpos Hl]. split; [exact Hpos|].
  rewrite <- (lookup_take_lt _ i) by lia. rewrite H3.
  rewrite lookup_take_lt by lia. exact Hl.
Qed.

Local Ltac nice := first [ exact nice_taskClaim | exact nice_mechanics | exact nice_plan
                         | exact nice_implementation ].

(** Rewriting the Plan body. *)
Lemma layout_write_plan f c iT iM iP iI :
  layout c iT iM iP iI -> keepsFree f SECTION_HEADINGS.implementation ->
  exists iI',
    layout (rewriteBody f SECTION_HEADINGS.plan c iP) iT iM iP iI'
    /\ sectionText SECTION_HEADINGS.mechanics (rewriteBody f SECTION_HEADINGS.plan c iP)
       = sectionText SECTION_HEADINGS.mechanics c.
Proof.
  intros (HT & HM & HMn & HP & HPn & HI & HIn & L1 & L2 & L3) Hfree.
  destruct (keep_own f _ c iP HP (niceHeading_nonempty _ nice_plan)) as [O1 O2].
  destruct (keep_before f _ _ c iP iT HP nice_plan HPn HT ltac:(lia) nice_taskClaim)
    as (T1 & _ & _).
  destruct (keep_before f _ _ c iP iM HP nice_plan HPn HM L2 nice_mechanics)
    as (M1 & M2 & M3).
  destruct (frame_after f _ c iP HP (proj2 nice_plan)) as (a & a' & Ha & Hafter).
  destruct (Hafter _ iI HI L3 HIn nice_implementation Hfree) as (I0 & I1 & I2 & _ & _).
  exists (iI - a + a'). split; [|exact M2].
  pose proof (niceHeading_length _ nice_plan).
  refine (conj T1 (conj M1 (conj (M3 HMn) (conj O1 (conj (O2 HPn)
           (conj I1 (conj I2 (conj _ (conj _ _))))))))); lia.
Qed.

(** Rewriting the Mechanics body. *)
Lemma layout_write_mechanics f c iT iM iP iI :
  layout c iT iM iP iI ->
  keepsFree f SECTION_HEADINGS.plan -> keepsFree f SECTION_HEADINGS.implementation ->
  exists iP' iI',
    layout (rewriteBody f SECTION_HEADINGS.mechanics c iM) iT iM iP' iI'
    /\ sectionText SECTION_HEADINGS.plan (rewriteBody f SECTION_HEADINGS.mechanics c iM)
       = sectionText SECTION_HEADINGS.plan c.
Proof.
  intros (HT & HM & HMn & HP & HPn & HI & HIn & L1 & L2 & L3) HfP HfI.
  destruct (keep_own f _ c iM HM (niceHeading_nonempty _ nice_mechanics)) as [O1 O2].
  destruct (keep_before f _ _ c iM iT HM nice_mechanics HMn HT L1 nice_taskClaim)
    as (T1 & _ & _).
  destruct (frame_after f _ c iM HM (proj2 nice_mechanics)) as (a & a' & Ha & Hafter).
  destruct (Hafter _ iP HP L2 HPn nice_plan HfP) as (P0 & P1 & P2 & P3 & _).
  destruct (Hafter _ iI HI ltac:(lia) HIn nice_implementation HfI) as (I0 & I1 & I2 & _ & _).
  exists (iP - a + a'), (iI - a + a'). split; [|exact P3].
  pose proof (niceHeading_length _ nice_mechanics).
  refine (conj T1 (conj O1 (conj (O2 HMn) (conj P1 (conj P2
           (conj I1 (conj I2 (conj _ (conj _ _))))))))); lia.
Qed.

(** Rewriting the Task-Claim body. *)
Lemma layout_write_taskClaim f c iT iM iP iI :
  layout c iT iM iP iI ->
  keepsFree f SECTION_HEADINGS.mechanics -> keepsFree f SECTION_HEADINGS.plan ->
  keepsFree f SECTION_HEADINGS.implementation ->
  exists iM' iP' iI',
    layout (rewriteBody f SECTION_HEADINGS.taskClaim c iT) iT iM' iP' iI'
    /\ sectionText SECTION_HEADINGS.mechanics (rewriteBody f SECTION_HEADINGS.taskClaim c iT)
       = sectionText SECTION_HEADINGS.mechanics c
    /\ sectionText SECTION_HEADINGS.plan (rewriteBody f SECTION_HEADINGS.taskClaim c iT)
       = sectionText SECTION_HEADINGS.plan c.
Proof.
  intros (HT & HM & HMn & HP & HPn & HI & HIn & L1 & L2 & L3) HfM HfP HfI.
  destruct (keep_own f _ c iT HT (niceHeading_nonempty _ nice_taskClaim)) as [O1 O2].
  destruct (frame_after f _ c iT HT (proj2 nice_taskClaim)) as (a & a' & Ha & Hafter).
  destruct (Hafter _ iM HM L1 HMn nice_mechanics HfM) as (M0 & M1 & M2 & M3 & _).
  destruct (Hafter _ iP HP ltac:(lia) HPn nice_plan HfP) as (P0 & P1 & P2 & P3 & _).
  destruct (Hafter _ iI HI ltac:(lia) HIn nice_implementation HfI) as (I0 & I1 & I2 & _ & _).
  exists (iM - a + a'), (iP - a + a'), (iI - a + a'). split; [|split; [exact M3|exact P3]].
  pose proof (niceHeading_length _ nice_taskClaim).
  refine (conj O1 (conj M1 (conj M2 (conj P1 (conj P2
           (conj I1 (conj I2 (conj _ (conj _ _))))))))); lia.
Qed.

(** Rewriting the Implementation body. *)
Lemma layout_write_implementation f c iT iM iP iI :
  layout c iT iM iP iI ->
  layout (rewriteBody f SECTION_HEADINGS.implementation c iI) iT iM iP iI
  /\ sectionText SECTION_HEADINGS.mechanics (rewriteBody f SECTION_HEADINGS.implementation c iI)
     = sectionText SECTION_HEADINGS.mechanics c
  /\ sectionText SECTION_HEADINGS.plan (rewriteBody f SECTION_HEADINGS.implementation c iI)
     = sectionText SECTION_HEADINGS.plan c.
Proof.
  intros (HT & HM & HMn & HP & HPn & HI & HIn & L1 & L2 & L3).
  destruct (keep_own f _ c iI HI (niceHeading_nonempty _ nice_implementation)) as [O1 O2].
  destruct (keep_before f _ _ c iI iT HI nice_implementation HIn HT ltac:(lia) nice_taskClaim)
    as (T1 & _ & _).
  destruct (keep_before f _ _ c iI iM HI nice_implementation HIn HM ltac:(lia) nice_mechanics)
    as (M1 & M2 & M3).
  destruct (keep_before f _ _ c iI iP HI nice_implementation HIn HP L3 nice_plan)
    as (P1 & P2 & P3).
  split; [|split; [exact M2|exact P2]].
  exact (conj T1 (conj M1 (conj (M3 HMn) (conj P1 (conj (P3 HPn)
           (conj O1 (conj (O2 HIn) (conj L1 (conj L2 L3))))))))).
Qed.

(** ** The content after a completed step *)

Lemma parsePlanItems_section c c' :
  sectionText SECTION_HEADINGS.plan c' = sectionText SECTION_HEADINGS.plan c ->
  parsePlanItems c' = parsePlanItems c.
Proof. unfold parsePlanItems. now intros ->. Qed.

Lemma parseInvariants_section c c' :
  sectionText SECTION_HEADINGS.mechanics c' = sectionText SECTION_HEADINGS.mechanics c ->
  parseInvariants c' = parseInvariants c.
Proof. unfold parseInvariants. now intros ->. Qed.

Lemma updatedItems_text pid items :
  List.map plan_text (updatedItems pid items) = List.map plan_text items.
Proof.
  unfold updatedItems. rewrite List.map_map. apply List.map_ext. intros item.
  now destruct (str_eqb (plan_id item) pid).
Qed.

Lemma Forall_text (P : str -> Prop) (items items' : list SasPlanItem) :
  List.map plan_text items' = List.map plan_text items ->
  Forall (fun item => P (plan_text item)) items ->
  Forall (fun item => P (plan_text item)) items'.
Proof.
  intros Heq H. apply (Forall_map plan_text P) in H. rewrite <- Heq in H.
  now apply (Forall_map plan_text P).
Qed.

Lemma alter_description n invs :
  List.map inv_description (alter markSatisfied n invs) = List.map inv_description invs.
Proof.
  revert n. induction invs as [|inv invs IH]; intros [|n]; try reflexivity.
  cbn. f_equal. apply IH.
Qed.

Lemma Forall_description (P : str -> Prop) (invs invs' : list SasInvariant) :
  List.map inv_description invs' = List.map inv_description invs ->
  Forall (fun inv => P (inv_description inv)) invs ->
  Forall (fun inv => P (inv_description inv)) invs'.
Proof.
  intros Heq H. apply (Forall_map inv_description P) in H. rewrite <- Heq in H.
  now apply (Forall_map inv_description P).
Qed.

Lemma planLine_dashLine item : goodText (plan_text item) -> dashLine (planLine item).
Proof.
  intros Hg. split; [|now apply planLine_NLfree]. rewrite planLine_cons. eauto.
Qed.

Lemma placeholder_plan_dashLine : dashLine (lit "- [ ] Pending plan items").
Proof. split; [eexists; reflexivity|]. now apply NLfree_forallb. Qed.

Lemma placeholder_plan_trimmed : trimmed (lit "- [ ] Pending plan items").
Proof.
  split.
  - eexists _, _. split; reflexivity.
  - exists (lit "- [ ] Pending plan item"), 115%N. split; reflexivity.
Qed.

Lemma planBody_trimmed items :
  Forall (fun item => goodText (plan_text item)) items -> trimmed (planBody items).
Proof.
  intros Hg. destruct items as [|item items]; [exact placeholder_plan_trimmed|].
  rewrite planBody_lines by discriminate. apply trimmed_join; [discriminate|].
  apply Forall_map. eapply Forall_impl; [exact Hg|]. apply planLine_trimmed.
Qed.

Lemma planBody_markFree items :
  Forall (fun item => goodText (plan_text item)) items -> markFree (trim (planBody items)).
Proof.
  intros Hg. destruct items as [|item items].
  - apply (markFree_dashLines [lit "- [ ] Pending plan items"]); [discriminate|].
    constructor; [exact placeholder_plan_dashLine|constructor].
  - rewrite planBody_lines by discriminate. apply markFree_dashLines; [discriminate|].
    apply Forall_map. eapply Forall_impl; [exact Hg|]. apply planLine_dashLine.
Qed.

Lemma invariantsBody_markFree invs :
  Forall (fun inv => NLfree (inv_description inv)) invs ->
  markFree (trim (invariantsBody invs)).
Proof.
  intros Hg. destruct invs as [|inv invs].
  - apply (markFree_dashLines [lit "- Invariants: _"]); [discriminate|].
    constructor; [|constructor]. split; [eexists; reflexivity|]. now apply NLfree_forallb.
  - rewrite invariantsBody_lines by discriminate. apply markFree_dashLines; [discriminate|].
    apply Forall_map. eapply Forall_impl; [exact Hg|]. apply invLine_dashLine.
Qed.

(** The section of a heading holds no heading that comes after it. *)
Lemma section_free X Z c i iZ s :
  find_sub X c = Some i -> NLfree X ->
  find_sub Z c = Some iZ -> i < iZ -> afterNL c iZ -> niceHeading Z ->
  sectionText X c = Some s -> find_sub Z s = None.
Proof.
  intros HX HXf HZ Hlt Hnl HZn Hs.
  destruct (frame_after (fun b => b) X c i HX HXf) as (a & a' & _ & Hafter).
  destruct (Hafter Z iZ HZ Hlt Hnl HZn (fun b Hb => Hb)) as (_ & _ & _ & _ & Hfree).
  now apply Hfree.
Qed.

(** The two log entries of [recordImplementationUpdate] leave the Mechanics
    and Plan sections as they are. *)
Lemma log_entries_frame e1 e2 c2 iT iM iP iI :
  layout c2 iT iM iP iI ->
  find_sub SECTION_HEADINGS.mechanics e1 = None ->
  find_sub SECTION_HEADINGS.plan e1 = None ->
  find_sub SECTION_HEADINGS.implementation e1 = None ->
  let c3 := appendedContent SECTION_HEADINGS.taskClaim e1 c2 in
  let c4 := appendedContent SECTION_HEADINGS.implementation e2 c3 in
  sectionText SECTION_HEADINGS.mechanics c4 = sectionText SECTION_HEADINGS.mechanics c2
  /\ sectionText SECTION_HEADINGS.plan c4 = sectionText SECTION_HEADINGS.plan c2
  /\ exists iM' iP' iI',
       layout c3 iT iM' iP' iI'
       /\ c4 = rewriteBody (appendBody e2) SECTION_HEADINGS.implementation c3 iI'.
Proof.
  intros Hl HeM HeP HeI c3 c4.
  assert (HT : find_sub SECTION_HEADINGS.taskClaim c2 = Some iT) by apply Hl.
  assert (E3 : c3 = rewriteBody (appendBody e1) SECTION_HEADINGS.taskClaim c2 iT).
  { unfold c3. now apply appendedContent_found. }
  destruct (layout_write_taskClaim (appendBody e1) c2 iT iM iP iI Hl)
    as (iM' & iP' & iI' & Hl3 & HM3 & HP3);
    try (apply keepsFree_append; auto using nice_mechanics, nice_plan, nice_implementation).
  rewrite <- E3 in Hl3, HM3, HP3.
  assert (HI : find_sub SECTION_HEADINGS.implementation c3 = Some iI') by apply Hl3.
  assert (E4 : c4 = rewriteBody (appendBody e2) SECTION_HEADINGS.implementation c3 iI').
  { unfold c4. now apply appendedContent_found. }
  destruct (layout_write_implementation (appendBody e2) c3 iT iM' iP' iI' Hl3)
    as (_ & HM4 & HP4).
  rewrite <- E4 in HM4, HP4.
  split; [congruence|]. split; [congruence|]. eauto.
Qed.

Lemma findIndex_nil_None {A} (p : A -> bool) : findIndex p [] = None.
Proof. reflexivity. Qed.

(** What the Plan and Mechanics sections hold after a completed step. *)
Lemma completedContent_sections pid e1 e2 c0 iT iM iP iI :
  layout c0 iT iM iP iI ->
  find_sub SECTION_HEADINGS.mechanics e1 = None ->
  find_sub SECTION_HEADINGS.plan e1 = None ->
  find_sub SECTION_HEADINGS.implementation e1 = None ->
  let c4 := completedContent pid e1 e2 c0 in
  let items := parsePlanItems c0 in
  let invs := parseInvariants c0 in
  (exists lr,
      NLfree lr
      /\ sectionText SECTION_HEADINGS.plan c4
         = Some (SECTION_HEADINGS.plan ++ lr ++ [NL]
                 ++ planBody (updatedItems pid items) ++ [NL]))
  /\ match findIndex (fun inv => isUnknown (inv_status inv)) invs with
     | Some n =>
         exists lr,
           NLfree lr
           /\ sectionText SECTION_HEADINGS.mechanics c4
              = Some (SECTION_HEADINGS.mechanics ++ lr ++ [NL]
                      ++ trim (invariantsBody (alter markSatisfied n invs)) ++ [NL])
     | None =>
         sectionText SECTION_HEADINGS.mechanics c4
         = sectionText SECTION_HEADINGS.mechanics c0
     end
  /\ Forall (fun inv => NLfree (inv_description inv)) invs
  /\ exists c3 iT' iM' iP' iI',
       layout c3 iT' iM' iP' iI'
       /\ c4 = rewriteBody (appendBody e2) SECTION_HEADINGS.implementation c3 iI'.
Proof.
  intros Hl HeM HeP HeI c4 items invs.
  pose proof Hl as (HT & HM & HMn & HP & HPn & HI & HIn & L1 & L2 & L3).
  set (upd := updatedItems pid items).
  set (PB := planBody upd).
  set (f1 := fun _ : str => trim PB).
  set (c1 := replacedContent SECTION_HEADINGS.plan PB c0).
  assert (E1 : c1 = rewriteBody f1 SECTION_HEADINGS.plan c0 iP).
  { unfold c1. now apply replacedContent_found. }
  (* the plan items and what is written for them *)
  assert (Hgood : Forall (fun item => goodText (plan_text item)) items).
  { unfold items, parsePlanItems. destruct (sectionText _ c0); [|constructor].
    apply planItemsFrom_good. }
  assert (Hgupd : Forall (fun item => goodText (plan_text item)) upd).
  { apply (Forall_text goodText items); [apply updatedItems_text|exact Hgood]. }
  assert (HtrimPB : trim PB = PB) by (apply trim_trimmed, planBody_trimmed, Hgupd).
  destruct (own_section f1 _ c0 iP HP (proj2 nice_plan) (niceHeading_nonempty _ nice_plan))
    as (lr1 & body1 & Hlr1 & _ & Hsec0 & Hown1).
  { exists SECTION_HEADINGS.implementation, iI. auto using nice_implementation. }
  assert (HfreeI : forall item, In item items ->
                     find_sub SECTION_HEADINGS.implementation (plan_text item) = None).
  { intros item Hin. unfold items, parsePlanItems in Hin. rewrite Hsec0 in Hin.
    pose proof (planItems_of_section SECTION_HEADINGS.implementation _
                  (section_free _ _ c0 iP iI _ HP (proj2 nice_plan) HI L3 HIn
                     nice_implementation Hsec0)) as Hall.
    rewrite Forall_forall in Hall. apply Hall. now apply list_elem_of_In. }
  assert (Hf1 : keepsFree f1 SECTION_HEADINGS.implementation).
  { apply keepsFree_const, planBody_fresh; [exact nice_implementation|].
    apply (Forall_text (fun t => find_sub SECTION_HEADINGS.implementation t = None) items);
      [apply updatedItems_text|].
    apply Forall_forall. intros item Hin. apply HfreeI. now apply list_elem_of_In. }
  destruct (layout_write_plan f1 c0 iT iM iP iI Hl Hf1) as (iI1 & Hl1 & HM1).
  rewrite <- E1 in Hl1, HM1.
  assert (HP1 : sectionText SECTION_HEADINGS.plan c1
                = Some (SECTION_HEADINGS.plan ++ lr1 ++ [NL] ++ PB ++ [NL])).
  { rewrite E1, Hown1; unfold f1; rewrite ?HtrimPB; [reflexivity|].
    rewrite <- HtrimPB. apply planBody_markFree, Hgupd. }
  (* the invariants read after the plan is written *)
  assert (Einv : parseInvariants c1 = invs) by now apply parseInvariants_section.
  pose proof Hl1 as (HT1 & HM1' & HMn1 & HP1' & HPn1 & HI1 & HIn1 & K1 & K2 & K3).
  assert (Hdesc : forall Z iZ,
             find_sub Z c1 = Some iZ -> iM < iZ -> afterNL c1 iZ -> niceHeading Z ->
             Forall (fun inv => NLfree (inv_description inv)
                                /\ find_sub Z (inv_description inv) = None) invs).
  { intros Z iZ HZ Hlt Hnl HZn. rewrite <- Einv. unfold parseInvariants.
    destruct (sectionText SECTION_HEADINGS.mechanics c1) as [s|] eqn:Es; [|constructor].
    apply invariants_of_section.
    apply (section_free _ Z c1 iM iZ s HM1' (proj2 nice_mechanics) HZ Hlt Hnl HZn Es). }
  pose proof (Hdesc _ iP HP1' K2 HPn1 nice_plan) as HdP.
  pose proof (Hdesc _ iI1 HI1 ltac:(lia) HIn1 nice_implementation) as HdI.
  assert (HdNL : Forall (fun inv => NLfree (inv_description inv)) invs).
  { eapply Forall_impl; [exact HdP|]. now intros inv [? _]. }
  set (c2 := match parseInvariants c1 with
             | [] => c1
             | _ :: _ =>
                 match findIndex (fun inv => isUnknown (inv_status inv)) (parseInvariants c1) with
                 | Some n =>
                     replacedContent SECTION_HEADINGS.mechanics
                       (invariantsBody (alter markSatisfied n (parseInvariants c1))) c1
                 | None => c1
                 end
             end).
  assert (Hc4 : c4 = appendedContent SECTION_HEADINGS.implementation e2
                       (appendedContent SECTION_HEADINGS.taskClaim e1 c2)) by reflexivity.
  assert (Hstep2 :
            exists iP2 iI2,
              layout c2 iT iM iP2 iI2
              /\ sectionText SECTION_HEADINGS.plan c2 = sectionText SECTION_HEADINGS.plan c1
              /\ match findIndex (fun inv => isUnknown (inv_status inv)) invs with
                 | Some n =>
                     exists lr,
                       NLfree lr
                       /\ sectionText SECTION_HEADINGS.mechanics c2
                          = Some (SECTION_HEADINGS.mechanics ++ lr ++ [NL]
                                  ++ trim (invariantsBody (alter markSatisfied n invs))
                                  ++ [NL])
                 | None =>
                     sectionText SECTION_HEADINGS.mechanics c2
                     = sectionText SECTION_HEADINGS.mechanics c0
                 end).
  { unfold c2. rewrite Einv.
    destruct (findIndex (fun inv => isUnknown (inv_status inv)) invs) as [n|] eqn:En.
    - assert (Hne : invs <> []) by (intros Hn; rewrite Hn in En; discriminate).
      destruct invs as [|inv0 invs0] eqn:Einvs; [contradiction|]. rewrite <- Einvs in *.
      set (IB := invariantsBody (alter markSatisfied n invs)).
      set (f2 := fun _ : str => trim IB).
      assert (E2 : replacedContent SECTION_HEADINGS.mechanics IB c1
                   = rewriteBody f2 SECTION_HEADINGS.mechanics c1 iM)
        by now apply replacedContent_found.
      rewrite E2.
      assert (Hfresh : forall Z,
                 niceHeading Z ->
                 Forall (fun inv => NLfree (inv_description inv)
                                    /\ find_sub Z (inv_description inv) = None) invs ->
                 keepsFree f2 Z).
      { intros Z HZn HdZ. apply keepsFree_const, invariantsBody_fresh; [exact HZn|].
        apply (Forall_description (fun d => find_sub Z d = None) invs);
          [apply alter_description|].
        eapply Forall_impl; [exact HdZ|]. now intros inv [_ ?]. }
      destruct (layout_write_mechanics f2 c1 iT iM iP iI1 Hl1
                  (Hfresh _ nice_plan HdP) (Hfresh _ nice_implementation HdI))
        as (iP2 & iI2 & Hl2 & HP2).
      exists iP2, iI2. split; [exact Hl2|]. split; [exact HP2|].
      destruct (own_section f2 _ c1 iM HM1' (proj2 nice_mechanics)
                  (niceHeading_nonempty _ nice_mechanics))
        as (lr2 & body2 & Hlr2 & _ & _ & Hown2).
      { exists SECTION_HEADINGS.plan, iP. auto using nice_plan. }
      exists lr2. split; [exact Hlr2|]. apply Hown2. unfold f2, IB.
      apply invariantsBody_markFree.
      apply (Forall_description NLfree invs); [apply alter_description|exact HdNL].
    - assert (Ec : match invs with [] => c1 | _ :: _ => c1 end = c1) by now destruct invs.
      rewrite Ec. exists iP, iI1. auto. }
  destruct Hstep2 as (iP2 & iI2 & Hl2 & HP2 & HM2).
  destruct (log_entries_frame e1 e2 c2 iT iM iP2 iI2 Hl2 HeM HeP HeI)
    as (HM4 & HP4 & iM3 & iP3 & iI3 & Hl3 & E4).
  rewrite <- Hc4 in HM4, HP4, E4.
  split; [|split; [|split; [exact HdNL|]]].
  - exists lr1. split; [exact Hlr1|]. rewrite HP4, HP2. exact HP1.
  - destruct (findIndex (fun inv => isUnknown (inv_status inv)) invs) as [n|].
    + destruct HM2 as (lr & Hlr & HM2). exists lr. split; [exact Hlr|]. now rewrite HM4.
    + now rewrite HM4.
  - eauto 10.
Qed.

(** ** Runs without storage faults *)

Lemma withFile_twice p c c' w : withFile p c' (withFile p c w) = withFile p c' w.
Proof. unfold withFile. cbn. now rewrite insert_insert_eq. Qed.

Lemma withFile_lookup p c w : files (withFile p c w) !! p = Some c.
Proof. unfold withFile. cbn. apply lookup_insert_eq. Qed.

Section QuietRuns.
Context `{host : Host}.

Lemma sectionWrite_quiet f p w c :
  faults w = [] -> files w !! p = Some c ->
  sectionWrite f p w = withFile p (toWellFormed (f c)) w.
Proof.
  intros Hq Hc. unfold sectionWrite. rewrite (afterCall_quiet w Hq), Hq, Hc.
  cbn [hd]. cbv beta iota zeta. rewrite (afterCall_quiet w Hq), Hq.
  unfold withFile. now rewrite Hq.
Qed.

Lemma nowISOString_run w : nowISOString w = (Ok (stamp w 0), tick w).
Proof. reflexivity. Qed.

Lemma setPhase_run ph r o w p c :
  specPath o = Some p -> p <> [] -> faults w = [] -> files w !! p = Some c ->
  r <> [] ->
  setPhase ph (Some r) (o, w)
  = (Ok tt,
     (set_currentPhase ph o,
      withFile p (toWellFormed
                    (appendedContent SECTION_HEADINGS.taskClaim
                       (lit "- [Loop " ++ formatPhase ph ++ lit "] " ++ stamp w 0
                        ++ reasonSeparator ++ r) c))
               (tick w))).
Proof.
  intros H Hp Hq Hc Hr. unfold setPhase, bind.
  rewrite (ensureInitialized_set o w p H Hp). unfold this. cbn [fst snd].
  destruct r as [|r0 r]; [contradiction|].
  change (truthyOpt (Some (r0 :: r))) with true.
  rewrite andb_false_r. cbv beta iota. unfold assign. cbn [fst snd].
  unfold liftW at 1. cbn [fst snd]. rewrite nowISOString_run.
  rewrite (appendToSection_run _ _ _ _ p); [|exact H|exact Hp].
  rewrite (sectionWrite_quiet _ p (tick w) c); [reflexivity|exact Hq|exact Hc].
Qed.

Lemma recordImplementationUpdate_run kind text o w p c :
  specPath o = Some p -> p <> [] -> faults w = [] -> files w !! p = Some c ->
  recordImplementationUpdate kind text (o, w)
  = (Ok tt,
     (set_currentPhase implementer o,
      withFile p
        (toWellFormed
           (appendedContent SECTION_HEADINGS.implementation
              (lit "- [A3 Implementer:" ++ kind ++ lit "] @ " ++ stamp w 1 ++ lit ": "
               ++ (if truthyOpt text then orElse text [] else lit "(no details provided)"))
              (appendedContent SECTION_HEADINGS.taskClaim (phaseEntry (stamp w 0)) c)))
        (tick (tick w)))).
Proof.
  intros H Hp Hq Hc. unfold recordImplementationUpdate, bind.
  rewrite (ensureInitialized_set o w p H Hp).
  rewrite (setPhase_run _ _ o w p c H Hp Hq Hc); [|discriminate].
  unfold liftW at 1. cbn [fst snd]. rewrite nowISOString_run.
  rewrite (appendToSection_run _ _ _ _ p); [|exact H|exact Hp].
  set (c3 := toWellFormed (appendedContent SECTION_HEADINGS.taskClaim _ c)).
  rewrite (sectionWrite_quiet _ p (tick (withFile p c3 (tick w))) c3 Hq
             (withFile_lookup p c3 (tick w))).
  unfold c3. rewrite (appendedContent_stored _ _ _ plain_implementation).
  unfold phaseEntry, withFile, tick. cbn [files faults clock ticks].
  now rewrite insert_insert_eq.
Qed.

(** What UTF-8 keeps of the content after a completed step, write by
    write. *)
Lemma completedContent_stored planItemId e1 e2 c0 :
  let c1 := toWellFormed
              (replacedContent SECTION_HEADINGS.plan
                 (planBody (updatedItems planItemId (parsePlanItems c0))) c0) in
  let invs := parseInvariants c1 in
  let c2 := match invs with
            | [] => c1
            | _ :: _ =>
                match findIndex (fun inv => isUnknown (inv_status inv)) invs with
                | Some n =>
                    toWellFormed
                      (replacedContent SECTION_HEADINGS.mechanics
                         (invariantsBody (alter markSatisfied n invs)) c1)
                | None => c1
                end
            end in
  toWellFormed
    (appendedContent SECTION_HEADINGS.implementation e2
       (appendedContent SECTION_HEADINGS.taskClaim e1 c2))
  = toWellFormed (completedContent planItemId e1 e2 c0).
Proof.
  intros c1 invs c2. unfold completedContent.
  set (d1 := replacedContent SECTION_HEADINGS.plan _ c0) in *.
  assert (Ei : invs = List.map utf8Invariant (parseInvariants d1))
    by apply parseInvariants_toWellFormed.
  set (d2 := match parseInvariants d1 with
             | [] => d1
             | _ :: _ =>
                 match findIndex (fun inv => isUnknown (inv_status inv))
                         (parseInvariants d1) with
                 | Some n =>
                     replacedContent SECTION_HEADINGS.mechanics
                       (invariantsBody (alter markSatisfied n (parseInvariants d1))) d1
                 | None => d1
                 end
             end).
  assert (E2 : c2 = toWellFormed d2).
  { unfold c2, d2. rewrite Ei, findIndex_utf8.
    destruct (parseInvariants d1) as [|inv0 invs0]; [reflexivity|].
    cbn [List.map].
    destruct (findIndex _ (inv0 :: invs0)) as [n|]; [|reflexivity].
    change (utf8Invariant inv0 :: List.map utf8Invariant invs0)
      with (List.map utf8Invariant (inv0 :: invs0)).
    rewrite alter_utf8, <- invariantsBody_toWellFormed.
    unfold c1. fold d1.
    rewrite <- (replacedContent_toWellFormed _ _ _ plain_mechanics).
    apply toWellFormed_idem. }
  rewrite E2.
  rewrite (appendedContent_toWellFormed _ e2 _ plain_implementation).
  rewrite (appendedContent_stored _ e1 d2 plain_taskClaim).
  now rewrite <- (appendedContent_toWellFormed _ e2 _ plain_implementation).
Qed.

Lemma markPlanStepComplete_run planItemId note o w p c0 :
  specPath o = Some p -> p <> [] -> faults w = [] -> files w !! p = Some c0 ->
  markPlanStepComplete planItemId note (o, w)
  = (Ok tt,
     (set_currentPhase implementer o,
      withFile p
        (toWellFormed
           (completedContent planItemId (phaseEntry (stamp w 0))
              (stepEntry planItemId note (stamp w 1)) c0))
        (tick (tick w)))).
Proof.
  intros H Hp Hq Hc. unfold markPlanStepComplete, bind.
  rewrite (ensureInitialized_set o w p H Hp).
  rewrite (readPlanItems_run o w p H Hp), Hq, Hc, (afterCall_quiet w Hq).
  cbn [hd]. cbv beta iota.
  unfold writePlanItemsFromList.
  rewrite (replaceSectionBody_run _ _ o w p H Hp).
  rewrite (sectionWrite_quiet _ p w c0 Hq Hc).
  fold (updatedItems planItemId (parsePlanItems c0)).
  set (c1 := toWellFormed (replacedContent SECTION_HEADINGS.plan _ c0)).
  rewrite (readInvariants_run o _ p H Hp).
  rewrite (afterCall_quiet (withFile p c1 w) Hq), withFile_lookup.
  change (faults (withFile p c1 w)) with (faults w). rewrite Hq. cbn [hd]. cbv beta iota.
  set (invs := parseInvariants c1).
  set (c2 := match invs with
             | [] => c1
             | _ :: _ =>
                 match findIndex (fun inv => isUnknown (inv_status inv)) invs with
                 | Some n =>
                     toWellFormed
                       (replacedContent SECTION_HEADINGS.mechanics
                          (invariantsBody (alter markSatisfied n invs)) c1)
                 | None => c1
                 end
             end).
  assert (E2 : (match invs with
                | [] => ret tt
                | _ :: _ =>
                    match findIndex (fun inv => isUnknown (inv_status inv)) invs with
                    | Some n => writeInvariants (alter markSatisfied n invs)
                    | None => ret tt
                    end
                end) (o, withFile p c1 w) = (Ok tt, (o, withFile p c2 w))).
  { unfold c2. destruct invs as [|inv0 invs0] eqn:Einvs; [reflexivity|].
    destruct (findIndex _ (inv0 :: invs0)) as [n|]; [|reflexivity].
    unfold writeInvariants. rewrite (replaceSectionBody_run _ _ o _ p H Hp).
    rewrite (sectionWrite_quiet _ p (withFile p c1 w) c1 Hq (withFile_lookup p c1 w)).
    now rewrite withFile_twice. }
  rewrite E2.
  rewrite (recordImplementationUpdate_run _ _ o (withFile p c2 w) p c2 H Hp Hq
             (withFile_lookup p c2 w)).
  rewrite <- (completedContent_stored planItemId _ _ c0). cbv zeta.
  fold (updatedItems planItemId (parsePlanItems c0)). fold c1. fold invs. fold c2.
  unfold stepEntry.
  assert (Es : forall s : str, s <> [] ->
                 (if truthyOpt (Some s) then orElse (Some s) [] else lit "(no details provided)")
                 = s).
  { intros [|x s] Hs; [contradiction|reflexivity]. }
  rewrite Es.
  2:{ destruct (truthyOpt note); [|discriminate].
      destruct planItemId; discriminate. }
  change (stamp (withFile p c2 w) 1) with (stamp w 1).
  change (stamp (withFile p c2 w) 0) with (stamp w 0).
  do 2 f_equal. unfold withFile, tick. cbn [files faults clock ticks].
  now rewrite insert_insert_eq.
Qed.
End QuietRuns.

Lemma splitNL_section_lines hl ls :
  NLfree hl -> ls <> [] -> Forall NLfree ls ->
  splitNL (hl ++ [NL] ++ join [NL] ls ++ [NL]) = hl :: ls ++ [[]].
Proof.
  intros Hhl Hne Hls.
  change (hl ++ [NL] ++ join [NL] ls ++ [NL]) with (hl ++ NL :: (join [NL] ls ++ [NL])).
  rewrite splitNL_line by exact Hhl. f_equal.
  rewrite <- join_snoc_empty by exact Hne. apply splitNL_join.
  - destruct ls; discriminate.
  - apply Forall_app. split; [exact Hls|]. repeat constructor.
Qed.

Lemma trim_heading_marks X lr :
  startsWith headingPrefix X = true -> startsWith (lit "##") (trim (X ++ lr)) = true.
Proof.
  intros [x ->]%startsWith_true. unfold trim.
  change (headingPrefix ++ x) with (HASH :: HASH :: SP :: x).
  cbn [app]. rewrite trimStart_cons by reflexivity.
  rewrite !trimEnd_cons by reflexivity. reflexivity.
Qed.

Lemma invariantsBody_trimmed invs :
  invs <> [] -> Forall (fun inv => goodText (inv_description inv)) invs ->
  trimmed (invariantsBody invs).
Proof.
  intros Hne Hg. rewrite (invariantsBody_lines _ Hne). apply trimmed_join.
  - destruct invs; [contradiction|discriminate].
  - apply Forall_map. eapply Forall_impl; [exact Hg|]. apply invLine_trimmed.
Qed.

(** The invariants read back from a section whose body is the encoding of
    [invs]. *)
Lemma invariants_of_encoded X lr invs :
  startsWith headingPrefix X = true -> NLfree X -> NLfree lr ->
  invs <> [] -> Forall (fun inv => goodText (inv_description inv)) invs ->
  List.map invView
    (invariantsFrom 0 (splitNL (X ++ lr ++ [NL] ++ trim (invariantsBody invs) ++ [NL])))
  = List.map invView invs.
Proof.
  intros HX HXf Hlr Hne Hg.
  rewrite (trim_trimmed _ (invariantsBody_trimmed _ Hne Hg)), (invariantsBody_lines _ Hne).
  rewrite app_assoc, splitNL_section_lines.
  - cbn [invariantsFrom]. rewrite (trim_heading_marks X lr HX), orb_true_r.
    rewrite invariantsFrom_app, map_app, (invariantsFrom_encoded _ _ Hg).
    cbn. now rewrite app_nil_r.
  - now apply NLfree_app.
  - destruct invs; [contradiction|discriminate].
  - apply Forall_map. eapply Forall_impl; [exact Hg|].
    intros inv Hi. apply invLine_dashLine, goodText_NLfree, Hi.
Qed.

Lemma flipFirstUnknown_alter invs n :
  findIndex (fun inv => isUnknown (inv_status inv)) invs = Some n ->
  alter markSatisfied n invs = flipFirstUnknown invs.
Proof.
  revert n. induction invs as [|inv invs IH]; intros n; cbn [findIndex flipFirstUnknown];
    [discriminate|].
  destruct (isUnknown (inv_status inv)).
  - intros [= <-]. reflexivity.
  - destruct (findIndex _ invs) as [k|]; [|discriminate].
    intros [= <-]. cbn. f_equal. now apply IH.
Qed.

Lemma flipFirstUnknown_none invs :
  findIndex (fun inv => isUnknown (inv_status inv)) invs = None ->
  flipFirstUnknown invs = invs.
Proof.
  induction invs as [|inv invs IH]; cbn [findIndex flipFirstUnknown]; [reflexivity|].
  destruct (isUnknown (inv_status inv)); [discriminate|].
  destruct (findIndex _ invs) as [k|]; [discriminate|].
  intros _. f_equal. now apply IH.
Qed.

Lemma findIndex_existsb {A} (p : A -> bool) (l : list A) :
  existsb p l = match findIndex p l with Some _ => true | None => false end.
Proof.
  induction l as [|x l IH]; cbn [existsb findIndex]; [reflexivity|].
  destruct (p x); [reflexivity|]. cbn [orb]. rewrite IH.
  now destruct (findIndex p l).
Qed.

Lemma isoCode_not_hash l : forallb (fun x => negb (x =? HASH)%N) (List.map isoCode l) = true.
Proof.
  apply forallb_forall. intros x Hx. apply in_map_iff in Hx as (c & <- & _).
  apply negb_true_iff, N.eqb_neq. destruct c; try discriminate.
  unfold isoCode, digitChar, HASH. lia.
Qed.

Lemma phaseEntry_fresh Z w n :
  startsWith headingPrefix Z = true -> find_sub Z (phaseEntry (stamp w n)) = None.
Proof.
  intros HZ. rewrite <- (app_nil_r (phaseEntry _)).
  apply find_sub_after_chars; [exact HZ| |apply find_sub_nil_None].
  - unfold phaseEntry, stamp. rewrite !forallb_app, isoCode_not_hash. reflexivity.
  - intros ->. discriminate.
Qed.

(** An appended entry is in the content written, after the heading. *)
Lemma appended_entry e X c i :
  find_sub X c = Some i -> X <> [] ->
  exists a b,
    rewriteBody (appendBody e) X c i = a ++ e ++ NL :: b /\ find_sub X a = Some i.
Proof.
  intros HX Hne.
  destruct (find_sub_Some_split _ _ _ Hne HX) as (l & r & Hc & Hl & Hfind).
  assert (Ha : forall pre rest, c = pre ++ X ++ rest -> length pre = i ->
                 forall m, find_sub X (pre ++ X ++ m) = Some i).
  { intros pre rest Hc' Hpre m. rewrite app_assoc. apply find_sub_app_l.
    apply (find_sub_app_inv _ _ rest); [now rewrite <- app_assoc, <- Hc'|].
    rewrite length_app. lia. }
  assert (Hab : forall body, exists m, appendBody e body = m ++ e).
  { intros body. unfold appendBody. destruct (truthy (trimEnd body)).
    - exists (trimEnd body ++ [NL]). now rewrite <- app_assoc.
    - now exists []. }
  destruct (section_shape (appendBody e) X c i HX)
    as [pre tail Hc' Hpre _ Hrw|pre lr body Hc' Hpre _ _ Hrw|pre lr body t Hc' Hpre _ _ _ Hrw];
    rewrite Hrw.
  - destruct (Hab tail) as [m ->]. exists (pre ++ X ++ m), [NL].
    split; [now rewrite <- !app_assoc|]. eapply Ha; eauto.
  - destruct (Hab body) as [m ->]. exists (pre ++ X ++ lr ++ [NL] ++ m), [NL].
    split; [now rewrite <- !app_assoc|]. eapply Ha; eauto.
  - destruct (Hab (drop 1 body)) as [m ->].
    exists (pre ++ X ++ lr ++ [NL] ++ m), (nextHeadingMark ++ t).
    split; [now rewrite <- !app_assoc|]. eapply Ha; eauto.
Qed.

Lemma placeholder_text_good : goodText (lit "Pending plan items").
Proof.
  split; [split|reflexivity].
  - eexists _, _. split; reflexivity.
  - exists (lit "Pending plan item"), 115%N. split; reflexivity.
Qed.

Lemma writtenPlan_read X lr items :
  startsWith headingPrefix X = true -> NLfree X -> NLfree lr ->
  Forall (fun item => goodText (plan_text item)) items ->
  List.map planView (planItemsFrom 0 (splitNL (X ++ lr ++ [NL] ++ planBody items ++ [NL])))
  = writtenPlan items.
Proof.
  intros HX HXf Hlr Hg.
  pose proof (planItems_of_encoded X lr) as Henc.
  destruct items as [|item items].
  - set (ph := {| plan_id := []; plan_text := lit "Pending plan items"; plan_status := todo |}).
    specialize (Henc [ph] [] HX HXf Hlr ltac:(discriminate)).
    rewrite app_nil_r in Henc. apply Henc; [|now left].
    constructor; [|constructor]. exact placeholder_text_good.
  - specialize (Henc (item :: items) [] HX HXf Hlr ltac:(discriminate) Hg ltac:(now left)).
    rewrite app_nil_r in Henc. exact Henc.
Qed.

Lemma layout_toWellFormed c iT iM iP iI :
  layout (toWellFormed c) iT iM iP iI <-> layout c iT iM iP iI.
Proof.
  unfold layout.
  rewrite (find_sub_toWellFormed _ c plain_taskClaim).
  rewrite (find_sub_toWellFormed _ c plain_mechanics).
  rewrite (find_sub_toWellFormed _ c plain_plan).
  rewrite (find_sub_toWellFormed _ c plain_implementation).
  now rewrite !afterNL_toWellFormed.
Qed.

(** UTF-8 keeps of the content after a completed step what the step makes
    of the document and of the two entries as UTF-8 keeps them. *)
Lemma completedContent_toWellFormed pid e1 e2 c0 :
  toWellFormed (completedContent pid e1 e2 c0)
  = completedContent pid (toWellFormed e1) (toWellFormed e2) (toWellFormed c0).
Proof.
  unfold completedContent.
  rewrite parsePlanItems_toWellFormed, updatedItems_utf8, <- planBody_toWellFormed.
  rewrite <- (replacedContent_toWellFormed _ _ c0 plain_plan).
  set (d1 := replacedContent SECTION_HEADINGS.plan _ c0).
  rewrite parseInvariants_toWellFormed, findIndex_utf8.
  set (d2 := match parseInvariants d1 with
             | [] => d1
             | _ :: _ =>
                 match findIndex (fun inv => isUnknown (inv_status inv))
                         (parseInvariants d1) with
                 | Some n =>
                     replacedContent SECTION_HEADINGS.mechanics
                       (invariantsBody (alter markSatisfied n (parseInvariants d1))) d1
                 | None => d1
                 end
             end).
  assert (E2 : match List.map utf8Invariant (parseInvariants d1) with
               | [] => toWellFormed d1
               | _ :: _ =>
                   match findIndex (fun inv => isUnknown (inv_status inv))
                           (parseInvariants d1) with
                   | Some n =>
                       replacedContent SECTION_HEADINGS.mechanics
                         (invariantsBody
                            (alter markSatisfied n
                               (List.map utf8Invariant (parseInvariants d1))))
                         (toWellFormed d1)
                   | None => toWellFormed d1
                   end
               end = toWellFormed d2).
  { unfold d2. destruct (parseInvariants d1) as [|inv0 invs0]; [reflexivity|].
    cbn [List.map].
    destruct (findIndex _ (inv0 :: invs0)) as [n|]; [|reflexivity].
    change (utf8Invariant inv0 :: List.map utf8Invariant invs0)
      with (List.map utf8Invariant (inv0 :: invs0)).
    rewrite alter_utf8, <- invariantsBody_toWellFormed.
    now rewrite <- (replacedContent_toWellFormed _ _ _ plain_mechanics). }
  rewrite E2.
  rewrite (appendedContent_toWellFormed _ e2 _ plain_implementation).
  now rewrite (appendedContent_toWellFormed _ e1 _ plain_taskClaim).
Qed.

Lemma fresh_toWellFormed Z e :
  plain Z -> find_sub Z e = None -> find_sub Z (toWellFormed e) = None.
Proof. intros HZ H. now rewrite find_sub_toWellFormed. Qed.

Section CompletedStep.
Context `{host : Host}.

(** What a completed step leaves in the document of an initialized
    orchestrator, when storage does not fail. *)
Lemma completed_step planItemId note o w p c0 iT iM iP iI :
  specPath o = Some p -> p <> [] -> faults w = [] -> files w !! p = Some c0 ->
  layout c0 iT iM iP iI ->
  let items := parsePlanItems (toWellFormed c0) in
  let invs := parseInvariants (toWellFormed c0) in
  exists c4 lr,
    markPlanStepComplete planItemId note (o, w)
    = (Ok tt, (set_currentPhase implementer o, withFile p c4 (tick (tick w))))
    /\ NLfree lr
    /\ sectionText SECTION_HEADINGS.plan c4
       = Some (SECTION_HEADINGS.plan ++ lr ++ [NL]
               ++ planBody (updatedItems planItemId items) ++ [NL])
    /\ List.map planView (parsePlanItems c4) = writtenPlan (updatedItems planItemId items)
    /\ (Forall (fun inv => goodText (inv_description inv)) invs ->
        List.map invView (parseInvariants c4) = List.map invView (flipFirstUnknown invs))
    /\ (existsb (fun inv => isUnknown (inv_status inv)) invs = false ->
        parseInvariants c4 = invs)
    /\ (existsb (fun inv => isUnknown (inv_status inv)) invs = true ->
        exists lrM,
          NLfree lrM
          /\ sectionText SECTION_HEADINGS.mechanics c4
             = Some (SECTION_HEADINGS.mechanics ++ lrM ++ [NL]
                     ++ trim (invariantsBody (flipFirstUnknown invs)) ++ [NL]))
    /\ exists a b,
         c4 = a ++ toWellFormed (stepEntry planItemId note (stamp w 1)) ++ NL :: b
         /\ find_sub SECTION_HEADINGS.implementation a <> None.
Proof.
  intros H Hp Hq Hc Hl items invs.
  set (e1 := toWellFormed (phaseEntry (stamp w 0))).
  set (e2 := toWellFormed (stepEntry planItemId note (stamp w 1))).
  apply layout_toWellFormed in Hl.
  destruct (completedContent_sections planItemId e1 e2 (toWellFormed c0) iT iM iP iI Hl)
    as ((lr & Hlr & HP) & HM & HdNL & c3 & iT' & iM' & iP' & iI' & Hl3 & E4);
    try (apply fresh_toWellFormed; [reflexivity|apply phaseEntry_fresh; reflexivity]).
  fold items in HP. fold invs in HM, HdNL.
  set (c4 := completedContent planItemId e1 e2 (toWellFormed c0)) in *.
  exists c4, lr. split.
  { rewrite (markPlanStepComplete_run planItemId note o w p c0 H Hp Hq Hc).
    now rewrite completedContent_toWellFormed. }
  split; [exact Hlr|]. split; [exact HP|].
  assert (Hgood : Forall (fun item => goodText (plan_text item)) items).
  { unfold items, parsePlanItems.
    destruct (sectionText SECTION_HEADINGS.plan (toWellFormed c0)); [|constructor].
    apply planItemsFrom_good. }
  split; [|split; [|split; [|split]]].
  - unfold parsePlanItems. rewrite HP.
    apply writtenPlan_read; try apply nice_plan; auto.
    apply (Forall_text goodText items); [apply updatedItems_text|exact Hgood].
  - intros Hg.
    destruct (findIndex (fun inv => isUnknown (inv_status inv)) invs) as [n|] eqn:En.
    + destruct HM as (lrM & HlrM & HM). unfold parseInvariants at 1. rewrite HM.
      rewrite <- (flipFirstUnknown_alter _ _ En).
      apply invariants_of_encoded; try apply nice_mechanics; auto.
      * intros Hnil. destruct invs; [discriminate|].
        destruct n; discriminate.
      * apply (Forall_description goodText invs); [apply alter_description|exact Hg].
    + rewrite (flipFirstUnknown_none _ En). f_equal.
      now apply parseInvariants_section.
  - rewrite findIndex_existsb.
    destruct (findIndex (fun inv => isUnknown (inv_status inv)) invs) as [n|];
      [discriminate|].
    intros _. now apply parseInvariants_section.
  - rewrite findIndex_existsb.
    destruct (findIndex (fun inv => isUnknown (inv_status inv)) invs) as [n|] eqn:En;
      [|discriminate].
    intros _. rewrite <- (flipFirstUnknown_alter _ _ En). exact HM.
  - destruct Hl3 as (_ & _ & _ & _ & _ & HI3 & _).
    destruct (appended_entry e2 _ c3 iI' HI3 (niceHeading_nonempty _ nice_implementation))
      as (a & b & Hab & Ha).
    exists a, b. split; [now rewrite E4|]. now rewrite Ha.
Qed.
End CompletedStep.

Lemma sampleDocument_layout : layout sampleDocument 0 49 140 215.
Proof.
  unfold layout, afterNL. repeat split; try lia; vm_compute; reflexivity.
Qed.




Lemma goodTextb_true t : goodTextb t = true -> goodText t.
Proof.
  unfold goodTextb. intros H. apply andb_true_iff in H as [H Hlt].
  apply andb_true_iff in H as [Hhd Hlast]. split; [split|exact Hlt].
  - destruct t as [|x r]; [discriminate|]. exists x, r. split; [reflexivity|].
    now apply negb_true_iff.
  - destruct t as [|x r]; [discriminate|].
    destruct (exists_last (l := x :: r) ltac:(discriminate)) as (r' & y & E).
    rewrite E in Hlast |- *. rewrite last_last in Hlast.
    exists r', y. split; [reflexivity|]. now apply negb_true_iff.
Qed.

Section StepCompletion.
Context `{host : Host}.


End StepCompletion.

Lemma sampleDocument_invariants :
  Forall (fun inv => goodText (inv_description inv)) (parseInvariants sampleDocument).
Proof.
  assert (E : parseInvariants sampleDocument
              = [ {| inv_id := lit "I2"; inv_description := lit "first bound holds";
                     inv_status := unknown |};
                  {| inv_id := lit "I3"; inv_description := lit "second bound holds";
                     inv_status := unknown |} ]) by (vm_compute; reflexivity).
  rewrite E. repeat constructor; apply goodTextb_true; reflexivity.
Qed.



Lemma bodyStart_le X c i :
  find_sub X c = Some i -> fst (bodyBounds X c i) <= length c.
Proof.
  intros HX. destruct (find_sub_decompose _ _ _ HX) as [_ Hlen].
  unfold bodyBounds. cbn [fst]. rewrite (indexOf_from [NL]) by exact Hlen.
  destruct (find_sub [NL] (drop (i + length X) c)) as [n|] eqn:E; cbn; [|exact Hlen].
  apply find_sub_decompose in E as [_ E]. rewrite length_drop in E. cbn in E. lia.
Qed.

(** The text up to the body of the section is as it was. *)
Lemma rewriteBody_prefix f X c i :
  find_sub X c = Some i ->
  take (fst (bodyBounds X c i)) (rewriteBody f X c i) = take (fst (bodyBounds X c i)) c.
Proof.
  intros HX. pose proof (bodyStart_le X c i HX) as Hle.
  unfold rewriteBody. destruct (bodyBounds X c i) as [bs be]. cbn [fst] in *.
  unfold slice. rewrite Nat.sub_0_r, drop_0.
  apply take_app_length'. symmetry. now apply length_take_le.
Qed.

(** Another section reads as it did, when the later of the two headings is
    first found at a line start. *)
Lemma rewriteBody_frame f X Y c i j :
  niceHeading X -> niceHeading Y ->
  find_sub X c = Some i -> find_sub Y c = Some j ->
  (j < i -> lineStart c i) ->
  (i < j -> lineStart c j /\ keepsFree f Y) ->
  i <> j ->
  sectionText Y (rewriteBody f X c i) = sectionText Y c.
Proof.
  intros HXn HYn HX HY HXl Hf Hij.
  destruct (Nat.lt_total i j) as [Hlt|[Heq|Hgt]]; [|contradiction|].
  - destruct (Hf Hlt) as [[->|HYl] Hfree]; [lia|].
    destruct (frame_after f X c i HX (proj2 HXn)) as (a & a' & _ & Hafter).
    now destruct (Hafter Y j HY Hlt HYl HYn Hfree) as (_ & _ & _ & Hs & _).
  - destruct (HXl Hgt) as [->|HXl']; [lia|].
    now destruct (keep_before f X Y c i j HX HXn HXl' HY Hgt HYn) as (_ & Hs & _).
Qed.

Lemma sectionWrite_cases f p w c :
  files w !! p = Some c ->
  files (sectionWrite f p w) !! p = Some c
  \/ files (sectionWrite f p w) !! p = Some (toWellFormed (f c)).
Proof.
  intros Hc. unfold sectionWrite.
  destruct (hd false (faults w)); [left; now rewrite files_afterCall|].
  rewrite Hc. cbv zeta.
  destruct (hd false (faults (afterCall w))); [left; now rewrite !files_afterCall|].
  right. cbn [files]. apply lookup_insert_eq.
Qed.

(** The text after the body of the section is kept, its leading white space
    apart. *)
Lemma rewriteBody_suffix f X c i :
  exists before,
    rewriteBody f X c i = before ++ trimStart (sliceFrom c (snd (bodyBounds X c i))).
Proof.
  unfold rewriteBody. destruct (bodyBounds X c i) as [bs be]. cbn [snd].
  eexists. rewrite !app_assoc. reflexivity.
Qed.

Lemma unchanged_suffix c n : exists before, c = before ++ trimStart (sliceFrom c n).
Proof.
  unfold sliceFrom. destruct (trimStart_suffix (drop n c)) as [ws Hws].
  exists (take n c ++ ws). rewrite <- app_assoc, <- Hws. now rewrite take_drop.
Qed.

Lemma sectionWrite_isolated f g X Y o w p c i j :
  files w !! p = Some c ->
  niceHeading X -> niceHeading Y ->
  find_sub X c = Some i -> find_sub Y c = Some j ->
  (j < i -> lineStart c i) ->
  (i < j -> lineStart c j /\ keepsFree g Y) ->
  i <> j ->
  toWellFormed (f c) = rewriteBody g X c i ->
  isolated X Y c i o p (Ok tt, (o, sectionWrite f p w)).
Proof.
  intros Hc HXn HYn HX HY HXl Hg Hij Hf.
  destruct (sectionWrite_cases f p w c Hc) as [Hw|Hw].
  - exists (sectionWrite f p w), c. repeat split; auto. apply unchanged_suffix.
  - exists (sectionWrite f p w), (toWellFormed (f c)).
    split; [reflexivity|]. split; [exact Hw|].
    rewrite Hf. split; [now apply (rewriteBody_frame g X Y c i j)|].
    split; [now apply rewriteBody_prefix|apply rewriteBody_suffix].
Qed.

Section SectionIsolation.
Context `{host : Host}.

(** C7, as the code has it: a write to the section [X] of the document,
    by [appendToSection] or by [replaceSectionBody], leaves the text of
    another section [Y] (its heading line and its body) as it was, the
    document up to the body of [X] as it was, and what came after that body
    as it was but for its leading white space, when the heading of the
    later of the two sections is first found at a line start and, that being
    [Y], the text written does not hold the heading of [Y].  The document
    is UTF-8 text and the headings are plain, as the seven of the registry
    are. *)
Theorem section_writes_are_isolated X Y entry newBody o w p c i j :
  specPath o = Some p -> p <> [] -> files w !! p = Some c -> toWellFormed c = c ->
  niceHeading X -> niceHeading Y -> plain X -> plain Y ->
  find_sub X c = Some i -> find_sub Y c = Some j -> i <> j ->
  (j < i -> lineStart c i) ->
  (i < j -> lineStart c j /\ find_sub Y entry = None /\ find_sub Y newBody = None) ->
  isolated X Y c i o p (appendToSection X entry (o, w))
  /\ isolated X Y c i o p (replaceSectionBody X newBody (o, w)).
Proof.
  intros H Hp Hc Hwf HXn HYn HXp HYp HX HY Hij HXl Hfresh. split.
  - rewrite (appendToSection_run X entry o w p H Hp).
    apply (sectionWrite_isolated _ (appendBody (toWellFormed entry)) X Y o w p c i j); auto.
    + intros Hlt. destruct (Hfresh Hlt) as (HYl & He & _). split; [exact HYl|].
      apply keepsFree_append; [exact HYn|].
      now apply fresh_toWellFormed.
    + rewrite (appendedContent_toWellFormed X entry c HXp), Hwf.
      now apply appendedContent_found.
  - rewrite (replaceSectionBody_run X newBody o w p H Hp).
    apply (sectionWrite_isolated _ (fun _ => trim (toWellFormed newBody)) X Y o w p c i j);
      auto.
    + intros Hlt. destruct (Hfresh Hlt) as (HYl & _ & Hb). split; [exact HYl|].
      apply keepsFree_const, find_sub_trim_None.
      now apply fresh_toWellFormed.
    + rewrite (replacedContent_toWellFormed X newBody c HXp), Hwf.
      now apply replacedContent_found.
Qed.
End SectionIsolation.

Lemma section_writes_are_isolated_witness :
  isolated SECTION_HEADINGS.mechanics SECTION_HEADINGS.plan sampleDocument 49
    sampleOrch sampleSpecPath
    (appendToSection (host := asciiHost) SECTION_HEADINGS.mechanics
       (lit "- [unknown] third bound holds") (sampleOrch, sampleWorld))
  /\ isolated SECTION_HEADINGS.mechanics SECTION_HEADINGS.plan sampleDocument 49
       sampleOrch sampleSpecPath
       (replaceSectionBody (host := asciiHost) SECTION_HEADINGS.mechanics
          (lit "- [satisfied] first bound holds") (sampleOrch, sampleWorld)).
Proof.
  apply (section_writes_are_isolated (host := asciiHost)
           SECTION_HEADINGS.mechanics SECTION_HEADINGS.plan
           (lit "- [unknown] third bound holds") (lit "- [satisfied] first bound holds")
           sampleOrch sampleWorld sampleSpecPath sampleDocument 49 140).
  - reflexivity.
  - discriminate.
  - vm_compute. reflexivity.
  - vm_compute. reflexivity.
  - exact nice_mechanics.
  - exact nice_plan.
  - exact plain_mechanics.
  - exact plain_plan.
  - vm_compute. reflexivity.
  - vm_compute. reflexivity.
  - lia.
  - intros Hlt. exfalso. lia.
  - intros _. split; [right; split; [lia|vm_compute; reflexivity]|].
    split; vm_compute; reflexivity.
Defined.

(** A heading quoted in the text of a section breaks the isolation, each
    way.  An entry that quotes the Plan heading, appended to the Task-Claim
    section of the sample document, makes the Plan section read as the
    quoting line alone, with no plan item.  In the document so made,
    replacing the body of the Plan section writes into the Task-Claim
    section and leaves the plan lines as they were; and replacing the body
    of the Task-Claim section, by a text that holds no heading, removes
    the quote and with it what the Plan section read as. *)
Lemma quoted_heading_breaks_isolation :
  files (snd (snd (appendToSection (host := asciiHost) SECTION_HEADINGS.taskClaim
                     quotingEntry (sampleOrch, sampleWorld)))) !! sampleSpecPath
  = Some quotedDocument
  /\ sectionText SECTION_HEADINGS.plan sampleDocument
     = Some (join [NL] [SECTION_HEADINGS.plan; lit "- [ ] write tests";
                        lit "- [ ] wire the parser"] ++ [NL])
  /\ sectionText SECTION_HEADINGS.plan quotedDocument
     = Some (SECTION_HEADINGS.plan ++ lit " short" ++ [NL])
  /\ length (parsePlanItems sampleDocument) = 2
  /\ parsePlanItems quotedDocument = []
  /\ find_sub SECTION_HEADINGS.taskClaim quotedDocument = Some 0
  /\ find_sub SECTION_HEADINGS.plan quotedDocument = Some 61
  /\ sectionText SECTION_HEADINGS.taskClaim quotedDocument
     = Some (join [NL] [SECTION_HEADINGS.taskClaim; lit "- User intent: demo";
                        quotingEntry] ++ [NL])
  /\ (exists d2,
        files (snd (snd (replaceSectionBody (host := asciiHost) SECTION_HEADINGS.plan
                           (lit "- [ ] run lint") (sampleOrch, quotedWorld))))
          !! sampleSpecPath = Some d2
        /\ sectionText SECTION_HEADINGS.taskClaim d2
           = Some (join [NL] [SECTION_HEADINGS.taskClaim; lit "- User intent: demo";
                              quotingEntry; lit "- [ ] run lint"] ++ [NL])
        /\ ~ isolated SECTION_HEADINGS.plan SECTION_HEADINGS.taskClaim quotedDocument 61
               sampleOrch sampleSpecPath
               (replaceSectionBody (host := asciiHost) SECTION_HEADINGS.plan
                  (lit "- [ ] run lint") (sampleOrch, quotedWorld)))
  /\ (exists d3,
        files (snd (snd (replaceSectionBody (host := asciiHost) SECTION_HEADINGS.taskClaim
                           (lit "- User intent: demo") (sampleOrch, quotedWorld))))
          !! sampleSpecPath = Some d3
        /\ find_sub SECTION_HEADINGS.plan (lit "- User intent: demo") = None
        /\ sectionText SECTION_HEADINGS.plan d3
           = Some (join [NL] [SECTION_HEADINGS.plan; lit "- [ ] write tests";
                              lit "- [ ] wire the parser"] ++ [NL])
        /\ ~ isolated SECTION_HEADINGS.taskClaim SECTION_HEADINGS.plan quotedDocument 0
               sampleOrch sampleSpecPath
               (replaceSectionBody (host := asciiHost) SECTION_HEADINGS.taskClaim
                  (lit "- User intent: demo") (sampleOrch, quotedWorld))).
Proof.
  assert (broken : forall X Y c i r w' c' t1 t2,
             r = (Ok tt, (sampleOrch, w')) -> files w' !! sampleSpecPath = Some c' ->
             sectionText Y c' = t1 -> sectionText Y c = t2 -> t1 <> t2 ->
             ~ isolated X Y c i sampleOrch sampleSpecPath r).
  { intros X Y c i r w' c' t1 t2 -> Hc' H1 H2 Hne (w2 & c2 & E & Hc2 & Hs & _).
    injection E as <-. rewrite Hc' in Hc2. injection Hc2 as <-. congruence. }
  split; [vm_compute; reflexivity|]. split; [vm_compute; reflexivity|].
  split; [vm_compute; reflexivity|]. split; [vm_compute; reflexivity|].
  split; [vm_compute; reflexivity|]. split; [vm_compute; reflexivity|].
  split; [vm_compute; reflexivity|]. split; [vm_compute; reflexivity|].
  split.
  - eexists. split; [vm_compute; reflexivity|]. split; [vm_compute; reflexivity|].
    eapply broken; [vm_compute; reflexivity|vm_compute; reflexivity
                   |vm_compute; reflexivity|vm_compute; reflexivity|discriminate].
  - eexists. split; [vm_compute; reflexivity|]. split; [vm_compute; reflexivity|].
    split; [vm_compute; reflexivity|].
    eapply broken; [vm_compute; reflexivity|vm_compute; reflexivity
                   |vm_compute; reflexivity|vm_compute; reflexivity|discriminate].
Qed.

(** ** The fresh document *)

Lemma hashFree_absent Z s :
  startsWith headingPrefix Z = true -> hashFree s -> find_sub Z s = None.
Proof.
  intros HZ Hs. rewrite <- (app_nil_r s).
  apply find_sub_after_chars; [exact HZ|exact Hs|apply find_sub_nil_None].
  intros ->. discriminate.
Qed.

Lemma sectionText_skip_line Z p q :
  NLfree Z -> Z <> [] -> find_sub Z p = None ->
  sectionText Z (p ++ NL :: q) = sectionText Z q.
Proof.
  intros HZ Hne Hp. rewrite !sectionText_find, find_sub_NL_split, Hp by assumption.
  destruct (find_sub Z q) as [k|]; [|reflexivity]. cbn. f_equal.
  change (p ++ NL :: q) with (p ++ [NL] ++ q). rewrite app_assoc.
  replace (length p + 1 + k) with (length (p ++ [NL]) + k) by (rewrite length_app; cbn; lia).
  apply sectionAt_app_r.
Qed.

Lemma template_split fm d :
  join [NL] (templateLines fm d)
  = (fm ++ NL :: [] ++ NL :: SECTION_HEADINGS.taskClaim ++ NL :: (lit "- User intent: " ++ d))
    ++ NL :: templateTail.
Proof.
  unfold templateLines, templateTail. cbn [join drop app].
  rewrite <- !app_assoc. reflexivity.
Qed.

(** A section after the Task-Claim reads in the template as in its fixed
    part. *)
Lemma template_section Z fm d :
  niceHeading Z -> find_sub Z SECTION_HEADINGS.taskClaim = None ->
  hashFree fm -> hashFree d ->
  sectionText Z (join [NL] (templateLines fm d)) = sectionText Z templateTail.
Proof.
  intros HZ HT Hfm Hd. pose proof (niceHeading_nonempty Z HZ) as Hne.
  destruct HZ as [HZp HZf].
  rewrite template_split. apply sectionText_skip_line; auto.
  assert (Hu : find_sub Z (lit "- User intent: " ++ d) = None).
  { apply hashFree_absent; [exact HZp|].
    unfold hashFree in *. rewrite forallb_app, Hd. reflexivity. }
  rewrite !find_sub_NL_split by assumption.
  rewrite (hashFree_absent Z fm HZp Hfm), (find_sub_nil_None Z Hne), HT, Hu.
  reflexivity.
Qed.

Lemma template_plan fm d :
  hashFree fm -> hashFree d ->
  parsePlanItems (join [NL] (templateLines fm d)) = [placeholderItem].
Proof.
  intros Hfm Hd. unfold parsePlanItems.
  rewrite (template_section _ fm d nice_plan eq_refl Hfm Hd). vm_compute. reflexivity.
Qed.

Lemma template_invariants fm d :
  hashFree fm -> hashFree d ->
  parseInvariants (join [NL] (templateLines fm d)) = [].
Proof.
  intros Hfm Hd. unfold parseInvariants.
  rewrite (template_section _ fm d nice_mechanics eq_refl Hfm Hd). vm_compute. reflexivity.
Qed.

Lemma template_mappingLayer fm d :
  hashFree fm -> hashFree d ->
  mappingLayerPresent (join [NL] (templateLines fm d)) = true.
Proof.
  intros Hfm Hd. unfold mappingLayerPresent.
  rewrite (template_section _ fm d nice_mappingLayer eq_refl Hfm Hd). vm_compute. reflexivity.
Qed.

Section FreshDocument.
Context `{host : Host}.

(** C6: on the document the template gives, before anything is recorded,
    the evaluator reads the placeholder line of the Plan section as one
    plan item with status [todo], reads no invariant, and reports
    [readyForImplementation]. *)
Theorem fresh_document_ready fm d o w p :
  specPath o = Some p -> p <> [] -> faults w = [] ->
  files w !! p = Some (join [NL] (templateLines fm d)) ->
  hashFree fm -> hashFree d ->
  exists st s',
    getDeterminacyState (o, w) = (Ok st, s')
    /\ plan st = [placeholderItem]
    /\ plan_status placeholderItem = todo
    /\ invariants st = []
    /\ readyForImplementation st = true.
Proof.
  intros H Hp Hq Hc Hfm Hd. rewrite (getDeterminacyState_set o w p H Hp).
  rewrite !(afterCall_quiet w Hq). unfold readDoc. rewrite Hq, Hc. cbn [hd].
  rewrite (template_plan fm d Hfm Hd), (template_invariants fm d Hfm Hd).
  eexists _, _. split; [reflexivity|]. repeat split.
Qed.
End FreshDocument.

Lemma fresh_document_ready_witness :
  exists st s',
    getDeterminacyState (host := asciiHost) freshState = (Ok st, s')
    /\ plan st = [placeholderItem]
    /\ plan_status placeholderItem = todo
    /\ invariants st = []
    /\ readyForImplementation st = true.
Proof.
  apply (fresh_document_ready (host := asciiHost) freshFrontmatter (lit "Pending user intent")
           (fst freshState) (snd freshState) freshPath).
  - vm_compute. reflexivity.
  - discriminate.
  - vm_compute. reflexivity.
  - vm_compute. reflexivity.
  - vm_compute. reflexivity.
  - vm_compute. reflexivity.
Defined.

(** C3: on the fresh document the Mapping-Layer section holds its heading
    line and the four placeholder lines, none of which is meaningful, and
    [hasMappingLayer] answers [true]: the heading line is among the lines it
    tests. *)
Theorem hasMappingLayer_fresh_document :
  files (snd freshState) !! freshPath = Some freshDocument
  /\ sectionText SECTION_HEADINGS.mappingLayer freshDocument
     = Some (join [NL] (SECTION_HEADINGS.mappingLayer :: mappingPlaceholders) ++ [NL])
  /\ existsb meaningfulLine (List.map trim mappingPlaceholders) = false
  /\ meaningfulLine (trim SECTION_HEADINGS.mappingLayer) = true
  /\ fst (hasMappingLayer (host := asciiHost) freshState) = Ok true.
Proof. vm_compute. repeat split. Qed.

Section Containment.
Context `{host : Host}.

Lemma operations_return : operationsReturn.
Proof.
  unfold operationsReturn.
  split; [exact noThrow_ensureSpecFile|].
  split; [exact noThrow_ensureInitialized|].
  split; [exact noThrow_setPhase|].
  split; [exact noThrow_recordUserIntent|].
  split; [exact noThrow_recordPlanUpdate|].
  split; [exact noThrow_recordImplementationUpdate|].
  split; [exact noThrow_recordOpenQuestion|].
  split; [exact noThrow_recordSayEvent|].
  split; [exact noThrow_getSpecInstructions|].
  split; [exact noThrow_getDeterminacyState|].
  split; [exact noThrow_validatePlannedToolExecution|].
  split; [exact noThrow_markPlanStepComplete|].
  split; [exact noThrow_readInvariants|].
  split; [exact noThrow_readPlanItems|].
  split; [exact noThrow_hasMappingLayer|].
  split; [exact noThrow_appendToSection|exact noThrow_replaceSectionBody].
Qed.

(** C9: no operation throws.  For an initialized orchestrator, a read
    that fails makes the readers give the empty lists and [false] and the
    prompt context [None], and a section write whose read or whose write
    fails leaves every document as it is.  From any state, with the plan
    unreadable once [ensureInitialized] has left the path, the
    authorization is a denial with a reason, whatever the invariants read
    as.  A failing directory call and a failing file creation both make the
    path [None], and the second leaves every document as it is. *)
Theorem storage_failures_are_contained :
  operationsReturn
  /\ (forall o w p, specPath o = Some p -> p <> [] -> readFails p w ->
        readInvariants (o, w) = (Ok [], (o, afterCall w))
        /\ readPlanItems (o, w) = (Ok [], (o, afterCall w))
        /\ hasMappingLayer (o, w) = (Ok false, (o, afterCall w))
        /\ (forall maxChars,
              getSpecInstructions maxChars (o, w) = (Ok None, (o, afterCall w))))
  /\ (forall o w p h e b, specPath o = Some p -> p <> [] ->
        readFails p w \/ faultDue (afterCall w) ->
        exists w1 w2,
          appendToSection h e (o, w) = (Ok tt, (o, w1)) /\ files w1 = files w
          /\ replaceSectionBody h b (o, w) = (Ok tt, (o, w2)) /\ files w2 = files w)
  /\ (forall toolName s pth s1 p,
        ensureInitialized s = (Ok pth, s1) -> specPath (fst s1) = Some p -> p <> [] ->
        readFails p (afterCall (snd s1)) ->
        exists d r s',
          validatePlannedToolExecution toolName s = (Ok d, s')
          /\ allowed d = false /\ reason d = Some r /\ r <> [] /\ planItemId d = None)
  /\ (forall root md task w,
        faultDue w -> ensureSpecFile root md task w = (Ok None, afterCall w))
  /\ (forall root md task w,
        files w !! specPathOf root (containerId md) = None ->
        hd false (faults w) = false -> faultDue (afterCall w) ->
        exists w', ensureSpecFile root md task w = (Ok None, w') /\ files w' = files w)
  /\ (forall o w,
        specPath o = None -> faultDue w ->
        ensureInitialized (o, w) = (Ok None, (set_specPath None o, afterCall w))).
Proof.
  split; [exact operations_return|].
  split; [|split; [|split; [|split; [|split]]]].
  - intros o w p H Hp Hf.
    assert (Hread : forall A (parse : str -> A) (default : A),
               (if hd false (faults w) then default
                else match files w !! p with
                     | Some content => parse content
                     | None => default
                     end) = default).
    { intros A parse default. exact (readDoc_fails parse default p w Hf). }
    split; [rewrite (readInvariants_run o w p H Hp); now rewrite Hread|].
    split; [rewrite (readPlanItems_run o w p H Hp); now rewrite Hread|].
    split; [rewrite (hasMappingLayer_run o w p H Hp); now rewrite Hread|].
    intros n. now apply (getSpecInstructions_fails n o w p).
  - intros o w p h e b H Hp Hf. eexists _, _.
    split; [now apply (appendToSection_run h e o w p)|].
    split; [now apply sectionWrite_fails|].
    split; [now apply (replaceSectionBody_run h b o w p)|].
    now apply sectionWrite_fails.
  - intros toolName s pth s1 p. apply validate_denies_unread.
  - intros root md task w0 Hw0. now apply ensureSpecFile_mkdir_fails.
  - intros root md task w0. apply ensureSpecFile_write_fails.
  - intros o w. apply ensureInitialized_fails.
Qed.
End Containment.

Lemma storage_failures_are_contained_witness :
  readInvariants (host := asciiHost) (sampleOrch, faultyWorld)
  = (Ok [], (sampleOrch, afterCall faultyWorld))
  /\ (exists w1 w2,
        appendToSection (host := asciiHost) SECTION_HEADINGS.plan (lit "- [ ] x")
          (sampleOrch, planGlitchWorld) = (Ok tt, (sampleOrch, w1))
        /\ files w1 = files planGlitchWorld
        /\ replaceSectionBody (host := asciiHost) SECTION_HEADINGS.plan (lit "- [ ] x")
             (sampleOrch, planGlitchWorld) = (Ok tt, (sampleOrch, w2))
        /\ files w2 = files planGlitchWorld)
  /\ fst (readInvariants (host := asciiHost) (implementerOrch, planGlitchWorld))
     = Ok (parseInvariants sampleDocument)
  /\ (exists d r s',
        validatePlannedToolExecution (host := asciiHost) (lit "tests")
          (implementerOrch, planGlitchWorld) = (Ok d, s')
        /\ allowed d = false /\ reason d = Some r /\ r <> [] /\ planItemId d = None)
  /\ (exists w',
        ensureSpecFile (host := asciiHost) (workspaceRoot newOrch)
          {| containerId := o_containerId newOrch; title := o_title newOrch;
             createdAt := None; scopePaths := o_scopePaths newOrch;
             primaryModel := None; backupModel := None |}
          None createGlitchWorld = (Ok None, w')
        /\ files w' = files createGlitchWorld).
Proof.
  destruct (storage_failures_are_contained (host := asciiHost))
    as (_ & Hread & Hwrite & Hdeny & _ & Hcreate & _).
  split; [|split; [|split; [|split]]].
  - destruct (Hread sampleOrch faultyWorld sampleSpecPath) as (Hinv & _).
    + reflexivity.
    + discriminate.
    + left. reflexivity.
    + exact Hinv.
  - apply (Hwrite sampleOrch planGlitchWorld sampleSpecPath).
    + reflexivity.
    + discriminate.
    + right. reflexivity.
  - vm_compute. reflexivity.
  - apply (Hdeny (lit "tests") (implementerOrch, planGlitchWorld) (Some sampleSpecPath)
             (implementerOrch, planGlitchWorld) sampleSpecPath).
    + reflexivity.
    + reflexivity.
    + discriminate.
    + left. reflexivity.
  - apply Hcreate.
    + vm_compute. reflexivity.
    + reflexivity.
    + reflexivity.
Defined.

Lemma ensureSpecFile_never_overwrites_witness :
  exists r w',
    ensureSpecFile (host := asciiHost) (lit "/ws")
      {| containerId := lit "Auth Tokens!!"; title := lit "Another title";
         createdAt := None; scopePaths := None; primaryModel := None; backupModel := None |}
      (Some (lit "another task")) (snd freshState) = (Ok r, w')
    /\ files w' = files (snd freshState)
    /\ r = Some freshPath.
Proof.
  destruct (ensureSpecFile_never_overwrites (host := asciiHost) (lit "/ws")
              {| containerId := lit "Auth Tokens!!"; title := lit "Another title";
                 createdAt := None; scopePaths := None;
                 primaryModel := None; backupModel := None |}
              (Some (lit "another task")) (snd freshState) freshDocument)
    as (r & w' & E & Hfiles & Hr & _).
  - vm_compute. reflexivity.
  - exists r, w'. split; [exact E|]. split; [exact Hfiles|]. now apply Hr.
Defined.

(** With the violated invariant read, the tool is denied; when the read of
    the invariants fails and the reads after it succeed, the same request
    is allowed. *)
Lemma failed_invariants_read_allows :
  fst (validatePlannedToolExecution (host := asciiHost) (lit "tests")
         (implementerOrch, guardedWorld))
  = Ok {| allowed := false;
          reason := Some (lit "Determinacy too low or no open plan items to execute.");
          planItemId := None |}
  /\ faultDue glitchWorld
  /\ fst (readInvariants (host := asciiHost) (implementerOrch, glitchWorld)) = Ok []
  /\ fst (validatePlannedToolExecution (host := asciiHost) (lit "tests")
            (implementerOrch, glitchWorld))
     = Ok {| allowed := true; reason := None; planItemId := Some (lit "S2") |}.
Proof. vm_compute. repeat split. Qed.

(** ** Container ids *)

Lemma startsWith_dash c r : startsWith [DASH] (c :: r) = (c =? DASH)%N.
Proof.
  change (startsWith [DASH] (c :: r)) with ((DASH =? c)%N && true).
  rewrite andb_true_r. apply N.eqb_sym.
Qed.

Lemma lowerAlnum_not_dash c : isLowerAlnum c = true -> (c =? DASH)%N = false.
Proof.
  intros H. apply N.eqb_neq. intros ->. discriminate.
Qed.

Lemma collapseRuns_safe b s : forallb safeChar (collapseRuns b s) = true.
Proof.
  revert b. induction s as [|c r IH]; intros b; cbn [collapseRuns]; [reflexivity|].
  destruct (isLowerAlnum c) eqn:E.
  - cbn [forallb]. unfold safeChar at 1. rewrite E. apply IH.
  - destruct b; [apply IH|]. cbn [forallb]. rewrite IH. reflexivity.
Qed.

Lemma collapseRuns_in_run s : startsWith [DASH] (collapseRuns true s) = false.
Proof.
  induction s as [|c r IH]; cbn [collapseRuns]; [reflexivity|].
  destruct (isLowerAlnum c) eqn:E; [|exact IH].
  rewrite startsWith_dash. now apply lowerAlnum_not_dash.
Qed.

Lemma noDoubleDash_cons a s :
  noDoubleDash s = true -> ((a =? DASH)%N = true -> startsWith [DASH] s = false) ->
  noDoubleDash (a :: s) = true.
Proof.
  intros Hs Ha. destruct s as [|b r]; [reflexivity|].
  cbn [noDoubleDash]. cbn [noDoubleDash] in Hs. rewrite Hs, andb_true_r.
  destruct (a =? DASH)%N eqn:Ea; [|reflexivity].
  specialize (Ha eq_refl). rewrite startsWith_dash in Ha. now rewrite Ha.
Qed.

Lemma collapseRuns_noDoubleDash b s : noDoubleDash (collapseRuns b s) = true.
Proof.
  revert b. induction s as [|c r IH]; intros b; cbn [collapseRuns]; [reflexivity|].
  destruct (isLowerAlnum c) eqn:E.
  - apply noDoubleDash_cons; [apply IH|].
    intros Hc. now rewrite (lowerAlnum_not_dash c E) in Hc.
  - destruct b; [apply IH|].
    apply noDoubleDash_cons; [apply IH|]. intros _. apply collapseRuns_in_run.
Qed.

Lemma noDoubleDash_tail a s : noDoubleDash (a :: s) = true -> noDoubleDash s = true.
Proof.
  destruct s as [|b r]; [reflexivity|]. cbn [noDoubleDash].
  intros H. now apply andb_true_iff in H as [_ H].
Qed.

Lemma noDoubleDash_removelast s : noDoubleDash s = true -> noDoubleDash (removelast s) = true.
Proof.
  induction s as [|a s IH]; [reflexivity|]. intros H.
  destruct s as [|b r]; [reflexivity|].
  change (removelast (a :: b :: r)) with (a :: removelast (b :: r)).
  pose proof (IH (noDoubleDash_tail _ _ H)) as IH'.
  apply noDoubleDash_cons; [exact IH'|].
  intros Ha. cbn [noDoubleDash] in H. rewrite Ha in H. cbn [andb] in H.
  apply andb_true_iff in H as [Hb _]. apply negb_true_iff in Hb.
  destruct r as [|c r]; [reflexivity|].
  change (removelast (b :: c :: r)) with (b :: removelast (c :: r)).
  now rewrite startsWith_dash.
Qed.

Lemma forallb_removelast (p : N -> bool) s :
  forallb p s = true -> forallb p (removelast s) = true.
Proof.
  induction s as [|a s IH]; [reflexivity|]. intros H.
  destruct s as [|b r]; [reflexivity|].
  change (removelast (a :: b :: r)) with (a :: removelast (b :: r)).
  cbn [forallb] in H |- *. apply andb_true_iff in H as [Ha H].
  rewrite Ha. apply IH. exact H.
Qed.

Lemma endsWith_dash_snoc s c : endsWith [DASH] (s ++ [c]) = (c =? DASH)%N.
Proof.
  unfold endsWith. rewrite rev_app_distr. cbn [rev app]. apply startsWith_dash.
Qed.

Lemma snoc_case {A} (l : list A) : l = [] \/ exists r x, l = r ++ [x].
Proof.
  destruct l as [|a l]; [now left|right].
  destruct (exists_last (l := a :: l) ltac:(discriminate)) as (r & x & E). eauto.
Qed.

(** What [stripEdgeDashes] gives on a string with no doubled dash. *)
Lemma stripEdgeDashes_spec s :
  forallb safeChar s = true -> noDoubleDash s = true ->
  let t := stripEdgeDashes s in
  forallb safeChar t = true /\ noDoubleDash t = true /\ noEdgeDash t = true.
Proof.
  intros Hs Hd. unfold stripEdgeDashes.
  set (s1 := match s with c :: r => if (c =? DASH)%N then r else s | [] => [] end).
  assert (H1 : forallb safeChar s1 = true /\ noDoubleDash s1 = true
               /\ startsWith [DASH] s1 = false).
  { unfold s1. destruct s as [|c r]; [repeat split|].
    destruct (c =? DASH)%N eqn:Ec.
    - cbn [forallb] in Hs. apply andb_true_iff in Hs as [_ Hs].
      split; [exact Hs|]. split; [now apply noDoubleDash_tail in Hd|].
      destruct r as [|b r]; [reflexivity|]. rewrite startsWith_dash.
      cbn [noDoubleDash] in Hd. rewrite Ec in Hd. cbn [andb] in Hd.
      apply andb_true_iff in Hd as [Hb _]. now apply negb_true_iff in Hb.
    - split; [exact Hs|]. split; [exact Hd|]. now rewrite startsWith_dash. }
  clearbody s1. destruct H1 as (Hs1 & Hd1 & Hh1). cbv zeta. unfold noEdgeDash.
  destruct (endsWith [DASH] s1) eqn:Ee.
  - split; [now apply forallb_removelast|]. split; [now apply noDoubleDash_removelast|].
    destruct (snoc_case s1) as [->|(r & a & ->)]; [discriminate|].
    rewrite endsWith_dash_snoc in Ee. rewrite removelast_last.
    destruct (snoc_case r) as [->|(r0 & a0 & ->)].
    + reflexivity.
    + rewrite endsWith_dash_snoc.
      assert (Ha : (a0 =? DASH)%N = false).
      { clear -Hd1 Ee. induction r0 as [|x r0 IH].
        - cbn [app noDoubleDash] in Hd1. rewrite Ee, !andb_true_r in Hd1.
          now apply negb_true_iff in Hd1.
        - apply IH. now apply noDoubleDash_tail in Hd1. }
      rewrite Ha, andb_true_r.
      destruct r0 as [|x r0]; cbn [app] in *.
      * rewrite startsWith_dash. now rewrite Ha.
      * rewrite startsWith_dash in Hh1 |- *. now rewrite Hh1.
  - split; [exact Hs1|]. split; [exact Hd1|]. now rewrite Hh1, Ee.
Qed.

Lemma safeChar_range c :
  safeChar c = true -> (48 <= c <= 57 \/ 97 <= c <= 122 \/ c = 45)%N.
Proof.
  unfold safeChar, isLowerAlnum, DASH. intros H.
  repeat (apply orb_true_iff in H as [H|H]).
  - apply andb_true_iff in H as [H1 H2]. apply N.leb_le in H1, H2. lia.
  - apply andb_true_iff in H as [H1 H2]. apply N.leb_le in H1, H2. lia.
  - apply N.eqb_eq in H. lia.
Qed.

Lemma safeChar_not_space c : safeChar c = true -> isSpace c = false.
Proof.
  intros H%safeChar_range. unfold isSpace.
  repeat match goal with |- _ || _ = false => apply orb_false_intro end;
    try (apply N.eqb_neq; lia);
    apply andb_false_iff; first [left; apply N.leb_gt; lia | right; apply N.leb_gt; lia].
Qed.

Lemma safe_trimmed s :
  truthy s = true -> forallb safeChar s = true -> trim s = s.
Proof.
  intros Hne Hs. apply trim_trimmed. split.
  - destruct s as [|x r]; [discriminate|]. exists x, r. split; [reflexivity|].
    cbn [forallb] in Hs. apply andb_true_iff in Hs as [Hx _]. now apply safeChar_not_space.
  - destruct (snoc_case s) as [->|(r & x & ->)]; [discriminate|].
    exists r, x. split; [reflexivity|].
    rewrite forallb_app in Hs. apply andb_true_iff in Hs as [_ Hx].
    cbn [forallb] in Hx. rewrite andb_true_r in Hx. now apply safeChar_not_space.
Qed.

Lemma collapseRuns_fixed b s :
  forallb safeChar s = true -> noDoubleDash s = true ->
  (b = true -> startsWith [DASH] s = false) ->
  collapseRuns b s = s.
Proof.
  revert b. induction s as [|c r IH]; intros b Hs Hd Hb; [reflexivity|].
  cbn [collapseRuns]. cbn [forallb] in Hs. apply andb_true_iff in Hs as [Hc Hs].
  pose proof (noDoubleDash_tail _ _ Hd) as Hd'.
  destruct (isLowerAlnum c) eqn:E.
  - f_equal. apply IH; auto. discriminate.
  - unfold safeChar in Hc. rewrite E in Hc. cbn [orb] in Hc.
    destruct b.
    + specialize (Hb eq_refl). rewrite startsWith_dash, Hc in Hb. discriminate.
    + apply N.eqb_eq in Hc. subst c. f_equal. apply IH; auto. intros _.
      destruct r as [|x r]; [reflexivity|]. rewrite startsWith_dash.
      cbn [noDoubleDash] in Hd. apply andb_true_iff in Hd as [Hd _].
      rewrite N.eqb_refl in Hd. cbn [andb] in Hd. now apply negb_true_iff in Hd.
Qed.

Lemma stripEdgeDashes_fixed s : noEdgeDash s = true -> stripEdgeDashes s = s.
Proof.
  unfold noEdgeDash, stripEdgeDashes. intros H.
  apply andb_true_iff in H as [H1 H2]. apply negb_true_iff in H1, H2.
  destruct s as [|c r]; [reflexivity|].
  rewrite startsWith_dash in H1. rewrite H1. now rewrite H2.
Qed.

Lemma asciiLower_safe s : forallb safeChar s = true -> List.map asciiLowerChar s = s.
Proof.
  induction s as [|c r IH]; [reflexivity|]. cbn [forallb List.map].
  intros H. apply andb_true_iff in H as [Hc Hr]. rewrite (IH Hr). f_equal.
  apply safeChar_range in Hc. unfold asciiLowerChar.
  assert (E : ((65 <=? c) && (c <=? 90))%N = false).
  { apply andb_false_iff. destruct Hc as [Hc|[Hc|Hc]];
      [left; apply N.leb_gt; lia|right; apply N.leb_gt; lia|left; apply N.leb_gt; lia]. }
  now rewrite E.
Qed.

Section ContainerIds.
Context `{host : Host}.

Lemma sanitizeContainerId_shape rawId :
  let id := sanitizeContainerId rawId in
  truthy id = true /\ forallb safeChar id = true
  /\ noDoubleDash id = true /\ noEdgeDash id = true.
Proof.
  unfold sanitizeContainerId. cbv zeta.
  set (n := stripEdgeDashes (collapseRuns false (toLowerCase (trim rawId)))).
  destruct (stripEdgeDashes_spec (collapseRuns false (toLowerCase (trim rawId)))
              (collapseRuns_safe _ _) (collapseRuns_noDoubleDash _ _)) as (H1 & H2 & H3).
  fold n in H1, H2, H3.
  destruct (truthy n) eqn:E; [auto|]. repeat split.
Qed.

(** A sanitized id is not empty and is made of lower-case letters, digits
    and single dashes, none at either end, whatever the raw id and the
    lower-casing of the host. *)
Theorem sanitizeContainerId_safe rawId :
  let id := sanitizeContainerId rawId in
  id <> []
  /\ (forall c, In c id -> isLowerAlnum c = true \/ c = DASH)
  /\ noDoubleDash id = true
  /\ startsWith [DASH] id = false /\ endsWith [DASH] id = false.
Proof.
  destruct (sanitizeContainerId_shape rawId) as (Hne & Hs & Hd & He). cbv zeta.
  split; [intros E; rewrite E in Hne; discriminate|].
  split.
  - intros c Hc. rewrite forallb_forall in Hs. specialize (Hs c Hc).
    unfold safeChar in Hs. apply orb_true_iff in Hs as [Hs|Hs]; [now left|right].
    now apply N.eqb_eq.
  - split; [exact Hd|]. unfold noEdgeDash in He.
    apply andb_true_iff in He as [H1 H2]. now apply negb_true_iff in H1, H2.
Qed.

(** Sanitizing is idempotent, when lower-casing leaves lower-case letters,
    digits and dashes as they are: an id and its sanitized form name the
    same container. *)
Theorem sanitizeContainerId_idempotent rawId :
  (forall s, forallb safeChar s = true -> toLowerCase s = s) ->
  sanitizeContainerId (sanitizeContainerId rawId) = sanitizeContainerId rawId.
Proof.
  intros Hlow. destruct (sanitizeContainerId_shape rawId) as (Hne & Hs & Hd & He).
  set (id := sanitizeContainerId rawId) in *. clearbody id.
  unfold sanitizeContainerId. cbv zeta.
  rewrite (safe_trimmed id Hne Hs), (Hlow id Hs).
  rewrite (collapseRuns_fixed false id Hs Hd ltac:(discriminate)).
  rewrite (stripEdgeDashes_fixed id He). now rewrite Hne.
Qed.
End ContainerIds.

Lemma sanitizeContainerId_idempotent_witness :
  sanitizeContainerId (host := asciiHost)
    (sanitizeContainerId (host := asciiHost) (lit "Auth Tokens!!"))
  = sanitizeContainerId (host := asciiHost) (lit "Auth Tokens!!").
Proof.
  apply (sanitizeContainerId_idempotent (host := asciiHost) (lit "Auth Tokens!!")).
  exact asciiLower_safe.
Defined.

(** ** The document a new container gets *)

Lemma hashFree_app a b : hashFree (a ++ b) <-> hashFree a /\ hashFree b.
Proof. unfold hashFree. rewrite forallb_app. apply andb_true_iff. Qed.

Lemma hashFree_join ls : Forall hashFree ls -> hashFree (join [NL] ls).
Proof.
  induction 1 as [|l ls Hl Hls IH]; [reflexivity|].
  destruct ls as [|l' ls]; [exact Hl|].
  rewrite join_cons by discriminate. apply hashFree_app. split; [exact Hl|].
  apply hashFree_app. split; [reflexivity|exact IH].
Qed.

Lemma hashFree_infix a s b : hashFree (a ++ s ++ b) -> hashFree s.
Proof. intros H. apply hashFree_app in H as [_ H]. now apply hashFree_app in H as [H _]. Qed.

Lemma hashFree_trim s : hashFree s -> hashFree (trim s).
Proof.
  intros H. destruct (trim_infix s) as (a & b & E). rewrite E in H.
  now apply hashFree_infix in H.
Qed.

Lemma hashFree_escapeQuotes s : hashFree s -> hashFree (escapeQuotes s).
Proof.
  unfold hashFree. induction s as [|c r IH]; [reflexivity|]. cbn [forallb escapeQuotes].
  intros H. apply andb_true_iff in H as [Hc Hr].
  destruct (c =? DQUOTE)%N; cbn [forallb]; rewrite ?Hc, (IH Hr); reflexivity.
Qed.

Lemma hashFree_safe s : forallb safeChar s = true -> hashFree s.
Proof.
  unfold hashFree. induction s as [|c r IH]; [reflexivity|]. cbn [forallb].
  intros H. apply andb_true_iff in H as [Hc Hr]. rewrite (IH Hr), andb_true_r.
  apply negb_true_iff, N.eqb_neq. apply safeChar_range in Hc. unfold HASH. lia.
Qed.

Lemma hashFree_stamp w n : hashFree (stamp w n).
Proof. apply isoCode_not_hash. Qed.

(** A heading of the fixed part of a text is found where it is in that part,
    when the lines before hold no [#]. *)
Lemma find_in_tail Z prefix tail k :
  niceHeading Z -> find_sub Z prefix = None ->
  find_sub Z tail = Some k -> 0 < k -> tail !! (k - 1) = Some NL ->
  find_sub Z (prefix ++ NL :: tail) = Some (length prefix + 1 + k)
  /\ afterNL (prefix ++ NL :: tail) (length prefix + 1 + k).
Proof.
  intros HZ Hp Hk Hpos Hnl. pose proof (niceHeading_nonempty Z HZ) as Hne.
  destruct HZ as [_ HZf]. split.
  - rewrite find_sub_NL_split, Hp, Hk by assumption. reflexivity.
  - split; [lia|].
    rewrite lookup_app_r by lia.
    replace (length prefix + 1 + k - 1 - length prefix) with (S (k - 1)) by lia.
    exact Hnl.
Qed.

Lemma template_prefix_free Z fm d :
  niceHeading Z -> find_sub Z SECTION_HEADINGS.taskClaim = None ->
  hashFree fm -> hashFree d ->
  find_sub Z (fm ++ NL :: [] ++ NL :: SECTION_HEADINGS.taskClaim
              ++ NL :: (lit "- User intent: " ++ d)) = None.
Proof.
  intros HZ HT Hfm Hd. pose proof (niceHeading_nonempty Z HZ) as Hne.
  destruct HZ as [HZp HZf].
  assert (Hu : find_sub Z (lit "- User intent: " ++ d) = None).
  { apply hashFree_absent; [exact HZp|]. apply hashFree_app. split; [reflexivity|exact Hd]. }
  rewrite !find_sub_NL_split by assumption.
  rewrite (hashFree_absent Z fm HZp Hfm), (find_sub_nil_None Z Hne), HT, Hu.
  reflexivity.
Qed.

(** The template has the four headings the step operations work on, each
    first found at a line start, in order. *)
Lemma template_layout fm d :
  hashFree fm -> hashFree d ->
  layout (join [NL] (templateLines fm d))
    (length fm + 2)
    (length fm + length d + 192)
    (length fm + length d + 409)
    (length fm + length d + 469).
Proof.
  intros Hfm Hd. rewrite template_split.
  set (prefix := fm ++ NL :: [] ++ NL :: SECTION_HEADINGS.taskClaim
                 ++ NL :: (lit "- User intent: " ++ d)).
  assert (Hlen : length prefix = length fm + length d + 45).
  { unfold prefix. repeat (rewrite ?length_app; cbn [length app]).
    change (length SECTION_HEADINGS.taskClaim) with 27.
    change (length (lit "- User intent: ")) with 15. lia. }
  assert (Htail : forall Z k,
             niceHeading Z -> find_sub Z SECTION_HEADINGS.taskClaim = None ->
             find_sub Z templateTail = Some k -> 0 < k -> templateTail !! (k - 1) = Some NL ->
             find_sub Z (prefix ++ NL :: templateTail) = Some (length prefix + 1 + k)
             /\ afterNL (prefix ++ NL :: templateTail) (length prefix + 1 + k)).
  { intros Z k HZ HT Hk Hpos Hnl. apply find_in_tail; auto.
    now apply template_prefix_free. }
  destruct (Htail _ 146 nice_mechanics eq_refl) as [HM HMn];
    [vm_compute; reflexivity|lia|vm_compute; reflexivity|].
  destruct (Htail _ 363 nice_plan eq_refl) as [HP HPn];
    [vm_compute; reflexivity|lia|vm_compute; reflexivity|].
  destruct (Htail _ 423 nice_implementation eq_refl) as [HI HIn];
    [vm_compute; reflexivity|lia|vm_compute; reflexivity|].
  rewrite Hlen in HM, HMn, HP, HPn, HI, HIn.
  replace (length fm + length d + 45 + 1 + 146) with (length fm + length d + 192) in * by lia.
  replace (length fm + length d + 45 + 1 + 363) with (length fm + length d + 409) in * by lia.
  replace (length fm + length d + 45 + 1 + 423) with (length fm + length d + 469) in * by lia.
  refine (conj _ (conj HM (conj HMn (conj HP (conj HPn (conj HI (conj HIn _))))))); [|lia].
  assert (E : prefix ++ NL :: templateTail
              = fm ++ NL :: ([] ++ NL :: (SECTION_HEADINGS.taskClaim
                  ++ (NL :: (lit "- User intent: " ++ d) ++ NL :: templateTail)))).
  { unfold prefix. rewrite <- !app_assoc. cbn [app]. now rewrite <- !app_assoc. }
  rewrite E.
  pose proof nice_taskClaim as [HTp HTf].
  rewrite !find_sub_NL_split by (auto; discriminate).
  rewrite (hashFree_absent _ fm HTp Hfm).
  rewrite (find_sub_nil_None _ (niceHeading_nonempty _ nice_taskClaim)).
  assert (Hself : find_sub SECTION_HEADINGS.taskClaim SECTION_HEADINGS.taskClaim = Some 0)
    by (vm_compute; reflexivity).
  rewrite Hself. cbn [fmap option_fmap option_map length]. f_equal. lia.
Qed.

Section Creation.
Context `{host : Host}.

Lemma buildFrontmatter_hashFree md w :
  hashFree (title md) ->
  hashFree (orElse (createdAt md) []) ->
  Forall hashFree (orElse (scopePaths md) []) ->
  hashFree (orElse (primaryModel md) []) -> hashFree (orElse (backupModel md) []) ->
  exists fm,
    buildFrontmatter md w
    = (Ok fm, match createdAt md with Some _ => w | None => tick w end)
    /\ hashFree fm.
Proof.
  intros Ht Hc Hp Hm1 Hm2. unfold buildFrontmatter, bind.
  assert (Hcreated : exists created,
             (match createdAt md with Some c => ret c | None => nowISOString end) w
             = (Ok created, match createdAt md with Some _ => w | None => tick w end)
             /\ hashFree created).
  { destruct (createdAt md) as [c|]; [exists c; now split|].
    exists (stamp w 0). split; [reflexivity|apply hashFree_stamp]. }
  destruct Hcreated as (created & -> & Hcr). cbv beta iota.
  eexists. split; [reflexivity|].
  apply hashFree_join. rewrite !Forall_app, !Forall_cons.
  assert (Hpaths : Forall hashFree
                     (List.map (fun scopePath => lit "    - " ++ [DQUOTE] ++ scopePath ++ [DQUOTE])
                        match scopePaths md with
                        | Some (p :: ps) => p :: ps
                        | _ => [lit "."]
                        end)).
  { apply Forall_map.
    destruct (scopePaths md) as [[|p ps]|]; cbn [orElse] in Hp;
      [repeat constructor| |repeat constructor].
    eapply Forall_impl; [exact Hp|]. intros x Hx. cbv beta.
    repeat (apply hashFree_app; split); auto; reflexivity. }
  assert (Hpm : hashFree (orElse (primaryModel md) (lit "gpt-5.1-thinking")))
    by (destruct (primaryModel md); [exact Hm1|reflexivity]).
  assert (Hbm : hashFree (orElse (backupModel md) (lit "gpt-4.1")))
    by (destruct (backupModel md); [exact Hm2|reflexivity]).
  pose proof (hashFree_safe _ (proj1 (proj2 (sanitizeContainerId_shape (containerId md)))))
    as Hid.
  pose proof (hashFree_escapeQuotes _ Ht) as Hte.
  repeat split; try exact Hpaths; try apply Forall_nil;
    repeat (apply hashFree_app; split); auto; reflexivity.
Qed.

(** What [ensureSpecFile] does when no document is at the path and the
    storage does not fail. *)
Lemma ensureSpecFile_creates root md task w :
  faults w = [] -> files w !! specPathOf root (containerId md) = None ->
  hashFree (title md) ->
  hashFree (orElse (createdAt md) []) ->
  Forall hashFree (orElse (scopePaths md) []) ->
  hashFree (orElse (primaryModel md) []) -> hashFree (orElse (backupModel md) []) ->
  exists fm,
    hashFree fm
    /\ ensureSpecFile root md task w
       = (Ok (Some (specPathOf root (containerId md))),
          withFile (specPathOf root (containerId md))
            (toWellFormed (join [NL] (templateLines fm (descriptionOf task))))
            match createdAt md with Some _ => w | None => tick w end).
Proof.
  intros Hq Hnone Ht Hc Hp Hm1 Hm2.
  destruct (buildFrontmatter_hashFree md w Ht Hc Hp Hm1 Hm2) as (fm & Efm & Hfm).
  exists fm. split; [exact Hfm|].
  unfold ensureSpecFile, try_catch, bind, ensureContainerDirectory, fs_mkdir, bind.
  rewrite nextFault_run, Hq, (afterCall_quiet w Hq). cbn [hd ret].
  unfold fileExistsAtPath, bind, get. cbn [ret].
  unfold specPathOf in Hnone |- *. rewrite Hnone.
  unfold buildInitialTemplate, bind. rewrite Efm. cbn [ret].
  set (w1 := match createdAt md with Some _ => w | None => tick w end).
  assert (Hq1 : faults w1 = []) by (unfold w1; now destruct (createdAt md)).
  rewrite fs_writeFile_run, Hq1, (afterCall_quiet w1 Hq1). cbn [hd].
  reflexivity.
Qed.
End Creation.

Section FirstUse.
Context `{host : Host}.

(** On first use, with no document at the container's path and a storage
    that does not fail, [ensureInitialized] writes the template there and
    nothing else, remembers the path, and the document has its four
    working headings at line starts in order, one placeholder plan item
    and no invariant.  The title, scope paths and task hold no [#]. *)
Theorem ensureInitialized_creates o w :
  specPath o = None -> faults w = [] ->
  files w !! specPathOf (workspaceRoot o) (o_containerId o) = None ->
  hashFree (o_title o) -> Forall hashFree (orElse (o_scopePaths o) []) ->
  hashFree (orElse (o_initialTask o) []) ->
  let path := specPathOf (workspaceRoot o) (o_containerId o) in
  exists c iT iM iP iI,
    ensureInitialized (o, w)
    = (Ok (Some path), (set_specPath (Some path) o, withFile path c (tick w)))
    /\ layout c iT iM iP iI
    /\ parsePlanItems c = [placeholderItem]
    /\ parseInvariants c = [].
Proof.
  intros Hs Hq Hnone Ht Hp Htask path.
  set (md := {| containerId := o_containerId o; title := o_title o;
                createdAt := None; scopePaths := o_scopePaths o;
                primaryModel := None; backupModel := None |}).
  destruct (ensureSpecFile_creates (workspaceRoot o) md (o_initialTask o) w Hq Hnone Ht
              eq_refl Hp eq_refl eq_refl) as (fm & Hfm & Erun).
  assert (Hd : hashFree (descriptionOf (o_initialTask o))).
  { unfold descriptionOf. destruct (o_initialTask o); [|reflexivity].
    now apply hashFree_trim. }
  exists (toWellFormed (join [NL] (templateLines fm (descriptionOf (o_initialTask o))))).
  eexists _, _, _, _.
  split; [|split; [apply layout_toWellFormed, (template_layout fm _ Hfm Hd)|split]].
  - unfold ensureInitialized, bind, this. cbn [fst snd]. rewrite Hs. cbn [truthyOpt].
    unfold liftW. cbn [fst snd]. fold md. rewrite Erun. reflexivity.
  - now rewrite parsePlanItems_toWellFormed, template_plan.
  - now rewrite parseInvariants_toWellFormed, template_invariants.
Qed.
End FirstUse.

Lemma ensureInitialized_creates_witness :
  exists c iT iM iP iI,
    ensureInitialized (host := asciiHost) (newOrch, emptyWorld)
    = (Ok (Some freshPath), (set_specPath (Some freshPath) newOrch,
                             withFile freshPath c (tick emptyWorld)))
    /\ layout c iT iM iP iI
    /\ parsePlanItems c = [placeholderItem]
    /\ parseInvariants c = [].
Proof.
  apply (ensureInitialized_creates (host := asciiHost) newOrch emptyWorld).
  - reflexivity.
  - reflexivity.
  - vm_compute. reflexivity.
  - vm_compute. reflexivity.
  - repeat constructor.
  - reflexivity.
Defined.

(** ** Steps, one after another *)

Lemma completedContent_layout pid e1 e2 c0 iT iM iP iI :
  layout c0 iT iM iP iI ->
  find_sub SECTION_HEADINGS.mechanics e1 = None ->
  find_sub SECTION_HEADINGS.plan e1 = None ->
  find_sub SECTION_HEADINGS.implementation e1 = None ->
  exists iT' iM' iP' iI', layout (completedContent pid e1 e2 c0) iT' iM' iP' iI'.
Proof.
  intros Hl H1 H2 H3.
  destruct (completedContent_sections pid e1 e2 c0 iT iM iP iI Hl H1 H2 H3)
    as (_ & _ & _ & c3 & iT' & iM' & iP' & iI' & Hl3 & ->).
  exists iT', iM', iP', iI'.
  now destruct (layout_write_implementation (appendBody e2) c3 iT' iM' iP' iI' Hl3).
Qed.

Lemma satisfiedCount_views a b :
  List.map invView a = List.map invView b ->
  satisfiedCount a = satisfiedCount b /\ length a = length b.
Proof.
  revert b. induction a as [|x a IH]; intros [|y b] H; try discriminate; [now split|].
  cbn [List.map] in H. unfold invView at 1 3 in H. injection H as _ Hst Hab.
  destruct (IH b Hab) as [Hs Hl]. unfold satisfiedCount in *. cbn [List.filter length].
  rewrite Hst.
  destruct (isSatisfied (inv_status y)); cbn [length]; lia.
Qed.

Lemma flipFirstUnknown_length invs : length (flipFirstUnknown invs) = length invs.
Proof.
  induction invs as [|inv invs IH]; [reflexivity|]. cbn [flipFirstUnknown].
  destruct (isUnknown (inv_status inv)); cbn [length]; congruence.
Qed.

Lemma flipFirstUnknown_count invs :
  satisfiedCount (flipFirstUnknown invs)
  = satisfiedCount invs + (if anyUnknown invs then 1 else 0).
Proof.
  unfold satisfiedCount, anyUnknown.
  induction invs as [|inv invs IH]; [reflexivity|]. cbn [flipFirstUnknown existsb].
  destruct (inv_status inv) eqn:E; cbn [isUnknown orb List.filter]; rewrite ?E;
    cbn [isSatisfied length markSatisfied inv_status]; rewrite ?IH; lia.
Qed.

Lemma determinacyOf_mono a b :
  length a = length b -> satisfiedCount a <= satisfiedCount b ->
  (determinacyOf a <= determinacyOf b)%Q.
Proof.
  intros Hl Hs. rewrite !determinacyOf_fraction, Hl.
  unfold Qle. cbn [Qnum Qden]. nia.
Qed.

Lemma goodText_toWellFormed t : goodText t -> goodText (toWellFormed t).
Proof.
  intros [[(x & r & -> & Hx) (r' & y & E & Hy)] Hlt]. split; [split|].
  - destruct (toWellFormed_head x r) as (z & u & -> & Hs).
    exists z, u. split; [reflexivity|]. now rewrite <- (similar_isSpace x z Hs).
  - rewrite E. destruct (toWellFormed_last r' y) as (u & z & -> & Hs).
    exists u, z. split; [reflexivity|]. now rewrite <- (similar_isSpace y z Hs).
  - unfold noLineTerminator in *. now rewrite noLineTerminator_toWellFormed.
Qed.

Lemma satisfiedCount_utf8 invs :
  satisfiedCount (List.map utf8Invariant invs) = satisfiedCount invs.
Proof.
  unfold satisfiedCount. induction invs as [|inv invs IH]; [reflexivity|].
  cbn [List.map List.filter utf8Invariant inv_status].
  destruct (isSatisfied (inv_status inv)); cbn [length]; now rewrite IH.
Qed.

Lemma anyUnknown_utf8 invs : anyUnknown (List.map utf8Invariant invs) = anyUnknown invs.
Proof.
  unfold anyUnknown. induction invs as [|inv invs IH]; [reflexivity|].
  cbn [List.map existsb utf8Invariant inv_status]. now rewrite IH.
Qed.

Lemma sampleWorld_workable : workable (sampleOrch, sampleWorld) sampleSpecPath sampleDocument.
Proof.
  split; [reflexivity|]. split; [discriminate|]. split; [reflexivity|].
  split; [vm_compute; reflexivity|]. exists 0, 49, 140, 215. exact sampleDocument_layout.
Qed.

Section Steps.
Context `{host : Host}.

Lemma getDeterminacyState_quiet o w p c :
  specPath o = Some p -> p <> [] -> faults w = [] -> files w !! p = Some c ->
  getDeterminacyState (o, w)
  = (Ok (evaluate (parseInvariants c) (parsePlanItems c) (mappingLayerPresent c)), (o, w)).
Proof.
  intros H Hp Hq Hc. rewrite (getDeterminacyState_set o w p H Hp).
  rewrite !(afterCall_quiet w Hq). now rewrite !(readDoc_quiet _ _ p w c Hq Hc).
Qed.

(** A completed step leaves a state in which the next step works: the path
    is kept, the storage has not failed, the document has its headings in
    place, and the phase is implementer. *)
Theorem markPlanStepComplete_keeps_workable planItemId note s p c0 :
  workable s p c0 ->
  exists s' c4,
    markPlanStepComplete planItemId note s = (Ok tt, s')
    /\ workable s' p c4
    /\ currentPhase (fst s') = Some implementer.
Proof.
  destruct s as [o w]. intros (H & Hp & Hq & Hc & iT & iM & iP & iI & Hl).
  cbn [fst snd] in *.
  eexists _, _. split; [now apply (markPlanStepComplete_run planItemId note o w p c0)|].
  split; [|reflexivity].
  split; [exact H|]. split; [exact Hp|]. split; [exact Hq|].
  split; [apply withFile_lookup|].
  rewrite completedContent_toWellFormed. apply layout_toWellFormed in Hl.
  apply (completedContent_layout _ _ _ _ iT iM iP iI Hl);
    (apply fresh_toWellFormed; [reflexivity|apply phaseEntry_fresh; reflexivity]).
Qed.

(** A completed step never lowers the determinacy the evaluator reports: it
    keeps the number of invariants and raises the number of satisfied ones
    by one when some invariant was unknown, by none otherwise.  The
    descriptions are single-line texts. *)
Theorem step_raises_determinacy planItemId note s p c0 :
  workable s p c0 ->
  Forall (fun inv => goodText (inv_description inv)) (parseInvariants c0) ->
  exists st s1 s' st' s2,
    getDeterminacyState s = (Ok st, s1)
    /\ markPlanStepComplete planItemId note s = (Ok tt, s')
    /\ getDeterminacyState s' = (Ok st', s2)
    /\ length (invariants st') = length (invariants st)
    /\ satisfiedCount (invariants st')
       = satisfiedCount (invariants st) + (if anyUnknown (invariants st) then 1 else 0)
    /\ (determinacy st <= determinacy st')%Q.
Proof.
  destruct s as [o w]. intros (H & Hp & Hq & Hc & iT & iM & iP & iI & Hl) Hg.
  cbn [fst snd] in *.
  destruct (completed_step planItemId note o w p c0 iT iM iP iI H Hp Hq Hc Hl)
    as (c4 & lr & Hrun & _ & _ & _ & Hinv & _).
  rewrite parseInvariants_toWellFormed in Hinv.
  assert (Hg' : Forall (fun inv => goodText (inv_description inv))
                  (List.map utf8Invariant (parseInvariants c0))).
  { apply Forall_map. eapply Forall_impl; [exact Hg|].
    intros inv. apply goodText_toWellFormed. }
  specialize (Hinv Hg').
  destruct (satisfiedCount_views _ _ Hinv) as [Hs Hlen].
  rewrite flipFirstUnknown_count, satisfiedCount_utf8, anyUnknown_utf8 in Hs.
  rewrite flipFirstUnknown_length, length_map in Hlen.
  eexists _, _, _, _, _.
  split; [apply (getDeterminacyState_quiet o w p c0 H Hp Hq Hc)|].
  split; [exact Hrun|].
  split; [apply (getDeterminacyState_quiet (set_currentPhase implementer o)
                   (withFile p c4 (tick (tick w))) p c4 H Hp Hq (withFile_lookup _ _ _))|].
  cbn [invariants determinacy evaluate].
  split; [exact Hlen|]. split; [exact Hs|].
  apply determinacyOf_mono; [now rewrite Hlen|]. rewrite Hs. lia.
Qed.
End Steps.

Lemma markPlanStepComplete_keeps_workable_witness :
  exists s' c4,
    markPlanStepComplete (host := asciiHost) (lit "S2") None (sampleOrch, sampleWorld)
    = (Ok tt, s')
    /\ workable s' sampleSpecPath c4
    /\ currentPhase (fst s') = Some implementer.
Proof.
  apply (markPlanStepComplete_keeps_workable (host := asciiHost) (lit "S2") None
           (sampleOrch, sampleWorld) sampleSpecPath sampleDocument).
  exact sampleWorld_workable.
Defined.

Lemma step_raises_determinacy_witness :
  exists st s1 s' st' s2,
    getDeterminacyState (host := asciiHost) (sampleOrch, sampleWorld) = (Ok st, s1)
    /\ markPlanStepComplete (host := asciiHost) (lit "S2") None (sampleOrch, sampleWorld)
       = (Ok tt, s')
    /\ getDeterminacyState (host := asciiHost) s' = (Ok st', s2)
    /\ length (invariants st') = length (invariants st)
    /\ satisfiedCount (invariants st')
       = satisfiedCount (invariants st) + (if anyUnknown (invariants st) then 1 else 0)
    /\ (determinacy st <= determinacy st')%Q.
Proof.
  apply (step_raises_determinacy (host := asciiHost) (lit "S2") None
           (sampleOrch, sampleWorld) sampleSpecPath sampleDocument).
  - exact sampleWorld_workable.
  - exact sampleDocument_invariants.
Defined.

(** ** The phase in memory *)

Lemma endsInPhase_then {A B} (m : OM A) (k : A -> OM B) ph :
  endsInPhase m ph -> (forall a, keepsPhase (k a)) -> endsInPhase (bind m k) ph.
Proof.
  intros Hm Hk s. unfold bind. specialize (Hm s).
  destruct (m s) as [[a|e] s1]; [|exact Hm].
  rewrite (Hk a s1). exact Hm.
Qed.

Lemma endsInPhase_after {A B} (m : OM A) (k : A -> OM B) ph :
  noThrow m -> (forall a, endsInPhase (k a) ph) -> endsInPhase (bind m k) ph.
Proof.
  intros Hm Hk s. unfold bind. destruct (Hm s) as [a Ha].
  destruct (m s) as [r s1]. cbn [fst] in Ha. subst r. apply Hk.
Qed.

Section Phases.
Context `{host : Host}.

Lemma keepsPhase_appendToSection h e : keepsPhase (appendToSection h e).
Proof. unfold appendToSection. js_run. Qed.

Lemma keepsPhase_replaceSectionBody h b : keepsPhase (replaceSectionBody h b).
Proof. unfold replaceSectionBody. js_run. Qed.

Lemma keepsPhase_writePlanItems planText : keepsPhase (writePlanItems planText).
Proof.
  unfold writePlanItems, writeInvariants.
  repeat first [ js_step
               | lazymatch goal with
                 | |- keepsPhase (appendToSection _ _) => apply keepsPhase_appendToSection
                 | |- keepsPhase (replaceSectionBody _ _) =>
                     apply keepsPhase_replaceSectionBody
                 | |- keepsPhase readInvariants => apply keepsPhase_readInvariants
                 | |- keepsPhase (match _ with _ => _ end) => js_case
                 end ].
Qed.

Lemma endsInPhase_setPhase phase reason : endsInPhase (setPhase phase reason) phase.
Proof.
  unfold setPhase. intros s. unfold bind at 1.
  destruct (noThrow_ensureInitialized s) as [p Hp].
  pose proof (keepsPhase_ensureInitialized s) as Hk.
  destruct (ensureInitialized s) as [r [o1 w1]]. cbn [fst snd] in Hp, Hk. subst r.
  unfold bind at 1, this. cbn [fst snd].
  destruct (match currentPhase o1 with
            | Some ph => phase_eqb ph phase
            | None => false
            end && negb (truthyOpt reason)) eqn:E.
  - cbn [ret fst snd]. apply andb_true_iff in E as [E _].
    destruct (currentPhase o1) as [ph|]; [|discriminate].
    destruct ph, phase; try discriminate; reflexivity.
  - unfold bind at 1, assign. cbn [fst snd].
    set (entryReason := if truthyOpt reason then reasonSeparator ++ orElse reason [] else []).
    assert (K : keepsPhase
                  (let* ts := liftW nowISOString in
                   appendToSection SECTION_HEADINGS.taskClaim
                     (lit "- [Loop " ++ formatPhase phase ++ lit "] " ++ ts ++ entryReason))).
    { js_run. apply keepsPhase_appendToSection. }
    exact (K (set_currentPhase phase o1, w1)).
Qed.

Lemma keepsPhase_setPhase_rest {A} (m : OM A) phase reason :
  keepsPhase m -> endsInPhase (await setPhase phase reason; m) phase.
Proof. intros Hm. apply endsInPhase_then; [apply endsInPhase_setPhase|intros _; exact Hm]. Qed.

Ltac record_phase :=
  apply endsInPhase_after; [apply noThrow_ensureInitialized|intros _];
  apply keepsPhase_setPhase_rest.

Lemma endsInPhase_recordUserIntent intent attachments :
  endsInPhase (recordUserIntent intent attachments) instantiator.
Proof. unfold recordUserIntent. record_phase. js_run. apply keepsPhase_appendToSection. Qed.

Lemma endsInPhase_recordPlanUpdate planText :
  endsInPhase (recordPlanUpdate planText) planner.
Proof. unfold recordPlanUpdate. record_phase. apply keepsPhase_writePlanItems. Qed.

Lemma endsInPhase_recordImplementationUpdate kind text :
  endsInPhase (recordImplementationUpdate kind text) implementer.
Proof.
  unfold recordImplementationUpdate. record_phase. js_run. apply keepsPhase_appendToSection.
Qed.

Lemma endsInPhase_recordOpenQuestion note :
  endsInPhase (recordOpenQuestion note) instantiator.
Proof. unfold recordOpenQuestion. record_phase. js_run. apply keepsPhase_appendToSection. Qed.

Lemma endsInPhase_markPlanStepComplete planItemId note :
  endsInPhase (markPlanStepComplete planItemId note) implementer.
Proof.
  unfold markPlanStepComplete.
  apply endsInPhase_after; [apply noThrow_ensureInitialized|intros _].
  apply endsInPhase_after; [apply noThrow_readPlanItems|intros planItems].
  apply endsInPhase_after; [apply noThrow_writePlanItemsFromList|intros _].
  apply endsInPhase_after; [apply noThrow_readInvariants|intros invs].
  apply endsInPhase_after; [|intros _; apply endsInPhase_recordImplementationUpdate].
  repeat js_case; js_run; apply noThrow_writeInvariants.
Qed.

(** Each recording operation ends in its phase, whatever the storage
    does: the intent and an open question in [instantiator], a plan update
    in [planner], an implementation update and a completed step in
    [implementer]. *)
Theorem recording_sets_phase :
  (forall phase reason, endsInPhase (setPhase phase reason) phase)
  /\ (forall intent attachments,
        endsInPhase (recordUserIntent intent attachments) instantiator)
  /\ (forall planText, endsInPhase (recordPlanUpdate planText) planner)
  /\ (forall kind text, endsInPhase (recordImplementationUpdate kind text) implementer)
  /\ (forall note, endsInPhase (recordOpenQuestion note) instantiator)
  /\ (forall planItemId note,
        endsInPhase (markPlanStepComplete planItemId note) implementer).
Proof.
  split; [exact endsInPhase_setPhase|].
  split; [exact endsInPhase_recordUserIntent|].
  split; [exact endsInPhase_recordPlanUpdate|].
  split; [exact endsInPhase_recordImplementationUpdate|].
  split; [exact endsInPhase_recordOpenQuestion|exact endsInPhase_markPlanStepComplete].
Qed.

Lemma validate_outside_implementer toolName s :
  currentPhase (fst s) <> Some implementer ->
  fst (validatePlannedToolExecution toolName s) = Ok phaseDenial.
Proof.
  intros Hph. destruct (getDeterminacyState_run s) as (invs & items & mr & s' & E & K).
  unfold validatePlannedToolExecution, bind. rewrite E. unfold this. cbn [fst snd].
  rewrite K.
  destruct (currentPhase (fst s)) as [[| |]|]; try reflexivity. contradiction.
Qed.

(** Until an implementation update or a completed step is recorded, every
    tool is denied: a new orchestrator has no phase, and recording an
    intent, a plan update or an open question leaves a phase other than
    implementer, so the request is denied for the phase whatever the plan
    and the invariants are, and whatever the storage does. *)
Theorem tools_denied_outside_implementer toolName s :
  (currentPhase (fst s) <> Some implementer ->
   fst (validatePlannedToolExecution toolName s) = Ok phaseDenial)
  /\ (forall intent attachments,
        fst (validatePlannedToolExecution toolName
               (snd (recordUserIntent intent attachments s))) = Ok phaseDenial)
  /\ (forall planText,
        fst (validatePlannedToolExecution toolName (snd (recordPlanUpdate planText s)))
        = Ok phaseDenial)
  /\ (forall note,
        fst (validatePlannedToolExecution toolName (snd (recordOpenQuestion note s)))
        = Ok phaseDenial).
Proof.
  split; [apply validate_outside_implementer|].
  split; [|split]; intros; apply validate_outside_implementer.
  - rewrite endsInPhase_recordUserIntent. discriminate.
  - rewrite endsInPhase_recordPlanUpdate. discriminate.
  - rewrite endsInPhase_recordOpenQuestion. discriminate.
Qed.
End Phases.

(** ** Writing the two lists and reading them back *)

Lemma planItemsFrom_renumbered k items :
  Forall (fun item => goodText (plan_text item)) items ->
  planItemsFrom k (List.map planLine items) = renumberPlan k (List.map planView items).
Proof.
  intros H. revert k.
  induction H as [|item items Hg Hrest IH]; intros k; cbn [List.map planItemsFrom renumberPlan];
    [reflexivity|].
  rewrite (trim_trimmed _ (planLine_trimmed _ Hg)), (planLine_match _ Hg).
  unfold planView at 1. rewrite IH. f_equal. f_equal.
  destruct (plan_status item); reflexivity.
Qed.

Lemma invariantsFrom_renumbered k invs :
  Forall (fun inv => goodText (inv_description inv)) invs ->
  invariantsFrom k (List.map invLine invs) = renumberInvariants k (List.map invView invs).
Proof.
  intros H. revert k.
  induction H as [|inv invs Hg Hrest IH]; intros k;
    cbn [List.map invariantsFrom renumberInvariants]; [reflexivity|].
  rewrite (trim_trimmed _ (invLine_trimmed _ Hg)), (invLine_match _ Hg).
  assert (Hpre : negb (truthy (invLine inv)) || startsWith (lit "##") (invLine inv) = false).
  { unfold invLine. norm_lit. reflexivity. }
  rewrite Hpre. unfold invView at 1. now rewrite IH.
Qed.

(** The plan read from a section whose body is the encoding of [items]. *)
Lemma plan_of_written X lr items :
  startsWith headingPrefix X = true -> NLfree X -> NLfree lr ->
  Forall (fun item => goodText (plan_text item)) items ->
  planItemsFrom 0 (splitNL (X ++ lr ++ [NL] ++ planBody items ++ [NL]))
  = renumberPlan 1 (writtenPlan items).
Proof.
  intros HX HXf Hlr Hg.
  assert (Hgen : forall its, its <> [] ->
             Forall (fun item => goodText (plan_text item)) its ->
             planItemsFrom 0 (splitNL (X ++ lr ++ [NL] ++ join [NL] (List.map planLine its)
                                       ++ [NL]))
             = renumberPlan 1 (List.map planView its)).
  { intros its Hne Hgi. rewrite app_assoc, splitNL_section_lines.
    - cbn [planItemsFrom]. destruct (trim_heading_line X lr HX) as [r ->].
      cbn [matchPlanLine]. change HASH with 35%N. cbv iota.
      rewrite planItemsFrom_app, (planItemsFrom_renumbered _ _ Hgi).
      cbn. now rewrite app_nil_r.
    - now apply NLfree_app.
    - destruct its; [contradiction|discriminate].
    - apply Forall_map. eapply Forall_impl; [exact Hgi|]. apply planLine_NLfree. }
  destruct items as [|item items].
  - set (ph := {| plan_id := []; plan_text := lit "Pending plan items";
                  plan_status := todo |}).
    apply (Hgen [ph]); [discriminate|]. constructor; [exact placeholder_text_good|constructor].
  - apply (Hgen (item :: items)); [discriminate|exact Hg].
Qed.

(** The invariants read from a section whose body is the encoding of
    [invs]; the placeholder of an empty list reads as no invariant. *)
Lemma invariants_of_written X lr invs :
  startsWith headingPrefix X = true -> NLfree X -> NLfree lr ->
  Forall (fun inv => goodText (inv_description inv)) invs ->
  invariantsFrom 0 (splitNL (X ++ lr ++ [NL] ++ trim (invariantsBody invs) ++ [NL]))
  = renumberInvariants 1 (List.map invView invs).
Proof.
  intros HX HXf Hlr Hg. destruct invs as [|inv invs].
  - change (trim (invariantsBody [])) with (join [NL] [lit "- Invariants: _"]).
    rewrite app_assoc, splitNL_section_lines;
      [|now apply NLfree_app|discriminate
       |constructor; [now apply NLfree_forallb|constructor]].
    cbn [invariantsFrom]. rewrite (trim_heading_marks X lr HX), orb_true_r.
    reflexivity.
  - set (l := inv :: invs) in *. assert (Hne : l <> []) by discriminate. clearbody l.
    rewrite (trim_trimmed _ (invariantsBody_trimmed _ Hne Hg)), (invariantsBody_lines _ Hne).
    rewrite app_assoc, splitNL_section_lines.
    + cbn [invariantsFrom]. rewrite (trim_heading_marks X lr HX), orb_true_r.
      rewrite invariantsFrom_app, (invariantsFrom_renumbered _ _ Hg).
      cbn. now rewrite app_nil_r.
    + now apply NLfree_app.
    + destruct l; [contradiction|discriminate].
    + apply Forall_map. eapply Forall_impl; [exact Hg|].
      intros i Hi. apply invLine_dashLine, goodText_NLfree, Hi.
Qed.

Lemma planView_utf8 items :
  Forall (fun item => toWellFormed (plan_text item) = plan_text item) items ->
  List.map planView (List.map utf8Item items) = List.map planView items.
Proof.
  intros H. rewrite List.map_map. induction H as [|it its Hit _ IH]; [reflexivity|].
  cbn [List.map]. f_equal; [|exact IH].
  unfold planView, utf8Item. cbn. now rewrite Hit.
Qed.

Lemma writtenPlan_utf8 items :
  Forall (fun item => toWellFormed (plan_text item) = plan_text item) items ->
  writtenPlan (List.map utf8Item items) = writtenPlan items.
Proof.
  intros H. destruct items as [|item items]; [reflexivity|].
  unfold writtenPlan. exact (planView_utf8 (item :: items) H).
Qed.

Lemma invView_utf8 invs :
  Forall (fun inv => toWellFormed (inv_description inv) = inv_description inv) invs ->
  List.map invView (List.map utf8Invariant invs) = List.map invView invs.
Proof.
  intros H. rewrite List.map_map. induction H as [|it its Hit _ IH]; [reflexivity|].
  cbn [List.map]. f_equal; [|exact IH].
  unfold invView, utf8Invariant. cbn. now rewrite Hit.
Qed.

Section ReadBack.
Context `{host : Host}.

(** The plan written by [writePlanItemsFromList] is the plan
    [readPlanItems] reads next, as UTF-8 keeps it: the same statuses and
    texts in the same order, but for a surrogate with no partner, which is
    read back as U+FFFD; an empty list as the one placeholder item; the ids
    are the line numbers [S2], [S3], ... whatever the ids written were.
    Texts with no such surrogate are read back as they were written.  The
    texts are single-line texts. *)
Theorem writePlanItemsFromList_read_back items s p c :
  workable s p c ->
  Forall (fun item => goodText (plan_text item)) items ->
  exists s1 s2,
    writePlanItemsFromList items s = (Ok tt, s1)
    /\ readPlanItems s1
       = (Ok (renumberPlan 1 (writtenPlan (List.map utf8Item items))), s2)
    /\ (Forall (fun item => toWellFormed (plan_text item) = plan_text item) items ->
        readPlanItems s1 = (Ok (renumberPlan 1 (writtenPlan items)), s2)).
Proof.
  destruct s as [o w]. intros (H & Hp & Hq & Hc & iT & iM & iP & iI & Hl) Hg.
  cbn [fst snd] in *. apply layout_toWellFormed in Hl.
  pose proof Hl as (_ & _ & _ & HP & _ & HI & HIn & _ & _ & L3).
  assert (Hg' : Forall (fun item => goodText (plan_text item)) (List.map utf8Item items)).
  { apply Forall_map. eapply Forall_impl; [exact Hg|].
    intros item. apply goodText_toWellFormed. }
  unfold writePlanItemsFromList.
  rewrite (replaceSectionBody_run _ _ o w p H Hp), (sectionWrite_quiet _ p w c Hq Hc).
  rewrite (replacedContent_toWellFormed _ _ c plain_plan), planBody_toWellFormed.
  rewrite (replacedContent_found _ _ _ _ HP).
  set (f := fun _ : str => trim (planBody (List.map utf8Item items))).
  destruct (own_section f _ (toWellFormed c) iP HP (proj2 nice_plan)
              (niceHeading_nonempty _ nice_plan))
    as (lr & body & Hlr & _ & _ & Hown).
  { exists SECTION_HEADINGS.implementation, iI. auto using nice_implementation. }
  specialize (Hown (planBody_markFree _ Hg')). unfold f in Hown at 2. cbv beta in Hown.
  rewrite (trim_trimmed _ (planBody_trimmed _ Hg')) in Hown.
  assert (Eread : readPlanItems
                    (o, withFile p (rewriteBody f SECTION_HEADINGS.plan (toWellFormed c) iP) w)
                  = (Ok (renumberPlan 1 (writtenPlan (List.map utf8Item items))),
                     (o, withFile p
                           (rewriteBody f SECTION_HEADINGS.plan (toWellFormed c) iP) w))).
  { rewrite (readPlanItems_run o _ p H Hp), withFile_lookup.
    rewrite (afterCall_quiet _ (Hq : faults (withFile p _ w) = [])).
    change (faults (withFile p (rewriteBody f SECTION_HEADINGS.plan (toWellFormed c) iP) w))
      with (faults w).
    rewrite Hq. cbn [hd]. unfold parsePlanItems. rewrite Hown.
    now rewrite (plan_of_written _ lr _ (proj1 nice_plan) (proj2 nice_plan) Hlr Hg'). }
  eexists _, _. split; [reflexivity|]. split; [exact Eread|].
  intros Hwf. now rewrite <- (writtenPlan_utf8 items Hwf).
Qed.

(** The invariants written by [writeInvariants] are the invariants
    [readInvariants] reads next, as UTF-8 keeps them: the same statuses and
    descriptions in the same order, but for a surrogate with no partner,
    which is read back as U+FFFD; the empty list as no invariant; the ids
    are the line numbers [I2], [I3], ...  Descriptions with no such
    surrogate are read back as they were written.  The descriptions are
    single-line texts. *)
Theorem writeInvariants_read_back invs s p c :
  workable s p c ->
  Forall (fun inv => goodText (inv_description inv)) invs ->
  exists s1 s2,
    writeInvariants invs s = (Ok tt, s1)
    /\ readInvariants s1
       = (Ok (renumberInvariants 1 (List.map invView (List.map utf8Invariant invs))), s2)
    /\ (Forall (fun inv => toWellFormed (inv_description inv) = inv_description inv) invs ->
        readInvariants s1 = (Ok (renumberInvariants 1 (List.map invView invs)), s2)).
Proof.
  destruct s as [o w]. intros (H & Hp & Hq & Hc & iT & iM & iP & iI & Hl) Hg.
  cbn [fst snd] in *. apply layout_toWellFormed in Hl.
  pose proof Hl as (_ & HM & _ & HP & HPn & _ & _ & _ & L2 & _).
  assert (Hg' : Forall (fun inv => goodText (inv_description inv))
                  (List.map utf8Invariant invs)).
  { apply Forall_map. eapply Forall_impl; [exact Hg|].
    intros inv. apply goodText_toWellFormed. }
  unfold writeInvariants.
  rewrite (replaceSectionBody_run _ _ o w p H Hp), (sectionWrite_quiet _ p w c Hq Hc).
  rewrite (replacedContent_toWellFormed _ _ c plain_mechanics), invariantsBody_toWellFormed.
  rewrite (replacedContent_found _ _ _ _ HM).
  set (f := fun _ : str => trim (invariantsBody (List.map utf8Invariant invs))).
  destruct (own_section f _ (toWellFormed c) iM HM (proj2 nice_mechanics)
              (niceHeading_nonempty _ nice_mechanics))
    as (lr & body & Hlr & _ & _ & Hown).
  { exists SECTION_HEADINGS.plan, iP. auto using nice_plan. }
  assert (HgNL : Forall (fun inv => NLfree (inv_description inv))
                   (List.map utf8Invariant invs)).
  { eapply Forall_impl; [exact Hg'|]. intros inv. apply goodText_NLfree. }
  specialize (Hown (invariantsBody_markFree _ HgNL)). unfold f in Hown at 2. cbv beta in Hown.
  assert (Eread : readInvariants
                    (o, withFile p
                          (rewriteBody f SECTION_HEADINGS.mechanics (toWellFormed c) iM) w)
                  = (Ok (renumberInvariants 1
                           (List.map invView (List.map utf8Invariant invs))),
                     (o, withFile p
                           (rewriteBody f SECTION_HEADINGS.mechanics (toWellFormed c) iM)
                           w))).
  { rewrite (readInvariants_run o _ p H Hp), withFile_lookup.
    rewrite (afterCall_quiet _ (Hq : faults (withFile p _ w) = [])).
    change (faults (withFile p
                      (rewriteBody f SECTION_HEADINGS.mechanics (toWellFormed c) iM) w))
      with (faults w).
    rewrite Hq. cbn [hd]. unfold parseInvariants. rewrite Hown.
    now rewrite (invariants_of_written _ lr _ (proj1 nice_mechanics)
                   (proj2 nice_mechanics) Hlr Hg'). }
  eexists _, _. split; [reflexivity|]. split; [exact Eread|].
  intros Hwf. now rewrite <- (invView_utf8 invs Hwf).
Qed.
End ReadBack.

Lemma writePlanItemsFromList_read_back_witness :
  exists s1 s2,
    writePlanItemsFromList (host := asciiHost) revisedPlan (sampleOrch, sampleWorld)
    = (Ok tt, s1)
    /\ readPlanItems (host := asciiHost) s1
       = (Ok [ {| plan_id := lit "S2"; plan_text := lit "deploy " ++ [REPLACEMENT];
                  plan_status := done |};
               {| plan_id := lit "S3"; plan_text := lit "verify"; plan_status := todo |} ],
          s2).
Proof.
  destruct (writePlanItemsFromList_read_back (host := asciiHost) revisedPlan
              (sampleOrch, sampleWorld) sampleSpecPath sampleDocument)
    as (s1 & s2 & E1 & E2 & _).
  - exact sampleWorld_workable.
  - repeat constructor; apply goodTextb_true; reflexivity.
  - exists s1, s2. split; [exact E1|exact E2].
Defined.

Lemma writeInvariants_read_back_witness :
  exists s1 s2,
    writeInvariants (host := asciiHost) revisedInvariants (sampleOrch, sampleWorld)
    = (Ok tt, s1)
    /\ readInvariants (host := asciiHost) s1
       = (Ok [ {| inv_id := lit "I2";
                  inv_description := lit "tokens rotate " ++ [REPLACEMENT];
                  inv_status := violated |};
               {| inv_id := lit "I3"; inv_description := lit "keys expire";
                  inv_status := unknown |} ], s2).
Proof.
  destruct (writeInvariants_read_back (host := asciiHost) revisedInvariants
              (sampleOrch, sampleWorld) sampleSpecPath sampleDocument)
    as (s1 & s2 & E1 & E2 & _).
  - exact sampleWorld_workable.
  - repeat constructor; apply goodTextb_true; reflexivity.
  - exists s1, s2. split; [exact E1|exact E2].
Defined.

(** ** A section that is not there yet *)

Lemma find_sub_here h r : find_sub h (h ++ r) = Some 0.
Proof.
  assert (H : startsWith h (h ++ r) = true).
  { induction h as [|x h IH]; [reflexivity|]. cbn [app startsWith].
    now rewrite N.eqb_refl, IH. }
  destruct (h ++ r) as [|y l] eqn:E; cbn [find_sub]; now rewrite H.
Qed.

(** A new last section is found after the old text and reads as its heading
    line and the text. *)
Lemma withNewSection_found X text c :
  niceHeading X -> find_sub X c = None -> markFree text ->
  find_sub X (withNewSection X text c) = Some (length (trimEnd c) + 2)
  /\ sectionText X (withNewSection X text c) = Some (X ++ NL :: text ++ [NL]).
Proof.
  intros HX Hnone Hfree. pose proof (niceHeading_nonempty X HX) as Hne.
  destruct HX as [HXp HXf].
  assert (Hpre : find_sub X (trimEnd c) = None).
  { destruct (trimEnd_prefix c) as [r Hr]. rewrite Hr in Hnone.
    now apply find_sub_None_app_l in Hnone. }
  assert (Hfind : find_sub X (withNewSection X text c) = Some (length (trimEnd c) + 2)).
  { unfold withNewSection.
    change (trimEnd c ++ [NL; NL] ++ X ++ [NL] ++ text ++ [NL])
      with (trimEnd c ++ NL :: ([] ++ NL :: (X ++ ([NL] ++ text ++ [NL])))).
    rewrite !find_sub_NL_split by assumption.
    rewrite Hpre, (find_sub_nil_None X Hne), find_sub_here.
    cbn [fmap option_fmap option_map length]. f_equal. lia. }
  split; [exact Hfind|].
  rewrite sectionText_find, Hfind. cbn [fmap option_fmap option_map]. f_equal.
  unfold withNewSection.
  replace (trimEnd c ++ [NL; NL] ++ X ++ [NL] ++ text ++ [NL])
    with ((trimEnd c ++ [NL; NL]) ++ (X ++ NL :: text ++ [NL]))
    by (rewrite <- !app_assoc; reflexivity).
  replace (length (trimEnd c) + 2) with (length (trimEnd c ++ [NL; NL]) + 0)
    by (rewrite length_app; cbn [length]; lia).
  rewrite sectionAt_app_r. unfold sectionAt.
  rewrite indexOf_from by (rewrite length_app; lia).
  cbn [Nat.add]. rewrite drop_app_length. unfold markFree in Hfree. rewrite Hfree.
  reflexivity.
Qed.

Lemma markFree_toWellFormed M : markFree M -> markFree (toWellFormed M).
Proof.
  unfold markFree. intros H.
  rewrite <- (toWellFormed_snoc M NL eq_refl).
  rewrite <- (toWellFormed_cons_plain NL (M ++ [NL]) eq_refl).
  now rewrite (find_sub_toWellFormed _ _ plain_mark).
Qed.

Lemma withNewSection_toWellFormed X text c :
  plain X ->
  toWellFormed (withNewSection X text c)
  = withNewSection X (toWellFormed text) (toWellFormed c).
Proof.
  intros HX. unfold withNewSection.
  rewrite toWellFormed_NL2, (toWellFormed_plain_app X _ HX).
  cbn [app]. rewrite toWellFormed_cons_plain by reflexivity.
  rewrite toWellFormed_snoc by reflexivity.
  now rewrite trimEnd_toWellFormed.
Qed.

Section MissingSection.
Context `{host : Host}.

(** When the heading is nowhere in the document, [appendToSection] and
    [replaceSectionBody] add the section at the end: the old text without
    its trailing white space, an empty line, the heading, and the entry
    (the trimmed new body); what is stored of it is what UTF-8 keeps, and
    the new section then reads as the heading line and the entry (the
    trimmed new body) as UTF-8 keeps it.  The text written holds no heading
    line of its own, and the heading is plain, as the seven of the registry
    are. *)
Theorem missing_section_is_created X entry newBody o w p c :
  specPath o = Some p -> p <> [] -> faults w = [] -> files w !! p = Some c ->
  niceHeading X -> plain X -> find_sub X c = None ->
  markFree entry -> markFree (trim newBody) ->
  (appendToSection X entry (o, w)
   = (Ok tt, (o, withFile p (toWellFormed (withNewSection X entry c)) w))
   /\ sectionText X (toWellFormed (withNewSection X entry c))
      = Some (X ++ NL :: toWellFormed entry ++ [NL]))
  /\ (replaceSectionBody X newBody (o, w)
      = (Ok tt, (o, withFile p (toWellFormed (withNewSection X (trim newBody) c)) w))
      /\ sectionText X (toWellFormed (withNewSection X (trim newBody) c))
         = Some (X ++ NL :: toWellFormed (trim newBody) ++ [NL])).
Proof.
  intros H Hp Hq Hc HX HXp Hnone He Hb.
  assert (Hnone' : find_sub X (toWellFormed c) = None) by now rewrite find_sub_toWellFormed.
  split; split.
  - rewrite (appendToSection_run X entry o w p H Hp), (sectionWrite_quiet _ p w c Hq Hc).
    unfold appendedContent. now rewrite indexOf_0, Hnone.
  - rewrite (withNewSection_toWellFormed X entry c HXp).
    now apply withNewSection_found; [| |apply markFree_toWellFormed].
  - rewrite (replaceSectionBody_run X newBody o w p H Hp),
      (sectionWrite_quiet _ p w c Hq Hc).
    unfold replacedContent. now rewrite indexOf_0, Hnone.
  - rewrite (withNewSection_toWellFormed X (trim newBody) c HXp).
    now apply withNewSection_found; [| |apply markFree_toWellFormed].
Qed.
End MissingSection.

Lemma missing_section_is_created_witness :
  (appendToSection (host := asciiHost) SECTION_HEADINGS.openQuestions
     (lit "- which token store? " ++ [55357%N]) (sampleOrch, sampleWorld)
   = (Ok tt, (sampleOrch,
              withFile sampleSpecPath
                (toWellFormed
                   (withNewSection SECTION_HEADINGS.openQuestions
                      (lit "- which token store? " ++ [55357%N]) sampleDocument))
                sampleWorld))
   /\ sectionText SECTION_HEADINGS.openQuestions
        (toWellFormed
           (withNewSection SECTION_HEADINGS.openQuestions
              (lit "- which token store? " ++ [55357%N]) sampleDocument))
      = Some (SECTION_HEADINGS.openQuestions
              ++ NL :: toWellFormed (lit "- which token store? " ++ [55357%N]) ++ [NL]))
  /\ (replaceSectionBody (host := asciiHost) SECTION_HEADINGS.openQuestions
        (lit "  - None recorded.  ") (sampleOrch, sampleWorld)
      = (Ok tt, (sampleOrch,
                 withFile sampleSpecPath
                   (toWellFormed
                      (withNewSection SECTION_HEADINGS.openQuestions
                         (trim (lit "  - None recorded.  ")) sampleDocument))
                   sampleWorld))
      /\ sectionText SECTION_HEADINGS.openQuestions
           (toWellFormed
              (withNewSection SECTION_HEADINGS.openQuestions
                 (trim (lit "  - None recorded.  ")) sampleDocument))
         = Some (SECTION_HEADINGS.openQuestions
                 ++ NL :: toWellFormed (trim (lit "  - None recorded.  ")) ++ [NL])).
Proof.
  apply (missing_section_is_created (host := asciiHost) SECTION_HEADINGS.openQuestions
           (lit "- which token store? " ++ [55357%N]) (lit "  - None recorded.  ")
           sampleOrch sampleWorld sampleSpecPath sampleDocument).
  - reflexivity.
  - discriminate.
  - reflexivity.
  - vm_compute. reflexivity.
  - exact nice_openQuestions.
  - reflexivity.
  - vm_compute. reflexivity.
  - vm_compute. reflexivity.
  - vm_compute. reflexivity.
Defined.

(** ** Recording a plan *)

Lemma plainText_infix a s b : plainText (a ++ s ++ b) -> plainText s.
Proof.
  unfold plainText. rewrite !forallb_app. intros H.
  apply andb_true_iff in H as [_ H]. now apply andb_true_iff in H as [H _].
Qed.

Lemma plain_NLfree_noLineTerminator s : plainText s -> NLfree s -> noLineTerminator s.
Proof.
  unfold plainText, noLineTerminator. intros H Hf.
  apply forallb_forall. intros x Hx. rewrite forallb_forall in H. specialize (H x Hx).
  apply orb_true_iff in H as [H|H]; [exact H|].
  apply N.eqb_eq in H. subst x. unfold NLfree in Hf. rewrite Forall_forall in Hf.
  exfalso. apply (Hf NL); [now apply list_elem_of_In|reflexivity].
Qed.

Lemma NLfree_infix_of a s b : NLfree (a ++ s ++ b) -> NLfree s.
Proof. intros H. apply NLfree_app in H as [_ H]. now apply NLfree_app in H as [H _]. Qed.

(** What is known of a kept line. *)
Lemma planLinesOf_lines planText line :
  In line (planLinesOf planText) ->
  goodText line \/ ~ plainText planText.
Proof.
  unfold planLinesOf. intros Hin. apply filter_In in Hin as [Hin Ht].
  apply in_map_iff in Hin as (l & <- & Hl).
  destruct (forallb (fun c => negb (isLineTerminator c) || (c =? NL)%N) planText) eqn:E;
    [left|right; unfold plainText; now rewrite E].
  split.
  - apply trim_nonempty_trimmed. intros Hn. rewrite Hn in Ht. discriminate.
  - destruct (splitNL_In _ _ Hl) as (a & b & Hs).
    pose proof (splitNL_lines_NLfree planText) as Hfree. rewrite Forall_forall in Hfree.
    specialize (Hfree l (proj2 (list_elem_of_In _ _) Hl)).
    destruct (trim_infix l) as (u & v & Hu).
    apply plain_NLfree_noLineTerminator.
    + apply (plainText_infix u _ v). rewrite <- Hu. apply (plainText_infix a _ b).
      now rewrite <- Hs.
    + apply (NLfree_infix_of u _ v). now rewrite <- Hu.
Qed.

Lemma planLinesOf_good planText :
  plainText planText -> Forall goodText (planLinesOf planText).
Proof.
  intros Hp. apply Forall_forall. intros line Hin. apply list_elem_of_In in Hin.
  destruct (planLinesOf_lines planText line Hin) as [H|H]; [exact H|contradiction].
Qed.

Lemma planLinesOf_hashFree planText :
  hashFree planText -> Forall hashFree (planLinesOf planText).
Proof.
  intros Hh. apply Forall_forall. intros line Hin. apply list_elem_of_In in Hin.
  unfold planLinesOf in Hin. apply filter_In in Hin as [Hin _].
  apply in_map_iff in Hin as (l & <- & Hl).
  destruct (splitNL_In _ _ Hl) as (a & b & Hs). rewrite Hs in Hh.
  apply hashFree_trim. now apply hashFree_infix in Hh.
Qed.

(** The bullets are the lines of the plan items, all todo. *)
Lemma bullets_planLines lines :
  List.map (fun line => lit "- [ ] " ++ line) lines = List.map planLine (List.map todoItem lines).
Proof. rewrite List.map_map. apply List.map_ext. reflexivity. Qed.

Lemma stripBullet_bullet line :
  trimmed line -> stripBullet (lit "- [ ] " ++ line) = line.
Proof.
  intros [(x & r & -> & Hx) _]. unfold stripBullet.
  change (lit "- [ ] " ++ x :: r) with (45 :: 32 :: 91 :: 32 :: 93 :: 32 :: x :: r)%N.
  do 3 (cbn -[isSpace]; change (isSpace 45) with false; change (isSpace 32) with true;
        change (isSpace 91) with false; change (isSpace 93) with false; cbv iota).
  now rewrite Hx.
Qed.

(** The seed invariants of the bullets, ids apart. *)
Lemma seedInvariants_views k lines :
  Forall trimmed lines ->
  List.map invView (seedInvariantsFrom k (List.map (fun line => lit "- [ ] " ++ line) lines))
  = List.map seedView lines.
Proof.
  intros H. revert k. induction H as [|l lines Hl _ IH]; intros k; [reflexivity|].
  cbn [List.map seedInvariantsFrom]. rewrite IH. unfold invView at 1. cbn [inv_description inv_status].
  now rewrite (stripBullet_bullet l Hl).
Qed.

Lemma loopEntry_fresh Z phase reason ts :
  startsWith headingPrefix Z = true -> hashFree reason -> hashFree ts ->
  find_sub Z (loopEntry phase reason ts) = None.
Proof.
  intros HZ Hr Hts. apply hashFree_absent; [exact HZ|]. unfold loopEntry.
  repeat (apply hashFree_app; split); auto; try reflexivity.
  destruct phase; reflexivity.
Qed.

Lemma planTextBody_planBody planText :
  planLinesOf planText <> [] ->
  planTextBody planText = planBody (List.map todoItem (planLinesOf planText)).
Proof.
  intros Hne. unfold planTextBody. rewrite bullets_planLines.
  destruct (planLinesOf planText) as [|l ls]; [contradiction|reflexivity].
Qed.

Lemma seed_descriptions (P : str -> Prop) k lines :
  Forall trimmed lines ->
  Forall (fun line => P (lit "Plan alignment: " ++ line)) lines ->
  Forall (fun inv => P (inv_description inv))
    (seedInvariantsFrom k (List.map (fun line => lit "- [ ] " ++ line) lines)).
Proof.
  intros Ht. revert k. induction Ht as [|l lines Hl _ IH]; intros k HP;
    cbn [List.map seedInvariantsFrom]; [constructor|].
  inversion HP as [|? ? Hp Hps]; subst. constructor; [|now apply IH].
  cbn [inv_description]. now rewrite (stripBullet_bullet l Hl).
Qed.

Lemma seed_good line : goodText line -> goodText (lit "Plan alignment: " ++ line).
Proof.
  intros [Ht Hlt]. split.
  - apply (trimmed_cons_app 80%N (lit "lan alignment: ")); auto.
  - unfold noLineTerminator in *. now rewrite forallb_app, Hlt.
Qed.

Lemma todoItem_views lines :
  List.map planView (List.map todoItem lines) = List.map (fun line => (line, todo)) lines.
Proof. rewrite List.map_map. reflexivity. Qed.

(** What the Plan and Mechanics sections read as after a plan text is
    recorded. *)
Lemma plannedContent_sections e1 planText c iT iM iP iI :
  layout c iT iM iP iI ->
  find_sub SECTION_HEADINGS.mechanics e1 = None ->
  find_sub SECTION_HEADINGS.plan e1 = None ->
  find_sub SECTION_HEADINGS.implementation e1 = None ->
  plainText planText -> hashFree planText -> planLinesOf planText <> [] ->
  let c3 := plannedContent e1 planText c in
  let lines := planLinesOf planText in
  parsePlanItems c3 = renumberPlan 1 (List.map (fun line => (line, todo)) lines)
  /\ (parseInvariants c = [] ->
      parseInvariants c3 = renumberInvariants 1 (List.map seedView lines))
  /\ (parseInvariants c <> [] -> parseInvariants c3 = parseInvariants c)
  /\ exists iT' iM' iP' iI', layout c3 iT' iM' iP' iI'.
Proof.
  intros Hl HeM HeP HeI Hplain Hhash Hne c3 lines.
  set (items := List.map todoItem lines).
  assert (Hgl : Forall goodText lines) by now apply planLinesOf_good.
  assert (Hhl : Forall hashFree lines) by now apply planLinesOf_hashFree.
  assert (Hg : Forall (fun item => goodText (plan_text item)) items).
  { unfold items. apply Forall_map. exact Hgl. }
  assert (Hbody : planTextBody planText = planBody items) by now apply planTextBody_planBody.
  (* the phase line *)
  pose proof Hl as (HT & _).
  set (c1 := appendedContent SECTION_HEADINGS.taskClaim e1 c).
  assert (E1 : c1 = rewriteBody (appendBody e1) SECTION_HEADINGS.taskClaim c iT)
    by now apply appendedContent_found.
  destruct (layout_write_taskClaim (appendBody e1) c iT iM iP iI Hl)
    as (iM1 & iP1 & iI1 & Hl1 & HM1 & _);
    try (apply keepsFree_append; auto using nice_mechanics, nice_plan, nice_implementation).
  rewrite <- E1 in Hl1, HM1.
  (* the plan *)
  pose proof Hl1 as (_ & HMc1 & _ & HP1 & HPn1 & HI1 & HIn1 & _ & K2 & K3).
  set (f2 := fun _ : str => trim (planBody items)).
  set (c2 := replacedContent SECTION_HEADINGS.plan (planTextBody planText) c1).
  assert (E2 : c2 = rewriteBody f2 SECTION_HEADINGS.plan c1 iP1).
  { unfold c2. rewrite Hbody. now apply replacedContent_found. }
  assert (Hf2 : keepsFree f2 SECTION_HEADINGS.implementation).
  { apply keepsFree_const, planBody_fresh; [exact nice_implementation|].
    unfold items. apply Forall_map. eapply Forall_impl; [exact Hhl|].
    intros l Hh. cbn [plan_text todoItem]. now apply hashFree_absent. }
  destruct (layout_write_plan f2 c1 iT iM1 iP1 iI1 Hl1 Hf2) as (iI2 & Hl2 & HM2).
  rewrite <- E2 in Hl2, HM2.
  destruct (own_section f2 _ c1 iP1 HP1 (proj2 nice_plan) (niceHeading_nonempty _ nice_plan))
    as (lr & body & Hlr & _ & _ & Hown).
  { exists SECTION_HEADINGS.implementation, iI1. auto using nice_implementation. }
  specialize (Hown (planBody_markFree _ Hg)). unfold f2 in Hown at 2. cbv beta in Hown.
  rewrite <- E2, (trim_trimmed _ (planBody_trimmed _ Hg)) in Hown.
  assert (Hplan2 : parsePlanItems c2
                   = renumberPlan 1 (List.map (fun line => (line, todo)) lines)).
  { unfold parsePlanItems. rewrite Hown.
    rewrite (plan_of_written _ lr items (proj1 nice_plan) (proj2 nice_plan) Hlr Hg).
    f_equal. rewrite <- todoItem_views. fold items. unfold writtenPlan.
    assert (Hi : items <> []) by (unfold items, lines; destruct (planLinesOf planText); [contradiction|discriminate]).
    now destruct items. }
  assert (Hinv2 : parseInvariants c2 = parseInvariants c).
  { rewrite (parseInvariants_section c1 c2 HM2). now apply parseInvariants_section. }
  (* the seed invariants *)
  set (bullets := List.map (fun line => lit "- [ ] " ++ line) lines).
  assert (Hc3 : c3 = match parseInvariants c2, bullets with
                     | [], _ :: _ =>
                         replacedContent SECTION_HEADINGS.mechanics
                           (invariantsBody (seedInvariantsFrom 0 bullets)) c2
                     | _, _ => c2
                     end) by reflexivity.
  destruct (parseInvariants c) as [|inv0 invs0] eqn:Einv.
  - rewrite Hinv2 in Hc3.
    assert (Hb : bullets <> []) by (unfold bullets, lines; destruct (planLinesOf planText); [contradiction|discriminate]).
    destruct bullets as [|b bs] eqn:Eb; [contradiction|]. rewrite <- Eb in *. clear Eb Hb b bs.
    set (seeds := seedInvariantsFrom 0 bullets) in *.
    assert (Htl : Forall trimmed lines).
    { eapply Forall_impl; [exact Hgl|]. now intros l [Ht _]. }
    assert (Hgs : Forall (fun inv => goodText (inv_description inv)) seeds).
    { apply seed_descriptions; [exact Htl|]. eapply Forall_impl; [exact Hgl|]. apply seed_good. }
    assert (Hfs : forall Z, niceHeading Z -> keepsFree (fun _ : str => trim (invariantsBody seeds)) Z).
    { intros Z HZ. apply keepsFree_const, invariantsBody_fresh; [exact HZ|].
      apply (seed_descriptions (fun d => find_sub Z d = None) 0 lines); [exact Htl|].
      eapply Forall_impl; [exact Hhl|].
      intros l Hh. apply hashFree_absent; [apply HZ|].
      apply hashFree_app. split; [reflexivity|exact Hh]. }
    pose proof Hl2 as (_ & HMc2 & _ & HP2 & HPn2 & _ & _ & _ & J2 & _).
    set (f3 := fun _ : str => trim (invariantsBody seeds)) in *.
    assert (E3 : c3 = rewriteBody f3 SECTION_HEADINGS.mechanics c2 iM1).
    { rewrite Hc3. now apply replacedContent_found. }
    destruct (layout_write_mechanics f3 c2 iT iM1 iP1 iI2 Hl2 (Hfs _ nice_plan)
                (Hfs _ nice_implementation)) as (iP3 & iI3 & Hl3 & HP3).
    rewrite <- E3 in Hl3, HP3.
    destruct (own_section f3 _ c2 iM1 HMc2 (proj2 nice_mechanics)
                (niceHeading_nonempty _ nice_mechanics))
      as (lr3 & body3 & Hlr3 & _ & _ & Hown3).
    { exists SECTION_HEADINGS.plan, iP1. auto using nice_plan. }
    assert (HgNL : Forall (fun inv => NLfree (inv_description inv)) seeds).
    { eapply Forall_impl; [exact Hgs|]. intros inv. apply goodText_NLfree. }
    specialize (Hown3 (invariantsBody_markFree _ HgNL)). unfold f3 in Hown3 at 2.
    cbv beta in Hown3. rewrite <- E3 in Hown3.
    split; [rewrite (parsePlanItems_section c2 c3 HP3); exact Hplan2|].
    split; [|split; [intros Hn; exfalso; now apply Hn|eauto]].
    intros _. unfold parseInvariants. rewrite Hown3.
    rewrite (invariants_of_written _ lr3 seeds (proj1 nice_mechanics) (proj2 nice_mechanics)
               Hlr3 Hgs).
    f_equal. apply seedInvariants_views. exact Htl.
  - rewrite Hinv2 in Hc3. cbv iota in Hc3. rewrite Hc3.
    split; [exact Hplan2|]. split; [discriminate|]. split; [intros _; exact Hinv2|eauto].
Qed.

Section PlanUpdate.
Context `{host : Host}.

Lemma recordPlanUpdate_run planText o w p c :
  specPath o = Some p -> p <> [] -> faults w = [] -> files w !! p = Some c ->
  planText <> [] ->
  recordPlanUpdate (Some planText) (o, w)
  = (Ok tt,
     (set_currentPhase planner o,
      withFile p
        (toWellFormed
           (plannedContent
              (loopEntry planner (lit "Planner produced an update") (stamp w 0)) planText c))
        (tick w))).
Proof.
  intros H Hp Hq Hc Hne. unfold recordPlanUpdate, bind.
  rewrite (ensureInitialized_set o w p H Hp).
  rewrite (setPhase_run _ _ o w p c H Hp Hq Hc); [|discriminate].
  fold (loopEntry planner (lit "Planner produced an update") (stamp w 0)).
  set (e1 := loopEntry planner (lit "Planner produced an update") (stamp w 0)).
  set (c1 := appendedContent SECTION_HEADINGS.taskClaim e1 c).
  set (o1 := set_currentPhase planner o).
  assert (H1 : specPath o1 = Some p) by exact H.
  unfold writePlanItems.
  destruct planText as [|x t]; [contradiction|].
  change (negb (truthyOpt (Some (x :: t)))) with false. cbv iota.
  set (text := x :: t) in *. cbn [orElse]. cbv zeta.
  fold (planLinesOf text).
  set (bullets := List.map (fun line => lit "- [ ] " ++ line) (planLinesOf text)).
  change (match bullets with
          | [] => lit "- [ ] " ++ trim text
          | _ :: _ => join [NL] bullets
          end) with (planTextBody text).
  unfold bind.
  rewrite (replaceSectionBody_run _ _ o1 _ p H1 Hp).
  rewrite (sectionWrite_quiet _ p (withFile p (toWellFormed c1) (tick w)) (toWellFormed c1)
             Hq (withFile_lookup _ _ _)).
  rewrite withFile_twice.
  rewrite (replacedContent_stored _ _ _ plain_plan).
  set (c2 := replacedContent SECTION_HEADINGS.plan (planTextBody text) c1).
  rewrite (readInvariants_run o1 _ p H1 Hp).
  rewrite (afterCall_quiet (withFile p (toWellFormed c2) (tick w)) Hq), withFile_lookup.
  change (faults (withFile p (toWellFormed c2) (tick w))) with (faults w).
  rewrite Hq. cbn [hd]. cbv iota.
  rewrite parseInvariants_toWellFormed.
  unfold plannedContent. fold e1 c1 bullets c2.
  destruct (parseInvariants c2) as [|inv invs]; destruct bullets as [|b bs] eqn:Eb;
    try reflexivity.
  cbn [List.map].
  unfold writeInvariants. rewrite (replaceSectionBody_run _ _ o1 _ p H1 Hp).
  rewrite (sectionWrite_quiet _ p (withFile p (toWellFormed c2) (tick w)) (toWellFormed c2)
             Hq (withFile_lookup _ _ _)).
  rewrite withFile_twice.
  now rewrite (replacedContent_stored _ _ _ plain_mechanics).
Qed.
End PlanUpdate.

Lemma renumberPlan_todo k lines item :
  In item (renumberPlan k (List.map (fun line => (line, todo)) lines)) ->
  plan_status item = todo.
Proof.
  revert k. induction lines as [|l lines IH]; intros k; cbn [List.map renumberPlan];
    [intros []|].
  intros [<-|Hin]; [reflexivity|]. now apply (IH (S k)).
Qed.

Lemma renumberInvariants_seed k lines inv :
  In inv (renumberInvariants k (List.map seedView lines)) -> inv_status inv = unknown.
Proof.
  revert k. induction lines as [|l lines IH]; intros k;
    cbn [List.map renumberInvariants seedView]; [intros []|].
  intros [<-|Hin]; [reflexivity|]. now apply (IH (S k)).
Qed.

Lemma planLinesOf_toWellFormed planText :
  planLinesOf (toWellFormed planText) = List.map toWellFormed (planLinesOf planText).
Proof.
  unfold planLinesOf. rewrite splitNL_toWellFormed.
  induction (splitNL planText) as [|l ls IH]; [reflexivity|].
  cbn [List.map List.filter]. rewrite trim_toWellFormed, truthy_toWellFormed.
  destruct (truthy (trim l)); cbn [List.map]; now rewrite IH.
Qed.

Lemma renumberPlan_utf8 k lines :
  List.map utf8Item (renumberPlan k (List.map (fun line => (line, todo)) lines))
  = renumberPlan k (List.map (fun line => (line, todo)) (List.map toWellFormed lines)).
Proof.
  revert k. induction lines as [|l lines IH]; intros k; [reflexivity|].
  cbn [List.map renumberPlan]. now rewrite IH.
Qed.

Lemma renumberInvariants_utf8 k lines :
  List.map utf8Invariant (renumberInvariants k (List.map seedView lines))
  = renumberInvariants k (List.map seedView (List.map toWellFormed lines)).
Proof.
  revert k. induction lines as [|l lines IH]; intros k; [reflexivity|].
  cbn [List.map renumberInvariants seedView]. rewrite IH. now f_equal.
Qed.

Lemma freshState_workable : workable freshState freshPath freshDocument.
Proof.
  split; [vm_compute; reflexivity|]. split; [discriminate|]. split; [reflexivity|].
  split; [vm_compute; reflexivity|].
  eexists _, _, _, _.
  apply (template_layout freshFrontmatter (lit "Pending user intent")); vm_compute; reflexivity.
Qed.

Section PlanUpdateEffect.
Context `{host : Host}.

(** Recording a plan text with at least one line that is not blank makes
    the plan the trimmed non-blank lines of the text as UTF-8 keeps it,
    [toWellFormed planText], all todo, in order: a surrogate with no partner
    reads back as U+FFFD.  The phase is planner and the next operation
    works.  On a document with no invariant it seeds one unknown invariant
    [Plan alignment: <line>] per line, and the evaluator then reports
    [readyForImplementation]; invariants that were there are left as they
    were.  The text holds no [#] and no line terminator but the line
    feed. *)
Theorem recordPlanUpdate_seeds planText s p c :
  workable s p c ->
  planLinesOf planText <> [] -> plainText planText -> hashFree planText ->
  let lines := planLinesOf (toWellFormed planText) in
  exists s' c' st,
    recordPlanUpdate (Some planText) s = (Ok tt, s')
    /\ workable s' p c'
    /\ currentPhase (fst s') = Some planner
    /\ getDeterminacyState s' = (Ok st, s')
    /\ plan st = renumberPlan 1 (List.map (fun line => (line, todo)) lines)
    /\ (parseInvariants c = [] ->
        invariants st = renumberInvariants 1 (List.map seedView lines)
        /\ readyForImplementation st = true)
    /\ (parseInvariants c <> [] -> invariants st = parseInvariants (toWellFormed c)).
Proof.
  destruct s as [o w]. intros (H & Hp & Hq & Hc & iT & iM & iP & iI & Hl) Hne Hplain Hhash.
  cbn [fst snd] in *. cbv zeta. rewrite planLinesOf_toWellFormed.
  assert (Ht : planText <> []) by (intros ->; now apply Hne).
  set (e1 := loopEntry planner (lit "Planner produced an update") (stamp w 0)).
  destruct (plannedContent_sections e1 planText c iT iM iP iI Hl)
    as (Hplan & Hseed & Hkeep & iT' & iM' & iP' & iI' & Hl'); auto;
    try (apply loopEntry_fresh; [reflexivity|reflexivity|apply hashFree_stamp]).
  set (c3 := plannedContent e1 planText c) in *.
  set (c' := toWellFormed c3).
  assert (Eplan : parsePlanItems c'
                  = renumberPlan 1 (List.map (fun line => (line, todo))
                                      (List.map toWellFormed (planLinesOf planText)))).
  { unfold c'. now rewrite parsePlanItems_toWellFormed, Hplan, renumberPlan_utf8. }
  exists (set_currentPhase planner o, withFile p c' (tick w)), c'.
  eexists. split; [now apply recordPlanUpdate_run|].
  split; [|split; [reflexivity|]].
  { split; [exact H|]. split; [exact Hp|]. split; [exact Hq|].
    split; [apply withFile_lookup|].
    exists iT', iM', iP', iI'. now apply layout_toWellFormed. }
  split; [apply (getDeterminacyState_quiet (set_currentPhase planner o)
                   (withFile p c' (tick w)) p c' H Hp Hq (withFile_lookup p c' (tick w)))|].
  cbn [plan invariants]. split; [exact Eplan|].
  assert (Eseed : parseInvariants c = [] ->
                  parseInvariants c'
                  = renumberInvariants 1 (List.map seedView
                                            (List.map toWellFormed (planLinesOf planText)))).
  { intros Hnone. unfold c'.
    now rewrite parseInvariants_toWellFormed, (Hseed Hnone), renumberInvariants_utf8. }
  split.
  - intros Hnone. split; [now apply Eseed|].
    apply evaluate_ready. rewrite Eplan, (Eseed Hnone). split.
    + destruct (planLinesOf planText) as [|l ls]; [contradiction|].
      eexists. split; [left; reflexivity|reflexivity].
    + right. intros inv Hin. now apply renumberInvariants_seed in Hin.
  - intros Hsome. unfold c'.
    now rewrite !parseInvariants_toWellFormed, (Hkeep Hsome).
Qed.
End PlanUpdateEffect.

Lemma recordPlanUpdate_seeds_witness :
  exists s' c' st,
    recordPlanUpdate (host := asciiHost)
      (Some (lit "Read the file" ++ [NL] ++ lit "  " ++ [NL] ++ lit " Write the test "
             ++ [55357%N]))
      freshState = (Ok tt, s')
    /\ workable s' freshPath c'
    /\ currentPhase (fst s') = Some planner
    /\ getDeterminacyState (host := asciiHost) s' = (Ok st, s')
    /\ plan st
       = [ {| plan_id := lit "S2"; plan_text := lit "Read the file"; plan_status := todo |};
           {| plan_id := lit "S3"; plan_text := lit "Write the test " ++ [REPLACEMENT];
              plan_status := todo |} ]
    /\ invariants st
       = [ {| inv_id := lit "I2"; inv_description := lit "Plan alignment: Read the file";
              inv_status := unknown |};
           {| inv_id := lit "I3";
              inv_description := lit "Plan alignment: Write the test " ++ [REPLACEMENT];
              inv_status := unknown |} ]
    /\ readyForImplementation st = true.
Proof.
  destruct (recordPlanUpdate_seeds (host := asciiHost)
              (lit "Read the file" ++ [NL] ++ lit "  " ++ [NL] ++ lit " Write the test "
               ++ [55357%N])
              freshState freshPath freshDocument)
    as (s' & c' & st & E1 & E2 & E3 & E4 & E5 & E6 & _).
  - exact freshState_workable.
  - vm_compute. discriminate.
  - vm_compute. reflexivity.
  - vm_compute. reflexivity.
  - exists s', c', st. split; [exact E1|]. split; [exact E2|]. split; [exact E3|].
    split; [exact E4|]. split; [exact E5|].
    destruct E6 as [E6 E7]; [vm_compute; reflexivity|]. split; [exact E6|exact E7].
Defined.

(** ** Say events, and the operations that only read *)

Lemma str_eqb_eq a b : str_eqb a b = true <-> a = b.
Proof.
  revert b. induction a as [|x a IH]; intros [|y b]; cbn [str_eqb];
    try (split; [discriminate|discriminate]); [now split|].
  rewrite andb_true_iff, N.eqb_eq, IH. split; [intros [-> ->]; reflexivity|].
  intros E. now injection E.
Qed.

Lemma existsb_str_eqb a l : existsb (str_eqb a) l = true <-> In a l.
Proof.
  rewrite existsb_exists. split.
  - intros (b & Hin & E). apply str_eqb_eq in E. now subst.
  - intros Hin. exists a. split; [exact Hin|]. now apply str_eqb_eq.
Qed.

Lemma ticks_afterCall w : ticks (afterCall w) = ticks w.
Proof. unfold afterCall. destruct (faults w); reflexivity. Qed.

Section ReadOnly.
Context `{host : Host}.

Lemma untouched_afterCall o w w' : untouched o w (o, w') -> untouched o w (o, afterCall w').
Proof.
  intros (Ho & Hf & Ht). split; [exact Ho|]. cbn [snd] in *.
  now rewrite files_afterCall, ticks_afterCall.
Qed.

Lemma untouched_refl o w : untouched o w (o, w).
Proof. now split. Qed.

Lemma getSpecInstructions_run maxChars o w p :
  specPath o = Some p -> p <> [] ->
  getSpecInstructions maxChars (o, w)
  = (Ok (readDoc (fun content =>
                    Some (promptPreamble o p
                          ++ (if maxChars <? length (trim content)
                              then slice (trim content) 0 maxChars ++ [NL]
                                   ++ lit "... (truncated)"
                              else trim content)))
                 None p w),
     (o, afterCall w)).
Proof.
  intros H Hp. unfold getSpecInstructions, bind.
  rewrite (ensureInitialized_set o w p H Hp). unfold this. cbn [fst snd].
  rewrite H. destruct p as [|x p]; [contradiction|].
  change (negb (truthyOpt (Some (x :: p)))) with false. cbv beta iota.
  unfold try_catch, bind, liftW. cbn [snd fst orElse].
  rewrite fs_readFile_run. unfold readDoc.
  destruct (hd false (faults w)); [reflexivity|].
  destruct (files w !! (x :: p)) as [content|]; [|reflexivity].
  unfold ret, promptPreamble. cbn [join]. do 3 f_equal.
  rewrite <- ?app_assoc. reflexivity.
Qed.

(** Once the orchestrator has its document path, the evaluation, the
    authorization of a tool and the prompt context only read: whatever the
    storage does, the orchestrator, every document and the clock are left
    as they were. *)
Theorem evaluation_never_writes toolName maxChars o w p :
  specPath o = Some p -> p <> [] ->
  untouched o w (snd (getDeterminacyState (o, w)))
  /\ untouched o w (snd (validatePlannedToolExecution toolName (o, w)))
  /\ untouched o w (snd (getSpecInstructions maxChars (o, w))).
Proof.
  intros H Hp.
  assert (U : untouched o w (o, afterCall (afterCall (afterCall w))))
    by (do 3 apply untouched_afterCall; apply untouched_refl).
  split; [|split].
  - now rewrite (getDeterminacyState_set o w p H Hp).
  - unfold validatePlannedToolExecution, bind.
    rewrite (getDeterminacyState_set o w p H Hp). unfold this. cbn [fst snd].
    destruct (negb _); [exact U|]. destruct (negb _); [exact U|].
    destruct (findFirst _ _); exact U.
  - rewrite (getSpecInstructions_run maxChars o w p H Hp).
    apply untouched_afterCall, untouched_refl.
Qed.
End ReadOnly.

Lemma evaluation_never_writes_witness :
  untouched implementerOrch glitchWorld
    (snd (getDeterminacyState (host := asciiHost) (implementerOrch, glitchWorld)))
  /\ untouched implementerOrch glitchWorld
       (snd (validatePlannedToolExecution (host := asciiHost) (lit "read_file")
               (implementerOrch, glitchWorld)))
  /\ untouched implementerOrch glitchWorld
       (snd (getSpecInstructions (host := asciiHost) 600 (implementerOrch, glitchWorld))).
Proof.
  apply (evaluation_never_writes (host := asciiHost) (lit "read_file") 600
           implementerOrch glitchWorld sampleSpecPath).
  - reflexivity.
  - discriminate.
Defined.

Section PromptContext.
Context `{host : Host}.

(** The prompt context of a readable document is the preamble followed by
    the trimmed document when that has at most [maxChars] characters, and
    by its first [maxChars] characters and the marker line otherwise: the
    document never takes more than [maxChars + 16] characters of it.  When
    the document cannot be read there is no prompt context. *)
Theorem getSpecInstructions_bounded maxChars o w p :
  specPath o = Some p -> p <> [] ->
  (readFails p w -> fst (getSpecInstructions maxChars (o, w)) = Ok None)
  /\ (forall content,
        hd false (faults w) = false -> files w !! p = Some content ->
        exists body,
          fst (getSpecInstructions maxChars (o, w)) = Ok (Some (promptPreamble o p ++ body))
          /\ length body <= maxChars + 16
          /\ (length (trim content) <= maxChars -> body = trim content)
          /\ (maxChars < length (trim content) ->
              body = take maxChars (trim content) ++ [NL] ++ lit "... (truncated)")).
Proof.
  intros H Hp. rewrite (getSpecInstructions_run maxChars o w p H Hp). cbn [fst]. split.
  - intros Hf. now rewrite (readDoc_fails _ None p w Hf).
  - intros content Hq Hc. unfold readDoc. rewrite Hq, Hc.
    eexists. split; [reflexivity|].
    destruct (Nat.ltb_spec maxChars (length (trim content))) as [Hlt|Hle].
    + unfold slice. rewrite Nat.sub_0_r, drop_0. split; [|split].
      * rewrite !length_app, length_take. cbn. lia.
      * lia.
      * reflexivity.
    + split; [lia|]. split; [reflexivity|lia].
Qed.
End PromptContext.

Lemma getSpecInstructions_bounded_witness :
  (readFails sampleSpecPath sampleWorld ->
   fst (getSpecInstructions (host := asciiHost) 40 (sampleOrch, sampleWorld)) = Ok None)
  /\ (forall content,
        hd false (faults sampleWorld) = false ->
        files sampleWorld !! sampleSpecPath = Some content ->
        exists body,
          fst (getSpecInstructions (host := asciiHost) 40 (sampleOrch, sampleWorld))
          = Ok (Some (promptPreamble (host := asciiHost) sampleOrch sampleSpecPath ++ body))
          /\ length body <= 40 + 16
          /\ (length (trim content) <= 40 -> body = trim content)
          /\ (40 < length (trim content) ->
              body = take 40 (trim content) ++ [NL] ++ lit "... (truncated)")).
Proof.
  apply (getSpecInstructions_bounded (host := asciiHost) 40 sampleOrch sampleWorld
           sampleSpecPath).
  - reflexivity.
  - discriminate.
Defined.

Section SayEvents.
Context `{host : Host}.

Lemma unlisted_type t l :
  ~ In t (intentTypes ++ planTypes ++ implementationTypes) ->
  existsb (str_eqb l) (intentTypes ++ planTypes) = true -> str_eqb t l = false.
Proof.
  intros Hn Hl. destruct (str_eqb t l) eqn:E; [|reflexivity].
  apply str_eqb_eq in E. subst l. exfalso. apply Hn.
  apply existsb_str_eqb in Hl. rewrite app_assoc. apply in_or_app. now left.
Qed.

Lemma unlisted_implementation t :
  ~ In t (intentTypes ++ planTypes ++ implementationTypes) ->
  existsb (str_eqb t) implementationTypes = false.
Proof.
  intros Hn. destruct (existsb _ _) eqn:E; [|reflexivity].
  apply existsb_str_eqb in E. exfalso. apply Hn.
  apply in_or_app. right. apply in_or_app. now right.
Qed.

Ltac say_type :=
  repeat match goal with
         | |- context [str_eqb (lit ?a) (lit ?b)] =>
             let v := eval vm_compute in (str_eqb (lit a) (lit b)) in
             change (str_eqb (lit a) (lit b)) with v
         | |- context [existsb (str_eqb (lit ?a)) implementationTypes] =>
             let v := eval vm_compute in (existsb (str_eqb (lit a)) implementationTypes) in
             change (existsb (str_eqb (lit a)) implementationTypes) with v
         end;
  cbn [orb]; cbv iota.

(** A partial say event, and one of a type that is not listed, change
    nothing.  Any other event ends in the phase of its type, whatever the
    storage does: [instantiator] for a task or an error, [planner] for
    reasoning, an explanation or task progress, [implementer] for the
    implementation types. *)
Theorem recordSayEvent_dispatch event s :
  (ev_partial event = Some true -> recordSayEvent event s = (Ok tt, s))
  /\ (~ In (ev_type event) (intentTypes ++ planTypes ++ implementationTypes) ->
      recordSayEvent event s = (Ok tt, s))
  /\ (ev_partial event <> Some true ->
      let phaseAfter := currentPhase (fst (snd (recordSayEvent event s))) in
      (In (ev_type event) intentTypes -> phaseAfter = Some instantiator)
      /\ (In (ev_type event) planTypes -> phaseAfter = Some planner)
      /\ (In (ev_type event) implementationTypes -> phaseAfter = Some implementer)).
Proof.
  split; [|split].
  - intros Hp. unfold recordSayEvent. rewrite Hp. reflexivity.
  - intros Hn. unfold recordSayEvent. cbv zeta.
    rewrite !(unlisted_type _ _ Hn) by reflexivity.
    rewrite (unlisted_implementation _ Hn).
    cbn [orb]. now destruct (orElse (ev_partial event) false).
  - intros Hp.
    assert (Ep : orElse (ev_partial event) false = false)
      by (destruct (ev_partial event) as [[|]|]; [contradiction|reflexivity|reflexivity]).
    unfold recordSayEvent. rewrite Ep. cbv zeta.
    split; [|split]; intros Hin.
    + destruct Hin as [E|[E|[E|[]]]]; rewrite <- E; say_type;
        first [exact (endsInPhase_recordUserIntent _ _ s)
              |exact (endsInPhase_recordOpenQuestion _ s)].
    + destruct Hin as [E|[E|[E|[]]]]; rewrite <- E; say_type;
        exact (endsInPhase_recordPlanUpdate _ s).
    + destruct Hin as [E|[E|[E|[E|[E|[E|[E|[E|[E|[]]]]]]]]]]; rewrite <- E; say_type;
        exact (endsInPhase_recordImplementationUpdate _ _ s).
Qed.
End SayEvents.

(** ** A plan text of white space *)

Lemma dropWhile_all p s : forallb p s = true -> dropWhile p s = [].
Proof.
  induction s as [|x s IH]; [reflexivity|]. cbn [forallb dropWhile].
  intros H. apply andb_true_iff in H as [-> H]. now apply IH.
Qed.

Lemma trim_blank t : blank t -> trim t = [].
Proof. intros H. unfold trim, trimStart. now rewrite (dropWhile_all _ _ H). Qed.

Lemma splitNL_blank t : blank t -> Forall blank (splitNL t).
Proof.
  unfold blank. induction t as [|x t IH]; [now repeat constructor|].
  cbn [forallb splitNL]. intros H. apply andb_true_iff in H as [Hx H].
  specialize (IH H). destruct (x =? NL)%N; [now constructor|].
  destruct (splitNL t) as [|l ls]; [now repeat constructor; cbn; rewrite Hx|].
  inversion IH as [|? ? Hl Hls]; subst. constructor; [|exact Hls].
  cbn [forallb]. now rewrite Hx.
Qed.

Lemma planLinesOf_blank t : blank t -> planLinesOf t = [].
Proof.
  intros H. unfold planLinesOf. pose proof (splitNL_blank t H) as Hs.
  induction Hs as [|l ls Hl _ IH]; [reflexivity|].
  cbn [List.map List.filter]. now rewrite (trim_blank l Hl).
Qed.

Lemma blank_plan_section X lr :
  startsWith headingPrefix X = true -> NLfree X -> NLfree lr ->
  planItemsFrom 0 (splitNL (X ++ lr ++ [NL] ++ lit "- [ ]" ++ [NL])) = [].
Proof.
  intros HX HXf Hlr.
  change (lit "- [ ]") with (join [NL] [lit "- [ ]"]).
  rewrite app_assoc, splitNL_section_lines.
  - cbn [planItemsFrom app]. destruct (trim_heading_line X lr HX) as [r ->].
    cbn [matchPlanLine]. change HASH with 35%N. cbv iota. reflexivity.
  - now apply NLfree_app.
  - discriminate.
  - repeat constructor; discriminate.
Qed.

Lemma blankContent_sections e1 planText c iT iM iP iI :
  layout c iT iM iP iI ->
  find_sub SECTION_HEADINGS.mechanics e1 = None ->
  find_sub SECTION_HEADINGS.plan e1 = None ->
  find_sub SECTION_HEADINGS.implementation e1 = None ->
  blank planText ->
  let c2 := plannedContent e1 planText c in
  parsePlanItems c2 = []
  /\ parseInvariants c2 = parseInvariants c
  /\ exists iT' iM' iP' iI', layout c2 iT' iM' iP' iI'.
Proof.
  intros Hl HeM HeP HeI Hb.
  assert (Hbody : planTextBody planText = lit "- [ ] ").
  { unfold planTextBody. rewrite (planLinesOf_blank _ Hb), (trim_blank _ Hb). reflexivity. }
  pose proof Hl as (HT & _).
  set (c1 := appendedContent SECTION_HEADINGS.taskClaim e1 c).
  assert (E1 : c1 = rewriteBody (appendBody e1) SECTION_HEADINGS.taskClaim c iT)
    by now apply appendedContent_found.
  destruct (layout_write_taskClaim (appendBody e1) c iT iM iP iI Hl)
    as (iM1 & iP1 & iI1 & Hl1 & HM1 & _);
    try (apply keepsFree_append; auto using nice_mechanics, nice_plan, nice_implementation).
  rewrite <- E1 in Hl1, HM1.
  pose proof Hl1 as (_ & HMc1 & _ & HP1 & HPn1 & HI1 & HIn1 & _ & K2 & K3).
  set (f2 := fun _ : str => trim (lit "- [ ] ")).
  set (c2 := replacedContent SECTION_HEADINGS.plan (planTextBody planText) c1).
  assert (E2 : c2 = rewriteBody f2 SECTION_HEADINGS.plan c1 iP1).
  { unfold c2. rewrite Hbody. now apply replacedContent_found. }
  assert (Hf2 : keepsFree f2 SECTION_HEADINGS.implementation)
    by (apply keepsFree_const; vm_compute; reflexivity).
  destruct (layout_write_plan f2 c1 iT iM1 iP1 iI1 Hl1 Hf2) as (iI2 & Hl2 & HM2).
  rewrite <- E2 in Hl2, HM2.
  destruct (own_section f2 _ c1 iP1 HP1 (proj2 nice_plan) (niceHeading_nonempty _ nice_plan))
    as (lr & body & Hlr & _ & _ & Hown).
  { exists SECTION_HEADINGS.implementation, iI1. auto using nice_implementation. }
  assert (Hmf : markFree (f2 (drop 1 body))) by (vm_compute; reflexivity).
  specialize (Hown Hmf). rewrite <- E2 in Hown.
  change (f2 (drop 1 body)) with (lit "- [ ]") in Hown.
  assert (Hc : plannedContent e1 planText c = c2).
  { unfold plannedContent. fold c1. fold c2. rewrite (planLinesOf_blank _ Hb).
    cbn [List.map]. now destruct (parseInvariants c2). }
  cbv zeta. rewrite Hc. split; [|split].
  - unfold parsePlanItems. rewrite Hown.
    apply blank_plan_section; [exact (proj1 nice_plan)|exact (proj2 nice_plan)|exact Hlr].
  - rewrite (parseInvariants_section c1 c2 HM2). now apply parseInvariants_section.
  - now exists iT, iM1, iP1, iI2.
Qed.

Section BlankPlan.
Context `{host : Host}.

(** A plan update whose text is white space only erases the plan: the
    plan section is left with a bare check box, which is read back as no
    plan item, so nothing is ready for implementation; the invariants are
    left as they were, those of the document as UTF-8 text,
    [toWellFormed c], which is [c] itself for a document that was read from
    storage. *)
Theorem blank_plan_update_erases_plan planText s p c :
  workable s p c -> planText <> [] -> blank planText ->
  exists s' c' st,
    recordPlanUpdate (Some planText) s = (Ok tt, s')
    /\ workable s' p c'
    /\ getDeterminacyState s' = (Ok st, s')
    /\ plan st = []
    /\ invariants st = parseInvariants (toWellFormed c)
    /\ readyForImplementation st = false.
Proof.
  destruct s as [o w]. intros (H & Hp & Hq & Hc & iT & iM & iP & iI & Hl) Hne Hb.
  cbn [fst snd] in *.
  set (e1 := loopEntry planner (lit "Planner produced an update") (stamp w 0)).
  destruct (blankContent_sections e1 planText c iT iM iP iI Hl)
    as (Hplan & Hinv & iT' & iM' & iP' & iI' & Hl'); auto;
    try (apply loopEntry_fresh; [reflexivity|reflexivity|apply hashFree_stamp]).
  set (c3 := plannedContent e1 planText c) in *.
  set (c' := toWellFormed c3).
  assert (Eplan : parsePlanItems c' = [])
    by (unfold c'; now rewrite parsePlanItems_toWellFormed, Hplan).
  exists (set_currentPhase planner o, withFile p c' (tick w)), c'.
  eexists. split; [now apply recordPlanUpdate_run|].
  split.
  { split; [exact H|]. split; [exact Hp|]. split; [exact Hq|].
    split; [apply withFile_lookup|].
    exists iT', iM', iP', iI'. now apply layout_toWellFormed. }
  split; [apply (getDeterminacyState_quiet (set_currentPhase planner o)
                   (withFile p c' (tick w)) p c' H Hp Hq (withFile_lookup p c' (tick w)))|].
  cbn [plan invariants readyForImplementation evaluate]. rewrite Eplan.
  split; [reflexivity|]. split; [|reflexivity].
  unfold c'. now rewrite !parseInvariants_toWellFormed, Hinv.
Qed.
End BlankPlan.

Lemma sampleDocument_utf8 : toWellFormed sampleDocument = sampleDocument.
Proof. vm_compute. reflexivity. Qed.

Lemma blank_plan_update_erases_plan_witness :
  exists s' c' st,
    recordPlanUpdate (host := asciiHost) (Some [SP; NL; SP]) (sampleOrch, sampleWorld)
    = (Ok tt, s')
    /\ workable s' sampleSpecPath c'
    /\ getDeterminacyState (host := asciiHost) s' = (Ok st, s')
    /\ plan st = []
    /\ invariants st = parseInvariants sampleDocument
    /\ readyForImplementation st = false.
Proof.
  destruct (blank_plan_update_erases_plan (host := asciiHost) [SP; NL; SP]
              (sampleOrch, sampleWorld) sampleSpecPath sampleDocument)
    as (s' & c' & st & E1 & E2 & E3 & E4 & E5 & E6).
  - exact sampleWorld_workable.
  - discriminate.
  - reflexivity.
  - exists s', c', st. rewrite sampleDocument_utf8 in E5.
    split; [exact E1|]. split; [exact E2|]. split; [exact E3|].
    split; [exact E4|]. split; [exact E5|exact E6].
Defined.

(** ** Implementation updates *)

Lemma determinacyOf_utf8 invs :
  determinacyOf (List.map utf8Invariant invs) = determinacyOf invs.
Proof.
  unfold determinacyOf. fold (satisfiedCount (List.map utf8Invariant invs)).
  fold (satisfiedCount invs). now rewrite satisfiedCount_utf8, length_map.
Qed.

Lemma parsePlanItems_stored c :
  toWellFormed c = c -> List.map utf8Item (parsePlanItems c) = parsePlanItems c.
Proof. intros E. now rewrite <- parsePlanItems_toWellFormed, E. Qed.

Lemma parseInvariants_stored c :
  toWellFormed c = c -> List.map utf8Invariant (parseInvariants c) = parseInvariants c.
Proof. intros E. now rewrite <- parseInvariants_toWellFormed, E. Qed.

Section ImplementationUpdate.
Context `{host : Host}.

(** An implementation update of any kind and text, even one that holds
    heading lines, is logged in the document, as UTF-8 keeps the entry, and
    leaves the plan, the invariants and the determinacy that are read from
    it as they were: the determinacy as it was, the plan and the invariants
    with their texts as UTF-8 keeps them, which is as they were for a
    document that was read from storage, [toWellFormed c = c]. *)
Theorem implementation_update_keeps_plan kind text s p c :
  workable s p c ->
  exists s' c' st st',
    recordImplementationUpdate kind text s = (Ok tt, s')
    /\ files (snd s') !! p = Some c'
    /\ (exists a b,
          c' = a ++ toWellFormed (updateEntry kind text (stamp (snd s) 1)) ++ NL :: b)
    /\ getDeterminacyState s = (Ok st, s)
    /\ getDeterminacyState s' = (Ok st', s')
    /\ plan st' = List.map utf8Item (plan st)
    /\ invariants st' = List.map utf8Invariant (invariants st)
    /\ determinacy st' = determinacy st
    /\ (toWellFormed c = c -> plan st' = plan st /\ invariants st' = invariants st).
Proof.
  destruct s as [o w]. intros (H & Hp & Hq & Hc & iT & iM & iP & iI & Hl).
  cbn [fst snd] in *.
  set (e1 := phaseEntry (stamp w 0)).
  set (e2 := updateEntry kind text (stamp w 1)).
  apply layout_toWellFormed in Hl.
  destruct (log_entries_frame (toWellFormed e1) (toWellFormed e2) (toWellFormed c)
              iT iM iP iI Hl)
    as (HM & HP & iM' & iP' & iI' & Hl3 & E4);
    try (apply fresh_toWellFormed; [reflexivity|apply phaseEntry_fresh; reflexivity]).
  set (c4 := toWellFormed
               (appendedContent SECTION_HEADINGS.implementation e2
                  (appendedContent SECTION_HEADINGS.taskClaim e1 c))).
  assert (E : c4 = appendedContent SECTION_HEADINGS.implementation (toWellFormed e2)
                     (appendedContent SECTION_HEADINGS.taskClaim (toWellFormed e1)
                        (toWellFormed c))).
  { unfold c4. rewrite (appendedContent_toWellFormed _ _ _ plain_implementation).
    now rewrite (appendedContent_toWellFormed _ _ _ plain_taskClaim). }
  rewrite <- E in HM, HP, E4.
  set (c3 := appendedContent SECTION_HEADINGS.taskClaim (toWellFormed e1) (toWellFormed c))
    in *.
  exists (set_currentPhase implementer o, withFile p c4 (tick (tick w))), c4.
  do 2 eexists.
  split; [exact (recordImplementationUpdate_run kind text o w p c H Hp Hq Hc)|].
  split; [apply withFile_lookup|].
  split.
  { destruct (appended_entry (toWellFormed e2) SECTION_HEADINGS.implementation c3 iI')
      as (a & b & Eab & _).
    - apply Hl3.
    - discriminate.
    - exists a, b. now rewrite E4. }
  split; [exact (getDeterminacyState_quiet o w p c H Hp Hq Hc)|].
  split; [exact (getDeterminacyState_quiet (set_currentPhase implementer o)
                   (withFile p c4 (tick (tick w))) p c4 H Hp Hq
                   (withFile_lookup p c4 (tick (tick w))))|].
  assert (Ei : parseInvariants c4 = List.map utf8Invariant (parseInvariants c)).
  { rewrite <- parseInvariants_toWellFormed. now apply parseInvariants_section. }
  assert (Ep : parsePlanItems c4 = List.map utf8Item (parsePlanItems c)).
  { rewrite <- parsePlanItems_toWellFormed. unfold parsePlanItems. now rewrite HP. }
  cbn [plan invariants determinacy evaluate]. rewrite Ei, Ep.
  split; [reflexivity|]. split; [reflexivity|]. split; [apply determinacyOf_utf8|].
  intros Ec. now rewrite (parsePlanItems_stored c Ec), (parseInvariants_stored c Ec).
Qed.
End ImplementationUpdate.

Lemma implementation_update_keeps_plan_witness :
  exists s' c' st st',
    recordImplementationUpdate (host := asciiHost) (lit "tool")
      (Some (SECTION_HEADINGS.plan ++ [NL] ++ lit "- [x] forged " ++ [55357%N]))
      (sampleOrch, sampleWorld)
    = (Ok tt, s')
    /\ files (snd s') !! sampleSpecPath = Some c'
    /\ (exists a b,
          c' = a ++ lit "- [A3 Implementer:tool] @ " ++ stamp sampleWorld 1 ++ lit ": "
                 ++ SECTION_HEADINGS.plan ++ [NL] ++ lit "- [x] forged " ++ [REPLACEMENT]
                 ++ NL :: b)
    /\ getDeterminacyState (host := asciiHost) (sampleOrch, sampleWorld)
       = (Ok st, (sampleOrch, sampleWorld))
    /\ getDeterminacyState (host := asciiHost) s' = (Ok st', s')
    /\ plan st' = plan st
    /\ invariants st' = invariants st
    /\ determinacy st' = determinacy st.
Proof.
  destruct (implementation_update_keeps_plan (host := asciiHost) (lit "tool")
              (Some (SECTION_HEADINGS.plan ++ [NL] ++ lit "- [x] forged " ++ [55357%N]))
              (sampleOrch, sampleWorld) sampleSpecPath sampleDocument)
    as (s' & c' & st & st' & E1 & E2 & (a & b & E3) & E4 & E5 & _ & _ & E8 & E9).
  - exact sampleWorld_workable.
  - destruct (E9 sampleDocument_utf8) as [E6 E7].
    exists s', c', st, st'. split; [exact E1|]. split; [exact E2|].
    split; [exists a, b; rewrite E3; f_equal; f_equal; vm_compute; reflexivity|].
    split; [exact E4|]. split; [exact E5|]. split; [exact E6|]. split; [exact E7|exact E8].
Defined.
